(* ===== verification/_CoqProject ===== *)
-Q . S2P
Prelude.v
Record.v
Index.v
Files.v
Decimal.v
Segment.v
PartitionLog.v
Recovery.v
Retention.v
LogFacts.v
Codec.v
Frame.v
Requests.v
Responses.v
Typed.v
Server.v
ServerLife.v
Assignor.v
Sizes.v
Group.v
Checkpoint.v
Replication.v
Acks.v
Config.v
Json.v
Topic.v
Metadata.v
Partition.v
Offsets.v
CoordinatorLife.v
Broker.v
Listeners.v
Handlers.v
BrokerInv.v
BrokerOps.v
BrokerRun.v
Restart.v
Stopping.v
EndToEnd.v
Standalone.v
Network.v
Consumer.v
Producer.v
Batcher.v
Delivery.v
GroupConsumer.v
GroupDelivery.v
Follower.v
GroupJoin.v
GroupLife.v
Commands.v
Float.v
Bench.v
