(* ===== verification/Prelude.v ===== *)
(** * mini-kafka: a verification development

    mini-kafka is a message broker in Go with the wire format and the roles of Kafka. This library
    models the program under src/ as Rocq functions and step relations, and proves what its parts
    promise to each other and to the users of the clients.

    ** The program and how its parts interact

    Storage (src/internal/storage). A record has a checksummed binary image (record.go). A segment is a
    log file behind a buffered writer with a sparse index in a memory-mapped file (segment.go, index.go);
    a log is a list of segments that it appends to, rotates, reads, truncates, cleans up, flushes and
    recovers (log.go).
    Protocol (src/internal/protocol): primitives (codec.go), frames with size limits (frame.go), and the
    requests and responses (requests.go, responses.go).
    Server (src/internal/server): the accept loop, a goroutine per connection, and a mux that dispatches
    a frame to a handler.
    Coordinator (src/internal/coordinator): consumer groups (group.go), partition assignment
    (assignor.go) and committed offsets in logs of their own (offsets.go).
    Replication (src/internal/replication): in-sync replicas and high watermarks (isr.go), leader epochs
    (epoch.go), produce requests that wait for replicas (replication.go).
    Broker (src/internal/broker): topics and partitions with a writer goroutine each, metadata in a JSON
    file, the handlers of all requests, and the fetch loop of followers. It puts the others together.
    Clients (src/pkg/client): producer with a batcher, consumer, group consumer. They talk to the broker
    over TCP only.
    Commands (src/cmd, src/benchmark): the broker process, a producer and a consumer for the command line,
    and a benchmark.

    ** How the code is modelled

    Go integers are [Z], with [wrapU] and [wrapS] where the code can overflow or converts; [inU] and [inS]
    say that a value has its type. A byte slice is [bytes], with [option] where nil matters. Functions that
    return an error return a [result]; methods that change their receiver or read a stream are in the monad
    [M S A] or pass the state. A map is a [gmap]; where the code ranges over one, the order is an argument
    of the definition, and the theorems hold for every order. Clocks, random bytes and file modification times
    are arguments too ([Env] in Broker.v). Goroutines that share state are the steps of a relation or the
    events of a run, a step being what happens under one lock, at one channel operation or in one round
    trip. Interfaces are type classes: [Writer]/[WriterOk] (below) and [Wire]/[WireOk] (Codec.v) for what
    messages need of a stream, [Network], [ServedBy] and [Serves] (Network.v) for what the clients need of the
    network and what a network with a server behind it promises; [Served] implements it with the connection
    loop of the server. Third-party code is a parameter: the YAML parser is an argument of [Load].

    ** The files

    Prelude: this header, integers, results and the monad, tactics, lemmas on lists. Decimal, Float: decimal
    numbers and float64 (IEEE binary64 over [SpecFloat]) with the conversions the code uses.
    - Record: [Encode], [DecodeRecord], CRC32 (record.go). A decoded encoding is the record; a torn
      encoding is an error; a changed byte is detected, by the linearity of the checksum.
    - Index, Files: the index with its mapping and [Lookup] (index.go), which equals a linear search; files,
      buffered writers and directories.
    - Segment, PartitionLog, Recovery, Retention, LogFacts: segment.go and log.go. The invariant [log_view]
      says which records a log holds. Appends store records at consecutive offsets across rotations
      ([AppendBatch_correct]); reads return them; opening what a crash left gives the whole records that reached
      the disk ([crash_recovery]); retention removes only what the policy allows.
    - Codec, Frame, Requests, Responses, Sizes: codec.go, frame.go, requests.go, responses.go. Every message
      decodes to itself and a cut one is an error; oversized frames are refused. Typed: whatever bytes arrive, a
      decoded message has fields of their Go types.
    - Server: the connection loop and the mux; pipelined requests are answered in order. ServerLife: [Start],
      the connections and [Shutdown] interleaved; the connection limit, draining, and that shutdown ends.
    - Assignor, Group, Checkpoint, Replication, Acks: assignor.go, group.go, and src/internal/replication with
      [waitForAcksAll] of broker_replication.go. Assignments are exact; the coordinator keeps its invariant in
      every reachable state and fences old generations; the high watermark is below the log end of every
      in-sync replica; a producer that waits for all replicas misses no wake-up.
    - Config, Json, Topic, Metadata, Partition, Offsets: configuration, topic names and directories, the metadata
      file, the writer goroutine of a partition, the offset store. Metadata and offsets survive restarts; a
      partition serves appends in the order they were sent. CoordinatorLife: the session goroutine and [Close] of
      the coordinator; commits that reached the store stay.
    - Broker, Listeners, Handlers: the state of a broker, [New] and [Broker_Shutdown], the listeners of long polls
      with their shared slices, and every handler of broker.go and broker_replication.go.
    - BrokerInv, BrokerOps, BrokerRun, Restart, Stopping: the invariant [broker_inv], that every operation keeps it, the
      relation [broker_step] of everything handlers do, and what holds over whole runs: [broker_runs_safely],
      [broker_restart]; and the window in which a stopping broker loses commits.
    - Network, Consumer, Producer, Batcher, GroupConsumer: the clients. EndToEnd, Standalone, Delivery, GroupDelivery,
      GroupJoin, Follower: clients and broker together, through the network, the frames, the mux and the
      handlers. What a producer is told is stored is stored ([acknowledged_is_stored]); what is sent is fetched
      ([sent_then_fetched]); polls deliver, commits resume, the first member of a group gets all partitions, a
      follower becomes a copy of its leader. Batcher: every [Send] is answered once in every interleaving of
      callers, timers and [Close]. GroupLife: the goroutines of a group consumer and its [Close].
    - Commands: the three programs; sessions of the broker process keep the files ([broker_sessions]), and lines
      typed into the producer come out of the consumer ([cli_lines_arrive]). Bench: the benchmark.

    A few theorems show what the code does wrong, each with a concrete instance: [watermark_before_copy],
    [stale_commit_rewinds], [commit_lost_in_shutdown], [rejoin_after_close], [notification_missed],
    [Log_ReadFrom_skips_record], [reopened_ReadFrom_stops], [append_after_exit_hangs], [shutdown_misses_listener].

    ** Fuel and bounds

    Loops that are not structural take a fuel that their callers compute from the data, and lemmas show it is
    enough: the bytes of a file or stream for readers of records and requests (each turn consumes a byte), the
    number of segments, of index entries or of digits. [handleConn] has the theorem [handleConn_terminates], the
    binary search of [Lookup] halves its range. Loops that end by an event from outside (tickers, polls, accept
    loops) are runs of any length. Theorems about clients bound message sizes by the frame limits of
    the protocol, log offsets by int64, and the percentiles of the benchmark by 2^31 measurements.

    ** Not modelled

    System calls are taken to succeed, except removals of segments and writes of the metadata file; a
    crash leaves any prefix of the active log file. The mapping of the index is the content of its file
    (index_unix.go, index_windows.go). Deadlines of connections and of contexts are events that may come
    at any time. The YAML and flag parsers, logging, and the progress output, JSON file and start-up of
    the benchmark are left out. Steps are atomic at the granularity above, so the data races that finer
    interleavings of unlocked accesses would show are outside the model, except where a file says
    otherwise (Listeners). *)
From Stdlib Require Import ZArith Lia Strings.Byte.
From stdpp Require Import base list strings gmap sorting.
Open Scope Z_scope.
#[export] Set Default Goal Selector "!".

(** ** Machine integers *)

(** Go conversions to a [w]-bit unsigned or signed integer type. *)
Definition wrapU (w x : Z) : Z := x mod 2 ^ w.
Definition wrapS (w x : Z) : Z := (x + 2 ^ (w - 1)) mod 2 ^ w - 2 ^ (w - 1).

Abbreviation uint32 := (wrapU 32).
Abbreviation uint64 := (wrapU 64).
Abbreviation int8 := (wrapS 8).
Abbreviation int16 := (wrapS 16).
Abbreviation int32 := (wrapS 32).
Abbreviation int64 := (wrapS 64).

(** The values a [w]-bit type can hold. *)
Definition inU (w x : Z) : Prop := 0 ≤ x < 2 ^ w.
Definition inS (w x : Z) : Prop := - 2 ^ (w - 1) ≤ x < 2 ^ (w - 1).
#[global] Instance inU_dec w x : Decision (inU w x).
Proof. unfold inU. apply _. Defined.
#[global] Instance inS_dec w x : Decision (inS w x).
Proof. unfold inS. apply _. Defined.

Definition MaxInt16 : Z := 2 ^ 15 - 1.
Definition MaxInt32 : Z := 2 ^ 31 - 1.
Definition MaxUint32 : Z := 2 ^ 32 - 1.

(** Replaces the powers of two that occur in width computations by literals, so
    that [lia] sees linear arithmetic. *)
Ltac widths :=
  unfold inU, inS, wrapU, wrapS, MaxInt16, MaxInt32, MaxUint32 in *;
  repeat match goal with
  | |- context [2 ^ ?k] => let v := eval vm_compute in (2 ^ k) in change (2 ^ k) with v
  | H : context [2 ^ ?k] |- _ => let v := eval vm_compute in (2 ^ k) in change (2 ^ k) with v in H
  end.
Ltac width_lia := widths; lia.

Lemma pow_half w : 0 < w → 2 ^ w = 2 * 2 ^ (w - 1).
Proof. intros. rewrite <- Z.pow_succ_r by lia. f_equal. lia. Qed.

Lemma wrapU_small w x : inU w x → wrapU w x = x.
Proof. unfold inU, wrapU. intros. by apply Z.mod_small. Qed.

Lemma wrapS_small w x : 0 < w → inS w x → wrapS w x = x.
Proof.
  unfold inS, wrapS. intros Hw H. pose proof (pow_half w Hw).
  rewrite Z.mod_small; lia.
Qed.

Lemma wrapU_range w x : 0 ≤ w → inU w (wrapU w x).
Proof. unfold inU, wrapU. intros. apply Z.mod_pos_bound. lia. Qed.

Lemma wrapS_range w x : 0 < w → inS w (wrapS w x).
Proof.
  unfold inS, wrapS. intros Hw. pose proof (pow_half w Hw).
  pose proof (Z.mod_pos_bound (x + 2 ^ (w - 1)) (2 ^ w)). lia.
Qed.

(** Reading the unsigned image of a signed value back as signed. *)
Lemma wrapS_wrapU w x : 0 < w → inS w x → wrapS w (wrapU w x) = x.
Proof.
  intros Hw H. rewrite <- (wrapS_small w x Hw H) at 2. unfold wrapS, wrapU.
  by rewrite Zplus_mod_idemp_l.
Qed.

(** Repeated wrapping of a sum. *)
Lemma wrapS_add w x y : wrapS w (wrapS w x + y) = wrapS w (x + y).
Proof.
  unfold wrapS. rewrite <- Z.add_assoc. replace ((x + 2 ^ (w - 1)) mod 2 ^ w - 2 ^ (w - 1) + (y + 2 ^ (w - 1))) with ((x + 2 ^ (w - 1)) mod 2 ^ w + y) by lia.
  rewrite Zplus_mod_idemp_l. do 2 f_equal. lia.
Qed.

(** ** Errors *)

(** The sentinel error values of the packages, anonymous errors (the message
    without its formatted arguments) and wrapped errors ([%w]). *)
Inductive error :=
  | EOF | ErrUnexpectedEOF
  | ErrCorruptRecord | ErrRecordTooLarge
  | ErrIndexFull | ErrSegmentClosed | ErrOffsetOutOfRange
  | ErrLogClosed | ErrEmptyBatch
  | ErrFrameTooLarge | ErrFrameSizeMismatch
  | ErrInvalidTopicName | errProduceTimeout
  | errorString (msg : string)
  | wrapError (msg : string) (e : error).

#[global] Instance error_eq_dec : EqDecision error.
Proof. solve_decision. Defined.

(** [errors.Is]: equality along the chain of wrapped errors. *)
Fixpoint errors_Is (e target : error) : bool :=
  bool_decide (e = target) ||
  match e with wrapError _ e' => errors_Is e' target | _ => false end.

Inductive result (A : Type) :=
  | Ok (a : A)
  | Err (e : error).
Arguments Ok {A} a.
Arguments Err {A} e.

#[global] Instance result_eq_dec `{EqDecision A} : EqDecision (result A).
Proof. solve_decision. Defined.

Definition is_Ok {A} (r : result A) : bool :=
  match r with Ok _ => true | Err _ => false end.

(** ** State and error passing *)

(** Code that reads or writes a stream (or a component's state) of type [S],
    and either returns a value or an error. The state survives an error. *)
Definition M (S A : Type) : Type := S → result A * S.

#[global] Instance M_ret {S} : MRet (M S) := λ A a s, (Ok a, s).
#[global] Instance M_bind {S} : MBind (M S) := λ A B f m s,
  match m s with
  | (Ok a, s') => f a s'
  | (Err e, s') => (Err e, s')
  end.
Definition raise {S A} (e : error) : M S A := λ s, (Err e, s).
#[global] Instance M_fmap {S} : FMap (M S) := λ A B f m s,
  match m s with
  | (Ok a, s') => (Ok (f a), s')
  | (Err e, s') => (Err e, s')
  end.

(** [for _, x := range l { body }] *)
Fixpoint for_each {S A} (l : list A) (body : A → M S unit) : M S unit :=
  match l with
  | [] => mret ()
  | x :: l' => body x ;; for_each l' body
  end.

(** [for i, x := range l { out[i] = body }] where the body works on a state and no
    error leaves the loop. *)
Fixpoint imap_state {S A B} (f : nat → A → S → B * S) (i : nat) (l : list A) (s : S) : list B * S :=
  match l with
  | [] => ([], s)
  | x :: l' =>
      let '(y, s) := f i x s in
      let '(ys, s) := imap_state f (Datatypes.S i) l' s in
      (y :: ys, s)
  end.
Abbreviation map_state f := (imap_state (λ _, f)).

(** An invariant of the body is one of the loop, and what the body establishes of its
    result holds of every result. *)
Lemma imap_state_inv {S A B} (f : nat → A → S → B * S) (P : S → Prop) (R : A → B → Prop) l : ∀ i s,
  P s → (∀ j x s, x ∈ l → P s → P (f j x s).2 ∧ R x (f j x s).1) →
  P (imap_state f i l s).2 ∧ Forall2 R l (imap_state f i l s).1.
Proof.
  induction l as [|x l IH]; intros i s Hs Hf; cbn [imap_state]; [by split|].
  pose proof (Hf i x s ltac:(left) Hs) as [H1 H2]. destruct (f i x s) as [y s1]. cbn in H1, H2.
  destruct (IH (Datatypes.S i) s1 H1) as [H3 H4]; [intros j z t Hz; apply Hf; by right|].
  destruct (imap_state f (Datatypes.S i) l s1) as [ys s2]. cbn in *. split; [done|]. by constructor.
Qed.

(** [for i := 0; i < n; i++ { out[i] = body }] *)
Fixpoint repeat_n {S A} (n : nat) (body : M S A) : M S (list A) :=
  match n with
  | O => mret []
  | S n' => x ← body; l ← repeat_n n' body; mret (x :: l)
  end.

(** ** Bytes *)

Abbreviation bytes := (list byte).

(** [len] of a slice, as a Go [int]. *)
Abbreviation zlen l := (Z.of_nat (length l)).

Definition Z_of_byte (b : byte) : Z := Z.of_N (Byte.to_N b).
Definition byte_of_Z (z : Z) : byte :=
  match Byte.of_N (Z.to_N (z mod 256)) with Some b => b | None => x00 end.

#[global] Instance byte_eq_dec : EqDecision byte := byte_eq_dec.

Lemma Z_of_byte_range b : 0 ≤ Z_of_byte b < 256.
Proof. unfold Z_of_byte. pose proof (to_N_bounded b). lia. Qed.

Lemma byte_of_Z_of_byte b : byte_of_Z (Z_of_byte b) = b.
Proof.
  unfold byte_of_Z. rewrite Z.mod_small by apply Z_of_byte_range.
  unfold Z_of_byte. by rewrite N2Z.id, of_to_N.
Qed.

Lemma Z_of_byte_of_Z z : Z_of_byte (byte_of_Z z) = z mod 256.
Proof.
  unfold byte_of_Z, Z_of_byte. pose proof (Z.mod_pos_bound z 256 ltac:(lia)).
  destruct (of_N (Z.to_N (z mod 256))) as [b|] eqn:E.
  - apply to_of_N in E. rewrite E. lia.
  - apply of_N_None_iff in E. lia.
Qed.

(** [binary.BigEndian.PutUint16/32/64]: the [n] low-order bytes of [v], most
    significant first. *)
Fixpoint be_encode (n : nat) (v : Z) : bytes :=
  match n with
  | O => []
  | S n' => be_encode n' (v / 256) ++ [byte_of_Z v]
  end.

(** [binary.BigEndian.Uint16/32/64]. *)
Definition be_decode (bs : bytes) : Z :=
  fold_left (λ acc b, acc * 256 + Z_of_byte b) bs 0.

Lemma length_be_encode n v : length (be_encode n v) = n.
Proof.
  revert v. induction n as [|n IH]; intros; simpl; [done|].
  rewrite length_app, IH. simpl. lia.
Qed.

Lemma be_decode_snoc bs b : be_decode (bs ++ [b]) = be_decode bs * 256 + Z_of_byte b.
Proof. unfold be_decode. by rewrite fold_left_app. Qed.

Lemma be_decode_range bs : 0 ≤ be_decode bs < 256 ^ zlen bs.
Proof.
  induction bs as [|b bs IH] using rev_ind; [done|].
  rewrite be_decode_snoc, length_app. simpl. pose proof (Z_of_byte_range b).
  rewrite Nat2Z.inj_add, Z.pow_add_r by lia. simpl. lia.
Qed.

Lemma be_decode_encode n v : be_decode (be_encode n v) = v mod 256 ^ Z.of_nat n.
Proof.
  revert v. induction n as [|n IH]; intros; simpl be_encode.
  - simpl. by rewrite Z.mod_1_r.
  - rewrite be_decode_snoc, IH, Z_of_byte_of_Z.
    rewrite Nat2Z.inj_succ, Z.pow_succ_r by lia.
    rewrite (Z.rem_mul_r v 256 (256 ^ Z.of_nat n)) by lia. lia.
Qed.

Lemma be_encode_decode bs : be_encode (length bs) (be_decode bs) = bs.
Proof.
  induction bs as [|b bs IH] using rev_ind; [done|].
  rewrite length_app, Nat.add_1_r. simpl. rewrite be_decode_snoc.
  pose proof (Z_of_byte_range b).
  rewrite Z.div_add_l, (Z.div_small (Z_of_byte b)), Z.add_0_r, IH by lia.
  f_equal. f_equal. rewrite <- (byte_of_Z_of_byte b) at 2.
  unfold byte_of_Z at 1 2. by rewrite Z.add_comm, Z.mod_add by lia.
Qed.

(** The unsigned and signed reads of a fixed-width field. *)
Definition be_signed (bs : bytes) : Z := wrapS (8 * zlen bs) (be_decode bs).

Lemma be_decode_encode_U (n : nat) v :
  inU (8 * Z.of_nat n) v → be_decode (be_encode n v) = v.
Proof.
  unfold inU. intros. rewrite be_decode_encode. change 256 with (2 ^ 8).
  rewrite <- Z.pow_mul_r by lia. by apply Z.mod_small.
Qed.

Lemma be_signed_encode (n : nat) v :
  (0 < n)%nat → inS (8 * Z.of_nat n) v → be_signed (be_encode n v) = v.
Proof.
  intros Hn H. unfold be_signed. rewrite length_be_encode, be_decode_encode.
  change 256 with (2 ^ 8). rewrite <- Z.pow_mul_r by lia.
  apply wrapS_wrapU; [lia|done].
Qed.

(** Only the value modulo the width matters. *)
Lemma be_signed_encode_wrap (n : nat) v :
  (0 < n)%nat → inS (8 * Z.of_nat n) v → be_signed (be_encode n (wrapU (8 * Z.of_nat n) v)) = v.
Proof.
  intros Hn H. unfold be_signed. rewrite length_be_encode, be_decode_encode.
  change 256 with (2 ^ 8). rewrite <- Z.pow_mul_r by lia. unfold wrapU.
  rewrite Zmod_mod. apply wrapS_wrapU; [lia|done].
Qed.

Lemma be_signed_range bs : bs ≠ [] → inS (8 * zlen bs) (be_signed bs).
Proof. intros. apply wrapS_range. destruct bs; simpl in *; [done|lia]. Qed.

Lemma be_encode_1 v : be_encode 1 v = [byte_of_Z v].
Proof. done. Qed.

#[global] Opaque be_encode be_decode be_signed.

(** ** Streams *)

(** [io.ReadFull] into a fresh buffer of [n] bytes, on a stream that delivers the
    bytes of the state and then [io.EOF]. *)
Definition ReadFull (n : Z) : M bytes bytes := λ s,
  if n <=? 0 then (Ok [], s)
  else match s with
  | [] => (Err EOF, [])
  | _ => if zlen s <? n then (Err ErrUnexpectedEOF, [])
         else (Ok (take (Z.to_nat n) s), drop (Z.to_nat n) s)
  end.

Lemma ReadFull_app (bs rest : bytes) : ReadFull (zlen bs) (bs ++ rest) = (Ok bs, rest).
Proof.
  unfold ReadFull. destruct bs as [|b bs]; [done|].
  destruct (Z.leb_spec (zlen (b :: bs)) 0); [simpl in *; lia|].
  change ((b :: bs) ++ rest) with (b :: (bs ++ rest)) at 1.
  cbn match. destruct (Z.ltb_spec (zlen ((b :: bs) ++ rest)) (zlen (b :: bs))) as [Hl|Hl].
  - rewrite length_app in Hl. lia.
  - by rewrite Nat2Z.id, take_app_length, drop_app_length.
Qed.

Lemma ReadFull_eq (n : Z) (bs rest : bytes) :
  n = zlen bs → ReadFull n (bs ++ rest) = (Ok bs, rest).
Proof. intros ->. apply ReadFull_app. Qed.

Lemma ReadFull_Ok n s bs s' : 0 ≤ n → ReadFull n s = (Ok bs, s') → s = bs ++ s' ∧ zlen bs = n.
Proof.
  unfold ReadFull. intros Hn.
  destruct (Z.leb_spec n 0); [intros [= <- <-]; simpl; split; [done|lia]|].
  destruct s as [|b s]; [done|]. remember (b :: s) as s0.
  destruct (Z.ltb_spec (zlen s0) n); [done|].
  intros [= <- <-]. by rewrite take_drop, length_take_le by lia; split; [|lia].
Qed.

(** A stream cut short gives an end-of-file error. *)
Lemma ReadFull_short n s : 0 < n → zlen s < n →
  ∃ e, ReadFull n s = (Err e, []) ∧ (e = EOF ∨ e = ErrUnexpectedEOF).
Proof.
  unfold ReadFull. intros. destruct (Z.leb_spec n 0); [lia|].
  destruct s as [|b s]; [eauto|]. remember (b :: s) as s0.
  destruct (Z.ltb_spec (zlen s0) n); [eauto|lia].
Qed.

(** [io.Writer]. *)
Class Writer (W : Type) := Write : bytes → M W Z.

(** What every writer of the program promises its clients: a write of [p] from a
    good state succeeds, reports [len(p)] and adds [p] to what was written. *)
Class WriterOk (W : Type) `{Writer W} := {
  writer_inv : W → Prop;
  written : W → bytes;
  write_ok (p : bytes) (w : W) : writer_inv w →
    ∃ w', Write p w = (Ok (zlen p), w') ∧ writer_inv w' ∧ written w' = written w ++ p
}.

(** [bytes.Buffer]. *)
#[global] Instance Buffer_Writer : Writer bytes := λ p w, (Ok (zlen p), w ++ p).
#[global, program] Instance Buffer_WriterOk : WriterOk bytes := {
  writer_inv _ := True; written w := w
}.
Next Obligation. intros p w _. by exists (w ++ p). Qed.

(** Round trips. [put] writes some bytes from which [get] reads [v], whatever
    follows them. *)
Definition roundtrip {W} `{WriterOk W} {A B} (put : M W A) (get : M bytes B) (v : B) : Prop :=
  ∀ w, writer_inv w → ∃ n w' bs,
    put w = (Ok n, w') ∧ writer_inv w' ∧ written w' = written w ++ bs ∧
    ∀ rest, get (bs ++ rest) = (Ok v, rest).

Section roundtrip.
Context {W : Type} `{WriterOk W}.

Lemma roundtrip_ret {A B} (a : A) (v : B) : roundtrip (W:=W) (mret a) (mret v) v.
Proof. intros w Hw. exists a, w, []. by rewrite app_nil_r. Qed.

Lemma roundtrip_bind {A A' B B'} (put : M W A) (put' : A → M W A')
    (get : M bytes B) (get' : B → M bytes B') v v' :
  roundtrip put get v → (∀ a, roundtrip (put' a) (get' v) v') →
  roundtrip (put ≫= put') (get ≫= get') v'.
Proof.
  intros H1 H2 w Hw. destruct (H1 w Hw) as (n & w1 & b1 & E1 & Hw1 & W1 & G1).
  destruct (H2 n w1 Hw1) as (n' & w2 & b2 & E2 & Hw2 & W2 & G2).
  exists n', w2, (b1 ++ b2). unfold mbind, M_bind. rewrite E1, E2, W2, W1.
  repeat split; [done|by rewrite app_assoc|].
  intros rest. by rewrite <- app_assoc, G1.
Qed.

(** The reader may do pure work after the last field. *)
Lemma roundtrip_last {A B B'} (put : M W A) (get : M bytes B) (f : B → B') v v' :
  roundtrip put get v → v' = f v → roundtrip put (x ← get; mret (f x)) v'.
Proof.
  intros H1 -> w Hw. destruct (H1 w Hw) as (n & w1 & b1 & E1 & Hw1 & W1 & G1).
  exists n, w1, b1. repeat split; [done..|]. intros rest.
  unfold mbind, M_bind. by rewrite G1.
Qed.

Lemma roundtrip_list {A B} (l : list A) (put : A → M W unit) (get : M bytes B) (f : A → B) :
  (∀ x, x ∈ l → roundtrip (put x) get (f x)) →
  roundtrip (for_each l put) (repeat_n (length l) get) (f <$> l).
Proof.
  induction l as [|x l IH]; intros Hl; simpl; [apply roundtrip_ret|].
  eapply roundtrip_bind; [apply Hl; left|intros _].
  eapply roundtrip_last; [apply IH; intros; apply Hl; by right|done].
Qed.
End roundtrip.

(** ** Clock arithmetic ([time]) *)

(** Times are nanoseconds since the zero [time.Time]. *)
Definition Millisecond : Z := 1000000.

(** [t.Sub(u)] saturates. *)
Definition time_Sub (t u : Z) : Z := Z.max (- 2 ^ 63) (Z.min (2 ^ 63 - 1) (t - u)).

(** [time.Duration(ms) * time.Millisecond]. *)
Definition DurationMs (ms : Z) : Z := int64 (ms * Millisecond).

(** ** Standard-library searching and sorting *)

(** [sort.Search]; the loop halves [j - i] each turn, so [n] turns are enough. *)
Fixpoint search_loop (fuel : nat) (f : nat → bool) (i j : nat) : nat :=
  match fuel with
  | O => i
  | S fuel' =>
      if (i <? j)%nat then
        let h := Nat.div2 (i + j) in
        if f h then search_loop fuel' f i h else search_loop fuel' f (S h) j
      else i
  end.
Definition sort_Search (n : nat) (f : nat → bool) : nat := search_loop n f 0 n.

Lemma search_loop_spec fuel (f : nat → bool) n i j :
  (∀ a b, (a ≤ b)%nat → (b < n)%nat → f a = true → f b = true) →
  (i ≤ j ≤ n)%nat → (j - i ≤ fuel)%nat →
  (∀ a, (a < i)%nat → f a = false) → ((j < n)%nat → f j = true) →
  let r := search_loop fuel f i j in
  (r ≤ n)%nat ∧ (∀ a, (a < r)%nat → f a = false) ∧ ((r < n)%nat → f r = true).
Proof.
  intros Hmono. revert i j. induction fuel as [|fuel IH]; intros i j Hij Hf Hlo Hhi; simpl.
  - replace i with j in * by lia. repeat split; [lia|done..].
  - destruct (Nat.ltb_spec i j); [|replace i with j in * by lia; repeat split; [lia|done..]].
    pose proof (Nat.div2_odd (i + j)) as Hd.
    assert (i ≤ Nat.div2 (i + j) < j)%nat by (destruct (Nat.odd (i + j)); simpl in Hd; lia).
    destruct (f (Nat.div2 (i + j))) eqn:E; apply IH; try done; try lia.
    intros a Ha. destruct (f a) eqn:Ea; [|done].
    rewrite (Hmono a (Nat.div2 (i + j))) in E; [done|lia..|done].
Qed.

(** On a monotone predicate [sort.Search] finds the least index where it holds. *)
Lemma sort_Search_spec n (f : nat → bool) :
  (∀ a b, (a ≤ b)%nat → (b < n)%nat → f a = true → f b = true) →
  (sort_Search n f ≤ n)%nat ∧ (∀ a, (a < sort_Search n f)%nat → f a = false) ∧
  ((sort_Search n f < n)%nat → f (sort_Search n f) = true).
Proof. intros. apply search_loop_spec; [done|lia..]. Qed.

(** [sort.Strings]: the sorted permutation, in byte order. *)
Definition sort_Strings : list string → list string := merge_sort String.le.

(** ** Automation *)

Create HintDb go.
Create Rewrite HintDb len.
#[export] Hint Resolve Z_of_byte_range be_decode_range : go.
#[export] Hint Rewrite length_be_encode @length_app @length_replicate @length_take @length_drop
  @length_fmap Nat2Z.inj_add Nat2Z.inj_succ : len.

(** Computes lengths, then arithmetic. *)
Ltac len := autorewrite with len in *; cbn [length app] in *; autorewrite with len in *; lia.

(** Splits the innermost test of a [match] or [if] and cleans up. *)
Ltac split_ifs :=
  repeat match goal with
  | |- context [Z.leb ?a ?b] => destruct (Z.leb_spec a b)
  | |- context [Z.ltb ?a ?b] => destruct (Z.ltb_spec a b)
  | |- context [Z.eqb ?a ?b] => destruct (Z.eqb_spec a b)
  | |- context [bool_decide ?P] => destruct (bool_decide_reflect P)
  end; simpl in *; try lia; try done.

(** ** Bitwise bounds *)

Lemma inU_iff_land w x : 0 ≤ w → inU w x ↔ Z.land x (Z.ones w) = x.
Proof.
  intros. rewrite Z.land_ones by done. unfold inU. split.
  - intros. by apply Z.mod_small.
  - intros <-. apply Z.mod_pos_bound. lia.
Qed.

Lemma inU_lxor w a b : 0 ≤ w → inU w a → inU w b → inU w (Z.lxor a b).
Proof.
  intros Hw. rewrite !inU_iff_land by done. intros Ha Hb.
  rewrite <- Ha, <- Hb at 2. apply Z.bits_inj'. intros n Hn.
  rewrite !Z.land_spec, !Z.lxor_spec, !Z.land_spec.
  by destruct (Z.testbit a n), (Z.testbit b n), (Z.testbit (Z.ones w) n).
Qed.

Lemma inU_shiftr w a k : 0 ≤ k → inU w a → inU w (Z.shiftr a k).
Proof.
  unfold inU. intros Hk Ha. rewrite Z.shiftr_div_pow2 by done. split.
  - apply Z.div_pos; lia.
  - apply Z.le_lt_trans with a; [|lia]. apply Z.div_le_upper_bound; [lia|].
    assert (0 < 2 ^ k) by lia. nia.
Qed.

Lemma Zlxor_cancel_r a b c : Z.lxor a c = Z.lxor b c → a = b.
Proof.
  intros E. apply (f_equal (λ x, Z.lxor x c)) in E.
  by rewrite !Z.lxor_assoc, Z.lxor_nilpotent, !Z.lxor_0_r in E.
Qed.

Lemma Zlxor_cancel_l a b c : Z.lxor c a = Z.lxor c b → a = b.
Proof. rewrite !(Z.lxor_comm c). apply Zlxor_cancel_r. Qed.

(** A decidable property of the first [n] numbers, checked by computation. *)
Lemma forall_below (n : nat) (P : Z → bool) :
  forallb P (Z.of_nat <$> seq 0 n) = true → ∀ x, 0 ≤ x < Z.of_nat n → P x = true.
Proof.
  intros H x Hx. rewrite forallb_forall in H. apply H.
  apply list_elem_of_In, list_elem_of_fmap. exists (Z.to_nat x).
  rewrite Z2Nat.id by lia. split; [done|]. apply elem_of_seq. lia.
Qed.

(** Decides a comparison that the context settles; [spec] is a [Z.ltb_spec] or
    the like. *)
Tactic Notation "case_bool" constr(spec) := destruct spec; try lia; [].

(** The same for the first comparison of the goal. *)
Ltac case_test := match goal with
  | |- context [?a <? ?b] => case_bool (Z.ltb_spec a b)
  | |- context [?a <=? ?b] => case_bool (Z.leb_spec a b)
  | |- context [?a =? ?b] => case_bool (Z.eqb_spec a b)
  end.

(** ** Files *)

(** [(f *os.File).Truncate(n)]: shrink, or grow with zeros. *)
Definition file_truncate (n : Z) (d : bytes) : bytes :=
  take (Z.to_nat n) d ++ replicate (Z.to_nat n - length d) x00.

(** A write of [p] at position [off], growing the file as needed. *)
Definition file_write_at (off : Z) (p d : bytes) : bytes :=
  file_truncate off d ++ p ++ drop (Z.to_nat off + length p) d.

(** [b[off : off+n]]. *)
Definition slice (b : bytes) (off n : Z) : bytes :=
  take (Z.to_nat n) (drop (Z.to_nat off) b).

Lemma slice_app (pre x post : bytes) off n :
  off = zlen pre → n = zlen x → slice (pre ++ x ++ post) off n = x.
Proof.
  intros -> ->. unfold slice. by rewrite !Nat2Z.id, drop_app_length, take_app_length.
Qed.

Lemma length_file_truncate n d : length (file_truncate n d) = Z.to_nat n.
Proof. unfold file_truncate. len. Qed.

Lemma file_truncate_id d : file_truncate (zlen d) d = d.
Proof.
  unfold file_truncate. rewrite Nat2Z.id, take_ge, Nat.sub_diag by lia. apply app_nil_r.
Qed.

Lemma file_truncate_app n (a b : bytes) : n = zlen a → file_truncate n (a ++ b) = a.
Proof.
  intros ->. unfold file_truncate. rewrite Nat2Z.id, take_app_length, length_app.
  replace (length a - (length a + length b))%nat with 0%nat by lia. apply app_nil_r.
Qed.

(** Writing at the end of a file appends. *)
Lemma file_write_at_end p d : file_write_at (zlen d) p d = d ++ p.
Proof.
  unfold file_write_at. rewrite file_truncate_id, Nat2Z.id, drop_ge by lia. by rewrite app_nil_r.
Qed.

(** Overwriting in place. *)
Lemma file_write_at_mid (a old b p : bytes) :
  length p = length old → file_write_at (zlen a) p (a ++ old ++ b) = a ++ p ++ b.
Proof.
  intros H. unfold file_write_at. rewrite file_truncate_app by done. f_equal. f_equal.
  rewrite Nat2Z.id, H, app_assoc, drop_app_length'; [done|]. by rewrite length_app.
Qed.
#[export] Hint Rewrite length_file_truncate : len.

(** ** Lists *)

(** Filtering a list whose first [m] elements are those that satisfy [P]. *)
Lemma filter_take {A} (P : A → Prop) `{∀ x, Decision (P x)} (l : list A) m :
  (∀ j x, l !! j = Some x → (j < m)%nat ↔ P x) → filter P l = take m l.
Proof.
  revert m. induction l as [|x l IH]; intros m Hl; [by destruct m|].
  pose proof (Hl 0%nat x eq_refl) as H0. destruct m as [|m]; simpl.
  - rewrite filter_cons_False by (rewrite <- H0; lia).
    rewrite (IH 0%nat); [by destruct l|]. intros j y Hj. rewrite <- (Hl (S j) y Hj). lia.
  - rewrite filter_cons_True by (rewrite <- H0; lia). f_equal.
    apply IH. intros j y Hj. rewrite <- (Hl (S j) y Hj). lia.
Qed.

Lemma StronglySorted_lookup {A} (R : A → A → Prop) l i j x y :
  StronglySorted R l → l !! i = Some x → l !! j = Some y → (i < j)%nat → R x y.
Proof.
  intros Hs Hi Hj Hij. rewrite <- (take_drop (S i) l) in Hs.
  eapply StronglySorted_app_1_elem_of; [done| |].
  - apply list_elem_of_lookup. exists i. rewrite lookup_take_lt by lia. done.
  - apply list_elem_of_lookup. exists (j - S i)%nat. rewrite lookup_drop.
    by replace (S i + (j - S i))%nat with j by lia.
Qed.

Lemma StronglySorted_snoc {A} (R : A → A → Prop) l x :
  StronglySorted R l → Forall (λ y, R y x) l → StronglySorted R (l ++ [x]).
Proof.
  intros Hs Hf. apply StronglySorted_app_2; [|done|by repeat constructor].
  intros a b Ha Hb. apply list_elem_of_singleton in Hb as ->. by eapply Forall_forall in Hf.
Qed.

Lemma StronglySorted_mono {A} (R R' : A → A → Prop) l :
  (∀ x y, R x y → R' x y) → StronglySorted R l → StronglySorted R' l.
Proof. intros H. induction 1; constructor; [done|]. eapply Forall_impl; [done|auto]. Qed.

(** Proves a closed decidable goal by computing its decision procedure. *)
Ltac by_decide := apply (bool_decide_unpack _); vm_compute; exact I.
