(* ===== verification/Record.v ===== *)
(** * Records of the partition log (src/internal/storage/record.go)

    The record data type, its binary encoding with a CRC32-Castagnoli checksum,
    and the decoder used on log files, record sets and replica responses. *)
From Stdlib Require Import ZArith Lia Strings.Byte.
From stdpp Require Import base list strings.
From S2P Require Import Prelude.
Open Scope Z_scope.

(** ** CRC32-Castagnoli ([hash/crc32]) *)

(** The reversed Castagnoli polynomial, [crc32.Castagnoli]. *)
Definition Castagnoli : Z := 0x82f63b78.

(** One step of [crc32.MakeTable]: shift one bit out, folding in the polynomial. *)
Definition crc_bit (crc : Z) : Z :=
  if Z.odd crc then Z.lxor (Z.shiftr crc 1) Castagnoli else Z.shiftr crc 1.

(** [crcTable[i]]. *)
Definition crcTable (i : Z) : Z := Nat.iter 8 crc_bit i.

Definition crc_byte (crc : Z) (b : byte) : Z :=
  Z.lxor (crcTable (Z.land (Z.lxor crc (Z_of_byte b)) 0xff)) (Z.shiftr crc 8).

(** [crc32.Checksum(data, crcTable)]: complement, update, complement. *)
Definition crc32_Checksum (data : bytes) : Z :=
  Z.lxor (fold_left crc_byte data 0xffffffff) 0xffffffff.

(** ** The record type *)

Definition MaxRecordSize : Z := 1048576.

Definition nullLength : Z := -1.

Record record := mkRecord {
  rec_Offset : Z;               (* int64 *)
  rec_Timestamp : Z;            (* int64 *)
  rec_Attributes : Z;           (* int8 *)
  rec_Key : option bytes;       (* nil or a byte slice *)
  rec_Value : option bytes
}.

#[global] Instance record_eq_dec : EqDecision record.
Proof. solve_decision. Defined.

(** The length of a nil or non-nil slice. *)
Definition olen (o : option bytes) : Z :=
  match o with Some b => zlen b | None => 0 end.

Definition EncodedSize (r : record) : Z :=
  let size := 4 + 8 + 8 + 4 + 1 in
  let size := size + 4 in
  let size := if r.(rec_Key) is Some k then size + zlen k else size in
  let size := size + 4 in
  if r.(rec_Value) is Some v then size + zlen v else size.

(** A length-prefixed nullable payload; [^uint32(0)] marks nil. *)
Definition put_payload (o : option bytes) : bytes :=
  match o with
  | Some k => be_encode 4 (uint32 (zlen k)) ++ k
  | None => be_encode 4 0xffffffff
  end.

(** The region covered by the checksum: attributes through value. *)
Definition record_body (r : record) : bytes :=
  [byte_of_Z r.(rec_Attributes)] ++ put_payload r.(rec_Key) ++ put_payload r.(rec_Value).

(** The wire image that [Encode] assembles in [buf]. *)
Definition record_image (r : record) : bytes :=
  let total := EncodedSize r in
  let body := record_body r in
  be_encode 4 (uint32 (total - 4)) ++ be_encode 8 (uint64 r.(rec_Offset)) ++
  be_encode 8 (uint64 r.(rec_Timestamp)) ++ be_encode 4 (crc32_Checksum body) ++ body.

(** [(r *Record).Encode(w)]; [None] is the nil receiver. *)
Definition Encode {W} `{Writer W} (r : option record) : M W Z :=
  match r with
  | None => raise (errorString "encode: nil record")
  | Some r =>
      let total := EncodedSize r in
      if MaxRecordSize <? total then raise ErrRecordTooLarge
      else Write (record_image r)
  end.

(** ** Decoding *)

(** One nullable length-prefixed field at [off]: the payload and the offset after
    it, or the error the switch returns. *)
Definition decode_payload (payload : bytes) (off : Z) : result (option bytes * Z) :=
  if zlen payload <? off + 4 then Err ErrUnexpectedEOF
  else
    let n := be_signed (slice payload off 4) in
    let off := off + 4 in
    if n =? nullLength then Ok (None, off)
    else if n <? 0 then Err ErrCorruptRecord
    else if zlen payload <? off + n then Err ErrUnexpectedEOF
    else Ok (Some (slice payload off n), off + n).

(** The fields of a payload of at least [minPayload] bytes. *)
Definition minPayload : Z := 8 + 8 + 4 + 1 + 4 + 4.

Definition decode_fields (payload : bytes) : result record :=
  if zlen payload <? minPayload then Err ErrUnexpectedEOF
  else
    let offset := be_signed (slice payload 0 8) in
    let timestamp := be_signed (slice payload 8 8) in
    let checksum := be_decode (slice payload 16 4) in
    let off := 20 in
    if negb (crc32_Checksum (drop (Z.to_nat off) payload) =? checksum) then Err ErrCorruptRecord
    else
      let attributes := be_signed (slice payload off 1) in
      match decode_payload payload (off + 1) with
      | Err e => Err e
      | Ok (key, off) =>
          match decode_payload payload off with
          | Err e => Err e
          | Ok (value, _) => Ok (mkRecord offset timestamp attributes key value)
          end
      end.

(** [DecodeRecord(r)]: the number of bytes consumed, the record or an error, and
    the rest of the stream. *)
Definition DecodeRecord (s : bytes) : (Z * result record) * bytes :=
  match ReadFull 4 s with
  | (Err e, s) => ((0, Err e), s)
  | (Ok lenBuf, s) =>
      let length := be_signed lenBuf in
      if length <? 0 then ((4, Err ErrCorruptRecord), s)
      else if MaxRecordSize <? length then ((4, Err ErrRecordTooLarge), s)
      else match ReadFull length s with
      | (Err e, s) => ((4, Err e), s)
      | (Ok payload, s) => ((4 + zlen payload, decode_fields payload), s)
      end
  end.

(** ** The checksum *)

Lemma crcTable_range i : 0 ≤ i < 256 → inU 32 (crcTable i).
Proof.
  intros Hi. apply (bool_decide_eq_true (inU 32 (crcTable i))).
  revert i Hi. apply (forall_below 256). vm_compute. reflexivity.
Qed.

(** The table entries differ in their top byte. *)
Lemma crcTable_top_inj i j : 0 ≤ i < 256 → 0 ≤ j < 256 →
  Z.shiftr (crcTable i) 24 = Z.shiftr (crcTable j) 24 → i = j.
Proof.
  intros Hi Hj.
  assert (H : forallb (λ j, bool_decide (Z.shiftr (crcTable i) 24 = Z.shiftr (crcTable j) 24 → i = j))
            (Z.of_nat <$> seq 0 256) = true).
  { revert i Hi. apply (forall_below 256). vm_compute. reflexivity. }
  intros E. exact (bool_decide_eq_true_1 _ (forall_below _ _ H j Hj) E).
Qed.

Lemma land_ff_range x : 0 ≤ Z.land x 0xff < 256.
Proof. change 0xff with (Z.ones 8). rewrite Z.land_ones by lia. apply Z.mod_pos_bound. lia. Qed.

Lemma crc_byte_range c b : inU 32 c → inU 32 (crc_byte c b).
Proof.
  intros Hc. apply inU_lxor; [lia| |by apply inU_shiftr].
  apply crcTable_range, land_ff_range.
Qed.

Lemma crc_fold_range data c : inU 32 c → inU 32 (fold_left crc_byte data c).
Proof.
  revert c. induction data as [|b data IH]; intros c Hc; simpl; [done|].
  by apply IH, crc_byte_range.
Qed.

Lemma crc32_range data : inU 32 (crc32_Checksum data).
Proof. apply inU_lxor; [lia|by apply crc_fold_range|by compute]. Qed.

(** One update step loses nothing: equal results come from equal high parts and
    equal low bytes of [crc xor b]. *)
Lemma crc_byte_inj c1 c2 b1 b2 : inU 32 c1 → inU 32 c2 →
  crc_byte c1 b1 = crc_byte c2 b2 →
  Z.shiftr c1 8 = Z.shiftr c2 8 ∧
  Z.land (Z.lxor c1 (Z_of_byte b1)) 0xff = Z.land (Z.lxor c2 (Z_of_byte b2)) 0xff.
Proof.
  intros H1 H2 E. unfold crc_byte in E.
  assert (Htop : ∀ c, inU 32 c → Z.shiftr (Z.shiftr c 8) 24 = 0).
  { intros c Hc. rewrite Z.shiftr_shiftr by lia. rewrite Z.shiftr_div_pow2 by lia.
    apply Z.div_small. width_lia. }
  assert (Ei : Z.land (Z.lxor c1 (Z_of_byte b1)) 0xff = Z.land (Z.lxor c2 (Z_of_byte b2)) 0xff).
  { apply crcTable_top_inj; [apply land_ff_range..|].
    apply (f_equal (λ x, Z.shiftr x 24)) in E. rewrite !Z.shiftr_lxor in E.
    by rewrite !Htop, !Z.lxor_0_r in E by done. }
  split; [|done]. rewrite Ei in E. by apply Zlxor_cancel_l in E.
Qed.

Lemma split_low_high c : c = Z.lor (Z.shiftl (Z.shiftr c 8) 8) (Z.land c 0xff).
Proof.
  apply Z.bits_inj'. intros n Hn. rewrite Z.lor_spec, Z.land_spec.
  change 0xff with (Z.ones 8). rewrite Z.testbit_ones_nonneg by lia.
  rewrite Z.shiftl_spec by lia. destruct (Z.ltb_spec n 8).
  - rewrite (Z.testbit_neg_r _ (n - 8)) by lia. by rewrite andb_true_r.
  - rewrite Z.shiftr_spec by lia. rewrite Z.sub_add. by rewrite andb_false_r, orb_false_r.
Qed.

Lemma land_lxor_distr a b c : Z.land (Z.lxor a b) c = Z.lxor (Z.land a c) (Z.land b c).
Proof.
  apply Z.bits_inj'. intros n Hn. rewrite !Z.land_spec, !Z.lxor_spec, !Z.land_spec.
  by destruct (Z.testbit a n), (Z.testbit b n), (Z.testbit c n).
Qed.

(** Different states stay different over a common suffix. *)
Lemma crc_fold_inj data c1 c2 : inU 32 c1 → inU 32 c2 →
  fold_left crc_byte data c1 = fold_left crc_byte data c2 → c1 = c2.
Proof.
  revert c1 c2. induction data as [|b data IH]; intros c1 c2 H1 H2 E; simpl in E; [done|].
  apply IH in E; [|by apply crc_byte_range..].
  apply crc_byte_inj in E as [Eh El]; [|done..].
  rewrite !land_lxor_distr in El. apply Zlxor_cancel_r in El.
  by rewrite (split_low_high c1), (split_low_high c2), Eh, El.
Qed.

(** A change of one byte changes the checksum. *)
Lemma crc32_one_byte (pre suf : bytes) b b' :
  crc32_Checksum (pre ++ b :: suf) = crc32_Checksum (pre ++ b' :: suf) → b = b'.
Proof.
  unfold crc32_Checksum. intros E. apply Zlxor_cancel_r in E.
  rewrite !fold_left_app in E. simpl in E.
  assert (Hc : inU 32 (fold_left crc_byte pre 0xffffffff)) by (apply crc_fold_range; by compute).
  apply crc_fold_inj in E; [|by apply crc_byte_range..].
  apply crc_byte_inj in E as [_ El]; [|done..].
  rewrite !land_lxor_distr in El. apply Zlxor_cancel_l in El.
  change 0xff with (Z.ones 8) in El. rewrite !Z.land_ones in El by lia.
  rewrite !Z.mod_small in El by apply Z_of_byte_range.
  by rewrite <- (byte_of_Z_of_byte b), <- (byte_of_Z_of_byte b'), El.
Qed.

(** ** Encoding then decoding *)

(** The Go types' ranges. *)
Definition record_wf (r : record) : Prop :=
  inS 64 r.(rec_Offset) ∧ inS 64 r.(rec_Timestamp) ∧ inS 8 r.(rec_Attributes).
#[global] Instance record_wf_dec r : Decision (record_wf r).
Proof. unfold record_wf. apply _. Defined.

Lemma length_put_payload o : zlen (put_payload o) = 4 + olen o.
Proof. unfold put_payload. destruct o; simpl olen; len. Qed.

Lemma length_record_body r :
  zlen (record_body r) = 9 + olen r.(rec_Key) + olen r.(rec_Value).
Proof.
  unfold record_body. rewrite !length_app, !Nat2Z.inj_add, !length_put_payload. simpl. lia.
Qed.

Lemma EncodedSize_eq r : EncodedSize r = 33 + olen r.(rec_Key) + olen r.(rec_Value).
Proof. unfold EncodedSize, olen. destruct (rec_Key r), (rec_Value r); lia. Qed.

Lemma length_record_image r : zlen (record_image r) = EncodedSize r.
Proof.
  unfold record_image. rewrite !length_app, !length_be_encode, EncodedSize_eq.
  pose proof (length_record_body r). lia.
Qed.

Lemma olen_nonneg o : 0 ≤ olen o.
Proof. destruct o; simpl; lia. Qed.

Lemma EncodedSize_min r : 33 ≤ EncodedSize r.
Proof.
  rewrite EncodedSize_eq. pose proof (olen_nonneg (rec_Key r)).
  pose proof (olen_nonneg (rec_Value r)). lia.
Qed.
#[export] Hint Resolve olen_nonneg EncodedSize_min : go.

Lemma decode_payload_put (pre post : bytes) o off :
  olen o ≤ MaxInt32 → off = zlen pre →
  decode_payload (pre ++ put_payload o ++ post) off = Ok (o, off + 4 + olen o).
Proof.
  intros Ho ->. unfold decode_payload.
  assert (L : zlen (pre ++ put_payload o ++ post) = zlen pre + 4 + olen o + zlen post).
  { rewrite !length_app, !Nat2Z.inj_add, length_put_payload. lia. }
  rewrite L. clear L. pose proof (olen_nonneg o).
  destruct (Z.ltb_spec (zlen pre + 4 + olen o + zlen post) (zlen pre + 4)); [lia|].
  destruct o as [k|]; simpl put_payload; simpl olen in *.
  - rewrite <- app_assoc, (slice_app pre) by (by rewrite ?length_be_encode).
    rewrite wrapU_small by width_lia. rewrite be_signed_encode by (try lia; width_lia).
    unfold nullLength. destruct (Z.eqb_spec (zlen k) (-1)); [lia|].
    destruct (Z.ltb_spec (zlen k) 0); [lia|].
    destruct (Z.ltb_spec (zlen pre + 4 + zlen k + zlen post) (zlen pre + 4 + zlen k)); [lia|].
    rewrite (app_assoc pre), slice_app; [done|len|done].
  - rewrite slice_app by (by rewrite ?length_be_encode).
    replace (be_signed (be_encode 4 0xffffffff)) with (-1) by (vm_compute; reflexivity).
    unfold nullLength. simpl. by rewrite Z.add_0_r.
Qed.

(** The payload that follows the length field, with checksum field [ck] and
    covered region [body]. *)
Definition record_payload (r : record) (ck : Z) (body : bytes) : bytes :=
  be_encode 8 (uint64 r.(rec_Offset)) ++ be_encode 8 (uint64 r.(rec_Timestamp)) ++
  be_encode 4 ck ++ body.

Lemma record_image_payload r :
  record_image r = be_encode 4 (uint32 (EncodedSize r - 4)) ++
                   record_payload r (crc32_Checksum (record_body r)) (record_body r).
Proof. done. Qed.

Lemma length_record_payload r ck body : zlen (record_payload r ck body) = 20 + zlen body.
Proof. unfold record_payload. len. Qed.

(** The fixed-width fields of a payload. *)
Lemma record_payload_slices r ck body :
  slice (record_payload r ck body) 0 8 = be_encode 8 (uint64 r.(rec_Offset)) ∧
  slice (record_payload r ck body) 8 8 = be_encode 8 (uint64 r.(rec_Timestamp)) ∧
  slice (record_payload r ck body) 16 4 = be_encode 4 ck ∧
  drop (Z.to_nat 20) (record_payload r ck body) = body.
Proof.
  unfold record_payload. set (o8 := be_encode 8 (uint64 (rec_Offset r))).
  set (t8 := be_encode 8 (uint64 (rec_Timestamp r))).
  assert (length o8 = 8%nat) by apply length_be_encode.
  assert (length t8 = 8%nat) by apply length_be_encode.
  split_and!.
  - apply (slice_app []); len.
  - apply slice_app; len.
  - rewrite (app_assoc o8). apply slice_app; len.
  - rewrite !app_assoc. apply drop_app_length'. len.
Qed.

(** A payload whose checksum field does not match is rejected. *)
Lemma decode_fields_corrupt r ck body : inU 32 ck → 9 ≤ zlen body → crc32_Checksum body ≠ ck →
  decode_fields (record_payload r ck body) = Err ErrCorruptRecord.
Proof.
  intros Hck Hb Hne. destruct (record_payload_slices r ck body) as (Eo & Et & Ec & Eb).
  unfold decode_fields. rewrite Eo, Et, Ec, Eb, length_record_payload. unfold minPayload.
  case_bool (Z.ltb_spec (20 + zlen body) (8 + 8 + 4 + 1 + 4 + 4)).
  rewrite be_decode_encode_U by done.
  by destruct (Z.eqb_spec (crc32_Checksum body) ck).
Qed.

Lemma decode_fields_payload r : record_wf r → EncodedSize r ≤ MaxRecordSize →
  decode_fields (record_payload r (crc32_Checksum (record_body r)) (record_body r)) = Ok r.
Proof.
  intros (Ho & Ht & Ha) Hsz. set (ck := crc32_Checksum (record_body r)).
  assert (Hck : inU 32 ck) by apply crc32_range. rewrite EncodedSize_eq in Hsz. unfold MaxRecordSize in Hsz.
  pose proof (olen_nonneg (rec_Key r)). pose proof (olen_nonneg (rec_Value r)).
  destruct (record_payload_slices r ck (record_body r)) as (Eo & Et & Ec & Eb).
  unfold decode_fields. rewrite Eo, Et, Ec, Eb, length_record_payload, length_record_body.
  unfold minPayload.
  case_bool (Z.ltb_spec (20 + (9 + olen (rec_Key r) + olen (rec_Value r))) (8 + 8 + 4 + 1 + 4 + 4)).
  rewrite be_decode_encode_U by done. unfold ck at 1. rewrite Z.eqb_refl. simpl negb. cbv iota.
  unfold record_payload, record_body.
  set (o8 := be_encode 8 (uint64 (rec_Offset r))). set (t8 := be_encode 8 (uint64 (rec_Timestamp r))).
  assert (length o8 = 8%nat) by apply length_be_encode.
  assert (length t8 = 8%nat) by apply length_be_encode.
  rewrite (app_assoc o8), (app_assoc (o8 ++ t8)), slice_app by len.
  rewrite (app_assoc _ [byte_of_Z _]), decode_payload_put by (width_lia || len).
  rewrite (app_assoc _ (put_payload (rec_Key r))), <- (app_nil_r (put_payload (rec_Value r))).
  rewrite decode_payload_put;
    [|width_lia|pose proof (length_put_payload (rec_Key r)); len].
  unfold o8, t8. rewrite <- be_encode_1.
  rewrite !(be_signed_encode_wrap 8), be_signed_encode by (try lia; done).
  by destruct r.
Qed.

(** Reading the length field of an image. *)
Lemma DecodeRecord_payload r (payload rest : bytes) :
  EncodedSize r ≤ MaxRecordSize → zlen payload = EncodedSize r - 4 →
  DecodeRecord (be_encode 4 (uint32 (EncodedSize r - 4)) ++ payload ++ rest) =
  ((EncodedSize r, decode_fields payload), rest).
Proof.
  intros Hsz Hp. pose proof (EncodedSize_min r). unfold MaxRecordSize in Hsz. unfold DecodeRecord.
  rewrite ReadFull_eq by len. rewrite wrapU_small by width_lia.
  rewrite be_signed_encode by (try lia; width_lia).
  case_bool (Z.ltb_spec (EncodedSize r - 4) 0). unfold MaxRecordSize.
  case_bool (Z.ltb_spec 1048576 (EncodedSize r - 4)).
  rewrite ReadFull_eq by lia. repeat f_equal. lia.
Qed.

Lemma decode_image r rest : record_wf r → EncodedSize r ≤ MaxRecordSize →
  DecodeRecord (record_image r ++ rest) = ((EncodedSize r, Ok r), rest).
Proof.
  intros Hwf Hsz. rewrite record_image_payload, <- app_assoc.
  rewrite DecodeRecord_payload, decode_fields_payload; [done..|].
  rewrite length_record_payload, length_record_body, EncodedSize_eq. lia.
Qed.

Lemma Encode_ok {W} `{WriterOk W} r w : EncodedSize r ≤ MaxRecordSize → writer_inv w →
  ∃ w', Encode (Some r) w = (Ok (EncodedSize r), w') ∧ writer_inv w' ∧
        written w' = written w ++ record_image r.
Proof.
  intros Hsz Hw. unfold Encode. destruct (Z.ltb_spec MaxRecordSize (EncodedSize r)); [lia|].
  rewrite <- length_record_image. by apply write_ok.
Qed.

Lemma Encode_too_large {W} `{Writer W} r w :
  MaxRecordSize < EncodedSize r → Encode (Some r) w = (Err ErrRecordTooLarge, w).
Proof. intros. unfold Encode. destruct (Z.ltb_spec MaxRecordSize (EncodedSize r)); [done|lia]. Qed.

(** ** Claims *)

(** C25: encoding a record and decoding the bytes gives the record back: for every
    record within the Go types' ranges and the size limit, on every writer that
    keeps its contract, [Encode] writes exactly [EncodedSize] bytes and
    [DecodeRecord] reads the same record from them, reports the same byte count
    and leaves the rest of the stream untouched. *)
Theorem record_encode_decode {W} `{WriterOk W} r (w : W) rest :
  record_wf r → EncodedSize r ≤ MaxRecordSize → writer_inv w →
  ∃ w' bs, Encode (Some r) w = (Ok (EncodedSize r), w') ∧ zlen bs = EncodedSize r ∧
    written w' = written w ++ bs ∧ DecodeRecord (bs ++ rest) = ((EncodedSize r, Ok r), rest).
Proof.
  intros Hwf Hsz Hw. destruct (Encode_ok r w Hsz Hw) as (w' & E & _ & Hw').
  exists w', (record_image r). split_and!; [done|apply length_record_image|done|].
  by apply decode_image.
Qed.

Definition sample_record : record :=
  mkRecord 7 1700000000000 0 (Some [x6b; x31]) (Some [x68; x69]).

Lemma record_encode_decode_witness :
  ∃ w' bs, Encode (Some sample_record) ([] : bytes) = (Ok (EncodedSize sample_record), w') ∧
    zlen bs = EncodedSize sample_record ∧ written w' = written ([] : bytes) ++ bs ∧
    DecodeRecord (bs ++ [x00]) = ((EncodedSize sample_record, Ok sample_record), [x00]).
Proof.
  apply (record_encode_decode (W:=bytes) sample_record [] [x00]);
    [by_decide|vm_compute; discriminate|exact I].
Defined.

Lemma DecodeRecord_prefix r (p suf : bytes) : EncodedSize r ≤ MaxRecordSize →
  record_image r = p ++ suf → suf ≠ [] →
  ∃ n e, DecodeRecord p = ((n, Err e), []) ∧ (e = EOF ∨ e = ErrUnexpectedEOF).
Proof.
  intros Hsz E Hs. pose proof (EncodedSize_min r). unfold MaxRecordSize in Hsz.
  assert (L : zlen p + zlen suf = EncodedSize r).
  { rewrite <- length_record_image, E. len. }
  assert (0 < zlen suf) by (destruct suf; simpl; [done|lia]).
  unfold DecodeRecord. destruct (Z.lt_ge_cases (zlen p) 4).
  { destruct (ReadFull_short 4 p) as (e & -> & He); [lia..|]. eauto. }
  rewrite record_image_payload in E.
  assert (∃ q, p = be_encode 4 (uint32 (EncodedSize r - 4)) ++ q) as [q ->].
  { exists (drop 4 p). rewrite <- (take_drop 4 p) at 1. f_equal.
    apply (f_equal (take 4)) in E. rewrite take_app_le in E by (rewrite length_be_encode; lia).
    rewrite take_app_le in E by lia. rewrite <- E. apply take_ge. rewrite length_be_encode. lia. }
  rewrite ReadFull_eq by len. rewrite wrapU_small by width_lia.
  rewrite be_signed_encode by (try lia; width_lia).
  case_bool (Z.ltb_spec (EncodedSize r - 4) 0). unfold MaxRecordSize.
  case_bool (Z.ltb_spec 1048576 (EncodedSize r - 4)).
  destruct (ReadFull_short (EncodedSize r - 4) q) as (e & -> & He); [lia|len|]. eauto.
Qed.

(** A torn write is never mistaken for a record: decoding any strict prefix of
    a record's encoding reports an end-of-file error. *)
Theorem DecodeRecord_torn r (p suf : bytes) : EncodedSize r ≤ MaxRecordSize →
  record_image r = p ++ suf → suf ≠ [] →
  ∃ n e, DecodeRecord p = ((n, Err e), []) ∧ (e = EOF ∨ e = ErrUnexpectedEOF).
Proof. apply DecodeRecord_prefix. Qed.

Lemma DecodeRecord_torn_witness :
  ∃ n e, DecodeRecord (take 20 (record_image sample_record)) = ((n, Err e), []) ∧
         (e = EOF ∨ e = ErrUnexpectedEOF).
Proof.
  apply (DecodeRecord_torn sample_record _ (drop 20 (record_image sample_record)));
    [vm_compute; discriminate|symmetry; apply take_drop|vm_compute; discriminate].
Defined.

(** C24: single-byte corruption of the covered region is always detected: if one
    byte among attributes, key and value (with their length fields) of an encoded
    record is changed, [DecodeRecord] returns [ErrCorruptRecord]. *)
Theorem DecodeRecord_detects_corruption r (pre suf rest : bytes) b b' :
  EncodedSize r ≤ MaxRecordSize → record_body r = pre ++ b :: suf → b' ≠ b →
  DecodeRecord (take 24 (record_image r) ++ (pre ++ b' :: suf) ++ rest) =
    ((EncodedSize r, Err ErrCorruptRecord), rest).
Proof.
  intros Hsz E Hb. set (ck := crc32_Checksum (record_body r)).
  assert (Lb : zlen (pre ++ b' :: suf) = zlen (record_body r)) by (rewrite E; len).
  replace (take 24 (record_image r) ++ (pre ++ b' :: suf) ++ rest)
    with (be_encode 4 (uint32 (EncodedSize r - 4)) ++ record_payload r ck (pre ++ b' :: suf) ++ rest).
  - rewrite DecodeRecord_payload; [|done|].
    + rewrite decode_fields_corrupt; [done|apply crc32_range| |].
      * rewrite Lb, length_record_body. pose proof (olen_nonneg (rec_Key r)).
        pose proof (olen_nonneg (rec_Value r)). lia.
      * unfold ck. rewrite E. intros Heq. by apply crc32_one_byte in Heq.
    + rewrite length_record_payload, Lb, length_record_body, EncodedSize_eq. lia.
  - assert (take 24 (record_image r) = be_encode 4 (uint32 (EncodedSize r - 4)) ++
      be_encode 8 (uint64 (rec_Offset r)) ++ be_encode 8 (uint64 (rec_Timestamp r)) ++
      be_encode 4 ck) as ->.
    { unfold record_image. fold ck. rewrite !app_assoc. apply take_app_length'. len. }
    unfold record_payload. by rewrite <- !app_assoc.
Qed.

Lemma DecodeRecord_detects_corruption_witness :
  DecodeRecord (take 24 (record_image sample_record) ++
                (take 12 (record_body sample_record) ++ x00 :: []) ++ [x2a]) =
    ((EncodedSize sample_record, Err ErrCorruptRecord), [x2a]).
Proof.
  apply (DecodeRecord_detects_corruption sample_record _ [] [x2a] x69 x00);
    [vm_compute; discriminate|vm_compute; reflexivity|discriminate].
Defined.
