(* ===== verification/Index.v ===== *)
(** * The sparse offset index of a segment (src/internal/storage/index.go)

    The backing file, its shared memory mapping and the logical size, with the
    operations of [Index]. The abstract view is the list of (relative offset,
    position) entries; [Lookup]'s binary search is proved equal to a linear search
    on it, and reopening the file (after [Close] or after a crash) to give the same
    entries. *)
From Stdlib Require Import ZArith Lia Strings.Byte.
From stdpp Require Import base list strings sorting.
From S2P Require Import Prelude.
Open Scope Z_scope.

Definition entrySize : Z := 8.

(** [mmapData] and [unmap] are set and cleared together: the mapping is either
    absent or covers the first [n] bytes of the file. It is shared, so a write to
    it is a write to the file. *)
Record Index := mkIndex {
  idx_disk : bytes;          (* contents of the backing file *)
  idx_open : bool;           (* file != nil *)
  idx_mmap : option Z;       (* len(mmapData), None when nil *)
  idx_size : Z;              (* int64 *)
  idx_maxSize : Z            (* int64 *)
}.

(** The two big-endian fields of entry [j]. *)
Definition entry_rel (data : bytes) (j : nat) : Z :=
  be_decode (slice data (Z.of_nat j * entrySize) 4).
Definition entry_pos (data : bytes) (j : nat) : Z :=
  be_decode (slice data (Z.of_nat j * entrySize + 4) 4).

(** The health check of [NewIndex]: drop trailing all-zero entries, keeping the
    first. *)
Fixpoint trim_zero_entries (data : bytes) (n : nat) : nat :=
  match n with
  | S (S _ as m) =>
      if (entry_rel data m =? 0) && (entry_pos data m =? 0)
      then trim_zero_entries data m else n
  | _ => n
  end.

(** [NewIndex(path, maxBytes)] on a file holding [disk] ([[]] when it is created). *)
Definition NewIndex (disk : bytes) (maxBytes : Z) : result Index :=
  if maxBytes <? 0 then Err (errorString "index: negative max size")
  else
    let maxBytes := maxBytes - Z.rem maxBytes entrySize in
    if maxBytes =? 0 then Err (errorString "index: max size too small for one entry")
    else
      let logical := zlen disk in
      let logical := logical - Z.rem logical entrySize in
      let logical := if maxBytes <? logical then maxBytes else logical in
      let data := file_truncate maxBytes disk in
      let logical :=
        if 0 <? logical
        then Z.of_nat (trim_zero_entries data (Z.to_nat (Z.quot logical entrySize))) * entrySize
        else logical in
      Ok (mkIndex data true (Some maxBytes) logical maxBytes).

(** [unmapLocked]. *)
Definition unmapLocked (i : Index) : Index :=
  mkIndex i.(idx_disk) i.(idx_open) None i.(idx_size) i.(idx_maxSize).

(** [Seal]. *)
Definition Seal (i : Index) : result unit * Index :=
  if negb i.(idx_open) then (Err (errorString "index: already closed"), i)
  else
    let i := unmapLocked i in
    let disk := file_truncate i.(idx_size) i.(idx_disk) in
    if i.(idx_size) =? 0
    then (Ok tt, mkIndex disk true None i.(idx_size) 0)
    else (Ok tt, mkIndex disk true (Some i.(idx_size)) i.(idx_size) i.(idx_size)).

(** [Append(relativeOffset, position)]. *)
Definition Index_Append (relativeOffset position : Z) (i : Index) : result unit * Index :=
  if i.(idx_maxSize) <? i.(idx_size) + entrySize then (Err ErrIndexFull, i)
  else match i.(idx_mmap) with
  | None => (Err (errorString "index: not mapped"), i)
  | Some _ =>
      let off := i.(idx_size) in
      let disk := file_write_at off (be_encode 4 relativeOffset) i.(idx_disk) in
      let disk := file_write_at (off + 4) (be_encode 4 position) disk in
      (Ok tt, mkIndex disk i.(idx_open) i.(idx_mmap) (i.(idx_size) + entrySize) i.(idx_maxSize))
  end.

(** [Lookup(relativeOffset)]: position and whether the match is exact. *)
Definition Lookup (relativeOffset : Z) (i : Index) : result (Z * bool) :=
  match i.(idx_mmap) with
  | None => Err (errorString "index: not mapped")
  | Some _ =>
      let data := i.(idx_disk) in
      let n := Z.to_nat (Z.quot i.(idx_size) entrySize) in
      if (n =? 0)%nat then Ok (0, false)
      else
        let idx := sort_Search n (λ j, relativeOffset <=? entry_rel data j) in
        if (idx <? n)%nat && (entry_rel data idx =? relativeOffset)
        then Ok (entry_pos data idx, true)
        else if (0 <? idx)%nat then Ok (entry_pos data (idx - 1), false)
        else Ok (0, false)
  end.

(** [Truncate]: unmap, shrink to the logical size and close. *)
Definition Index_Truncate (i : Index) : Index :=
  let i := unmapLocked i in
  mkIndex (file_truncate i.(idx_size) i.(idx_disk)) false None i.(idx_size) i.(idx_maxSize).

(** [Close]; idempotent. *)
Definition Index_Close (i : Index) : Index :=
  if negb i.(idx_open) && bool_decide (i.(idx_mmap) = None) then i
  else
    let i := unmapLocked i in
    if i.(idx_open) then
      mkIndex (file_truncate i.(idx_size) i.(idx_disk)) false None i.(idx_size) i.(idx_maxSize)
    else i.

Definition Entries (i : Index) : Z := Z.quot i.(idx_size) entrySize.
Definition Index_Size (i : Index) : Z := i.(idx_size).

(** ** The abstract view *)

Definition entry_bytes (e : Z * Z) : bytes := be_encode 4 e.1 ++ be_encode 4 e.2.
Definition entries_bytes (l : list (Z * Z)) : bytes := mjoin (entry_bytes <$> l).

Definition entry_ok (e : Z * Z) : Prop := inU 32 e.1 ∧ inU 32 e.2.
#[global] Instance entry_ok_dec e : Decision (entry_ok e).
Proof. unfold entry_ok. apply _. Defined.

(** The entries sit at the front of the file, zeros fill the rest. *)
Definition disk_rep (disk : bytes) (l : list (Z * Z)) : Prop :=
  ∃ k, disk = entries_bytes l ++ replicate k x00.

(** An open, mapped index holding the entries [l]. *)
Record index_rep (i : Index) (l : list (Z * Z)) : Prop := {
  rep_open : i.(idx_open) = true;
  rep_mmap : i.(idx_mmap) = Some i.(idx_maxSize);
  rep_size : i.(idx_size) = entrySize * zlen l;
  rep_max : i.(idx_size) ≤ i.(idx_maxSize);
  rep_len : zlen i.(idx_disk) = i.(idx_maxSize);
  rep_disk : disk_rep i.(idx_disk) l;
  rep_ok : Forall entry_ok l
}.

(** Entries are appended with increasing relative offsets. *)
Definition sorted_entries (l : list (Z * Z)) : Prop := StronglySorted Z.lt l.*1.
#[global] Instance sorted_entries_dec l : Decision (sorted_entries l).
Proof. unfold sorted_entries. apply _. Defined.

(** The reference search: the last entry whose relative offset is at most [rel]. *)
Definition lookup_ref (l : list (Z * Z)) (rel : Z) : Z * bool :=
  match last (filter (λ e, e.1 ≤ rel) l) with
  | Some (r, p) => (p, bool_decide (r = rel))
  | None => (0, false)
  end.

Lemma entries_bytes_app l1 l2 : entries_bytes (l1 ++ l2) = entries_bytes l1 ++ entries_bytes l2.
Proof. unfold entries_bytes. by rewrite fmap_app, join_app. Qed.

Lemma length_entries_bytes l : zlen (entries_bytes l) = entrySize * zlen l.
Proof.
  induction l as [|e l IH]; [done|]. change (entries_bytes (e :: l)) with (entry_bytes e ++ entries_bytes l).
  unfold entry_bytes, entrySize in *. len.
Qed.

Lemma entries_bytes_at l tail j e : l !! j = Some e →
  ∃ pre post, entries_bytes l ++ tail = pre ++ be_encode 4 e.1 ++ be_encode 4 e.2 ++ post ∧
              zlen pre = Z.of_nat j * entrySize.
Proof.
  intros Hj. exists (entries_bytes (take j l)), (entries_bytes (drop (S j) l) ++ tail). split.
  - rewrite <- (take_drop_middle l j e Hj) at 1. rewrite entries_bytes_app.
    change (entries_bytes (e :: drop (S j) l)) with (entry_bytes e ++ entries_bytes (drop (S j) l)).
    unfold entry_bytes. by rewrite <- !app_assoc.
  - rewrite length_entries_bytes, length_take_le; [lia|]. apply lookup_lt_Some in Hj. lia.
Qed.

Lemma entry_at l tail j e : Forall entry_ok l → l !! j = Some e →
  entry_rel (entries_bytes l ++ tail) j = e.1 ∧ entry_pos (entries_bytes l ++ tail) j = e.2.
Proof.
  intros Hok Hj. destruct (Forall_lookup_1 _ _ _ _ Hok Hj) as [H1 H2].
  destruct (entries_bytes_at l tail j e Hj) as (pre & post & -> & Hp).
  unfold entry_rel, entry_pos. split.
  - rewrite slice_app by len. by apply be_decode_encode_U.
  - rewrite (app_assoc pre), slice_app by len. by apply be_decode_encode_U.
Qed.

Lemma entry_zero l (k j : nat) : (length l ≤ j)%nat →
  (Z.of_nat j + 1) * entrySize ≤ zlen (entries_bytes l) + Z.of_nat k →
  entry_rel (entries_bytes l ++ replicate k x00) j = 0 ∧
  entry_pos (entries_bytes l ++ replicate k x00) j = 0.
Proof.
  intros Hj Hk. rewrite length_entries_bytes in Hk. unfold entrySize in *.
  set (m := (8 * (j - length l))%nat).
  assert (Hz : ∀ o, (o + 4 ≤ k)%nat →
    be_decode (slice (entries_bytes l ++ replicate k x00) (zlen (entries_bytes l) + Z.of_nat o) 4) = 0).
  { intros o Ho. replace k with (o + (4 + (k - o - 4)))%nat by lia. rewrite !replicate_add.
    rewrite (app_assoc (entries_bytes l)), slice_app; [vm_compute; done|len|len]. }
  rewrite length_entries_bytes in Hz. unfold entrySize in Hz. unfold entry_rel, entry_pos, entrySize. split.
  - replace (Z.of_nat j * 8) with (8 * zlen l + Z.of_nat m) by lia. apply Hz. lia.
  - replace (Z.of_nat j * 8 + 4) with (8 * zlen l + Z.of_nat (m + 4)) by lia. apply Hz. lia.
Qed.

(** ** Appending *)

Lemma Index_Append_full i l rel pos : index_rep i l →
  i.(idx_maxSize) < i.(idx_size) + entrySize → Index_Append rel pos i = (Err ErrIndexFull, i).
Proof. intros _ H. unfold Index_Append. by case_bool (Z.ltb_spec (idx_maxSize i) (idx_size i + entrySize)). Qed.

Lemma Index_Append_ok i l rel pos : index_rep i l → entry_ok (rel, pos) →
  i.(idx_size) + entrySize ≤ i.(idx_maxSize) →
  ∃ i', Index_Append rel pos i = (Ok tt, i') ∧ index_rep i' (l ++ [(rel, pos)]) ∧
        i'.(idx_maxSize) = i.(idx_maxSize).
Proof.
  intros [Ho Hm Hs Hmx Hl [k Hd] Hf] He Hroom. unfold Index_Append.
  case_bool (Z.ltb_spec (idx_maxSize i) (idx_size i + entrySize)).
  rewrite Hm. eexists. split; [done|]. split; [|done].
  pose proof (length_entries_bytes l) as Le. rewrite Hd in Hl.
  assert (Hk : (8 ≤ k)%nat) by (unfold entrySize in *; len).
  assert (Hdisk : file_write_at (idx_size i + 4) (be_encode 4 pos)
            (file_write_at (idx_size i) (be_encode 4 rel) (idx_disk i)) =
          entries_bytes (l ++ [(rel, pos)]) ++ replicate (k - 8) x00).
  { rewrite Hd. replace k with (4 + (4 + (k - 8)))%nat at 1 by lia. rewrite !replicate_add.
    rewrite Hs, <- Le, file_write_at_mid by len.
    rewrite (app_assoc (entries_bytes l) (be_encode 4 rel)).
    replace (zlen (entries_bytes l) + 4) with (zlen (entries_bytes l ++ be_encode 4 rel)) by len.
    rewrite file_write_at_mid by len. rewrite entries_bytes_app.
    change (entries_bytes [(rel, pos)]) with ((be_encode 4 rel ++ be_encode 4 pos) ++ []).
    by rewrite app_nil_r, <- !app_assoc. }
  constructor; cbn [idx_open idx_mmap idx_size idx_maxSize idx_disk]; try done.
  - rewrite Hs. unfold entrySize. len.
  - rewrite Hdisk. pose proof (length_entries_bytes (l ++ [(rel, pos)])). unfold entrySize in *. len.
  - eexists. exact Hdisk.
  - apply Forall_app_2; [done|by constructor].
Qed.

(** ** Searching *)

Lemma sorted_entries_lookup l i j a b : sorted_entries l →
  l !! i = Some a → l !! j = Some b → (i < j)%nat → a.1 < b.1.
Proof.
  intros Hs Hi Hj. apply (StronglySorted_lookup Z.lt l.*1 i j); [done| |];
    rewrite list_lookup_fmap; [by rewrite Hi|by rewrite Hj].
Qed.

(** What [Lookup] computes, on the abstract entries: the search index splits them
    into smaller and not smaller relative offsets. *)
Lemma lookup_search i l rel : index_rep i l → sorted_entries l →
  let idx := sort_Search (length l) (λ j, rel <=? entry_rel i.(idx_disk) j) in
  (idx ≤ length l)%nat ∧
  ∀ j e, l !! j = Some e → entry_rel i.(idx_disk) j = e.1 ∧ entry_pos i.(idx_disk) j = e.2 ∧
         ((j < idx)%nat → e.1 < rel) ∧ ((idx ≤ j)%nat → rel ≤ e.1).
Proof.
  intros [_ _ _ _ _ [k Hd] Hok] Hs. rewrite Hd.
  set (f := λ j, rel <=? entry_rel (entries_bytes l ++ replicate k x00) j). intros idx.
  assert (Hf : ∀ j e, l !! j = Some e → f j = (rel <=? e.1)).
  { intros j e Hj. unfold f. by destruct (entry_at l (replicate k x00) j e Hok Hj) as [-> _]. }
  assert (Hmono : ∀ a b, (a ≤ b)%nat → (b < length l)%nat → f a = true → f b = true).
  { intros a b Hab Hb. destruct (lookup_lt_is_Some_2 l b Hb) as [eb Eb].
    destruct (lookup_lt_is_Some_2 l a ltac:(lia)) as [ea Ea]. rewrite (Hf _ _ Ea), (Hf _ _ Eb).
    destruct (decide (a = b)) as [->|]; [by simplify_eq|].
    pose proof (sorted_entries_lookup l a b ea eb Hs Ea Eb ltac:(lia)). lia. }
  destruct (sort_Search_spec (length l) f Hmono) as (Hle & Hlo & Hhi). fold idx in Hle, Hlo, Hhi.
  split; [done|]. intros j e Hj. destruct (entry_at l (replicate k x00) j e Hok Hj) as [Er Ep].
  split_and!; [done|done| |].
  - intros Hlt. specialize (Hlo j Hlt). rewrite (Hf _ _ Hj) in Hlo. lia.
  - intros Hge. apply lookup_lt_Some in Hj as Hlt. specialize (Hhi ltac:(lia)).
    pose proof (Hmono idx j Hge Hlt Hhi) as Hfj. rewrite (Hf _ _ Hj) in Hfj. lia.
Qed.

Lemma rep_entry_count i l : index_rep i l → Z.to_nat (Z.quot i.(idx_size) entrySize) = length l.
Proof. intros Hr. rewrite (rep_size _ _ Hr). unfold entrySize. rewrite Z.mul_comm, Z.quot_mul; lia. Qed.

Lemma Entries_rep i l : index_rep i l → Entries i = zlen l.
Proof. intros Hr. unfold Entries. pose proof (rep_entry_count i l Hr).
  pose proof (rep_size _ _ Hr). unfold entrySize in *.
  rewrite (rep_size _ _ Hr). unfold entrySize. rewrite Z.mul_comm, Z.quot_mul; lia. Qed.

Lemma lookup_ref_exact l idx e : sorted_entries l → l !! idx = Some e →
  lookup_ref l e.1 = (e.2, true).
Proof.
  intros Hs Ee. unfold lookup_ref. rewrite (filter_take _ l (S idx)).
  - rewrite (take_S_r _ _ _ Ee), last_snoc. destruct e. by rewrite bool_decide_true.
  - intros j e' Ej. destruct (lt_eq_lt_dec j idx) as [[Hl| ->]|Hg].
    + pose proof (sorted_entries_lookup l j idx e' e Hs Ej Ee Hl). lia.
    + simplify_eq. lia.
    + pose proof (sorted_entries_lookup l idx j e e' Hs Ee Ej Hg). lia.
Qed.

Lemma lookup_ref_floor l idx rel : (idx ≤ length l)%nat →
  (∀ j e, l !! j = Some e → ((j < idx)%nat → e.1 < rel) ∧ ((idx ≤ j)%nat → rel < e.1)) →
  lookup_ref l rel = match idx with
                     | O => (0, false)
                     | S m => (default 0 (snd <$> l !! m), false)
                     end.
Proof.
  intros Hle Hl. unfold lookup_ref. rewrite (filter_take _ l idx).
  - destruct idx as [|m]; [done|]. destruct (lookup_lt_is_Some_2 l m) as [[r p] Ee]; [lia|].
    rewrite (take_S_r _ _ _ Ee), last_snoc, Ee. simpl.
    destruct (Hl _ _ Ee) as [H1 _]. specialize (H1 ltac:(lia)). simpl in H1.
    by rewrite bool_decide_false by lia.
  - intros j e Ej. destruct (Hl _ _ Ej) as [H1 H2]. split; intros H.
    + specialize (H1 H). lia.
    + destruct (Nat.lt_ge_cases j idx) as [|Hge]; [done|]. specialize (H2 Hge). lia.
Qed.

Lemma Lookup_ref i l rel : index_rep i l → sorted_entries l →
  Lookup rel i = Ok (lookup_ref l rel).
Proof.
  intros Hr Hs. destruct (lookup_search i l rel Hr Hs) as [Hle Hj].
  unfold Lookup. rewrite (rep_mmap _ _ Hr), (rep_entry_count _ _ Hr).
  set (idx := sort_Search _ _) in *.
  destruct (Nat.eqb_spec (length l) 0) as [H0|H0].
  { by apply length_zero_iff_nil in H0 as ->. }
  assert (Hfloor : (∀ j e, l !! j = Some e → (idx ≤ j)%nat → rel < e.1) →
    Ok (lookup_ref l rel) =
    if (0 <? idx)%nat then Ok (entry_pos (idx_disk i) (idx - 1), false) else Ok (0, false)).
  { intros Hgt. rewrite (lookup_ref_floor l idx rel Hle); [|intros j e Ej; split; [apply (Hj _ _ Ej)|by apply Hgt]].
    destruct idx as [|m]; [done|]. simpl. rewrite Nat.sub_0_r.
    destruct (lookup_lt_is_Some_2 l m) as [e Ee]; [lia|]. rewrite Ee.
    by destruct (Hj _ _ Ee) as (_ & -> & _). }
  destruct (Nat.ltb_spec idx (length l)) as [Hlt|Hge]; simpl.
  - destruct (lookup_lt_is_Some_2 l idx Hlt) as [e Ee].
    destruct (Hj _ _ Ee) as (Er & Ep & _ & Hre). rewrite Er, Ep. specialize (Hre ltac:(lia)).
    destruct (Z.eqb_spec e.1 rel) as [<-|Hne]; [by rewrite (lookup_ref_exact l idx e)|].
    symmetry. apply Hfloor. intros j e' Ej Hij. destruct (decide (j = idx)) as [->|].
    + simplify_eq. lia.
    + pose proof (sorted_entries_lookup l idx j e e' Hs Ee Ej ltac:(lia)). lia.
  - symmetry. apply Hfloor. intros j e Ej Hij. apply lookup_lt_Some in Ej. lia.
Qed.

(** ** Opening, sealing and closing *)

Lemma trim_zero_entries_spec data (n m : nat) :
  (m ≤ n)%nat → (0 < m)%nat →
  (∀ j, (m ≤ j < n)%nat → entry_rel data j = 0 ∧ entry_pos data j = 0) →
  ((1 < m)%nat → entry_rel data (m - 1) ≠ 0) →
  trim_zero_entries data n = m.
Proof.
  intros Hmn Hm Hz Hl. induction n as [|n IH]; [lia|].
  destruct n as [|n]; [simpl; lia|].
  destruct (decide (m = S (S n))) as [->|].
  - simpl. specialize (Hl ltac:(lia)). simpl in Hl.
    destruct (Z.eqb_spec (entry_rel data (S n)) 0); [done|done].
  - destruct (Hz (S n)) as [Hr Hp]; [lia|]. cbn [trim_zero_entries]. rewrite Hr, Hp. simpl andb.
    cbv iota. apply IH; [lia|]. intros j Hj. apply Hz. lia.
Qed.

(** A nonempty sorted table has a nonzero last relative offset, unless it is the
    only one. *)
Lemma sorted_last_pos l j e : sorted_entries l → Forall entry_ok l →
  l !! j = Some e → (0 < j)%nat → 0 < e.1.
Proof.
  intros Hs Hok Hj H0. destruct (lookup_lt_is_Some_2 l 0) as [e0 E0];
    [apply lookup_lt_Some in Hj; lia|].
  pose proof (sorted_entries_lookup l 0 j e0 e Hs E0 Hj H0).
  destruct (Forall_lookup_1 _ _ _ _ Hok E0) as [[? _] _]. lia.
Qed.

Lemma disk_rep_truncate disk l n : disk_rep disk l → zlen (entries_bytes l) ≤ n →
  disk_rep (file_truncate n disk) l.
Proof.
  intros [k ->] Hn. set (e := entries_bytes l) in *.
  exists (Z.to_nat n - length e)%nat. unfold file_truncate. rewrite length_app, length_replicate.
  rewrite take_app, take_ge by lia. rewrite take_replicate, <- app_assoc, <- replicate_add.
  f_equal. f_equal. lia.
Qed.

(** Opening a file that holds the entries [l] followed by zeros (or nothing) gives an
    index of the same entries, whether the file was shrunk by [Close] or left
    preallocated by a crash. *)
Lemma NewIndex_reopen disk l maxBytes :
  disk_rep disk l → sorted_entries l → Forall entry_ok l → l ≠ [] →
  zlen disk mod entrySize = 0 → maxBytes mod entrySize = 0 →
  zlen (entries_bytes l) ≤ maxBytes →
  ∃ i, NewIndex disk maxBytes = Ok i ∧ index_rep i l ∧ i.(idx_maxSize) = maxBytes.
Proof.
  intros Hd Hs Hok Hne Hdm Hmm Hle. pose proof (length_entries_bytes l) as Le.
  assert (0 < zlen l) by (destruct l; simpl; [done|lia]).
  assert (He : zlen (entries_bytes l) ≤ zlen disk) by (destruct Hd as [k ->]; len).
  unfold entrySize in *. unfold NewIndex, entrySize.
  case_bool (Z.ltb_spec maxBytes 0). rewrite !Z.rem_mod_nonneg, Hdm, Hmm, !Z.sub_0_r by lia.
  case_bool (Z.eqb_spec maxBytes 0). set (logical := if maxBytes <? zlen disk then maxBytes else zlen disk).
  assert (Hlg : logical mod 8 = 0 ∧ 8 * zlen l ≤ logical ≤ maxBytes).
  { unfold logical. destruct (Z.ltb_spec maxBytes (zlen disk)); lia. }
  case_bool (Z.ltb_spec 0 logical). rewrite Z.quot_div_nonneg by lia.
  destruct (disk_rep_truncate disk l maxBytes Hd Hle) as [k Hk].
  assert (Lk : zlen (file_truncate maxBytes disk) = maxBytes) by len.
  rewrite (trim_zero_entries_spec _ _ (length l)).
  - eexists. split; [done|]. split; [|done]. constructor; cbn [idx_open idx_mmap idx_size idx_maxSize idx_disk];
      unfold entrySize; try done; [lia..|]. by exists k.
  - pose proof (Z.div_le_lower_bound logical 8 (zlen l)). lia.
  - lia.
  - intros j Hj. rewrite Hk in Lk |- *. apply entry_zero; [lia|]. unfold entrySize.
    pose proof (Z.div_mod logical 8 ltac:(lia)). len.
  - intros Hl1. rewrite Hk. destruct (lookup_lt_is_Some_2 l (length l - 1)) as [e Ee]; [lia|].
    destruct (entry_at l (replicate k x00) _ _ Hok Ee) as [-> _].
    pose proof (sorted_last_pos l _ e Hs Hok Ee ltac:(lia)). lia.
Qed.

Lemma NewIndex_fresh maxBytes : entrySize ≤ maxBytes →
  ∃ i, NewIndex [] maxBytes = Ok i ∧ index_rep i [] ∧
       i.(idx_maxSize) = maxBytes - maxBytes mod entrySize.
Proof.
  unfold entrySize. intros H. unfold NewIndex, entrySize. case_bool (Z.ltb_spec maxBytes 0).
  rewrite Z.rem_mod_nonneg by lia. pose proof (Z.mod_pos_bound maxBytes 8 ltac:(lia)).
  case_bool (Z.eqb_spec (maxBytes - maxBytes mod 8) 0).
  change (zlen ([] : bytes) - Z.rem (zlen ([] : bytes)) 8) with 0.
  case_bool (Z.ltb_spec (maxBytes - maxBytes mod 8) 0).
  change (0 <? 0) with false. cbv iota zeta.
  eexists. split; [done|]. split; [|done].
  constructor; cbn [idx_open idx_mmap idx_size idx_maxSize idx_disk]; try done; [len|].
  exists (Z.to_nat (maxBytes - maxBytes mod 8)). unfold file_truncate. simpl.
  by rewrite take_nil, Nat.sub_0_r.
Qed.

(** [Close] leaves exactly the entries on disk. *)
Lemma Index_Close_disk i l : index_rep i l → idx_disk (Index_Close i) = entries_bytes l.
Proof.
  intros [Ho Hm Hs Hmx Hl [k Hd] Hok]. unfold Index_Close. rewrite Ho. simpl. rewrite Ho. simpl.
  rewrite Hd. apply file_truncate_app. by rewrite Hs, length_entries_bytes.
Qed.

Lemma Seal_rep i l : index_rep i l → l ≠ [] →
  ∃ i', Seal i = (Ok tt, i') ∧ index_rep i' l ∧ i'.(idx_maxSize) = i.(idx_size).
Proof.
  intros [Ho Hm Hs Hmx Hl [k Hd] Hok] Hne. unfold Seal. rewrite Ho. simpl.
  assert (0 < zlen l) by (destruct l; simpl; [done|lia]). unfold entrySize in Hs.
  case_bool (Z.eqb_spec (idx_size i) 0). eexists. split; [done|]. split; [|done].
  assert (E : file_truncate (idx_size i) (idx_disk i) = entries_bytes l).
  { rewrite Hd. apply file_truncate_app. by rewrite Hs, length_entries_bytes. }
  constructor; cbn [idx_open idx_mmap idx_size idx_maxSize idx_disk]; try done.
  - rewrite E, length_entries_bytes. unfold entrySize. lia.
  - exists 0%nat. by rewrite E, app_nil_r.
Qed.

(** ** Claims *)

(** C32: the binary search of [Lookup] implements the reference search: on an index
    whose entries have increasing relative offsets it returns the position of the
    last entry at or below the target, flags it exact precisely when the offsets are
    equal, and returns position 0 when every entry is above the target. *)
Theorem Lookup_correct i l rel : index_rep i l → sorted_entries l →
  Lookup rel i = Ok (lookup_ref l rel).
Proof. apply Lookup_ref. Qed.

Definition sample_index : Index :=
  Eval vm_compute in
  match NewIndex [] 40 with
  | Ok i => snd (Index_Append 9 900 (snd (Index_Append 4 400 (snd (Index_Append 0 0 i)))))
  | Err _ => mkIndex [] false None 0 0
  end.

Lemma sample_index_rep : index_rep sample_index [(0, 0); (4, 400); (9, 900)].
Proof.
  constructor.
  1-3,5: reflexivity.
  - by compute.
  - exists 16%nat. vm_compute. reflexivity.
  - by_decide.
Qed.

Lemma Lookup_correct_witness : Lookup 7 sample_index = Ok (400, false).
Proof.
  change (400, false) with (lookup_ref [(0, 0); (4, 400); (9, 900)] 7).
  apply (Lookup_correct sample_index [(0, 0); (4, 400); (9, 900)] 7);
    [apply sample_index_rep|by_decide].
Defined.

(** An index survives a restart: after [Close] (which shrinks the file), and
    equally after a crash that leaves the preallocated file behind, [NewIndex] with
    the same capacity yields an index with the same entries. *)
Theorem index_reopen i l : index_rep i l → sorted_entries l → l ≠ [] →
  i.(idx_maxSize) mod entrySize = 0 →
  (∃ i', NewIndex (idx_disk (Index_Close i)) i.(idx_maxSize) = Ok i' ∧ index_rep i' l) ∧
  (∃ i', NewIndex (idx_disk i) i.(idx_maxSize) = Ok i' ∧ index_rep i' l).
Proof.
  intros Hr Hs Hne Hm. pose proof (length_entries_bytes l) as Le.
  pose proof (rep_size _ _ Hr). pose proof (rep_max _ _ Hr). pose proof (rep_len _ _ Hr) as Hl.
  split.
  - rewrite (Index_Close_disk i l Hr).
    destruct (NewIndex_reopen (entries_bytes l) l (idx_maxSize i)) as (i' & ? & ? & _);
      [exists 0%nat; by rewrite app_nil_r|done|apply Hr|done| |done|lia|by eauto].
    rewrite Le, Z.mul_comm. apply Z.mod_mul. done.
  - destruct (NewIndex_reopen (idx_disk i) l (idx_maxSize i)) as (i' & ? & ? & _);
      [apply Hr|done|apply Hr|done|by rewrite Hl|done|lia|by eauto].
Qed.

Lemma index_reopen_witness :
  (∃ i', NewIndex (idx_disk (Index_Close sample_index)) 40 = Ok i' ∧
         index_rep i' [(0, 0); (4, 400); (9, 900)]) ∧
  (∃ i', NewIndex (idx_disk sample_index) 40 = Ok i' ∧
         index_rep i' [(0, 0); (4, 400); (9, 900)]).
Proof.
  apply (index_reopen sample_index [(0, 0); (4, 400); (9, 900)]);
    [apply sample_index_rep|by_decide|discriminate|reflexivity].
Defined.
