(* ===== verification/Files.v ===== *)
(** * Files and buffered writers

    The parts of [os] and [bufio] that the storage layer and the server write
    through: an [os.File] with its write cursor, and [bufio.Writer] over any
    [io.Writer]. Both discharge the [WriterOk] contract that the encoders rely on. *)
From Stdlib Require Import ZArith Lia Strings.Byte.
From stdpp Require Import base list strings.
From S2P Require Import Prelude.
Open Scope Z_scope.

(** ** [os.File], opened [O_RDWR] without [O_APPEND] *)

Record osFile := mkFile {
  file_data : bytes;         (* contents *)
  file_pos : Z               (* cursor of the handle *)
}.

(** A write goes to the cursor and advances it. *)
#[global] Instance File_Write : Writer osFile := λ p f,
  (Ok (zlen p), mkFile (file_write_at f.(file_pos) p f.(file_data)) (f.(file_pos) + zlen p)).

(** [f.Seek(pos, io.SeekStart)]. *)
Definition File_Seek (pos : Z) (f : osFile) : osFile := mkFile f.(file_data) pos.

(** [f.Truncate(n)]: the cursor does not move. *)
Definition File_Truncate (n : Z) (f : osFile) : osFile :=
  mkFile (file_truncate n f.(file_data)) f.(file_pos).

(** The contract holds while the cursor is at the end of the file. *)
#[global, program] Instance File_WriterOk : WriterOk osFile := {
  writer_inv f := f.(file_pos) = zlen f.(file_data);
  written := file_data
}.
Next Obligation.
  intros p [d pos] Hpos. simpl in Hpos. subst pos. eexists. split; [reflexivity|]. simpl.
  rewrite file_write_at_end. split; [len|done].
Qed.

(** ** [bufio.Writer] *)

(** The buffer of capacity [bw_size] in front of [bw_wr]; the first write error is
    sticky. *)
Record bufioWriter (W : Type) := mkBufio {
  bw_wr : W;
  bw_size : Z;
  bw_buf : bytes;            (* buf[0:n] *)
  bw_err : option error
}.
Arguments mkBufio {W}.
Arguments bw_wr {W}.
Arguments bw_size {W}.
Arguments bw_buf {W}.
Arguments bw_err {W}.

Section bufio.
Context {W : Type} `{Writer W}.

Definition NewWriterSize (w : W) (size : Z) : bufioWriter W := mkBufio w size [] None.

Definition Available (b : bufioWriter W) : Z := b.(bw_size) - zlen b.(bw_buf).

(** [Flush]. *)
Definition bufio_Flush : M (bufioWriter W) unit := λ b,
  match b.(bw_err) with
  | Some e => (Err e, b)
  | None =>
      match b.(bw_buf) with
      | [] => (Ok tt, b)
      | _ =>
          match Write b.(bw_buf) b.(bw_wr) with
          | (Ok _, w) => (Ok tt, mkBufio w b.(bw_size) [] None)
          | (Err e, w) => (Err e, mkBufio w b.(bw_size) b.(bw_buf) (Some e))
          end
      end
  end.

(** [for len(p) > b.Available() && b.err == nil] of [Write]: the bytes of [p] left
    for the buffer. A full buffer is flushed and an empty one bypassed, so the loop
    turns at most twice. *)
Fixpoint bufio_fill (fuel : nat) (p : bytes) (b : bufioWriter W) : bytes * bufioWriter W :=
  match fuel with
  | O => (p, b)
  | S fuel' =>
      if (Available b <? zlen p) && bool_decide (b.(bw_err) = None) then
        match b.(bw_buf) with
        | [] =>
            match Write p b.(bw_wr) with
            | (Ok n, w) => bufio_fill fuel' (drop (Z.to_nat n) p) (mkBufio w b.(bw_size) [] None)
            | (Err e, w) => (p, mkBufio w b.(bw_size) [] (Some e))
            end
        | _ =>
            let n := Z.to_nat (Available b) in
            let b := mkBufio b.(bw_wr) b.(bw_size) (b.(bw_buf) ++ take n p) b.(bw_err) in
            bufio_fill fuel' (drop n p) (bufio_Flush b).2
        end
      else (p, b)
  end.

(** [Write]. *)
#[global] Instance bufio_Write : Writer (bufioWriter W) := λ p b,
  let '(rest, b) := bufio_fill 3 p b in
  match b.(bw_err) with
  | Some e => (Err e, b)
  | None => (Ok (zlen p), mkBufio b.(bw_wr) b.(bw_size) (b.(bw_buf) ++ rest) None)
  end.
End bufio.

(** What has been written through the buffer, flushed or not. *)
Definition bufio_written {W} `{WriterOk W} (b : bufioWriter W) : bytes :=
  written b.(bw_wr) ++ b.(bw_buf).

Definition bufio_inv {W} `{WriterOk W} (b : bufioWriter W) : Prop :=
  writer_inv b.(bw_wr) ∧ b.(bw_err) = None ∧ 0 < b.(bw_size) ∧ zlen b.(bw_buf) ≤ b.(bw_size).

Section bufio_ok.
Context {W : Type} `{WriterOk W}.
Implicit Types b : bufioWriter W.

(** A flush empties the buffer into the underlying writer. *)
Lemma bufio_Flush_ok b : bufio_inv b → ∃ b',
  bufio_Flush b = (Ok tt, b') ∧ bufio_inv b' ∧ b'.(bw_buf) = [] ∧
  bufio_written b' = bufio_written b ∧ b'.(bw_size) = b.(bw_size).
Proof.
  destruct b as [w size buf err]. intros (Hw & He & Hs & Hl). simpl in *. subst err.
  unfold bufio_Flush, bufio_written. simpl. destruct buf as [|c buf].
  - eexists. split_and!; [reflexivity|split_and!; simpl in *; done|done..].
  - destruct (write_ok (c :: buf) w Hw) as (w' & -> & Hw' & Ew).
    eexists. split_and!; [reflexivity|split_and!; simpl; [done|done|done|lia]|done| |done].
    simpl. by rewrite Ew, app_nil_r.
Qed.

(** The loop leaves room for the rest, and loses and reorders nothing. *)
Lemma bufio_fill_empty fuel p b : bufio_inv b → b.(bw_buf) = [] →
  ∃ rest b', bufio_fill (S (S fuel)) p b = (rest, b') ∧ bufio_inv b' ∧
    zlen rest ≤ Available b' ∧ bufio_written b' ++ rest = bufio_written b ++ p ∧
    b'.(bw_size) = b.(bw_size).
Proof.
  destruct b as [w size buf err]. intros (Hw & He & Hs & Hl) Hb. simpl in *. subst.
  unfold Available; simpl. destruct (Z.ltb_spec (size - Z.of_nat 0) (zlen p)); simpl.
  - destruct (write_ok p w Hw) as (w' & -> & Hw' & Ew).
    rewrite Nat2Z.id, drop_all. simpl. case_test. simpl.
    eexists _, _. split_and!; [reflexivity|split_and!; simpl; done|simpl; lia| |done].
    unfold bufio_written. simpl. by rewrite Ew, !app_nil_r.
  - eexists _, _. split_and!; [reflexivity|split_and!; simpl; done|simpl; lia|done|done].
Qed.

Lemma bufio_fill_ok p b : bufio_inv b →
  ∃ rest b', bufio_fill 3 p b = (rest, b') ∧ bufio_inv b' ∧
    zlen rest ≤ Available b' ∧ bufio_written b' ++ rest = bufio_written b ++ p ∧
    b'.(bw_size) = b.(bw_size).
Proof.
  intros Hb. destruct (decide (b.(bw_buf) = [])) as [E|E]; [by apply bufio_fill_empty|].
  destruct Hb as (Hw & He & Hs & Hl). remember 2%nat as fuel. cbn [bufio_fill].
  rewrite (bool_decide_true (bw_err b = None)) by done. rewrite andb_true_r.
  destruct (Z.ltb_spec (Available b) (zlen p)) as [Hlt|Hge].
  2: { eexists _, _. split_and!; [reflexivity|split_and!; done|done..]. }
  destruct b as [w size [|c buf] err]; [done|]. cbn [bw_buf bw_wr bw_size bw_err] in *. subst err.
  set (n := Z.to_nat (Available _)). set (b1 := mkBufio _ _ _ _).
  assert (H1 : bufio_inv b1).
  { split_and!; simpl; [done|done|done|]. unfold n, Available in *; simpl in *. len. }
  destruct (bufio_Flush_ok b1 H1) as (b2 & E2 & H2 & Eb & Ew & Esz). rewrite E2. subst fuel. simpl snd.
  destruct (bufio_fill_empty 0 (drop n p) b2 H2 Eb) as (rest & b' & -> & H' & Hr & Ew' & Esz').
  exists rest, b'. split_and!; [done|done|done| |by rewrite Esz', Esz].
  rewrite Ew', Ew. unfold b1, bufio_written. simpl.
  rewrite <- !app_assoc. simpl. by rewrite <- app_assoc, take_drop.
Qed.
End bufio_ok.

(** A [bufio.Writer] keeps the contract of the writer under it. *)
#[global, program] Instance bufio_WriterOk `{WriterOk W} : WriterOk (bufioWriter W) := {
  writer_inv := bufio_inv;
  written := bufio_written
}.
Next Obligation.
  intros W ? ? p b Hb. unfold Write, bufio_Write.
  destruct (bufio_fill_ok p b Hb) as (rest & b' & -> & (Hw & He & Hs & Hl) & Hr & Ew & Esz).
  rewrite He. eexists. split; [reflexivity|]. unfold Available in Hr. split.
  - split_and!; simpl; [done|done|done|len].
  - rewrite <- Ew. unfold bufio_written. simpl. by rewrite app_assoc.
Qed.
