(* ===== verification/Decimal.v ===== *)
(** * Decimal numbers in strings

    The conversions of [strconv] and [fmt] that file names, offset-store keys and
    checkpoint lines go through: [strconv.Itoa]/[FormatInt], the [%020d] verb and
    [strconv.ParseInt] with base 10 and 64 bits. *)
From Stdlib Require Import ZArith Lia Strings.Ascii.
From stdpp Require Import base list strings.
From S2P Require Import Prelude.
Open Scope Z_scope.

Abbreviation to_chars := String.list_ascii_of_string.
Abbreviation of_chars := String.string_of_list_ascii.

Definition digit (d : Z) : ascii := ascii_of_N (Z.to_N (48 + d)).

Definition digit_val (c : ascii) : option Z :=
  let k := Z.of_N (N_of_ascii c) - 48 in
  if (0 <=? k) && (k <=? 9) then Some k else None.

(** The digits of a natural number; one turn per digit, and a number has no more
    decimal digits than bits. *)
Fixpoint render (fuel : nat) (n : Z) : list ascii :=
  match fuel with
  | O => []
  | S fuel' => if n <? 10 then [digit n] else render fuel' (n / 10) ++ [digit (n mod 10)]
  end.
Definition digits (n : Z) : list ascii := render (Z.to_nat (Z.log2 n + 1)) n.

(** [strconv.Itoa(n)], [strconv.FormatInt(n, 10)] and [%d]. *)
Definition Itoa (n : Z) : string :=
  of_chars (if n <? 0 then "-"%char :: digits (- n) else digits n).

(** [%020d]: zero-padded to 20 characters, the sign included. *)
Definition fmt_020d (n : Z) : string :=
  let ds := digits (Z.abs n) in
  of_chars (if n <? 0 then "-"%char :: replicate (19 - length ds) "0"%char ++ ds
            else replicate (20 - length ds) "0"%char ++ ds).

(** The digit loop of [strconv.ParseUint]. *)
Definition parse_digits (l : list ascii) (acc : option Z) : option Z :=
  fold_left (λ acc c, a ← acc; d ← digit_val c; Some (10 * a + d)) l acc.

(** [strconv.ParseInt(s, 10, 64)]: [None] is a syntax or range error. *)
Definition ParseInt (s : string) : option Z :=
  let '(neg, body) :=
    match to_chars s with
    | "+"%char :: l => (false, l)
    | "-"%char :: l => (true, l)
    | l => (false, l)
    end in
  match body with
  | [] => None
  | _ =>
      n ← parse_digits body (Some 0);
      let v := if neg : bool then - n else n in
      if bool_decide (inS 64 v) then Some v else None
  end.

(** ** Printing then parsing *)

Lemma digit_val_digit d : 0 ≤ d < 10 → digit_val (digit d) = Some d.
Proof.
  intros Hd. apply (bool_decide_eq_true (digit_val (digit d) = Some d)). revert d Hd.
  apply (forall_below 10). vm_compute. reflexivity.
Qed.

Definition is_digit (c : ascii) : Prop := digit_val c ≠ None.

Lemma digit_is_digit d : 0 ≤ d < 10 → is_digit (digit d).
Proof. intros Hd. unfold is_digit. by rewrite digit_val_digit. Qed.

(** Signs, separators and blanks are not digits. *)
Lemma not_digit c : c ∈ ["-"; "+"; ":"; " "; "."; "010"]%char → ¬ is_digit c.
Proof. unfold is_digit. rewrite !elem_of_cons, elem_of_nil. intros Hc H.
  destruct_or! Hc; subst; by apply H.
Qed.

Lemma render_digits fuel n : 0 ≤ n → Forall is_digit (render fuel n).
Proof.
  revert n. induction fuel as [|fuel IH]; intros n Hn; simpl; [constructor|].
  destruct (Z.ltb_spec n 10).
  - repeat constructor. by apply digit_is_digit.
  - rewrite Forall_app. split; [apply IH, Z.div_pos; lia|].
    repeat constructor. apply digit_is_digit, Z.mod_pos_bound. lia.
Qed.

Lemma parse_digits_app l1 l2 acc :
  parse_digits (l1 ++ l2) acc = parse_digits l2 (parse_digits l1 acc).
Proof. apply fold_left_app. Qed.

Lemma parse_digits_1 c d a : digit_val c = Some d → parse_digits [c] (Some a) = Some (10 * a + d).
Proof. intros H. unfold parse_digits, fold_left, mbind, option_bind. by rewrite H. Qed.

Lemma parse_render fuel n : 0 ≤ n < 10 ^ Z.of_nat fuel → parse_digits (render fuel n) (Some 0) = Some n.
Proof.
  revert n. induction fuel as [|fuel IH]; intros n Hn; [simpl in *; f_equal; lia|].
  cbn [render]. destruct (Z.ltb_spec n 10).
  - erewrite parse_digits_1 by (apply digit_val_digit; lia). done.
  - rewrite Nat2Z.inj_succ, Z.pow_succ_r in Hn by lia.
    rewrite parse_digits_app, IH.
    + erewrite parse_digits_1 by (apply digit_val_digit, Z.mod_pos_bound; lia). f_equal.
      pose proof (Z.div_mod n 10 ltac:(lia)). lia.
    + split; [apply Z.div_pos; lia|]. apply Z.div_lt_upper_bound; lia.
Qed.

Lemma parse_zeros k l : parse_digits (replicate k "0"%char ++ l) (Some 0) = parse_digits l (Some 0).
Proof. induction k; [done|]. simpl. done. Qed.

Lemma parse_digits_digits n : 0 ≤ n → parse_digits (digits n) (Some 0) = Some n.
Proof.
  intros Hn. apply parse_render. split; [done|]. pose proof (Z.log2_nonneg n).
  rewrite Z2Nat.id by lia. destruct (decide (n = 0)) as [->|]; [done|].
  pose proof (Z.log2_spec n ltac:(lia)) as [_ Hlt]. rewrite <- Z.add_1_r in Hlt.
  apply Z.lt_le_trans with (1 := Hlt). apply Z.pow_le_mono_l. lia.
Qed.

Lemma digits_digit n : 0 ≤ n → Forall is_digit (digits n).
Proof. apply render_digits. Qed.

Lemma digits_not_nil n : 0 ≤ n → digits n ≠ [].
Proof.
  intros. unfold digits. pose proof (Z.log2_nonneg n).
  destruct (Z.to_nat (Z.log2 n + 1)) eqn:E; [lia|]. simpl.
  destruct (n <? 10); [done|]. by destruct (render _ _).
Qed.

(** An unsigned run of digits is parsed as such. *)
Lemma ParseInt_digits l n : l ≠ [] → Forall is_digit l → parse_digits l (Some 0) = Some n →
  inS 64 n → ParseInt (of_chars l) = Some n.
Proof.
  intros Hl Hd Hp Hn. unfold ParseInt. rewrite String.list_ascii_of_string_of_list_ascii.
  destruct l as [|c l]; [done|]. apply Forall_cons in Hd as [Hc _].
  assert (c ≠ "+"%char) by (intros ->; by apply Hc).
  assert (c ≠ "-"%char) by (intros ->; by apply Hc).
  assert (E : (match c :: l with "+"%char :: l0 => (false, l0) | "-"%char :: l0 => (true, l0)
               | l0 => (false, l0) end) = (false, c :: l)).
  { destruct c as [[] [] [] [] [] [] [] []]; done. }
  rewrite E. cbn match. rewrite Hp. simpl. by rewrite bool_decide_true.
Qed.

Lemma ParseInt_Itoa n : inS 64 n → ParseInt (Itoa n) = Some n.
Proof.
  intros Hn. unfold Itoa. destruct (Z.ltb_spec n 0).
  - unfold ParseInt. rewrite String.list_ascii_of_string_of_list_ascii. cbn match.
    pose proof (digits_not_nil (- n) ltac:(lia)).
    destruct (digits (- n)) eqn:E; [done|]. rewrite <- E.
    rewrite parse_digits_digits by lia. simpl.
    rewrite Z.opp_involutive. by rewrite bool_decide_true.
  - apply ParseInt_digits; [by apply digits_not_nil|by apply digits_digit| |done].
    by apply parse_digits_digits.
Qed.

(** The names of segment files determine their base offsets. *)
Lemma ParseInt_fmt_020d n : 0 ≤ n → inS 64 n → ParseInt (fmt_020d n) = Some n.
Proof.
  intros H0 Hn. unfold fmt_020d. rewrite Z.abs_eq by done. case_test.
  pose proof (digits_not_nil n H0). apply ParseInt_digits; [| | |done].
  - intros E. by apply app_eq_nil in E as [_ ?].
  - apply Forall_app. split; [|by apply digits_digit]. apply Forall_replicate. done.
  - rewrite parse_zeros. by apply parse_digits_digits.
Qed.

Lemma length_render fuel n : 0 < n → (length (render fuel n) ≤ 1 + Z.to_nat (Z.log2 n))%nat ∧
  (∀ k : nat, n < 10 ^ Z.of_nat (S k) → (length (render fuel n) ≤ S k)%nat).
Proof.
  revert n. induction fuel as [|fuel IH]; intros n Hn; simpl; [split; intros; lia|].
  destruct (Z.ltb_spec n 10); simpl; [split; intros; lia|].
  assert (0 < n / 10) by (apply Z.div_str_pos; lia). destruct (IH (n / 10) ltac:(done)) as [H1 H2].
  rewrite length_app. simpl. split.
  - assert (Z.log2 (n / 10) + 1 ≤ Z.log2 n).
    { rewrite Z.add_1_r. rewrite <- (Z.log2_double (n / 10)) by done. apply Z.log2_le_mono.
      pose proof (Z.mul_div_le n 10 ltac:(lia)). lia. }
    pose proof (Z.log2_nonneg (n / 10)). lia.
  - intros k Hk. destruct k as [|k]; [simpl in Hk; lia|].
    assert (n / 10 < 10 ^ Z.of_nat (S k)).
    { apply Z.div_lt_upper_bound; [lia|]. rewrite Nat2Z.inj_succ, Z.pow_succ_r in Hk by lia. lia. }
    specialize (H2 k). lia.
Qed.

Lemma length_fmt_020d n : 0 ≤ n → inS 64 n → length (to_chars (fmt_020d n)) = 20%nat.
Proof.
  intros H0 Hn. unfold fmt_020d. rewrite Z.abs_eq by done. case_test.
  rewrite String.list_ascii_of_string_of_list_ascii.
  assert (length (digits n) ≤ 20)%nat; [|len].
  destruct (decide (n = 0)) as [->|]; [vm_compute; lia|].
  apply length_render; [lia|]. widths. lia.
Qed.

Lemma length_Itoa n : inS 64 n → (length (to_chars (Itoa n)) ≤ 21)%nat.
Proof.
  intros Hn. unfold Itoa. rewrite String.list_ascii_of_string_of_list_ascii.
  assert (Hd : ∀ m, 0 ≤ m → m ≤ 2 ^ 63 → (length (digits m) ≤ 20)%nat).
  { intros m H0 Hm. destruct (decide (m = 0)) as [->|]; [vm_compute; lia|]. apply length_render; lia. }
  widths. destruct (Z.ltb_spec n 0); cbn [length].
  - specialize (Hd (- n)). lia.
  - specialize (Hd n). lia.
Qed.

(** The characters of a printed integer. *)
Lemma Itoa_chars n : Forall (λ c, is_digit c ∨ c = "-"%char) (to_chars (Itoa n)).
Proof.
  unfold Itoa. rewrite String.list_ascii_of_string_of_list_ascii.
  destruct (Z.ltb_spec n 0); [constructor; [by right|]|];
    (eapply Forall_impl; [apply digits_digit; lia|]); auto.
Qed.

Lemma Itoa_inj a b : inS 64 a → inS 64 b → Itoa a = Itoa b → a = b.
Proof. intros Ha Hb E. apply ParseInt_Itoa in Ha, Hb. congruence. Qed.

Lemma fmt_020d_inj a b : 0 ≤ a → inS 64 a → 0 ≤ b → inS 64 b → fmt_020d a = fmt_020d b → a = b.
Proof. intros ???? E. apply Some_inj. rewrite <- !ParseInt_fmt_020d by done. by rewrite E. Qed.
