(* ===== verification/Segment.v ===== *)
(** * Log segments (src/internal/storage/segment.go)

    A segment is a pair of files: record images back to back, behind a buffered
    writer, and the sparse index. The abstract view of a segment is the list of its
    records; [Append], [Read] and [ReadFrom] are proved against that list. *)
From Stdlib Require Import ZArith Lia Strings.Byte.
From stdpp Require Import base list strings gmap.
From S2P Require Import Prelude Files Decimal Record Index.
Open Scope Z_scope.

(** ** Configuration *)

Definition defaultSegmentBytes : Z := 128 * 1024 * 1024.
Definition defaultIndexMaxBytes : Z := 10 * 1024 * 1024.
Definition defaultIndexIntervalBytes : Z := 4096.
Definition defaultRetentionMs : Z := 7 * 24 * 60 * 60 * 1000.
Definition defaultRetentionBytes : Z := -1.
Definition defaultFlushMs : Z := 1000.
Definition defaultFlushMessages : Z := 0.
Definition defaultSegmentMs : Z := 7 * 24 * 60 * 60 * 1000.

Record Config := mkConfig {
  SegmentBytes : Z;
  IndexMaxBytes : Z;
  IndexIntervalBytes : Z;
  RetentionMs : Z;
  RetentionBytes : Z;
  FlushMs : Z;
  FlushMessages : Z;
  SegmentMs : Z
}.

Definition withDefaults (c : Config) : Config := {|
  SegmentBytes := if c.(SegmentBytes) <=? 0 then defaultSegmentBytes else c.(SegmentBytes);
  IndexMaxBytes := if c.(IndexMaxBytes) <=? 0 then defaultIndexMaxBytes else c.(IndexMaxBytes);
  IndexIntervalBytes := if c.(IndexIntervalBytes) <=? 0 then defaultIndexIntervalBytes
                        else c.(IndexIntervalBytes);
  RetentionMs := if c.(RetentionMs) =? 0 then defaultRetentionMs else c.(RetentionMs);
  RetentionBytes := if c.(RetentionBytes) =? 0 then defaultRetentionBytes else c.(RetentionBytes);
  FlushMs := if c.(FlushMs) =? 0 then defaultFlushMs else c.(FlushMs);
  FlushMessages := if c.(FlushMessages) <? 0 then defaultFlushMessages else c.(FlushMessages);
  SegmentMs := if c.(SegmentMs) =? 0 then defaultSegmentMs else c.(SegmentMs)
|}.

(** ** State *)

(** The files of a partition directory that no open segment holds; opening a
    segment takes its two files out of the map and closing it puts them back. *)
Abbreviation Dir := (gmap string bytes).

Definition log_path (baseOffset : Z) : string := fmt_020d baseOffset +:+ ".log".
Definition index_path (baseOffset : Z) : string := fmt_020d baseOffset +:+ ".index".

(** [logFile] is the file under [seg_writer]; [readFile] is a second handle on the
    same file, read only by position. Times are nanoseconds. *)
Record Segment := mkSegment {
  BaseOffset : Z;                      (* int64 *)
  NextOffset : Z;                      (* int64 *)
  seg_writer : bufioWriter osFile;
  seg_index : Index;
  seg_maxBytes : Z;
  seg_indexInterval : Z;
  seg_bytesWritten : Z;
  seg_bytesSinceLastIndex : Z;
  CreatedAt : Z;
  seg_closed : bool
}.

Definition set_writer (w : bufioWriter osFile) (s : Segment) : Segment :=
  mkSegment s.(BaseOffset) s.(NextOffset) w s.(seg_index) s.(seg_maxBytes) s.(seg_indexInterval)
    s.(seg_bytesWritten) s.(seg_bytesSinceLastIndex) s.(CreatedAt) s.(seg_closed).
Definition set_index (i : Index) (s : Segment) : Segment :=
  mkSegment s.(BaseOffset) s.(NextOffset) s.(seg_writer) i s.(seg_maxBytes) s.(seg_indexInterval)
    s.(seg_bytesWritten) s.(seg_bytesSinceLastIndex) s.(CreatedAt) s.(seg_closed).
Definition set_counters (written since : Z) (s : Segment) : Segment :=
  mkSegment s.(BaseOffset) s.(NextOffset) s.(seg_writer) s.(seg_index) s.(seg_maxBytes)
    s.(seg_indexInterval) written since s.(CreatedAt) s.(seg_closed).
Definition set_closed (b : bool) (s : Segment) : Segment :=
  mkSegment s.(BaseOffset) s.(NextOffset) s.(seg_writer) s.(seg_index) s.(seg_maxBytes)
    s.(seg_indexInterval) s.(seg_bytesWritten) s.(seg_bytesSinceLastIndex) s.(CreatedAt) b.

Definition seg_logFile (s : Segment) : osFile := s.(seg_writer).(bw_wr).

(** [SetNextOffset]. *)
Definition SetNextOffset (offset : Z) (s : Segment) : Segment :=
  mkSegment s.(BaseOffset) offset s.(seg_writer) s.(seg_index) s.(seg_maxBytes)
    s.(seg_indexInterval) s.(seg_bytesWritten) s.(seg_bytesSinceLastIndex) s.(CreatedAt)
    s.(seg_closed).

(** The size of the write buffer. *)
Definition segment_bufsize : Z := 256 * 1024.

(** [NewSegment(dir, baseOffset, cfg)]; [ModTime] is what [Stat] reports for an
    existing file and [now] the clock. *)
Definition NewSegment (ModTime : string → Z) (now baseOffset : Z) (cfg : Config) : M Dir Segment :=
  λ d,
  let cfg := withDefaults cfg in
  let logPath := log_path baseOffset in
  let indexPath := index_path baseOffset in
  let data := default [] (d !! logPath) in
  let bytesWritten := zlen data in
  let createdAt := if 0 <? bytesWritten then ModTime logPath else now in
  let logFile := File_Seek bytesWritten (mkFile data 0) in
  match NewIndex (default [] (d !! indexPath)) cfg.(IndexMaxBytes) with
  | Err e => (Err (wrapError "segment: open index file" e), <[logPath := data]> d)
  | Ok index =>
      (Ok (mkSegment baseOffset baseOffset (NewWriterSize logFile segment_bufsize) index
             cfg.(SegmentBytes) cfg.(IndexIntervalBytes) bytesWritten 0 createdAt false),
       delete indexPath (delete logPath d))
  end.

(** ** Writing *)

Definition set_Offset (offset : Z) (r : record) : record :=
  mkRecord offset r.(rec_Timestamp) r.(rec_Attributes) r.(rec_Key) r.(rec_Value).

(** The indexing decision shared by [Append] and [rebuildSegment]: an entry for
    the first record, and one whenever [indexInterval] bytes have accumulated. *)
Definition index_record (offset position : Z) : M Segment unit := λ s,
  if (Entries s.(seg_index) =? 0) || (s.(seg_indexInterval) <=? s.(seg_bytesSinceLastIndex)) then
    let relativeOffset := uint32 (offset - s.(BaseOffset)) in
    match Index_Append relativeOffset position s.(seg_index) with
    | (Err e, i) => (Err e, set_index i s)
    | (Ok _, i) => (Ok tt, set_counters s.(seg_bytesWritten) 0 (set_index i s))
    end
  else (Ok tt, s).

(** [Append(rec)]; [None] is a nil record. *)
Definition Segment_Append (rec : option record) : M Segment Z := λ s,
  if s.(seg_closed) then (Err ErrSegmentClosed, s)
  else match rec with
  | None => (Err (errorString "segment: append nil record"), s)
  | Some rec =>
      if MaxUint32 <? s.(seg_bytesWritten)
      then (Err (errorString "segment: log position exceeds uint32 index range"), s)
      else
        let offset := s.(NextOffset) in
        let rec := set_Offset offset rec in
        let position := uint32 s.(seg_bytesWritten) in
        match Encode (Some rec) s.(seg_writer) with
        | (Err e, w) => (Err (wrapError "segment: encode record" e), set_writer w s)
        | (Ok n, w) =>
            let s := set_counters (s.(seg_bytesWritten) + n) (s.(seg_bytesSinceLastIndex) + n)
                       (set_writer w s) in
            match index_record offset position s with
            | (Err e, s) => (Err (wrapError "segment: append to index" e), s)
            | (Ok _, s) => (Ok offset, SetNextOffset (int64 (s.(NextOffset) + 1)) s)
            end
        end
  end.

(** [IsFull]. *)
Definition IsFull (s : Segment) : bool :=
  if s.(seg_closed) then true
  else if s.(seg_maxBytes) <=? s.(seg_bytesWritten) then true
  else s.(seg_index).(idx_maxSize) <? Index_Size s.(seg_index) + entrySize.

(** [Size]. *)
Definition Segment_Size (s : Segment) : Z := s.(seg_bytesWritten).

(** [FlushWriter]. *)
Definition FlushWriter : M Segment unit := λ s,
  if s.(seg_closed) then (Err ErrSegmentClosed, s)
  else match bufio_Flush s.(seg_writer) with
  | (Err e, w) => (Err (wrapError "segment: flush writer" e), set_writer w s)
  | (Ok _, w) => (Ok tt, set_writer w s)
  end.

(** [Flush]: [FlushWriter] and an fsync, which changes nothing visible. *)
Definition Segment_Flush : M Segment unit := λ s,
  if s.(seg_closed) then (Err ErrSegmentClosed, s)
  else match bufio_Flush s.(seg_writer) with
  | (Err e, w) => (Err (wrapError "segment: flush writer" e), set_writer w s)
  | (Ok _, w) => (Ok tt, set_writer w s)
  end.

(** [Close]: the files go back to the directory. *)
Definition Segment_Close : M (Segment * Dir) unit := λ '(s, d),
  if s.(seg_closed) then (Ok tt, (s, d))
  else
    let s := set_closed true s in
    let '(r, w) := bufio_Flush s.(seg_writer) in
    let s := set_index (Index_Close s.(seg_index)) (set_writer w s) in
    let d := <[log_path s.(BaseOffset) := (seg_logFile s).(file_data)]>
             (<[index_path s.(BaseOffset) := s.(seg_index).(idx_disk)]> d) in
    (match r with Ok _ => Ok tt | Err e => Err (wrapError "segment: flush writer" e) end, (s, d)).

(** [Remove]; [removeOk path] tells whether the operating system lets the file be
    deleted. *)
Definition Segment_Remove (removeOk : string → bool) : M (Segment * Dir) unit := λ sd,
  match Segment_Close sd with
  | (Err e, sd) => (Err e, sd)
  | (Ok _, (s, d)) =>
      let logPath := log_path s.(BaseOffset) in
      let indexPath := index_path s.(BaseOffset) in
      if negb (removeOk logPath) then (Err (errorString "segment: remove log file"), (s, d))
      else
        let d := delete logPath d in
        if negb (removeOk indexPath) then (Err (errorString "segment: remove index file"), (s, d))
        else (Ok tt, (s, delete indexPath d))
  end.

(** ** Reading *)

(** [readHandle] followed by [Seek(position)]: the bytes of the file from
    [position] up to the logical end. *)
Definition readHandle (position : Z) (s : Segment) : bytes :=
  drop (Z.to_nat position) (take (Z.to_nat s.(seg_bytesWritten)) (seg_logFile s).(file_data)).

Definition is_EOF (e : error) : bool := errors_Is e EOF || errors_Is e ErrUnexpectedEOF.

Definition not_found : error := errorString "segment: offset not found".

(** The loop of [scanFrom]. A decoded record takes at least one byte of the
    stream, so the length of the stream bounds the turns. *)
Fixpoint scan_loop (fuel : nat) (target : Z) (br : bytes) : result record :=
  match fuel with
  | O => Err (errorString "out of fuel")
  | S fuel' =>
      match DecodeRecord br with
      | ((_, Err e), _) =>
          if is_EOF e then Err not_found else Err (wrapError "segment: decode record" e)
      | ((_, Ok rec), br) =>
          if rec.(rec_Offset) =? target then Ok rec
          else if target <? rec.(rec_Offset) then Err not_found
          else scan_loop fuel' target br
      end
  end.

Definition scanFrom (position target : Z) (s : Segment) : result record :=
  let br := readHandle position s in scan_loop (S (length br)) target br.

Definition readAt (position target : Z) (s : Segment) : result record :=
  match DecodeRecord (readHandle position s) with
  | ((_, Err e), _) =>
      if is_EOF e then Err not_found else Err (wrapError "segment: decode record" e)
  | ((_, Ok rec), _) =>
      if negb (rec.(rec_Offset) =? target) then scanFrom position target s else Ok rec
  end.

(** [Read(offset)]. *)
Definition Segment_Read (offset : Z) (s : Segment) : result record :=
  if s.(seg_closed) then Err ErrSegmentClosed
  else if offset <? s.(BaseOffset) then Err ErrOffsetOutOfRange
  else
    let relativeOffset := uint32 (offset - s.(BaseOffset)) in
    match Lookup relativeOffset s.(seg_index) with
    | Err e => Err (wrapError "segment: index lookup" e)
    | Ok (position, true) => readAt position offset s
    | Ok (position, false) => scanFrom position offset s
    end.

(** The loop of [ReadFrom], with the [int32] accumulator. *)
Fixpoint read_loop (fuel : nat) (offset maxBytes : Z) (br : bytes)
    (records : list record) (accumulated : Z) : list record * option error :=
  match fuel with
  | O => (records, Some (errorString "out of fuel"))
  | S fuel' =>
      match DecodeRecord br with
      | ((_, Err e), _) =>
          if is_EOF e then (records, None)
          else (records, Some (wrapError "segment: decode record" e))
      | ((n, Ok rec), br) =>
          if rec.(rec_Offset) <? offset then read_loop fuel' offset maxBytes br records accumulated
          else if (0 <? accumulated) && (maxBytes <? int32 (accumulated + int32 n))
          then (records, None)
          else read_loop fuel' offset maxBytes br (records ++ [rec]) (int32 (accumulated + int32 n))
      end
  end.

(** [ReadFrom(offset, maxBytes)]. *)
Definition Segment_ReadFrom (offset maxBytes : Z) (s : Segment) : list record * option error :=
  if s.(seg_closed) then ([], Some ErrSegmentClosed)
  else if maxBytes <=? 0 then ([], None)
  else if offset <? s.(BaseOffset) then ([], Some ErrOffsetOutOfRange)
  else
    let relativeOffset := uint32 (offset - s.(BaseOffset)) in
    match Lookup relativeOffset s.(seg_index) with
    | Err e => ([], Some (wrapError "segment: index lookup" e))
    | Ok (position, _) =>
        let br := readHandle position s in
        read_loop (S (length br)) offset maxBytes br [] 0
    end.

(** ** The abstract view *)

(** The record images back to back. *)
Definition images (rs : list record) : bytes := mjoin (record_image <$> rs).

(** What [Append] accepts, its offset included. *)
Definition storable (r : record) : Prop := record_wf r ∧ EncodedSize r ≤ MaxRecordSize.
#[global] Instance storable_dec r : Decision (storable r).
Proof. unfold storable. apply _. Defined.

(** The [i]-th record has offset [base + i]. *)
Definition consecutive (base : Z) (rs : list record) : Prop :=
  ∀ i r, rs !! i = Some r → r.(rec_Offset) = base + Z.of_nat i.

(** The index a segment with records [rs] has: entries, bytes so far, bytes since
    the last entry. *)
Definition index_step (base interval : Z) (st : list (Z * Z) * Z * Z) (r : record) :=
  let '(l, pos, since) := st in
  let since := since + EncodedSize r in
  if (zlen l =? 0) || (interval <=? since)
  then (l ++ [(r.(rec_Offset) - base, pos)], pos + EncodedSize r, 0)
  else (l, pos + EncodedSize r, since).
Definition index_of (base interval : Z) (rs : list record) : list (Z * Z) * Z * Z :=
  fold_left (index_step base interval) rs ([], 0, 0).
Definition entries_of (base interval : Z) (rs : list record) : list (Z * Z) :=
  (index_of base interval rs).1.1.

(** Every record starts at a position that fits the index. *)
Definition starts_ok (rs : list record) : Prop :=
  ∀ i, (i < length rs)%nat → zlen (images (take i rs)) ≤ MaxUint32.

(** An open segment whose files (the write buffer included) hold [rs]. *)
Record seg_data (s : Segment) (rs : list record) : Prop := {
  sd_open : s.(seg_closed) = false;
  sd_writer : writer_inv s.(seg_writer);
  sd_bytes : written s.(seg_writer) = images rs;
  sd_size : s.(seg_bytesWritten) = zlen (images rs);
  sd_starts : starts_ok rs;
  sd_ok : Forall storable rs;
  sd_consec : consecutive s.(BaseOffset) rs;
  sd_interval : 0 < s.(seg_indexInterval);
  sd_index : index_rep s.(seg_index) (entries_of s.(BaseOffset) s.(seg_indexInterval) rs)
}.

(** An open segment ready to append after [rs]. *)
Record seg_rep (s : Segment) (rs : list record) : Prop := {
  sr_data :> seg_data s rs;
  sr_next : s.(NextOffset) = s.(BaseOffset) + zlen rs;
  sr_since : s.(seg_bytesSinceLastIndex) = (index_of s.(BaseOffset) s.(seg_indexInterval) rs).2
}.

Definition flushed (s : Segment) : Prop := s.(seg_writer).(bw_buf) = [].

(** What [ReadFrom] returns: records while the byte budget lasts, at least one. *)
Fixpoint take_budget (maxBytes acc : Z) (rs : list record) : list record :=
  match rs with
  | [] => []
  | r :: rs =>
      if (0 <? acc) && (maxBytes <? acc + EncodedSize r) then []
      else r :: take_budget maxBytes (acc + EncodedSize r) rs
  end.

Definition total_size (rs : list record) : Z := foldr (λ r n, EncodedSize r + n) 0 rs.

(** ** Images *)

Lemma images_cons r rs : images (r :: rs) = record_image r ++ images rs.
Proof. done. Qed.

Lemma images_app rs1 rs2 : images (rs1 ++ rs2) = images rs1 ++ images rs2.
Proof. unfold images. by rewrite fmap_app, join_app. Qed.

Lemma images_snoc rs r : images (rs ++ [r]) = images rs ++ record_image r.
Proof. rewrite images_app, images_cons. unfold images at 2. simpl. by rewrite app_nil_r. Qed.

Lemma length_images rs : zlen (images rs) = total_size rs.
Proof.
  induction rs as [|r rs IH]; [done|]. rewrite images_cons, length_app, Nat2Z.inj_add, IH.
  by rewrite length_record_image.
Qed.

Lemma total_size_app rs1 rs2 : total_size (rs1 ++ rs2) = total_size rs1 + total_size rs2.
Proof. induction rs1; simpl; lia. Qed.

Lemma total_size_min rs : 33 * zlen rs ≤ total_size rs.
Proof. induction rs as [|r rs IH]; simpl length in *; simpl total_size; [lia|]. pose proof (EncodedSize_min r). lia. Qed.

Lemma decode_images r rs tail : storable r →
  DecodeRecord (images (r :: rs) ++ tail) = ((EncodedSize r, Ok r), images rs ++ tail).
Proof. intros [Hwf Hsz]. rewrite images_cons, <- app_assoc. by apply decode_image. Qed.

Lemma decode_images' r rs : storable r →
  DecodeRecord (images (r :: rs)) = ((EncodedSize r, Ok r), images rs).
Proof. intros Hr. rewrite <- (app_nil_r (images _)), <- (app_nil_r (images rs)). by apply decode_images. Qed.

Lemma images_drop i rs :
  drop (Z.to_nat (zlen (images (take i rs)))) (images rs) = images (drop i rs).
Proof.
  rewrite <- (take_drop i rs) at 2. rewrite images_app, Nat2Z.id. apply drop_app_length.
Qed.

Lemma consecutive_drop base rs i : consecutive base rs →
  consecutive (base + Z.of_nat i) (drop i rs).
Proof. intros H j r Hj. rewrite lookup_drop in Hj. rewrite (H _ _ Hj). lia. Qed.

Lemma consecutive_cons base r rs : consecutive base (r :: rs) →
  r.(rec_Offset) = base ∧ consecutive (base + 1) rs.
Proof.
  intros H. split; [rewrite (H 0%nat r eq_refl); simpl; lia|].
  intros i r' Hi. rewrite (H (S i) r' Hi). lia.
Qed.

Lemma consecutive_app base rs1 rs2 : consecutive base rs1 →
  consecutive (base + zlen rs1) rs2 → consecutive base (rs1 ++ rs2).
Proof.
  intros H1 H2 i r [Hi|[Hlt Hi]]%lookup_app_Some; [by apply H1|]. rewrite (H2 _ _ Hi). lia.
Qed.

Lemma consecutive_snoc base rs r : consecutive base rs →
  r.(rec_Offset) = base + zlen rs → consecutive base (rs ++ [r]).
Proof.
  intros H Hr i r' Hi. apply lookup_app_Some in Hi as [Hi|[Hl Hi]]; [by apply H|].
  apply list_lookup_singleton_Some in Hi as [? ->]. rewrite Hr. lia.
Qed.

Lemma consecutive_take base rs i : consecutive base rs → consecutive base (take i rs).
Proof. intros H j r Hj. apply lookup_take_Some in Hj as [Hj _]. by apply H. Qed.

Lemma starts_ok_snoc rs r : starts_ok rs → zlen (images rs) ≤ MaxUint32 → starts_ok (rs ++ [r]).
Proof.
  intros H Hr i Hi. rewrite length_app in Hi. simpl in Hi.
  destruct (decide (i = length rs)) as [->|]; [by rewrite take_app_length|].
  rewrite take_app_le by lia. apply H. lia.
Qed.

Lemma starts_ok_take rs i : starts_ok rs → starts_ok (take i rs).
Proof. intros H j Hj. rewrite length_take in Hj. rewrite take_take, Nat.min_l by lia. apply H. lia. Qed.

Lemma starts_ok_length rs : starts_ok rs → zlen rs < 2 ^ 32.
Proof.
  intros H. destruct (decide (rs = [])) as [->|Hne]; [done|].
  assert (0 < length rs)%nat by (destruct rs; simpl; [done|lia]).
  specialize (H (length rs - 1)%nat ltac:(lia)). rewrite length_images in H.
  pose proof (total_size_min (take (length rs - 1) rs)) as Hm. rewrite length_take in Hm. widths. lia.
Qed.

(** ** The index of a list of records *)

Lemma index_of_snoc base interval rs r :
  index_of base interval (rs ++ [r]) = index_step base interval (index_of base interval rs) r.
Proof. unfold index_of. by rewrite fold_left_app. Qed.

(** Every entry points at the start of a record. *)
Definition points_into (rs : list record) (e : Z * Z) : Prop :=
  ∃ i : nat, (i < length rs)%nat ∧ e.1 = Z.of_nat i ∧ e.2 = zlen (images (take i rs)).

Lemma points_into_app rs rs' e : points_into rs e → points_into (rs ++ rs') e.
Proof.
  intros (i & Hi & E1 & E2). exists i. rewrite length_app, take_app_le by lia. split_and!; [lia|done..].
Qed.

Record index_of_spec (base interval : Z) (rs : list record) (st : list (Z * Z) * Z * Z) : Prop := {
  ios_pos : st.1.2 = zlen (images rs);
  ios_points : Forall (points_into rs) st.1.1;
  ios_sorted : sorted_entries st.1.1;
  ios_first : rs ≠ [] → st.1.1 ≠ [];
  ios_since : 0 ≤ st.2;
  ios_count : st.1.1 ≠ [] → interval * (zlen st.1.1 - 1) + st.2 ≤ zlen (images rs)
}.

Lemma index_of_ok base interval rs : 0 < interval → consecutive base rs →
  index_of_spec base interval rs (index_of base interval rs).
Proof.
  intros Hi. induction rs as [|r rs IH] using rev_ind; intros Hc.
  { constructor; simpl; try done. constructor. }
  assert (Hc' : consecutive base rs).
  { intros i r' Hr. apply Hc. by apply lookup_app_l_Some. }
  specialize (IH Hc'). rewrite index_of_snoc.
  destruct (index_of base interval rs) as [[l pos] since] eqn:E.
  destruct IH as [Hpos Hpt Hs Hf Hsi Hct]. simpl in *. unfold index_step.
  assert (Hr : rec_Offset r - base = zlen rs).
  { rewrite (Hc (length rs) r); [lia|]. rewrite lookup_app_r, Nat.sub_diag by lia. done. }
  assert (Hsz : zlen (images (rs ++ [r])) = pos + EncodedSize r).
  { rewrite images_snoc, length_app, Nat2Z.inj_add, length_record_image. lia. }
  pose proof (EncodedSize_min r).
  assert (Hpt' : Forall (points_into (rs ++ [r])) l).
  { eapply Forall_impl; [done|]. intros e. apply points_into_app. }
  rewrite Hr. destruct (Z.eqb_spec (zlen l) 0) as [Hl|Hl]; simpl.
  { destruct l as [|e l]; [|simpl in Hl; lia]. assert (rs = []) as -> by (destruct rs; [done|by destruct Hf]).
    constructor; simpl in *; [by rewrite Hsz| |repeat constructor|done|lia|intros; lia].
    repeat constructor. exists 0%nat. simpl. split_and!; [lia|done|lia]. }
  destruct (Z.leb_spec interval (since + EncodedSize r)).
  - constructor; simpl; [by rewrite Hsz| | |by destruct l|lia|].
    + apply Forall_app. split; [done|]. repeat constructor. exists (length rs).
      rewrite take_app_length, length_app. simpl. split_and!; [lia|done|lia].
    + unfold sorted_entries. rewrite fmap_app. apply StronglySorted_snoc; [done|].
      apply Forall_fmap. eapply Forall_impl; [exact Hpt|]. simpl. intros e (i & Hi' & -> & _). lia.
    + intros _. assert (l ≠ []) as Hne by (by destruct l). specialize (Hct Hne).
      rewrite length_app, Nat2Z.inj_add, Hsz. simpl. lia.
  - assert (l ≠ []) as Hne by (by destruct l). specialize (Hct Hne).
    constructor; simpl; [by rewrite Hsz|done|done|done|lia|intros _; lia].
Qed.

(** ** Writing *)

Lemma seg_data_writer s rs w : seg_data s rs → writer_inv w → written w = images rs →
  seg_data (set_writer w s) rs.
Proof. intros [] ??. by constructor. Qed.

Lemma seg_rep_writer s rs w : seg_rep s rs → writer_inv w → written w = images rs →
  seg_rep (set_writer w s) rs.
Proof. intros [] ??. constructor; [by apply seg_data_writer|done..]. Qed.

(** A flush makes the file the whole log. *)
Lemma bufio_flush_seg s rs : seg_data s rs → ∃ w,
  bufio_Flush s.(seg_writer) = (Ok tt, w) ∧ writer_inv w ∧ written w = images rs ∧ w.(bw_buf) = [].
Proof.
  intros Hd. destruct (bufio_Flush_ok _ (sd_writer _ _ Hd)) as (w & E & Hw & Hb & Ew & _).
  exists w. split_and!; [done|done| |done]. rewrite <- (sd_bytes _ _ Hd). done.
Qed.

Lemma FlushWriter_ok s rs : seg_data s rs → ∃ w,
  FlushWriter s = (Ok tt, set_writer w s) ∧ seg_data (set_writer w s) rs ∧ flushed (set_writer w s) ∧
  (seg_rep s rs → seg_rep (set_writer w s) rs).
Proof.
  intros Hd. destruct (bufio_flush_seg s rs Hd) as (w & E & Hw & Ew & Hb). exists w.
  unfold FlushWriter. rewrite (sd_open _ _ Hd), E.
  split_and!; [done|by apply seg_data_writer|done|]. intros. by apply seg_rep_writer.
Qed.

Lemma Segment_Flush_FlushWriter s : Segment_Flush s = FlushWriter s.
Proof. done. Qed.

(** One step of the indexing decision follows [index_step]. *)
Lemma index_record_step s rs r position :
  index_rep s.(seg_index) (entries_of s.(BaseOffset) s.(seg_indexInterval) rs) →
  s.(seg_bytesSinceLastIndex) =
    (index_of s.(BaseOffset) s.(seg_indexInterval) rs).2 + EncodedSize r →
  position = (index_of s.(BaseOffset) s.(seg_indexInterval) rs).1.2 → inU 32 position →
  inU 32 (r.(rec_Offset) - s.(BaseOffset)) →
  entrySize * zlen (entries_of s.(BaseOffset) s.(seg_indexInterval) (rs ++ [r]))
    ≤ s.(seg_index).(idx_maxSize) →
  ∃ i, index_record r.(rec_Offset) position s =
    (Ok tt, set_counters s.(seg_bytesWritten)
              (index_of s.(BaseOffset) s.(seg_indexInterval) (rs ++ [r])).2 (set_index i s)) ∧
    index_rep i (entries_of s.(BaseOffset) s.(seg_indexInterval) (rs ++ [r])) ∧
    idx_maxSize i = idx_maxSize (seg_index s).
Proof.
  unfold entries_of. rewrite index_of_snoc.
  destruct (index_of _ _ rs) as [[l pos] since] eqn:E. simpl fst. simpl snd.
  intros Hr Hsince -> Hpos Hrel Hroom. unfold index_record, index_step in *.
  rewrite (Entries_rep _ _ Hr), Hsince, wrapU_small by done.
  destruct (_ || _); simpl fst in *; simpl snd in *.
  - destruct (Index_Append_ok (seg_index s) l (rec_Offset r - BaseOffset s) pos Hr (conj Hrel Hpos))
      as (i & -> & Hi & Hmax); [|by exists i].
    rewrite (rep_size _ _ Hr). rewrite length_app in Hroom. simpl in Hroom. lia.
  - exists s.(seg_index). split; [|done]. destruct s. simpl in *. by rewrite Hsince.
Qed.

Lemma entries_of_snoc_le base interval rs r :
  zlen (entries_of base interval (rs ++ [r])) ≤ zlen (entries_of base interval rs) + 1.
Proof.
  unfold entries_of. rewrite index_of_snoc. destruct (index_of _ _ rs) as [[l pos] since].
  unfold index_step. destruct (_ || _); simpl; len.
Qed.

Lemma IsFull_false s rs : seg_data s rs → IsFull s = false →
  s.(seg_bytesWritten) < s.(seg_maxBytes) ∧
  s.(seg_index).(idx_size) + entrySize ≤ s.(seg_index).(idx_maxSize).
Proof.
  intros Hd. unfold IsFull, Index_Size. rewrite (sd_open _ _ Hd).
  destruct (Z.leb_spec (seg_maxBytes s) (seg_bytesWritten s)); [done|].
  intros ?%Z.ltb_ge. done.
Qed.

(** A record that the segment has room for is stored with the next offset. *)
Lemma Segment_Append_rep s rs r : seg_rep s rs → storable (set_Offset s.(NextOffset) r) →
  s.(seg_bytesWritten) ≤ MaxUint32 → inS 64 (s.(NextOffset) + 1) →
  s.(seg_index).(idx_size) + entrySize ≤ s.(seg_index).(idx_maxSize) →
  ∃ s', Segment_Append (Some r) s = (Ok s.(NextOffset), s') ∧
    seg_rep s' (rs ++ [set_Offset s.(NextOffset) r]) ∧
    s'.(BaseOffset) = s.(BaseOffset) ∧ s'.(seg_maxBytes) = s.(seg_maxBytes) ∧
    s'.(seg_indexInterval) = s.(seg_indexInterval) ∧
    s'.(seg_index).(idx_maxSize) = s.(seg_index).(idx_maxSize) ∧ s'.(CreatedAt) = s.(CreatedAt).
Proof.
  intros [Hd Hn Hs] Hr Hb H64 Hroom. set (r' := set_Offset (NextOffset s) r) in *.
  destruct (index_of_ok (BaseOffset s) (seg_indexInterval s) rs (sd_interval _ _ Hd) (sd_consec _ _ Hd))
    as [Hpos _ _ _ _ _].
  assert (Hlen : 33 * zlen rs ≤ zlen (images rs)) by (rewrite length_images; apply total_size_min).
  pose proof (sd_size _ _ Hd) as Hsz. pose proof (EncodedSize_min r') as Hmin.
  unfold Segment_Append. rewrite (sd_open _ _ Hd). case_test.
  destruct (Encode_ok r' _ (proj2 Hr) (sd_writer _ _ Hd)) as (w & E & Hw & Ew).
  fold r'. rewrite E, wrapU_small by width_lia.
  set (s1 := set_counters _ _ _).
  destruct (index_record_step s1 rs r' (seg_bytesWritten s)) as (i & Ei & Hi & Hmax); simpl.
  1: apply (sd_index _ _ Hd). 1: by rewrite Hs. 1: lia. 1: width_lia. 1: rewrite Hn; width_lia.
  1: { pose proof (entries_of_snoc_le (BaseOffset s) (seg_indexInterval s) rs r').
       pose proof (rep_size _ _ (sd_index _ _ Hd)). unfold entrySize in *. lia. }
  change (NextOffset s) with (rec_Offset r') at 1. rewrite Ei. eexists. split; [reflexivity|].
  split; [|by split_and!]. constructor; [constructor|..]; simpl in *; try done.
  - apply (sd_open _ _ Hd).
  - rewrite Ew, images_snoc. f_equal. apply (sd_bytes _ _ Hd).
  - rewrite images_snoc, length_app, Nat2Z.inj_add, length_record_image. lia.
  - apply starts_ok_snoc; [apply (sd_starts _ _ Hd)|lia].
  - apply Forall_app. split; [apply (sd_ok _ _ Hd)|by constructor].
  - apply consecutive_snoc; [apply (sd_consec _ _ Hd)|done].
  - apply (sd_interval _ _ Hd).
  - rewrite length_app, wrapS_small by done. simpl. lia.
Qed.

(** An oversized record is refused and leaves the segment as it was. *)
Lemma Segment_Append_too_large s rs r : seg_rep s rs → s.(seg_bytesWritten) ≤ MaxUint32 →
  MaxRecordSize < EncodedSize (set_Offset s.(NextOffset) r) →
  Segment_Append (Some r) s = (Err (wrapError "segment: encode record" ErrRecordTooLarge), s).
Proof.
  intros Hd Hb Hr. unfold Segment_Append. rewrite (sd_open _ _ Hd). case_test.
  rewrite Encode_too_large by done. by destruct s.
Qed.

(** ** Reading *)

Lemma readHandle_flushed s rs i : seg_data s rs → flushed s →
  readHandle (zlen (images (take i rs))) s = images (drop i rs).
Proof.
  intros Hd Hf. unfold readHandle, seg_logFile.
  assert (E : file_data (bw_wr (seg_writer s)) = images rs).
  { rewrite <- (sd_bytes _ _ Hd). simpl. unfold bufio_written. rewrite Hf. simpl. by rewrite app_nil_r. }
  rewrite E, (sd_size _ _ Hd), (take_ge (images rs)) by lia. apply images_drop.
Qed.

(** A lookup in the index gives the start of a record at or below the target. *)
Lemma Lookup_points s rs rel : seg_data s rs →
  ∃ pos found (i : nat), Lookup rel s.(seg_index) = Ok (pos, found) ∧
    pos = zlen (images (take i rs)) ∧ (i ≤ length rs)%nat ∧ (0 ≤ rel → Z.of_nat i ≤ rel).
Proof.
  intros Hd.
  destruct (index_of_ok (BaseOffset s) (seg_indexInterval s) rs (sd_interval _ _ Hd) (sd_consec _ _ Hd))
    as [_ Hpt Hs _ _ _].
  rewrite (Lookup_ref _ _ rel (sd_index _ _ Hd) Hs). unfold lookup_ref, entries_of.
  destruct (last _) as [[r p]|] eqn:El.
  - apply last_Some_elem_of, list_elem_of_filter in El as [Hle Hin]. simpl in Hle.
    eapply Forall_forall in Hpt; [|exact Hin]. destruct Hpt as (i & Hi & E1 & E2). simpl in *.
    exists p, (bool_decide (r = rel)), i. split_and!; [done|done|lia|intros; lia].
  - exists 0, false, 0%nat. split_and!; [done|done|lia|done].
Qed.

(** The entry is not past the target offset even when the relative offset wraps:
    a segment holds fewer than [2 ^ 32] records. *)
Lemma relative_offset_le s rs offset (i : nat) : seg_data s rs → s.(BaseOffset) ≤ offset →
  (i ≤ length rs)%nat → (0 ≤ uint32 (offset - s.(BaseOffset)) → Z.of_nat i ≤ uint32 (offset - s.(BaseOffset))) →
  s.(BaseOffset) + Z.of_nat i ≤ offset.
Proof.
  intros Hd Ho Hi Hrel. pose proof (wrapU_range 32 (offset - BaseOffset s) ltac:(lia)) as [H0 _].
  specialize (Hrel H0). destruct (Z.lt_ge_cases (offset - BaseOffset s) (2 ^ 32)).
  - rewrite wrapU_small in Hrel by (split; lia). lia.
  - pose proof (starts_ok_length rs (sd_starts _ _ Hd)). lia.
Qed.

(** Fuel beyond the length of the stream is enough. *)
Lemma images_fuel r rs (fuel : nat) : (length (images (r :: rs)) < S fuel)%nat →
  (length (images rs) < fuel)%nat.
Proof.
  rewrite images_cons, length_app. pose proof (length_record_image r). pose proof (EncodedSize_min r). lia.
Qed.

Lemma scan_loop_spec base rs (fuel : nat) target : Forall storable rs → consecutive base rs →
  base ≤ target → (length (images rs) < fuel)%nat →
  scan_loop fuel target (images rs) =
    match rs !! Z.to_nat (target - base) with Some r => Ok r | None => Err not_found end.
Proof.
  revert base fuel. induction rs as [|r rs IH]; intros base fuel Hok Hc Hb Hf.
  { destruct fuel; [lia|]. by simpl. }
  apply Forall_cons in Hok as [Hr Hok]. apply consecutive_cons in Hc as [Eo Hc].
  destruct fuel as [|fuel]; [lia|]. cbn [scan_loop]. rewrite decode_images' by done.
  rewrite Eo. destruct (Z.eqb_spec base target) as [<-|Hne].
  { by rewrite Z.sub_diag. }
  case_test. rewrite (IH (base + 1)); [|done|done|lia|by eapply images_fuel].
  replace (Z.to_nat (target - base)) with (S (Z.to_nat (target - (base + 1)))) by lia. done.
Qed.

(** What a read at [offset] returns. *)
Definition read_spec (base : Z) (rs : list record) (offset : Z) : result record :=
  match rs !! Z.to_nat (offset - base) with Some r => Ok r | None => Err not_found end.

Lemma scanFrom_spec s rs i target : seg_data s rs → flushed s →
  s.(BaseOffset) + Z.of_nat i ≤ target →
  scanFrom (zlen (images (take i rs))) target s = read_spec s.(BaseOffset) rs target.
Proof.
  intros Hd Hf Hi. unfold scanFrom, read_spec. rewrite (readHandle_flushed s rs i Hd Hf).
  rewrite (scan_loop_spec (BaseOffset s + Z.of_nat i)); [| | |lia..].
  - rewrite lookup_drop. by replace (i + _)%nat with (Z.to_nat (target - BaseOffset s)) by lia.
  - apply Forall_drop, (sd_ok _ _ Hd).
  - apply consecutive_drop, (sd_consec _ _ Hd).
Qed.

Lemma readAt_spec s rs i target : seg_data s rs → flushed s →
  s.(BaseOffset) + Z.of_nat i ≤ target →
  readAt (zlen (images (take i rs))) target s = read_spec s.(BaseOffset) rs target.
Proof.
  intros Hd Hf Hi. pose proof (scanFrom_spec s rs i target Hd Hf Hi) as Hscan. unfold readAt.
  rewrite (readHandle_flushed s rs i Hd Hf). destruct (drop i rs) as [|r rs'] eqn:E.
  - simpl. unfold read_spec. rewrite lookup_ge_None_2; [done|].
    apply (f_equal length) in E. rewrite length_drop in E. simpl in E. lia.
  - pose proof (lookup_drop rs i 0) as El. rewrite E, Nat.add_0_r in El. symmetry in El.
    rewrite decode_images' by (eapply (Forall_lookup_1 storable); [apply (sd_ok _ _ Hd)|done]).
    destruct (Z.eqb_spec (rec_Offset r) target) as [Et|Et]; simpl; [|done].
    rewrite (sd_consec _ _ Hd i r El) in Et. unfold read_spec.
    by replace (Z.to_nat (target - BaseOffset s)) with i by lia; rewrite El.
Qed.

Lemma Segment_Read_spec s rs offset : seg_data s rs → flushed s → s.(BaseOffset) ≤ offset →
  Segment_Read offset s = read_spec s.(BaseOffset) rs offset.
Proof.
  intros Hd Hf Ho. unfold Segment_Read. rewrite (sd_open _ _ Hd). case_test.
  destruct (Lookup_points s rs (uint32 (offset - BaseOffset s)) Hd)
    as (pos & found & i & -> & -> & Hi & Hrel).
  pose proof (relative_offset_le s rs offset i Hd Ho Hi Hrel).
  destruct found; [by apply readAt_spec|by apply scanFrom_spec].
Qed.

(** ** Budgeted reads *)

Lemma read_loop_spec base rs (fuel : nat) offset maxBytes out acc :
  Forall storable rs → consecutive base rs → (length (images rs) < fuel)%nat →
  0 < maxBytes ≤ MaxInt32 - MaxRecordSize → 0 ≤ acc ≤ maxBytes ∨ 0 < acc ≤ MaxRecordSize →
  read_loop fuel offset maxBytes (images rs) out acc =
    (out ++ take_budget maxBytes acc (drop (Z.to_nat (offset - base)) rs), None).
Proof.
  intros Hok Hc Hf Hm. revert base fuel out acc Hok Hc Hf.
  induction rs as [|r rs IH]; intros base fuel out acc Hok Hc Hf Hacc.
  { destruct fuel; [lia|]. simpl. by rewrite drop_nil, app_nil_r. }
  apply Forall_cons in Hok as [Hr Hok]. apply consecutive_cons in Hc as [Eo Hc].
  destruct fuel as [|fuel]; [lia|]. cbn [read_loop]. rewrite decode_images' by done.
  pose proof (images_fuel r rs fuel Hf) as Hf'. rewrite Eo.
  pose proof (EncodedSize_min r). destruct Hr as [_ Hsz]. unfold MaxRecordSize in *.
  destruct (Z.ltb_spec base offset) as [Hlt|Hge].
  { rewrite (IH (base + 1)) by done.
    by replace (Z.to_nat (offset - base)) with (S (Z.to_nat (offset - (base + 1)))) by lia. }
  replace (Z.to_nat (offset - base)) with 0%nat by lia. simpl drop. cbn [take_budget].
  rewrite (wrapS_small 32 (EncodedSize r)), wrapS_small by width_lia.
  destruct (_ && _) eqn:E; [by rewrite app_nil_r|].
  rewrite (IH (base + 1)); [|done..|].
  - replace (Z.to_nat (offset - (base + 1))) with 0%nat by lia. by rewrite <- app_assoc.
  - apply andb_false_iff in E as [E%Z.ltb_ge|E%Z.ltb_ge]; lia.
Qed.

Lemma Segment_ReadFrom_spec s rs offset maxBytes : seg_data s rs → flushed s →
  s.(BaseOffset) ≤ offset → 0 < maxBytes ≤ MaxInt32 - MaxRecordSize →
  Segment_ReadFrom offset maxBytes s =
    (take_budget maxBytes 0 (drop (Z.to_nat (offset - s.(BaseOffset))) rs), None).
Proof.
  intros Hd Hf Ho Hm. unfold Segment_ReadFrom. rewrite (sd_open _ _ Hd). do 2 case_test.
  destruct (Lookup_points s rs (uint32 (offset - BaseOffset s)) Hd)
    as (pos & found & i & -> & -> & Hi & Hrel).
  pose proof (relative_offset_le s rs offset i Hd Ho Hi Hrel).
  rewrite (readHandle_flushed s rs i Hd Hf).
  rewrite (read_loop_spec (BaseOffset s + Z.of_nat i)); [| | |lia|done|lia].
  - rewrite drop_drop. by replace (i + _)%nat with (Z.to_nat (offset - BaseOffset s)) by lia.
  - apply Forall_drop, (sd_ok _ _ Hd).
  - apply consecutive_drop, (sd_consec _ _ Hd).
Qed.

(** The budgeted prefix is a prefix, is not empty, stays within the budget unless
    it is a single record, and stops only where the next record would not fit. *)
Lemma take_budget_prefix maxBytes acc rs : ∃ rest, rs = take_budget maxBytes acc rs ++ rest ∧
  (0 ≤ acc → take_budget maxBytes acc rs = [] ∨ acc + total_size (take_budget maxBytes acc rs) ≤ maxBytes
    ∨ acc = 0 ∧ length (take_budget maxBytes acc rs) = 1%nat) ∧
  (0 ≤ acc → ∀ r rest', rest = r :: rest' →
    0 < acc + total_size (take_budget maxBytes acc rs) ∧
    maxBytes < acc + total_size (take_budget maxBytes acc rs) + EncodedSize r).
Proof.
  revert acc. induction rs as [|r rs IH]; intros acc; simpl; [by exists []; naive_solver|].
  pose proof (EncodedSize_min r). destruct (_ && _) eqn:E.
  - apply andb_true_iff in E as [?%Z.ltb_lt ?%Z.ltb_lt]. exists (r :: rs). simpl.
    split_and!; [done|by left|]. intros _ r' rest' [= -> ->]. lia.
  - destruct (IH (acc + EncodedSize r)) as (rest & Erest & Hfit & Hmax). exists rest. simpl.
    split_and!; [by f_equal| |].
    + intros Ha. right. apply andb_false_iff in E as [?%Z.ltb_ge|?%Z.ltb_ge];
        destruct (Hfit ltac:(lia)) as [->|[Hle|[? _]]]; simpl; lia.
    + intros Ha r' rest' ->. specialize (Hmax ltac:(lia) r' rest' eq_refl). lia.
Qed.

(** ** Opening and closing *)

(** A segment whose files do not exist yet opens empty. *)
Lemma NewSegment_fresh mt now base cfg (d : Dir) :
  d !! log_path base = None → d !! index_path base = None →
  entrySize ≤ (withDefaults cfg).(IndexMaxBytes) →
  ∃ s, NewSegment mt now base cfg d = (Ok s, d) ∧ seg_rep s [] ∧ flushed s ∧
    s.(BaseOffset) = base ∧ s.(seg_maxBytes) = (withDefaults cfg).(SegmentBytes) ∧
    s.(seg_indexInterval) = (withDefaults cfg).(IndexIntervalBytes) ∧
    s.(seg_index).(idx_maxSize) =
      (withDefaults cfg).(IndexMaxBytes) - (withDefaults cfg).(IndexMaxBytes) mod entrySize ∧
    s.(CreatedAt) = now.
Proof.
  intros Hl Hi Hmax. unfold NewSegment. rewrite Hl, Hi. simpl default.
  destruct (NewIndex_fresh _ Hmax) as (i & -> & Hrep & Emax).
  rewrite !delete_id by (rewrite ?lookup_delete_None; auto).
  eexists. split; [reflexivity|]. simpl. split_and!; try done.
  constructor; [|simpl; lia|done]. constructor; simpl; try done.
  - intros i0 H0. simpl in H0. lia.
  - destruct (Z.leb_spec (IndexIntervalBytes cfg) 0); [done|lia].
Qed.

(** Closing puts the whole log and exactly the index entries on disk. *)
Lemma Segment_Close_disk s rs (d : Dir) : seg_data s rs → ∃ s' d',
  Segment_Close (s, d) = (Ok tt, (s', d')) ∧ s'.(seg_closed) = true ∧
  d' = <[log_path s.(BaseOffset) := images rs]>
       (<[index_path s.(BaseOffset) :=
           entries_bytes (entries_of s.(BaseOffset) s.(seg_indexInterval) rs)]> d).
Proof.
  intros Hd. unfold Segment_Close. rewrite (sd_open _ _ Hd).
  destruct (bufio_flush_seg s rs Hd) as (w & E & Hw & Ew & Hb). simpl. rewrite E.
  eexists _, _. split; [reflexivity|]. split; [done|]. simpl.
  rewrite (Index_Close_disk _ _ (sd_index _ _ Hd)). do 2 f_equal.
  rewrite <- Ew. simpl. unfold bufio_written. rewrite Hb. simpl. by rewrite app_nil_r.
Qed.

(** ** Claims *)

(** Appending to a segment that is not full: a record over the size limit is
    refused with [ErrRecordTooLarge] and changes nothing; any other record gets the
    next offset, is added at the end of the segment with its index entry, and the
    segment is again ready to append. Positions and relative offsets never wrap. *)
Theorem Segment_append_correct s rs r :
  seg_rep s rs → IsFull s = false → s.(seg_maxBytes) ≤ MaxUint32 →
  record_wf (set_Offset s.(NextOffset) r) → inS 64 (s.(NextOffset) + 1) →
  if MaxRecordSize <? EncodedSize r
  then Segment_Append (Some r) s = (Err (wrapError "segment: encode record" ErrRecordTooLarge), s)
  else ∃ s', Segment_Append (Some r) s = (Ok s.(NextOffset), s') ∧
             seg_rep s' (rs ++ [set_Offset s.(NextOffset) r]).
Proof.
  intros Hrep Hfull Hmax Hwf H64. destruct (IsFull_false s rs Hrep Hfull) as [Hlt Hroom].
  destruct (Z.ltb_spec MaxRecordSize (EncodedSize r)).
  - apply (Segment_Append_too_large s rs); [done|lia|done].
  - destruct (Segment_Append_rep s rs r) as (s' & E & Hrep' & _); [done|by split|lia|done|done|].
    by exists s'.
Qed.

(** After [FlushWriter], [Read] at any offset from the base on returns exactly
    the record stored there, or a not-found error past the end: the sparse index,
    the exact-match shortcut and the forward scan are invisible. *)
Theorem Segment_read_correct s rs offset : seg_data s rs →
  ∃ s', FlushWriter s = (Ok tt, s') ∧ seg_data s' rs ∧
    Segment_Read offset s' =
      (if offset <? s.(BaseOffset) then Err ErrOffsetOutOfRange
       else match rs !! Z.to_nat (offset - s.(BaseOffset)) with
            | Some r => Ok r
            | None => Err (errorString "segment: offset not found")
            end).
Proof.
  intros Hd. destruct (FlushWriter_ok s rs Hd) as (w & E & Hd' & Hf & _).
  exists (set_writer w s). split_and!; [done|done|]. destruct (Z.ltb_spec offset (BaseOffset s)).
  - unfold Segment_Read. rewrite (sd_open _ _ Hd'). simpl. by case_test.
  - by apply (Segment_Read_spec (set_writer w s)).
Qed.

(** After [FlushWriter], [ReadFrom] returns without error the longest run of
    records from the requested offset that fits the byte budget, except that a
    first record larger than the budget is returned alone. The bound on [maxBytes]
    keeps the [int32] accumulator from wrapping. *)
Theorem Segment_ReadFrom_correct s rs offset maxBytes : seg_data s rs →
  s.(BaseOffset) ≤ offset → 0 < maxBytes ≤ MaxInt32 - MaxRecordSize →
  ∃ s' out rest, FlushWriter s = (Ok tt, s') ∧ Segment_ReadFrom offset maxBytes s' = (out, None) ∧
    drop (Z.to_nat (offset - s.(BaseOffset))) rs = out ++ rest ∧
    (total_size out ≤ maxBytes ∨ length out = 1%nat) ∧
    (∀ r rest', rest = r :: rest' → maxBytes < total_size out + EncodedSize r ∧ out ≠ []).
Proof.
  intros Hd Ho Hm. destruct (FlushWriter_ok s rs Hd) as (w & E & Hd' & Hf & _).
  set (tl := drop (Z.to_nat (offset - BaseOffset s)) rs).
  destruct (take_budget_prefix maxBytes 0 tl) as (rest & Etl & Hfit & Hmax).
  exists (set_writer w s), (take_budget maxBytes 0 tl), rest.
  split_and!; [done|by apply (Segment_ReadFrom_spec (set_writer w s))|done| |].
  - destruct (Hfit ltac:(lia)) as [->|[Hle|[_ ?]]]; [left; simpl; lia|left; lia|by right].
  - intros r rest' Er. destruct (Hmax ltac:(lia) r rest' Er) as [Hpos Hlt]. split; [lia|].
    intros En. rewrite En in Hpos. simpl in Hpos. lia.
Qed.

(** A segment with three records, none flushed yet, and two index entries. *)
Definition sample_records : list record :=
  [set_Offset 100 sample_record; set_Offset 101 sample_record; set_Offset 102 sample_record].
Definition sample_segment : Segment :=
  mkSegment 100 103 (mkBufio (mkFile [] 0) segment_bufsize (images sample_records) None)
    (mkIndex (file_truncate 64 (entries_bytes (entries_of 100 60 sample_records)))
       true (Some 64) (8 * zlen (entries_of 100 60 sample_records)) 64)
    4096 60 (zlen (images sample_records)) (index_of 100 60 sample_records).2 0 false.

Lemma sample_segment_rep : seg_rep sample_segment sample_records.
Proof.
  constructor; [|reflexivity..]. constructor; try reflexivity.
  - split_and!; [reflexivity|reflexivity|reflexivity|vm_compute; discriminate].
  - intros i Hi. simpl in Hi. do 3 (destruct i as [|i]; [vm_compute; discriminate|]). lia.
  - by_decide.
  - intros i r. do 3 (destruct i as [|i]; [intros [= <-]; reflexivity|]). done.
  - constructor; try reflexivity; [vm_compute; discriminate| |by_decide].
    exists 48%nat. vm_compute. reflexivity.
Qed.

Lemma Segment_append_correct_witness :
  ∃ s', Segment_Append (Some sample_record) sample_segment = (Ok 103, s') ∧
        seg_rep s' (sample_records ++ [set_Offset 103 sample_record]).
Proof.
  apply (Segment_append_correct sample_segment sample_records sample_record);
    [apply sample_segment_rep|vm_compute; reflexivity|vm_compute; discriminate|by_decide|by_decide].
Defined.

Lemma Segment_read_correct_witness :
  ∃ s', FlushWriter sample_segment = (Ok tt, s') ∧ seg_data s' sample_records ∧
    Segment_Read 101 s' = Ok (set_Offset 101 sample_record).
Proof. apply (Segment_read_correct sample_segment sample_records 101), sample_segment_rep. Defined.

Lemma Segment_ReadFrom_correct_witness :
  ∃ s' out rest, FlushWriter sample_segment = (Ok tt, s') ∧
    Segment_ReadFrom 101 50 s' = (out, None) ∧
    drop (Z.to_nat (101 - sample_segment.(BaseOffset))) sample_records = out ++ rest ∧
    (total_size out ≤ 50 ∨ length out = 1%nat) ∧
    (∀ r rest', rest = r :: rest' → 50 < total_size out + EncodedSize r ∧ out ≠ []).
Proof.
  apply (Segment_ReadFrom_correct sample_segment sample_records 101 50);
    [apply sample_segment_rep|vm_compute; discriminate|split; vm_compute; [reflexivity|discriminate]].
Defined.
