(* ===== verification/PartitionLog.v ===== *)
(** * The partition log (src/internal/storage/log.go)

    A log is a list of segments, the last of which is active. The abstract view is
    one list of records with consecutive offsets; appends (with rotation), reads,
    truncation and crash recovery are proved against it. *)
From Stdlib Require Import ZArith Lia Strings.Byte Strings.Ascii.
From stdpp Require Import base list strings gmap sorting.
From S2P Require Import Prelude Files Decimal Record Index Segment.
Open Scope Z_scope.

(** ** State *)

(** [active] points at the last element of [segments], except after a [Truncate]
    that failed halfway: then it still points at a removed segment, kept in
    [log_detached]. A closed log has no segments and no active one. *)
Record Log := mkLog {
  log_dir : Dir;
  log_config : Config;
  segments : list Segment;
  log_detached : option Segment;
  activeCreatedAt : Z;
  messagesSinceFlush : Z;
  lastFlush : Z;
  log_closed : bool
}.

Definition set_dir (d : Dir) (l : Log) : Log :=
  mkLog d l.(log_config) l.(segments) l.(log_detached) l.(activeCreatedAt) l.(messagesSinceFlush)
    l.(lastFlush) l.(log_closed).
Definition set_segments (segs : list Segment) (l : Log) : Log :=
  mkLog l.(log_dir) l.(log_config) segs l.(log_detached) l.(activeCreatedAt)
    l.(messagesSinceFlush) l.(lastFlush) l.(log_closed).
Definition set_detached (o : option Segment) (l : Log) : Log :=
  mkLog l.(log_dir) l.(log_config) l.(segments) o l.(activeCreatedAt) l.(messagesSinceFlush)
    l.(lastFlush) l.(log_closed).
Definition set_messages (n : Z) (l : Log) : Log :=
  mkLog l.(log_dir) l.(log_config) l.(segments) l.(log_detached) l.(activeCreatedAt) n
    l.(lastFlush) l.(log_closed).
Definition set_lastFlush (t : Z) (l : Log) : Log :=
  mkLog l.(log_dir) l.(log_config) l.(segments) l.(log_detached) l.(activeCreatedAt)
    l.(messagesSinceFlush) t l.(log_closed).

(** A new active segment: [activeCreatedAt] is set, [messagesSinceFlush] reset. *)
Definition set_active_at (now : Z) (l : Log) : Log :=
  mkLog l.(log_dir) l.(log_config) l.(segments) None now 0 l.(lastFlush) l.(log_closed).

(** [l.active]. *)
Definition active (l : Log) : option Segment :=
  match l.(log_detached) with Some s => Some s | None => last l.(segments) end.

(** An update of the object [l.active] points at. *)
Definition set_active (s : Segment) (l : Log) : Log :=
  match l.(log_detached) with
  | Some _ => set_detached (Some s) l
  | None => set_segments (<[pred (length l.(segments)) := s]> l.(segments)) l
  end.

(** Runs a method of the active segment; the caller has checked that there is one. *)
Definition on_active {A} (m : M Segment A) : M Log A := λ l,
  match active l with
  | None => (Err ErrLogClosed, l)
  | Some s => let '(r, s) := m s in (r, set_active s l)
  end.

(** ** Recovery *)

(** The scan of [rebuildSegment]; each turn consumes a record, so the length of
    the file bounds the turns. *)
Fixpoint rebuild_loop (fuel : nat) (stopOffset : Z) (br : bytes) : M Segment unit := λ seg,
  match fuel with
  | O => (Err (errorString "out of fuel"), seg)
  | S fuel' =>
      let pos := seg.(seg_bytesWritten) in
      match DecodeRecord br with
      | ((_, Err _), _) => (Ok tt, seg)
      | ((n, Ok rec), br) =>
          if (0 <=? stopOffset) && (stopOffset <=? rec.(rec_Offset)) then (Ok tt, seg)
          else
            let seg := set_counters (seg.(seg_bytesWritten) + n)
                         (seg.(seg_bytesSinceLastIndex) + n) seg in
            match index_record rec.(rec_Offset) (uint32 pos) seg with
            | (Err e, seg) => (Err (wrapError "rebuild: append index" e), seg)
            | (Ok _, seg) =>
                rebuild_loop fuel' stopOffset br
                  (SetNextOffset (int64 (rec.(rec_Offset) + 1)) seg)
            end
      end
  end.

(** [rebuildSegment(seg, stopOffset)]. *)
Definition rebuildSegment (stopOffset : Z) : M Segment unit := λ seg,
  if seg.(seg_closed) then (Err ErrSegmentClosed, seg)
  else match bufio_Flush seg.(seg_writer) with
  | (Err e, w) => (Err (wrapError "rebuild: flush writer" e), set_writer w seg)
  | (Ok _, w) =>
      let seg := set_writer w seg in
      let indexMax := seg.(seg_index).(idx_maxSize) in
      let seg := set_index (Index_Close seg.(seg_index)) seg in
      match NewIndex [] indexMax with
      | Err e => (Err (wrapError "rebuild: recreate index" e), seg)
      | Ok freshIndex =>
          let seg := SetNextOffset seg.(BaseOffset) (set_counters 0 0 (set_index freshIndex seg)) in
          let br := (seg_logFile seg).(file_data) in
          match rebuild_loop (S (length br)) stopOffset br seg with
          | (Err e, seg) => (Err e, seg)
          | (Ok _, seg) =>
              let w := seg.(seg_writer) in
              let f := File_Truncate seg.(seg_bytesWritten) w.(bw_wr) in
              let f := File_Seek seg.(seg_bytesWritten) f in
              (Ok tt, set_writer (mkBufio f w.(bw_size) w.(bw_buf) w.(bw_err)) seg)
          end
      end
  end.

(** ** Opening *)

(** The base offset that a file name of the directory stands for. *)
Definition parse_log_name (name : string) : option Z :=
  let cs := to_chars name in
  let k := (length cs - 4)%nat in
  if negb (bool_decide (drop k cs = to_chars ".log")) then None
  else
    let stem := take k cs in
    if negb (length stem =? 20)%nat then None
    else
      base ← ParseInt (of_chars stem);
      if base <? 0 then None else Some base.

(** [scanBaseOffsets(dir)]: ascending. *)
Definition scanBaseOffsets (d : Dir) : list Z :=
  merge_sort Z.le (omap parse_log_name (map_to_list d).*1).

Fixpoint close_loop (segs : list Segment) (d : Dir) : option error * Dir :=
  match segs with
  | [] => (None, d)
  | s :: segs =>
      let '(r, (_, d)) := Segment_Close (s, d) in
      let '(e, d) := close_loop segs d in
      (match r with Err e1 => Some e1 | Ok _ => e end, d)
  end.

(** [closeSegments]: every segment is closed, the first error is reported. *)
Definition closeSegments : M Log unit := λ l,
  let '(e, d) := close_loop l.(segments) l.(log_dir) in
  (match e with Some e => Err e | None => Ok tt end, set_detached None (set_segments [] (set_dir d l))).

(** The loop of [NewLog] over the base offsets found. *)
Fixpoint open_segments (ModTime : string → Z) (now : Z) (cfg : Config) (bases : list Z) : M Log unit :=
  λ l,
  match bases with
  | [] => (Ok tt, l)
  | base :: bases =>
      match NewSegment ModTime now base cfg l.(log_dir) with
      | (Err e, d) => (Err e, (closeSegments (set_dir d l)).2)
      | (Ok seg, d) =>
          open_segments ModTime now cfg bases
            (set_segments (l.(segments) ++ [seg]) (set_dir d l))
      end
  end.

Definition seg_le (a b : Segment) : Prop := a.(BaseOffset) ≤ b.(BaseOffset).
#[global] Instance seg_le_dec a b : Decision (seg_le a b).
Proof. unfold seg_le. apply _. Defined.

(** [sort.Slice(l.segments, ...)]. *)
Definition sort_segments : list Segment → list Segment := merge_sort seg_le.

(** [NewLog(dir, cfg)]. The directory of the result is in [log_dir]. *)
Definition NewLog (ModTime : string → Z) (now : Z) (cfg : Config) (d : Dir) : result unit * Log :=
  let cfg := withDefaults cfg in
  let baseOffsets := scanBaseOffsets d in
  let l := mkLog d cfg [] None 0 0 now false in
  match baseOffsets with
  | [] =>
      match NewSegment ModTime now 0 cfg d with
      | (Err e, d) => (Err e, set_dir d l)
      | (Ok seg, d) => (Ok tt, set_active_at now (set_segments [seg] (set_dir d l)))
      end
  | _ =>
      match open_segments ModTime now cfg baseOffsets l with
      | (Err e, l) => (Err e, l)
      | (Ok _, l) =>
          let l := set_active_at now (set_segments (sort_segments l.(segments)) l) in
          match on_active (rebuildSegment (-1)) l with
          | (Err e, l) => (Err (wrapError "log: recover active segment" e), (closeSegments l).2)
          | (Ok _, l) => (Ok tt, l)
          end
      end
  end.

(** ** Appending *)

(** [shouldRotateLocked]. *)
Definition shouldRotateLocked (now : Z) (a : Segment) (l : Log) : bool :=
  if IsFull a then true
  else if (0 <? l.(log_config).(SegmentMs)) && (a.(BaseOffset) <? a.(NextOffset)) then
    DurationMs l.(log_config).(SegmentMs) <=? time_Sub now l.(activeCreatedAt)
  else false.

(** [rotateLocked]. *)
Definition rotateLocked (ModTime : string → Z) (now : Z) : M Log unit := λ l,
  match on_active Segment_Flush l with
  | (Err e, l) => (Err (wrapError "log: rotate: flush" e), l)
  | (Ok _, l) =>
      match on_active (λ s, let '(r, i) := Seal s.(seg_index) in (r, (set_index i s))) l with
      | (Err e, l) => (Err (wrapError "log: rotate: seal index" e), l)
      | (Ok _, l) =>
          let base := match active l with Some a => a.(NextOffset) | None => 0 end in
          match NewSegment ModTime now base l.(log_config) l.(log_dir) with
          | (Err e, d) => (Err (wrapError "log: rotate: new segment" e), set_dir d l)
          | (Ok seg, d) =>
              (Ok tt, set_active_at now (set_segments (l.(segments) ++ [seg]) (set_dir d l)))
          end
      end
  end.

(** [maybeRotateLocked]. *)
Definition maybeRotateLocked (ModTime : string → Z) (now : Z) : M Log unit := λ l,
  match active l with
  | None => (Err ErrLogClosed, l)
  | Some a => if negb (shouldRotateLocked now a l) then (Ok tt, l) else rotateLocked ModTime now l
  end.

(** The count-based flush after an append; its error is ignored. *)
Definition count_flush (l : Log) : Log :=
  if 0 <? l.(log_config).(FlushMessages) then
    let l := set_messages (l.(messagesSinceFlush) + 1) l in
    if l.(log_config).(FlushMessages) <=? l.(messagesSinceFlush)
    then set_messages 0 (on_active Segment_Flush l).2
    else l
  else l.

(** [Append(rec)]. *)
Definition Log_Append (ModTime : string → Z) (now : Z) (rec : option record) : M Log Z := λ l,
  if l.(log_closed) then (Err ErrLogClosed, l)
  else match rec with
  | None => (Err (errorString "log: append nil record"), l)
  | Some _ =>
      match maybeRotateLocked ModTime now l with
      | (Err e, l) => (Err e, l)
      | (Ok _, l) =>
          match on_active (Segment_Append rec) l with
          | (Err e, l) => (Err (wrapError "log: append" e), l)
          | (Ok offset, l) => (Ok offset, count_flush l)
          end
      end
  end.

(** The loop of [AppendBatch]: the base offset, known after the first record, and
    the error that stopped it. *)
Fixpoint append_loop (ModTime : string → Z) (now : Z) (first : option Z) (recs : list (option record))
    (l : Log) : (Z * option error) * Log :=
  let base := default 0 first in
  match recs with
  | [] => ((base, None), l)
  | None :: _ => ((base, Some (errorString "log: append nil record")), l)
  | rec :: recs =>
      match maybeRotateLocked ModTime now l with
      | (Err e, l) => ((base, Some e), l)
      | (Ok _, l) =>
          match on_active (Segment_Append rec) l with
          | (Err e, l) => ((base, Some (wrapError "log: append" e)), l)
          | (Ok off, l) =>
              append_loop ModTime now (Some (default off first)) recs (count_flush l)
          end
      end
  end.

(** [AppendBatch(recs)]. *)
Definition AppendBatch (ModTime : string → Z) (now : Z) (recs : list (option record)) (l : Log)
    : (Z * option error) * Log :=
  if l.(log_closed) then ((0, Some ErrLogClosed), l)
  else match recs with
  | [] => ((0, Some ErrEmptyBatch), l)
  | _ => append_loop ModTime now None recs l
  end.

(** ** Reading *)

(** [findSegmentLocked(offset)]: the position of the segment in the list. *)
Definition findSegmentLocked (offset : Z) (segs : list Segment) : option nat :=
  match segs with
  | [] => None
  | s0 :: _ =>
      if offset <? s0.(BaseOffset) then None
      else
        let idx := sort_Search (length segs)
          (λ i, match segs !! i with Some s => offset <? s.(BaseOffset) | None => false end) in
        if (idx =? 0)%nat then None else Some (idx - 1)%nat
  end.

(** [seg == l.active], for the segment at position [i]. *)
Definition is_active (i : nat) (l : Log) : bool :=
  match l.(log_detached) with
  | Some _ => false
  | None => (S i =? length l.(segments))%nat
  end.

(** The flush that makes the active segment's data visible to its read handle. *)
Definition flush_for_read (i : nat) (s : Segment) : M Log Segment := λ l,
  if is_active i l then
    match FlushWriter s with
    | (Err e, s) => (Err (wrapError "log: flush active for read" e),
                     set_segments (<[i := s]> l.(segments)) l)
    | (Ok _, s) => (Ok s, set_segments (<[i := s]> l.(segments)) l)
    end
  else (Ok s, l).

(** [Read(offset)]. *)
Definition Log_Read (offset : Z) : M Log record := λ l,
  if l.(log_closed) then (Err ErrLogClosed, l)
  else match l.(segments) with
  | [] => (Err ErrOffsetOutOfRange, l)
  | s0 :: _ =>
      if offset <? s0.(BaseOffset) then (Err ErrOffsetOutOfRange, l)
      else match findSegmentLocked offset l.(segments) with
      | None => (Err ErrOffsetOutOfRange, l)
      | Some i =>
          match l.(segments) !! i with
          | None => (Err ErrOffsetOutOfRange, l)
          | Some seg =>
              match flush_for_read i seg l with
              | (Err e, l) => (Err e, l)
              | (Ok seg, l) =>
                  match Segment_Read offset seg with
                  | Err e => (Err (wrapError "log: read" e), l)
                  | Ok rec => (Ok rec, l)
                  end
              end
          end
      end
  end.

(** [for _, r := range recs { accumulated += int32(r.EncodedSize()) }] *)
Definition accumulate (recs : list record) (accumulated : Z) : Z :=
  fold_left (λ a r, int32 (a + int32 (EncodedSize r))) recs accumulated.

(** The loop of [ReadFrom] from segment [i] on; [n] counts the segments left. *)
Fixpoint readfrom_loop (n i : nat) (offset maxBytes : Z) (out : list record) (accumulated : Z)
    (l : Log) : (list record * option error) * Log :=
  match n with
  | O => ((out, None), l)
  | S n' =>
      match l.(segments) !! i with
      | None => ((out, None), l)
      | Some seg =>
          let next := match l.(segments) !! S i with Some s => s.(BaseOffset) | None => -1 end in
          if (0 <=? next) && (next <=? offset)
          then readfrom_loop n' (S i) offset maxBytes out accumulated l
          else if offset <? seg.(BaseOffset) then ((out, None), l)
          else match flush_for_read i seg l with
          | (Err e, l) => ((out, Some e), l)
          | (Ok seg, l) =>
              let remaining := int32 (maxBytes - accumulated) in
              match Segment_ReadFrom offset remaining seg with
              | (_, Some e) => ((out, Some (wrapError "log: read from" e)), l)
              | (recs, None) =>
                  let out := out ++ recs in
                  let accumulated := accumulate recs accumulated in
                  if maxBytes <=? accumulated then ((out, None), l)
                  else if seg.(NextOffset) <=? offset then ((out, None), l)
                  else readfrom_loop n' (S i) seg.(NextOffset) maxBytes out accumulated l
              end
          end
      end
  end.

(** [ReadFrom(offset, maxBytes)]. *)
Definition Log_ReadFrom (offset maxBytes : Z) (l : Log) : (list record * option error) * Log :=
  if l.(log_closed) then (([], Some ErrLogClosed), l)
  else if maxBytes <=? 0 then (([], None), l)
  else match l.(segments) with
  | [] => (([], Some ErrOffsetOutOfRange), l)
  | s0 :: _ =>
      if offset <? s0.(BaseOffset) then (([], Some ErrOffsetOutOfRange), l)
      else readfrom_loop (length l.(segments)) 0 offset maxBytes [] 0 l
  end.

Definition LowestOffset (l : Log) : Z :=
  match l.(segments) with [] => 0 | s :: _ => s.(BaseOffset) end.

Definition HighestOffset (l : Log) : Z :=
  match active l with None => 0 | Some a => a.(NextOffset) end.

Definition NumSegments (l : Log) : Z := zlen l.(segments).

(** ** Truncation, retention, closing *)

(** The removal loop of [Truncate]: the error that stopped it, the segments as
    left behind, the kept ones, the directory. The kept segments are the front of
    the list, so [l.segments[:0]] overwrites nothing that is still needed. *)
Fixpoint truncate_loop (removeOk : string → bool) (offset : Z) (segs : list Segment) (d : Dir)
    : option error * list Segment * list Segment * Dir :=
  match segs with
  | [] => (None, [], [], d)
  | seg :: segs =>
      if offset <=? seg.(BaseOffset) then
        match Segment_Remove removeOk (seg, d) with
        | (Err e, (seg, d)) => (Some (wrapError "log: truncate: remove segment" e), seg :: segs, [], d)
        | (Ok _, (seg, d)) =>
            let '(e, all, kept, d) := truncate_loop removeOk offset segs d in (e, seg :: all, kept, d)
        end
      else
        let '(e, all, kept, d) := truncate_loop removeOk offset segs d in
        (e, seg :: all, seg :: kept, d)
  end.

(** [Truncate(offset)]. *)
Definition Log_Truncate (ModTime : string → Z) (removeOk : string → bool) (now offset : Z)
    : M Log unit := λ l,
  if l.(log_closed) then (Err ErrLogClosed, l)
  else match l.(segments) with
  | [] => (Ok tt, l)
  | _ =>
      let '(e, all, kept, d) := truncate_loop removeOk offset l.(segments) l.(log_dir) in
      match e with
      | Some e => (Err e, set_segments all (set_dir d l))
      | None =>
          let oldActive := active (set_segments all l) in
          let l := set_segments kept (set_dir d l) in
          match kept with
          | [] =>
              match NewSegment ModTime now offset l.(log_config) l.(log_dir) with
              | (Err e, d) => (Err e, set_detached oldActive (set_dir d l))
              | (Ok seg, d) => (Ok tt, set_active_at now (set_segments [seg] (set_dir d l)))
              end
          | _ =>
              let i := pred (length kept) in
              match kept !! i with
              | None => (Ok tt, l)
              | Some last =>
                  match rebuildSegment offset last with
                  | (Err e, last) =>
                      (Err (wrapError "log: truncate: rebuild segment" e),
                       set_detached (if (length kept =? length all)%nat then None else oldActive)
                         (set_segments (<[i := last]> kept) l))
                  | (Ok _, last) =>
                      (Ok tt, set_active_at now (set_segments (<[i := last]> kept) l))
                  end
              end
          end
      end
  end.

(** [Close]. *)
Definition Log_Close : M Log unit := λ l,
  if l.(log_closed) then (Ok tt, l)
  else closeSegments (mkLog l.(log_dir) l.(log_config) l.(segments) l.(log_detached)
         l.(activeCreatedAt) l.(messagesSinceFlush) l.(lastFlush) true).

(** [totalSizeLocked]. *)
Definition totalSizeLocked (segs : list Segment) : Z :=
  foldr (λ s n, Segment_Size s + n) 0 segs.

(** The time-based pass of [runRetention]; [i] counts from the front, [n] is the
    position of the active segment. *)
Fixpoint retention_time (removeOk : string → bool) (cfg : Config) (now : Z) (n i : nat)
    (segs : list Segment) (d : Dir) : list Segment * Dir :=
  match segs with
  | [] => ([], d)
  | seg :: segs =>
      if (i =? n)%nat then
        let '(kept, d) := retention_time removeOk cfg now n (S i) segs d in (seg :: kept, d)
      else if ((0 <? cfg.(RetentionMs)) && negb (seg.(CreatedAt) =? 0)) &&
              (DurationMs cfg.(RetentionMs) <=? time_Sub now seg.(CreatedAt)) then
        match Segment_Remove removeOk (seg, d) with
        | (Err _, (seg, d)) =>
            let '(kept, d) := retention_time removeOk cfg now n (S i) segs d in (seg :: kept, d)
        | (Ok _, (_, d)) => retention_time removeOk cfg now n (S i) segs d
        end
      else
        let '(kept, d) := retention_time removeOk cfg now n (S i) segs d in (seg :: kept, d)
  end.

(** The byte-based pass: oldest first while over the limit, the last one stays. *)
Fixpoint retention_bytes (removeOk : string → bool) (limit total : Z) (segs : list Segment) (d : Dir)
    : list Segment * Dir :=
  match segs with
  | oldest :: ((_ :: _) as rest) =>
      if limit <? total then
        let size := Segment_Size oldest in
        match Segment_Remove removeOk (oldest, d) with
        | (Err _, (oldest, d)) => (oldest :: rest, d)
        | (Ok _, (_, d)) => retention_bytes removeOk limit (total - size) rest d
        end
      else (segs, d)
  | _ => (segs, d)
  end.

(** [runRetention]. *)
Definition runRetention (removeOk : string → bool) (now : Z) (l : Log) : Log :=
  if l.(log_closed) || (length l.(segments) <=? 1)%nat then l
  else
    let n := match l.(log_detached) with
             | Some _ => length l.(segments)
             | None => pred (length l.(segments))
             end in
    let '(kept, d) := retention_time removeOk l.(log_config) now n 0 l.(segments) l.(log_dir) in
    if 0 <? l.(log_config).(RetentionBytes) then
      let '(kept, d) := retention_bytes removeOk l.(log_config).(RetentionBytes)
                          (totalSizeLocked kept) kept d in
      set_segments kept (set_dir d l)
    else set_segments kept (set_dir d l).

(** [runFlush]. *)
Definition runFlush (now : Z) (l : Log) : Log :=
  match active l with
  | None => l
  | Some _ =>
      if l.(log_closed) || (l.(log_config).(FlushMs) <=? 0) then l
      else if time_Sub now l.(lastFlush) <? DurationMs l.(log_config).(FlushMs) then l
      else set_lastFlush now (set_messages 0 (on_active Segment_Flush l).2)
  end.

(** One tick of [retentionLoop]. *)
Definition retention_tick (removeOk : string → bool) (now : Z) (l : Log) : Log :=
  runFlush now (runRetention removeOk now l).

(** ** The abstract view *)

(** The limits of a segment opened with configuration [cfg], later sealed perhaps:
    there is room for a record and an index entry. *)
Definition seg_limits (cfg : Config) (s : Segment) : Prop :=
  0 < s.(seg_maxBytes) ≤ MaxUint32 ∧
  entrySize ≤ s.(seg_index).(idx_maxSize) ≤ cfg.(IndexMaxBytes) ∧
  s.(seg_index).(idx_maxSize) mod entrySize = 0 ∧
  s.(seg_indexInterval) = cfg.(IndexIntervalBytes).

(** Sealed segments from base offset [b] up to [e], their records in [rss]. *)
Inductive sealed_chain : Z → Z → list Segment → list (list record) → Prop :=
  | sealed_nil b : sealed_chain b b [] []
  | sealed_cons b e s segs rs rss :
      s.(BaseOffset) = b → seg_data s rs → flushed s → rs ≠ [] →
      sealed_chain (b + zlen rs) e segs rss →
      sealed_chain b e (s :: segs) (rs :: rss).

(** The next offsets of the sealed segments are right too: so it is while the log
    runs, but not for sealed segments reopened after a restart. *)
Definition sealed_next (segs : list Segment) (rss : list (list record)) : Prop :=
  Forall2 (λ s rs, s.(NextOffset) = s.(BaseOffset) + zlen rs ∧
    s.(seg_bytesSinceLastIndex) = (index_of s.(BaseOffset) s.(seg_indexInterval) rs).2) segs rss.

(** What the configuration layer guarantees. *)
Definition config_ok (cfg : Config) : Prop :=
  withDefaults cfg = cfg ∧ entrySize ≤ cfg.(IndexMaxBytes) ∧ cfg.(SegmentBytes) ≤ MaxUint32.

(** The directory has no segment files beyond those of the open segments. *)
Definition dir_free (d : Dir) : Prop :=
  ∀ o, 0 ≤ o → inS 64 o → d !! log_path o = None ∧ d !! index_path o = None.

(** An open log with sealed segments holding [rss] and an active one holding [ra]. *)
Record log_rep (l : Log) (b e : Z) (sealed : list Segment) (rss : list (list record))
    (a : Segment) (ra : list record) : Prop := {
  lr_open : l.(log_closed) = false;
  lr_attached : l.(log_detached) = None;
  lr_config : config_ok l.(log_config);
  lr_segments : l.(segments) = sealed ++ [a];
  lr_low : 0 ≤ b;
  lr_sealed : sealed_chain b e sealed rss;
  lr_active : seg_rep a ra;
  lr_base : a.(BaseOffset) = e;
  lr_limits : Forall (seg_limits l.(log_config)) (sealed ++ [a]);
  lr_int64 : inS 64 (e + zlen ra);
  lr_free : dir_free l.(log_dir)
}.

(** The log as one list of records [rs] starting at offset [b]; [fresh] when no
    sealed segment comes from before a restart. *)
Definition log_view (fresh : bool) (l : Log) (b : Z) (rs : list record) : Prop :=
  ∃ e sealed rss a ra, log_rep l b e sealed rss a ra ∧ rs = mjoin rss ++ ra ∧
    (fresh = true → sealed_next sealed rss).

(** ** Basic facts *)

Lemma sealed_chain_app b m e segs1 segs2 rss1 rss2 :
  sealed_chain b m segs1 rss1 → sealed_chain m e segs2 rss2 →
  sealed_chain b e (segs1 ++ segs2) (rss1 ++ rss2).
Proof. induction 1; intros; simpl; [done|constructor; auto]. Qed.

Lemma sealed_chain_snoc b e s segs rs rss :
  sealed_chain b e segs rss → s.(BaseOffset) = e → seg_data s rs → flushed s → rs ≠ [] →
  sealed_chain b (e + zlen rs) (segs ++ [s]) (rss ++ [rs]).
Proof. intros H ????. eapply sealed_chain_app; [done|]. econstructor; [done..|constructor]. Qed.

Lemma sealed_chain_length b e segs rss : sealed_chain b e segs rss → e = b + zlen (mjoin rss).
Proof. induction 1; simpl; [lia|]. rewrite length_app. lia. Qed.

Lemma active_last l sealed a : l.(log_detached) = None → l.(segments) = sealed ++ [a] →
  active l = Some a.
Proof. intros Hd Hs. unfold active. by rewrite Hd, Hs, last_snoc. Qed.

Lemma set_active_last l sealed a s : l.(log_detached) = None → l.(segments) = sealed ++ [a] →
  set_active s l = set_segments (sealed ++ [s]) l.
Proof.
  intros Hd Hs. unfold set_active. rewrite Hd, Hs, length_app. simpl.
  rewrite Nat.add_1_r. simpl. by rewrite insert_app_r_alt, Nat.sub_diag by lia.
Qed.

Lemma on_active_last {A} (m : M Segment A) l sealed a r s :
  l.(log_detached) = None → l.(segments) = sealed ++ [a] → m a = (r, s) →
  on_active m l = (r, set_segments (sealed ++ [s]) l).
Proof.
  intros Hd Hs Hm. unfold on_active. rewrite (active_last l sealed a), Hm by done.
  by rewrite (set_active_last l sealed a).
Qed.

Lemma log_rep_active l b e sealed rss a ra : log_rep l b e sealed rss a ra →
  active l = Some a.
Proof. intros []. by eapply active_last. Qed.

Lemma log_rep_limits l b e sealed rss a ra : log_rep l b e sealed rss a ra →
  Forall (seg_limits l.(log_config)) sealed ∧ seg_limits l.(log_config) a.
Proof.
  intros Hr. pose proof (lr_limits _ _ _ _ _ _ _ Hr) as Hl. apply Forall_app in Hl as [H1 H2].
  split; [done|]. by rewrite Forall_singleton in H2.
Qed.

Lemma log_rep_highest l b e sealed rss a ra : log_rep l b e sealed rss a ra →
  HighestOffset l = b + zlen (mjoin rss ++ ra).
Proof.
  intros Hr. unfold HighestOffset. rewrite (log_rep_active _ _ _ _ _ _ _ Hr).
  destruct Hr. rewrite (sr_next _ _ lr_active0), lr_base0, length_app, (sealed_chain_length _ _ _ _ lr_sealed0).
  lia.
Qed.

Lemma log_view_highest f l b rs : log_view f l b rs → HighestOffset l = b + zlen rs.
Proof. intros (e & sealed & rss & a & ra & Hr & -> & _). by eapply log_rep_highest. Qed.

(** Replacing the active segment. *)
Lemma log_rep_set_active l b e sealed rss a ra a' ra' : log_rep l b e sealed rss a ra →
  seg_rep a' ra' → a'.(BaseOffset) = a.(BaseOffset) → seg_limits l.(log_config) a' →
  inS 64 (e + zlen ra') →
  log_rep (set_segments (sealed ++ [a']) l) b e sealed rss a' ra'.
Proof.
  intros [] Hr Hb Hl H64. apply Forall_app in lr_limits0 as [Hls _].
  constructor; simpl; try done; [congruence|]. apply Forall_app. split; [done|by constructor].
Qed.

(** ** Rotation *)

Lemma IsFull_empty cfg s : seg_rep s [] → seg_limits cfg s → IsFull s = false.
Proof.
  intros Hr ([Hm _] & [Hi _] & _ & _). unfold IsFull, Index_Size. rewrite (sd_open _ _ Hr), (sd_size _ _ Hr).
  change (zlen (images [])) with 0. case_test.
  rewrite (rep_size _ _ (sd_index _ _ Hr)). unfold entries_of, index_of, entrySize in *. simpl.
  apply Z.ltb_ge. lia.
Qed.

(** Sealing the index keeps the records. *)
Lemma seal_segment s rs : seg_rep s rs → rs ≠ [] → ∃ i,
  Seal s.(seg_index) = (Ok tt, i) ∧ seg_rep (set_index i s) rs ∧
  entrySize ≤ i.(idx_maxSize) ≤ s.(seg_index).(idx_maxSize) ∧ i.(idx_maxSize) mod entrySize = 0.
Proof.
  intros Hr Hne.
  destruct (index_of_ok (BaseOffset s) (seg_indexInterval s) rs (sd_interval _ _ Hr) (sd_consec _ _ Hr))
    as [_ _ _ Hf _ _]. specialize (Hf Hne).
  destruct (Seal_rep _ _ (sd_index _ _ Hr) Hf) as (i & E & Hi & Hm). exists i. split; [done|]. split.
  - destruct Hr as [Hd ? ?]. constructor; [destruct Hd; by constructor|done..].
  - rewrite Hm. split; [split; [|apply (sd_index _ _ Hr)]|].
    2: { rewrite (rep_size _ _ (sd_index _ _ Hr)), Z.mul_comm. by apply Z.mod_mul. }
    rewrite (rep_size _ _ (sd_index _ _ Hr)). unfold entries_of, entrySize in *.
    destruct (index_of _ _ _).1.1; [done|]. simpl length. lia.
Qed.

(** The limits of a segment opened with a good configuration. *)
Lemma fresh_limits cfg s : config_ok cfg → s.(seg_maxBytes) = cfg.(SegmentBytes) →
  s.(seg_indexInterval) = cfg.(IndexIntervalBytes) →
  s.(seg_index).(idx_maxSize) = cfg.(IndexMaxBytes) - cfg.(IndexMaxBytes) mod entrySize →
  seg_limits cfg s.
Proof.
  intros (Hd & Hmx & Hsb) Hm Hv Hi. split_and!; try done; rewrite ?Hi, ?Hm; unfold entrySize in *; try done.
  - rewrite <- Hd. simpl. split_ifs.
  - pose proof (Z.mod_pos_bound (IndexMaxBytes cfg) 8 ltac:(lia)).
    pose proof (Z.div_mod (IndexMaxBytes cfg) 8 ltac:(lia)). lia.
  - pose proof (Z.mod_pos_bound (IndexMaxBytes cfg) 8 ltac:(lia)). lia.
  - by rewrite Zminus_mod, Zmod_mod, Z.sub_diag.
Qed.

(** Rotation seals a non-empty active segment and leaves the records as they were. *)
Lemma rotate_ok mt now l b e sealed rss a ra : log_rep l b e sealed rss a ra → ra ≠ [] → ∃ a1 a2,
  rotateLocked mt now l = (Ok tt, set_active_at now (set_segments ((sealed ++ [a1]) ++ [a2]) l)) ∧
  log_rep (set_active_at now (set_segments ((sealed ++ [a1]) ++ [a2]) l))
    b (e + zlen ra) (sealed ++ [a1]) (rss ++ [ra]) a2 [] ∧
  a1.(NextOffset) = a.(NextOffset) ∧ a2.(NextOffset) = e + zlen ra ∧ seg_rep a1 ra.
Proof.
  intros [Hcl Hdet Hcfg Hsegs Hlow Hch Hrep Hbase Hlim H64 Hfree] Hne. unfold rotateLocked.
  pose proof (sealed_chain_length _ _ _ _ Hch).
  destruct (FlushWriter_ok a ra Hrep) as (w & Efl & _ & Hflushed & Hrepf). specialize (Hrepf Hrep).
  rewrite (on_active_last Segment_Flush l sealed a _ _ Hdet Hsegs Efl). set (l1 := set_segments _ l).
  destruct (seal_segment _ _ Hrepf Hne) as (i & Ei & Hrepi & Hlimi & Hmodi).
  erewrite (on_active_last _ l1 sealed (set_writer w a)); [|done..|by rewrite Ei].
  set (l2 := set_segments _ l1). rewrite (active_last l2 sealed (set_index i (set_writer w a))) by done.
  destruct Hcfg as (Hd & Hmx & Hsb). simpl NextOffset. rewrite (sr_next _ _ Hrep), Hbase.
  destruct (Hfree (e + zlen ra) ltac:(lia) H64) as [Hf1 Hf2].
  destruct (NewSegment_fresh mt now (e + zlen ra) (log_config l) (log_dir l) Hf1 Hf2)
    as (a2 & E2 & Hrep2 & Hfl2 & Hb2 & Hm2 & Hv2 & Hi2 & _); [by rewrite Hd|].
  change (log_config l2) with (log_config l). change (log_dir l2) with (log_dir l). rewrite E2.
  eexists _, a2. split; [reflexivity|]. rewrite Hd in Hm2, Hv2, Hi2.
  assert (Hlim2 : seg_limits (log_config l) a2) by (by apply (fresh_limits (log_config l))).
  split; [|split_and!; [by simpl; rewrite (sr_next _ _ Hrep), Hbase|by rewrite (sr_next _ _ Hrep2), Hb2; simpl; lia|done]].
  constructor; simpl; try done.
  - by apply sealed_chain_snoc; [| |apply Hrepi|..].
  - rewrite <- app_assoc. apply Forall_app in Hlim as [Hls (? & ? & ? & ?)%Forall_singleton].
    apply Forall_app. split; [done|]. constructor; [split_and!; simpl in *; try done; lia|].
    by constructor.
  - by rewrite Z.add_0_r.
Qed.

(** Before an append the log has a non-full active segment, rotated or not, and
    the same records. *)
Lemma maybeRotate_ok mt now l b e sealed rss a ra : log_rep l b e sealed rss a ra → ∃ l' e' sealed' rss' a' ra',
  maybeRotateLocked mt now l = (Ok tt, l') ∧ log_rep l' b e' sealed' rss' a' ra' ∧
  mjoin rss' ++ ra' = mjoin rss ++ ra ∧ IsFull a' = false ∧
  a'.(NextOffset) = a.(NextOffset) ∧ (sealed_next sealed rss → sealed_next sealed' rss').
Proof.
  intros Hr. unfold maybeRotateLocked. rewrite (log_rep_active _ _ _ _ _ _ _ Hr).
  destruct (shouldRotateLocked now a l) eqn:Erot; simpl.
  - assert (ra ≠ []) as Hne.
    { intros ->. unfold shouldRotateLocked in Erot.
      rewrite (IsFull_empty _ a (lr_active _ _ _ _ _ _ _ Hr) (proj2 (log_rep_limits _ _ _ _ _ _ _ Hr))) in Erot.
      rewrite (sr_next _ _ (lr_active _ _ _ _ _ _ _ Hr)) in Erot. simpl in Erot.
      rewrite Z.add_0_r, Z.ltb_irrefl, andb_false_r in Erot. done. }
    destruct (rotate_ok mt now l b e sealed rss a ra Hr Hne) as (a1 & a2 & E & Hr' & En1 & En2 & Hrep1).
    eexists _, _, _, _, _, _. split; [done|]. split; [done|]. split_and!.
    + rewrite join_app. simpl. by rewrite !app_nil_r.
    + eapply IsFull_empty; [apply Hr'|by eapply log_rep_limits].
    + rewrite En2, (sr_next _ _ (lr_active _ _ _ _ _ _ _ Hr)), (lr_base _ _ _ _ _ _ _ Hr). done.
    + intros Hs. apply Forall2_app; [done|]. repeat constructor; apply Hrep1.
  - eexists _, _, _, _, _, _. split; [done|]. split; [done|]. split_and!; [done| |done|done].
    unfold shouldRotateLocked in Erot. by destruct (IsFull a).
Qed.

(** ** Appending *)

Lemma log_rep_meta l l' b e sealed rss a ra : log_rep l b e sealed rss a ra →
  l'.(log_closed) = l.(log_closed) → l'.(log_detached) = l.(log_detached) →
  l'.(log_config) = l.(log_config) → l'.(segments) = l.(segments) → l'.(log_dir) = l.(log_dir) →
  log_rep l' b e sealed rss a ra.
Proof. intros [] E1 E2 E3 E4 E5. constructor; rewrite ?E1, ?E2, ?E3, ?E4, ?E5; done. Qed.

Lemma flush_active_ok l b e sealed rss a ra : log_rep l b e sealed rss a ra → ∃ w,
  on_active Segment_Flush l = (Ok tt, set_segments (sealed ++ [set_writer w a]) l) ∧
  log_rep (set_segments (sealed ++ [set_writer w a]) l) b e sealed rss (set_writer w a) ra ∧
  flushed (set_writer w a).
Proof.
  intros Hr. destruct (FlushWriter_ok a ra (lr_active _ _ _ _ _ _ _ Hr)) as (w & E & _ & Hf & Hrep).
  exists w. split_and!; [| |done].
  - eapply (on_active_last Segment_Flush); [apply Hr..|done].
  - eapply log_rep_set_active; [done|apply Hrep, Hr|done|exact (proj2 (log_rep_limits _ _ _ _ _ _ _ Hr))|apply Hr].
Qed.

Lemma count_flush_ok l b e sealed rss a ra : log_rep l b e sealed rss a ra →
  ∃ a', log_rep (count_flush l) b e sealed rss a' ra.
Proof.
  intros Hr. unfold count_flush. destruct (0 <? _); [|by exists a].
  set (l1 := set_messages _ l).
  assert (Hr1 : log_rep l1 b e sealed rss a ra) by (by eapply log_rep_meta).
  destruct (_ <=? _); [|by exists a].
  destruct (flush_active_ok _ _ _ _ _ _ _ Hr1) as (w & E & Hr2 & _). rewrite E.
  exists (set_writer w a). by eapply log_rep_meta.
Qed.

(** One record through rotation check, append and count-based flush. *)
Lemma append_one mt now l b e sealed rss a ra r : log_rep l b e sealed rss a ra →
  inS 64 (e + zlen ra + 1) → storable (set_Offset (e + zlen ra) r) →
  ∃ l1 l2 e' sealed' rss' a' ra', maybeRotateLocked mt now l = (Ok tt, l1) ∧
    on_active (Segment_Append (Some r)) l1 = (Ok (e + zlen ra), l2) ∧
    log_rep (count_flush l2) b e' sealed' rss' a' ra' ∧
    mjoin rss' ++ ra' = (mjoin rss ++ ra) ++ [set_Offset (e + zlen ra) r] ∧
    (sealed_next sealed rss → sealed_next sealed' rss').
Proof.
  intros Hr H64 Hst. pose proof (sealed_chain_length _ _ _ _ (lr_sealed _ _ _ _ _ _ _ Hr)) as He.
  pose proof (lr_low _ _ _ _ _ _ _ Hr) as Hlow.
  destruct (maybeRotate_ok mt now l b e sealed rss a ra Hr) as
    (l1 & e1 & sealed1 & rss1 & a1 & ra1 & E1 & Hr1 & Ev & Hfull & En & Hnx).
  assert (En1 : NextOffset a1 = e + zlen ra).
  { rewrite En, (sr_next _ _ (lr_active _ _ _ _ _ _ _ Hr)). by rewrite (lr_base _ _ _ _ _ _ _ Hr). }
  destruct (IsFull_false a1 ra1 (lr_active _ _ _ _ _ _ _ Hr1) Hfull) as [Hlt Hroom].
  destruct (log_rep_limits _ _ _ _ _ _ _ Hr1) as [_ (Hmax & Hidx & Hmod & Hiv)].
  destruct (Segment_Append_rep a1 ra1 r) as (a2 & E2 & Hrep2 & Hb2 & Hm2 & Hv2 & Hi2 & _);
    rewrite ?En1; [apply Hr1|done|lia|done|done|]. rewrite En1 in E2, Hrep2.
  assert (Hr2 : log_rep (set_segments (sealed1 ++ [a2]) l1) b e1 sealed1 rss1 a2
                  (ra1 ++ [set_Offset (e + zlen ra) r])).
  { eapply log_rep_set_active; [done|done|done|by unfold seg_limits; rewrite Hm2, Hi2, Hv2|].
    rewrite (sr_next _ _ (lr_active _ _ _ _ _ _ _ Hr1)), (lr_base _ _ _ _ _ _ _ Hr1) in En1.
    rewrite length_app, Nat2Z.inj_add, Z.add_assoc, En1. done. }
  destruct (count_flush_ok _ _ _ _ _ _ _ Hr2) as (a3 & Hr3).
  exists l1, (set_segments (sealed1 ++ [a2]) l1), e1, sealed1, rss1, a3, (ra1 ++ [set_Offset (e + zlen ra) r]).
  split_and!; [done| |done| |done].
  - eapply on_active_last; [apply Hr1..|done].
  - rewrite app_assoc. by rewrite Ev.
Qed.

(** A record over the size limit is refused; the records stay as they were. *)
Lemma append_one_too_large mt now l b e sealed rss a ra r : log_rep l b e sealed rss a ra →
  MaxRecordSize < EncodedSize r →
  ∃ l1 l2 e' sealed' rss' a' ra', maybeRotateLocked mt now l = (Ok tt, l1) ∧
    on_active (Segment_Append (Some r)) l1 =
      (Err (wrapError "segment: encode record" ErrRecordTooLarge), l2) ∧
    log_rep l2 b e' sealed' rss' a' ra' ∧ mjoin rss' ++ ra' = mjoin rss ++ ra ∧
    (sealed_next sealed rss → sealed_next sealed' rss').
Proof.
  intros Hr Hbig.
  destruct (maybeRotate_ok mt now l b e sealed rss a ra Hr) as
    (l1 & e1 & sealed1 & rss1 & a1 & ra1 & E1 & Hr1 & Ev & Hfull & En & Hnx).
  destruct (IsFull_false a1 ra1 (lr_active _ _ _ _ _ _ _ Hr1) Hfull) as [Hlt Hroom].
  destruct (log_rep_limits _ _ _ _ _ _ _ Hr1) as [_ (Hmax & Hidx & Hmod & Hiv)].
  exists l1, (set_segments (sealed1 ++ [a1]) l1), e1, sealed1, rss1, a1, ra1.
  split_and!; [done| | |done|done].
  - eapply on_active_last; [apply Hr1..|]. eapply Segment_Append_too_large; [apply Hr1|lia|done].
  - eapply log_rep_set_active; [done|apply Hr1|done|exact (conj Hmax (conj Hidx (conj Hmod Hiv)))|apply Hr1].
Qed.

(** The records a batch stores, numbered from [o]. *)
Fixpoint number_from (o : Z) (recs : list record) : list record :=
  match recs with
  | [] => []
  | r :: recs => set_Offset o r :: number_from (o + 1) recs
  end.

Definition storable_at (o : Z) (recs : list record) : Prop :=
  Forall storable (number_from o recs) ∧ inS 64 (o + zlen recs).

Lemma append_loop_ok mt now recs : ∀ l f b rs first, log_view f l b rs →
  storable_at (b + zlen rs) recs → ∃ l',
  append_loop mt now first (Some <$> recs) l =
    ((match recs with [] => default 0 first | _ => default (b + zlen rs) first end, None), l') ∧
  log_view f l' b (rs ++ number_from (b + zlen rs) recs).
Proof.
  induction recs as [|r recs IH]; intros l f b rs first Hv [Hok H64]; simpl in *.
  { exists l. by rewrite app_nil_r. }
  destruct Hv as (e & sealed & rss & a & ra & Hr & -> & Hnx).
  pose proof (sealed_chain_length _ _ _ _ (lr_sealed _ _ _ _ _ _ _ Hr)) as He.
  assert (Hleo : e + zlen ra = b + zlen (mjoin rss ++ ra)) by (rewrite length_app; lia).
  apply Forall_cons in Hok as [Hr0 Hok]. pose proof (lr_low _ _ _ _ _ _ _ Hr).
  destruct (append_one mt now l b e sealed rss a ra r Hr) as
    (l1 & l2 & e' & sealed' & rss' & a' & ra' & E1 & E2 & Hr' & Ev & Hnx');
    rewrite ?Hleo; [width_lia|done|].
  rewrite E1, E2, Hleo.
  assert (El : b + zlen ((mjoin rss ++ ra) ++ [set_Offset (b + zlen (mjoin rss ++ ra)) r]) =
               b + zlen (mjoin rss ++ ra) + 1) by len.
  destruct (IH (count_flush l2) f b ((mjoin rss ++ ra) ++ [set_Offset (b + zlen (mjoin rss ++ ra)) r])
    (Some (default (b + zlen (mjoin rss ++ ra)) first))) as (l' & E & Hv').
  - exists e', sealed', rss', a', ra'. rewrite Ev, Hleo. split_and!; [done|done|auto].
  - rewrite El. split; [done|]. widths. lia.
  - exists l'. split; [etrans; [exact E|by destruct recs]|]. by rewrite El, <- app_assoc in Hv'.
Qed.

(** ** Finding the segment of an offset *)

(** What the chain says of its [i]-th segment. *)
Record sealed_at (b e : Z) (segs : list Segment) (rss : list (list record)) (i : nat)
    (s : Segment) (rs : list record) : Prop := {
  sa_rs : rss !! i = Some rs;
  sa_data : seg_data s rs;
  sa_flushed : flushed s;
  sa_ne : rs ≠ [];
  sa_base : s.(BaseOffset) = b + zlen (mjoin (take i rss));
  sa_end : s.(BaseOffset) + zlen rs ≤ e;
  sa_after : ∀ j s', (i < j)%nat → segs !! j = Some s' → s.(BaseOffset) + zlen rs ≤ s'.(BaseOffset)
}.

Lemma sealed_lookup b e segs rss i s : sealed_chain b e segs rss → segs !! i = Some s →
  ∃ rs, sealed_at b e segs rss i s rs.
Proof.
  intros H. revert i s.
  induction H as [|b e s0 segs rs0 rss Hb Hd Hf Hne H IH]; intros i s Hi; [done|].
  pose proof (sealed_chain_length _ _ _ _ H) as He. destruct i as [|i]; simpl in Hi.
  - simplify_eq. exists rs0. constructor; simpl; try done; [lia..|].
    intros j s' Hj Hs'. destruct j as [|j]; [lia|]. simpl in Hs'.
    destruct (IH j s' Hs') as [rs' []]. lia.
  - destruct (IH i s Hi) as [rs []]. exists rs. constructor; simpl; try done.
    + rewrite sa_base0, length_app. lia.
    + intros j s' Hj Hs'. destruct j as [|j]; [lia|]. eapply sa_after0; [|done]. lia.
Qed.

Lemma sealed_locate b e segs rss offset : sealed_chain b e segs rss → b ≤ offset < e →
  ∃ i s rs, segs !! i = Some s ∧ sealed_at b e segs rss i s rs ∧
    s.(BaseOffset) ≤ offset < s.(BaseOffset) + zlen rs.
Proof.
  intros H. induction H as [|b e s0 segs rs0 rss Hb Hd Hf Hne H IH]; intros Ho; [lia|].
  pose proof (sealed_cons _ _ _ _ _ _ Hb Hd Hf Hne H) as Hc.
  destruct (decide (offset < b + zlen rs0)).
  - destruct (sealed_lookup _ _ _ _ 0 s0 Hc eq_refl) as [rs Hs].
    pose proof (sa_rs _ _ _ _ _ _ _ Hs) as [= ->]. exists 0%nat, s0, rs. split_and!; [done..|lia|lia].
  - destruct IH as (i & s & rs & Hi & Hs & Hin); [lia|].
    destruct (sealed_lookup _ _ _ _ (S i) s Hc Hi) as [rs' Hs'].
    pose proof (sa_rs _ _ _ _ _ _ _ Hs). pose proof (sa_rs _ _ _ _ _ _ _ Hs') as E'. simpl in E'.
    simplify_eq. by exists (S i), s, rs.
Qed.

(** The binary search finds the segment that starts at or below the offset when
    the next one starts above it. *)
Lemma find_at segs i s offset : segs !! i = Some s →
  (∀ j s', (j ≤ i)%nat → segs !! j = Some s' → s'.(BaseOffset) ≤ offset) →
  (∀ j s', (i < j)%nat → segs !! j = Some s' → offset < s'.(BaseOffset)) →
  findSegmentLocked offset segs = Some i.
Proof.
  intros Hi Hle Hgt. pose proof (lookup_lt_Some _ _ _ Hi) as Hlt.
  unfold findSegmentLocked. destruct segs as [|s0 tl]; [done|].
  pose proof (Hle 0%nat s0 ltac:(lia) eq_refl). case_test. set (segs' := s0 :: tl) in *.
  set (g := λ j, match segs' !! j with Some s' => offset <? BaseOffset s' | None => false end).
  assert (Hg : ∀ j, (j < length segs')%nat → g j = negb (j <=? i)%nat).
  { intros j [s' Hs']%lookup_lt_is_Some. unfold g. rewrite Hs'. destruct (Nat.leb_spec j i); simpl.
    - apply Z.ltb_ge. by apply (Hle j).
    - apply Z.ltb_lt. by apply (Hgt j). }
  destruct (sort_Search_spec (length segs') g) as (Hn & Hlo & Hhi).
  { intros a c Hac Hc. rewrite !Hg by lia. by destruct (Nat.leb_spec a i), (Nat.leb_spec c i); simpl; [| |lia|]. }
  assert (sort_Search (length segs') g = S i) as ->.
  { destruct (lt_eq_lt_dec (sort_Search (length segs') g) (S i)) as [[Hc|]|Hc]; [|done|].
    - specialize (Hhi ltac:(lia)). rewrite Hg in Hhi by lia. destruct (Nat.leb_spec (sort_Search (length segs') g) i); [done|lia].
    - specialize (Hlo (S i) Hc). rewrite Hg in Hlo by lia. destruct (Nat.leb_spec (S i) i); [lia|done]. }
  simpl. f_equal. lia.
Qed.

Lemma join_lookup_at {A} (rss : list (list A)) i rs k : rss !! i = Some rs → (k < length rs)%nat →
  mjoin rss !! (length (mjoin (take i rss)) + k)%nat = rs !! k.
Proof.
  intros Hi Hk.
  assert (E : mjoin rss = mjoin (take i rss) ++ rs ++ mjoin (drop (S i) rss)).
  { pose proof (take_drop_middle rss i rs Hi) as E. apply (f_equal mjoin) in E.
    by rewrite join_app in E. }
  rewrite E, lookup_app_r by lia. replace (_ + k - _)%nat with k by lia. by rewrite lookup_app_l by lia.
Qed.

(** Only the last segment is active. *)
Lemma is_active_rep l b e sealed rss a ra i : log_rep l b e sealed rss a ra →
  is_active i l = bool_decide (i = length sealed).
Proof.
  intros Hr. unfold is_active.
  rewrite (lr_attached _ _ _ _ _ _ _ Hr), (lr_segments _ _ _ _ _ _ _ Hr), length_app.
  cbn [length]. destruct (Nat.eqb_spec (S i) (length sealed + 1)); symmetry;
    [apply bool_decide_true|apply bool_decide_false]; lia.
Qed.

(** The flush before a read, at any position. *)
Lemma flush_for_read_sealed l b e sealed rss a ra i s : log_rep l b e sealed rss a ra →
  sealed !! i = Some s → flush_for_read i s l = (Ok s, l).
Proof.
  intros Hr Hi. unfold flush_for_read. rewrite (is_active_rep _ _ _ _ _ _ _ _ Hr).
  apply lookup_lt_Some in Hi. by rewrite bool_decide_false by lia.
Qed.

Lemma flush_for_read_active l b e sealed rss a ra : log_rep l b e sealed rss a ra → ∃ w,
  flush_for_read (length sealed) a l = (Ok (set_writer w a), set_segments (sealed ++ [set_writer w a]) l) ∧
  log_rep (set_segments (sealed ++ [set_writer w a]) l) b e sealed rss (set_writer w a) ra ∧
  flushed (set_writer w a).
Proof.
  intros Hr. destruct (FlushWriter_ok a ra (lr_active _ _ _ _ _ _ _ Hr)) as (w & E & _ & Hf & Hrep).
  exists w. split_and!; [| |done].
  - unfold flush_for_read. rewrite (is_active_rep _ _ _ _ _ _ _ _ Hr), bool_decide_true, E by done.
    by rewrite (lr_segments _ _ _ _ _ _ _ Hr), insert_app_r_alt, Nat.sub_diag by lia.
  - eapply log_rep_set_active; [done|apply Hrep, Hr|done|exact (proj2 (log_rep_limits _ _ _ _ _ _ _ Hr))|apply Hr].
Qed.

Lemma log_rep_find_active l b e sealed rss a ra offset : log_rep l b e sealed rss a ra →
  e ≤ offset → findSegmentLocked offset l.(segments) = Some (length sealed).
Proof.
  intros Hr Ho. rewrite (lr_segments _ _ _ _ _ _ _ Hr). apply (find_at _ _ a).
  - rewrite lookup_app_r, Nat.sub_diag by lia. done.
  - intros j s' Hj Hs'. apply lookup_app_Some in Hs' as [Hs'|[_ Hs']].
    + destruct (sealed_lookup _ _ _ _ j s' (lr_sealed _ _ _ _ _ _ _ Hr) Hs') as [rs' []]. lia.
    + apply list_lookup_singleton_Some in Hs' as [_ ->]. rewrite (lr_base _ _ _ _ _ _ _ Hr). done.
  - intros j s' Hj Hs'. apply lookup_lt_Some in Hs'. rewrite length_app in Hs'. simpl in Hs'. lia.
Qed.

Lemma log_rep_find_sealed l b e sealed rss a ra i s rs offset : log_rep l b e sealed rss a ra →
  sealed !! i = Some s → sealed_at b e sealed rss i s rs →
  s.(BaseOffset) ≤ offset < s.(BaseOffset) + zlen rs →
  findSegmentLocked offset l.(segments) = Some i.
Proof.
  intros Hr Hi Hs Ho. rewrite (lr_segments _ _ _ _ _ _ _ Hr). pose proof (lookup_lt_Some _ _ _ Hi).
  apply (find_at _ _ s); [by rewrite lookup_app_l|..].
  - intros j s' Hj Hs'. destruct (decide (j = i)) as [->|].
    + rewrite lookup_app_l in Hs' by lia. simplify_eq. lia.
    + rewrite lookup_app_l in Hs' by lia.
      destruct (sealed_lookup _ _ _ _ j s' (lr_sealed _ _ _ _ _ _ _ Hr) Hs') as [rs' Hat].
      pose proof (sa_after _ _ _ _ _ _ _ Hat i s ltac:(lia) Hi). lia.
  - intros j s' Hj Hs'. apply lookup_app_Some in Hs' as [Hs'|[_ Hs']].
    + pose proof (sa_after _ _ _ _ _ _ _ Hs j s' Hj Hs'). lia.
    + apply list_lookup_singleton_Some in Hs' as [_ ->]. rewrite (lr_base _ _ _ _ _ _ _ Hr).
      pose proof (sa_end _ _ _ _ _ _ _ Hs). lia.
Qed.

Lemma log_rep_lowest l b e sealed rss a ra : log_rep l b e sealed rss a ra →
  ∃ s0 tl, l.(segments) = s0 :: tl ∧ s0.(BaseOffset) = b.
Proof.
  intros [_ _ _ Hs _ Hch _ Hb _ _ _]. rewrite Hs. inversion Hch; subst; simpl; eauto.
Qed.

(** ** Reading one record *)

Lemma Log_Read_rep f l b rs offset : log_view f l b rs → b ≤ offset → ∃ l',
  Log_Read offset l = (match rs !! Z.to_nat (offset - b) with
                       | Some r => Ok r
                       | None => Err (wrapError "log: read" not_found)
                       end, l') ∧ log_view f l' b rs.
Proof.
  intros (e & sealed & rss & a & ra & Hr & -> & Hnx) Ho. unfold Log_Read.
  rewrite (lr_open _ _ _ _ _ _ _ Hr).
  destruct (log_rep_lowest _ _ _ _ _ _ _ Hr) as (s0 & tl & E0 & Eb). rewrite E0. cbn match. rewrite <- E0, Eb.
  case_test. pose proof (sealed_chain_length _ _ _ _ (lr_sealed _ _ _ _ _ _ _ Hr)) as He.
  destruct (Z.lt_ge_cases offset e) as [Hlt|Hge].
  - destruct (sealed_locate _ _ _ _ offset (lr_sealed _ _ _ _ _ _ _ Hr)) as (i & s & rs & Hi & Hs & Hin); [lia|].
    rewrite (log_rep_find_sealed _ _ _ _ _ _ _ _ _ _ _ Hr Hi Hs Hin).
    rewrite (lr_segments _ _ _ _ _ _ _ Hr), lookup_app_l, Hi by (by eapply lookup_lt_Some).
    rewrite (flush_for_read_sealed _ _ _ _ _ _ _ _ _ Hr Hi).
    rewrite (Segment_Read_spec s rs) by (try apply Hs; lia). unfold read_spec.
    exists l. split; [|by exists e, sealed, rss, a, ra].
    destruct (lookup_lt_is_Some_2 rs (Z.to_nat (offset - BaseOffset s))) as [r Er]; [lia|].
    rewrite Er, lookup_app_l by (rewrite <- (Nat2Z.id (length _)); lia).
    pose proof (join_lookup_at rss i rs (Z.to_nat (offset - BaseOffset s)) (sa_rs _ _ _ _ _ _ _ Hs) ltac:(lia)) as Ej.
    rewrite (sa_base _ _ _ _ _ _ _ Hs) in Ej, Er. rewrite Er in Ej.
    replace (Z.to_nat (offset - b)) with (length (mjoin (take i rss)) +
      Z.to_nat (offset - (b + zlen (mjoin (take i rss)))))%nat; [by rewrite Ej|].
    rewrite (sa_base _ _ _ _ _ _ _ Hs) in Hin. lia.
  - rewrite (log_rep_find_active _ _ _ _ _ _ _ offset Hr) by lia.
    rewrite (lr_segments _ _ _ _ _ _ _ Hr), lookup_app_r, Nat.sub_diag by lia. simpl.
    destruct (flush_for_read_active _ _ _ _ _ _ _ Hr) as (w & E & Hr' & Hf). rewrite E.
    rewrite (Segment_Read_spec _ ra); [|apply Hr'|done|simpl; rewrite (lr_base _ _ _ _ _ _ _ Hr); lia].
    unfold read_spec. simpl. rewrite (lr_base _ _ _ _ _ _ _ Hr), lookup_app_r by lia.
    replace (Z.to_nat (offset - b) - length (mjoin rss))%nat with (Z.to_nat (offset - e)) by lia.
    eexists. split; [by destruct (ra !! _)|]. by exists e, sealed, rss, (set_writer w a), ra.
Qed.

(** ** Reading a range *)

(** The records a ranged read returns, segment by segment: [k] is the requested
    position within the records left, [acc] the bytes used so far. *)
Fixpoint readfrom_ref (maxBytes acc k : Z) (rss : list (list record)) : list record :=
  match rss with
  | [] => []
  | rs :: rss =>
      if negb (bool_decide (rss = [])) && (zlen rs <=? k)
      then readfrom_ref maxBytes acc (k - zlen rs) rss
      else
        let recs := take_budget (maxBytes - acc) 0 (drop (Z.to_nat k) rs) in
        let acc := acc + total_size recs in
        if maxBytes <=? acc then recs
        else if zlen rs <=? k then recs
        else recs ++ readfrom_ref maxBytes acc 0 rss
  end.

Lemma accumulate_eq recs acc : 0 ≤ acc → acc + total_size recs ≤ MaxInt32 →
  accumulate recs acc = acc + total_size recs.
Proof.
  revert acc. induction recs as [|r recs IH]; intros acc Ha Hb; simpl in *; [lia|].
  pose proof (EncodedSize_min r). pose proof (total_size_min recs).
  rewrite (wrapS_small 32 (EncodedSize r)), wrapS_small by width_lia.
  unfold accumulate in IH. rewrite IH; lia.
Qed.

Lemma take_budget_bound m rs : 0 < m → Forall storable rs →
  0 ≤ total_size (take_budget m 0 rs) ≤ Z.max m MaxRecordSize.
Proof.
  intros Hm Hok. pose proof (total_size_min (take_budget m 0 rs)).
  destruct (take_budget_prefix m 0 rs) as (rest & E & Hfit & _).
  destruct (Hfit ltac:(lia)) as [En|[Hle|[_ Hone]]]; [rewrite En; simpl; lia|lia|].
  destruct (take_budget m 0 rs) as [|r [|]] eqn:Et; try done. simpl.
  rewrite E in Hok. apply Forall_cons in Hok as [[_ Hsz] _]. pose proof (EncodedSize_min r). lia.
Qed.

(** One segment of a ranged read. *)
Lemma readfrom_step s rs offset maxBytes acc : seg_data s rs → flushed s →
  s.(BaseOffset) ≤ offset → 0 < maxBytes ≤ MaxInt32 - MaxRecordSize → 0 ≤ acc < maxBytes →
  let recs := take_budget (maxBytes - acc) 0 (drop (Z.to_nat (offset - s.(BaseOffset))) rs) in
  Segment_ReadFrom offset (int32 (maxBytes - acc)) s = (recs, None) ∧
  accumulate recs acc = acc + total_size recs ∧ 0 ≤ total_size recs.
Proof.
  intros Hd Hf Ho Hm Ha. simpl. unfold MaxRecordSize in *.
  rewrite (wrapS_small 32) by width_lia. rewrite (Segment_ReadFrom_spec s rs); [|done..|].
  2: { unfold MaxRecordSize. lia. }
  pose proof (take_budget_bound (maxBytes - acc) (drop (Z.to_nat (offset - BaseOffset s)) rs)
    ltac:(lia) ltac:(apply Forall_drop, Hd)) as Hb. unfold MaxRecordSize in *.
  split_and!; [done| |lia]. apply accumulate_eq; lia.
Qed.

Lemma readfrom_active l b e sealed rss a ra offset maxBytes out acc :
  log_rep l b e sealed rss a ra → e ≤ offset →
  0 < maxBytes ≤ MaxInt32 - MaxRecordSize → 0 ≤ acc < maxBytes → ∃ a',
  readfrom_loop 1 (length sealed) offset maxBytes out acc l =
    ((out ++ readfrom_ref maxBytes acc (offset - e) [ra], None), set_segments (sealed ++ [a']) l) ∧
  log_rep (set_segments (sealed ++ [a']) l) b e sealed rss a' ra.
Proof.
  intros Hr Ho Hm Ha. cbn [readfrom_loop]. pose proof (lr_base _ _ _ _ _ _ _ Hr) as Hb.
  rewrite (lr_segments _ _ _ _ _ _ _ Hr).
  rewrite (lookup_app_r _ _ (length sealed)), Nat.sub_diag by lia. simpl lookup.
  rewrite lookup_ge_None_2 by len. change (0 <=? -1) with false. rewrite andb_false_l.
  rewrite Hb. case_test.
  destruct (flush_for_read_active _ _ _ _ _ _ _ Hr) as (w & E & Hr' & Hf). rewrite E.
  destruct (readfrom_step (set_writer w a) ra offset maxBytes acc) as (E1 & E2 & E3);
    [apply Hr'|done|simpl; lia|done|done|]. simpl in E1, E2, E3. rewrite Hb in E1, E2, E3.
  rewrite E1, E2. exists (set_writer w a). split; [|done].
  unfold readfrom_ref. rewrite bool_decide_true by done. simpl negb. rewrite andb_false_l.
  cbn [NextOffset set_writer]. rewrite (sr_next _ _ (lr_active _ _ _ _ _ _ _ Hr)), Hb.
  destruct (_ <=? _); [done|]. rewrite app_nil_r.
  by destruct (_ <=? offset), (_ <=? offset - e).
Qed.

(** A sealed segment and the one after it, which may be the active one. *)
Lemma suffix_lookup l b e sealed rss a ra pre s suf bi rsuf :
  log_rep l b e sealed rss a ra → sealed = pre ++ s :: suf → sealed_chain bi e suf rsuf →
  l.(segments) !! length pre = Some s ∧
  ∃ s2, l.(segments) !! S (length pre) = Some s2 ∧ s2.(BaseOffset) = bi.
Proof.
  intros Hr Hsuf Hch. rewrite (lr_segments _ _ _ _ _ _ _ Hr), Hsuf, <- app_assoc.
  rewrite (lookup_app_r _ _ (length pre)), Nat.sub_diag by lia. split; [done|].
  rewrite (lookup_app_r _ _ (S (length pre))) by lia.
  replace (S (length pre) - length pre)%nat with 1%nat by lia.
  inversion Hch; subst; simpl; [exists a; split; [done|apply Hr]|eauto].
Qed.

Lemma readfrom_loop_rep l b e sealed rss a ra maxBytes : log_rep l b e sealed rss a ra →
  0 < maxBytes ≤ MaxInt32 - MaxRecordSize →
  ∀ bi suf rsuf pre offset out acc, sealed = pre ++ suf → sealed_chain bi e suf rsuf →
  sealed_next suf rsuf → 0 ≤ bi ≤ offset → 0 ≤ acc < maxBytes → ∃ a',
  readfrom_loop (S (length suf)) (length pre) offset maxBytes out acc l =
    ((out ++ readfrom_ref maxBytes acc (offset - bi) (rsuf ++ [ra]), None),
     set_segments (sealed ++ [a']) l) ∧
  log_rep (set_segments (sealed ++ [a']) l) b e sealed rss a' ra.
Proof.
  intros Hr Hm bi suf rsuf pre offset out acc Hsuf Hch. revert pre offset out acc Hsuf.
  induction Hch as [bi|bi e s suf rs rsuf Hb Hd Hf Hne Hch IH];
    intros pre offset out acc Hsuf Hnx Hbi Ha.
  { rewrite app_nil_r in Hsuf. subst pre. apply (readfrom_active l b _ sealed rss a ra); [done|lia..]. }
  destruct (Forall2_cons_1 _ _ _ _ _ Hnx) as [[En _] Hnx'].
  destruct (suffix_lookup _ _ _ _ _ _ _ _ _ _ _ _ Hr Hsuf Hch) as (Hi & s2 & Hi' & Eb2).
  assert (Hsuf' : sealed = (pre ++ [s]) ++ suf) by (by rewrite <- app_assoc).
  specialize (IH Hr (pre ++ [s])). rewrite length_app, Nat.add_1_r in IH.
  cbn [length]. remember (S (length suf)) as n. cbn [readfrom_loop readfrom_ref app].
  rewrite Hi, Hi', Eb2. case_bool (Z.leb_spec 0 (bi + zlen rs)). rewrite andb_true_l.
  rewrite bool_decide_false by (by destruct rsuf). simpl negb. rewrite andb_true_l.
  replace (zlen rs <=? offset - bi) with (bi + zlen rs <=? offset) by (destruct (Z.leb_spec (bi + zlen rs) offset), (Z.leb_spec (zlen rs) (offset - bi)); lia).
  destruct (Z.leb_spec (bi + zlen rs) offset) as [Hskip|Hin].
  { replace (offset - bi - zlen rs) with (offset - (bi + zlen rs)) by lia. by apply IH; try lia. }
  rewrite Hb. case_test.
  rewrite (flush_for_read_sealed _ _ _ _ _ _ _ (length pre) s Hr) by (by rewrite Hsuf, lookup_app_r, Nat.sub_diag by lia).
  destruct (readfrom_step s rs offset maxBytes acc) as (E1 & E2' & E3); [done|done|lia|done|done|].
  simpl in E1, E2', E3. rewrite Hb in E1, E2', E3. rewrite E1, E2'.
  set (recs := take_budget _ _ _) in *. destruct (Z.leb_spec maxBytes (acc + total_size recs)).
  { exists a. split; [|by eapply log_rep_set_active; [done|apply Hr|done|exact (proj2 (log_rep_limits _ _ _ _ _ _ _ Hr))|apply Hr]].
    rewrite <- (lr_segments _ _ _ _ _ _ _ Hr). by destruct l. }
  rewrite En, Hb. case_test.
  destruct (IH (bi + zlen rs) (out ++ recs) (acc + total_size recs)) as (a' & E & Hr'); try done; [lia..|].
  exists a'. split; [|done]. by rewrite E, Z.sub_diag, <- app_assoc.
Qed.

Lemma take_budget_all m acc rs : acc + total_size rs ≤ m → take_budget m acc rs = rs.
Proof.
  revert acc. induction rs as [|r rs IH]; intros acc H; simpl in *; [done|].
  pose proof (total_size_min rs). case_bool (Z.ltb_spec m (acc + EncodedSize r)).
  rewrite andb_false_r. f_equal. apply IH. lia.
Qed.

Lemma take_budget_sublist m acc rs : sublist (take_budget m acc rs) rs.
Proof.
  destruct (take_budget_prefix m acc rs) as (rest & E & _). rewrite E at 2.
  by apply sublist_inserts_r.
Qed.

Lemma drop_join_skip {A} (rs : list A) rss k : zlen rs ≤ k →
  drop (Z.to_nat k) (rs ++ mjoin rss) = drop (Z.to_nat (k - zlen rs)) (mjoin rss).
Proof. intros. rewrite drop_app, drop_ge by lia. simpl. f_equal. lia. Qed.

Lemma drop_join_in {A} (rs : list A) rss k : k < zlen rs → 0 ≤ k →
  drop (Z.to_nat k) (rs ++ mjoin rss) = drop (Z.to_nat k) rs ++ mjoin rss.
Proof.
  intros. rewrite drop_app. f_equal. by replace (Z.to_nat k - length rs)%nat with 0%nat by lia.
Qed.

(** A ranged read returns records of the log from the offset on, in order. *)
Lemma readfrom_ref_sublist m acc k rss : 0 ≤ k →
  sublist (readfrom_ref m acc k rss) (drop (Z.to_nat k) (mjoin rss)).
Proof.
  revert acc k. induction rss as [|rs rss IH]; intros acc k Hk; simpl; [by rewrite drop_nil|].
  destruct (Z.leb_spec (zlen rs) k).
  - rewrite drop_join_skip by done. destruct (bool_decide_reflect (rss = [])) as [->|]; simpl.
    + rewrite drop_nil, drop_ge by lia. simpl. by destruct (_ <=? _).
    + apply IH. lia.
  - rewrite andb_false_r, drop_join_in by lia. destruct (_ <=? _).
    + apply sublist_inserts_r, take_budget_sublist.
    + apply sublist_app; [apply take_budget_sublist|]. apply (IH _ 0). lia.
Qed.

(** If the budget suffices for everything from the offset on, everything is
    returned. *)
Lemma readfrom_ref_all m acc k rss : 0 ≤ k → acc + total_size (drop (Z.to_nat k) (mjoin rss)) ≤ m →
  readfrom_ref m acc k rss = drop (Z.to_nat k) (mjoin rss).
Proof.
  revert acc k. induction rss as [|rs rss IH]; intros acc k Hk Hm; simpl in *; [by rewrite drop_nil|].
  destruct (Z.leb_spec (zlen rs) k).
  - rewrite drop_join_skip in * by done. destruct (bool_decide_reflect (rss = [])) as [->|]; simpl.
    + rewrite drop_nil, drop_ge by lia. simpl. by destruct (_ <=? _).
    + apply IH; [lia|done].
  - rewrite andb_false_r, drop_join_in in * by lia. rewrite total_size_app in Hm.
    pose proof (total_size_min (mjoin rss)). rewrite take_budget_all by lia.
    destruct (Z.leb_spec m (acc + total_size (drop (Z.to_nat k) rs))).
    + assert (mjoin rss = []) as ->; [|by rewrite app_nil_r]. destruct (mjoin rss); [done|simpl in *; lia].
    + f_equal. apply (IH _ 0); [lia|]. change (drop (Z.to_nat 0) (mjoin rss)) with (mjoin rss). lia.
Qed.

(** The first record returned is the one at the offset. *)
Lemma readfrom_ref_head m acc k rss : 0 ≤ k →
  hd_error (readfrom_ref m acc k rss) = hd_error (drop (Z.to_nat k) (mjoin rss)).
Proof.
  revert acc k. induction rss as [|rs rss IH]; intros acc k Hk; simpl; [by rewrite drop_nil|].
  destruct (Z.leb_spec (zlen rs) k).
  - rewrite drop_join_skip by done. destruct (bool_decide_reflect (rss = [])) as [->|]; simpl.
    + rewrite drop_nil, drop_ge by lia. simpl. by destruct (_ <=? _).
    + apply IH. lia.
  - rewrite andb_false_r, drop_join_in by lia.
    destruct (drop (Z.to_nat k) rs) as [|r tl] eqn:E.
    { apply (f_equal length) in E. rewrite length_drop in E. simpl in E. lia. }
    simpl. by destruct (_ <=? _).
Qed.

Lemma Log_ReadFrom_rep l b rs offset maxBytes : log_view true l b rs → b ≤ offset →
  0 < maxBytes ≤ MaxInt32 - MaxRecordSize → ∃ l' rss,
  Log_ReadFrom offset maxBytes l = ((readfrom_ref maxBytes 0 (offset - b) rss, None), l') ∧
  mjoin rss = rs ∧ log_view true l' b rs.
Proof.
  intros (e & sealed & rss & a & ra & Hr & -> & Hnx) Ho Hm. specialize (Hnx eq_refl).
  unfold Log_ReadFrom. rewrite (lr_open _ _ _ _ _ _ _ Hr). case_test.
  destruct (log_rep_lowest _ _ _ _ _ _ _ Hr) as (s0 & tl & E0 & Eb). rewrite E0. cbn match.
  rewrite <- E0, Eb. case_test. rewrite (lr_segments _ _ _ _ _ _ _ Hr), length_app, Nat.add_1_r.
  destruct (readfrom_loop_rep l b e sealed rss a ra maxBytes Hr Hm b sealed rss [] offset [] 0)
    as (a' & E & Hr'); [done|apply Hr|done| |lia|].
  { pose proof (lr_low _ _ _ _ _ _ _ Hr). lia. }
  simpl length in E. rewrite E. eexists _, (rss ++ [ra]). split; [done|]. rewrite join_app. simpl.
  rewrite app_nil_r. split; [done|]. by exists e, sealed, rss, a', ra.
Qed.

(** ** Rebuilding a segment *)

Lemma entries_of_prefix base interval rs rs' :
  ∃ more, entries_of base interval (rs ++ rs') = entries_of base interval rs ++ more.
Proof.
  induction rs' as [|r rs' IH] using rev_ind; [exists []; by rewrite !app_nil_r|].
  destruct IH as [more E]. unfold entries_of in *. rewrite app_assoc, index_of_snoc.
  destruct (index_of base interval (rs ++ rs')) as [[l p] s]. simpl in E. subst l.
  unfold index_step. destruct (_ || _); simpl; [rewrite <- app_assoc|]; eauto.
Qed.

(** Accounting and index as after appending [rs] to a fresh segment. *)
Record rebuilt (s : Segment) (rs : list record) : Prop := {
  rb_written : s.(seg_bytesWritten) = zlen (images rs);
  rb_next : s.(NextOffset) = s.(BaseOffset) + zlen rs;
  rb_index : index_rep s.(seg_index) (entries_of s.(BaseOffset) s.(seg_indexInterval) rs);
  rb_since : s.(seg_bytesSinceLastIndex) = (index_of s.(BaseOffset) s.(seg_indexInterval) rs).2
}.

(** The fields the scan does not touch. *)
Definition same_frame (s s' : Segment) : Prop :=
  s'.(BaseOffset) = s.(BaseOffset) ∧ s'.(seg_writer) = s.(seg_writer) ∧
  s'.(seg_maxBytes) = s.(seg_maxBytes) ∧ s'.(seg_indexInterval) = s.(seg_indexInterval) ∧
  s'.(CreatedAt) = s.(CreatedAt) ∧ s'.(seg_closed) = s.(seg_closed) ∧
  s'.(seg_index).(idx_maxSize) = s.(seg_index).(idx_maxSize).

Lemma same_frame_trans s1 s2 s3 : same_frame s1 s2 → same_frame s2 s3 → same_frame s1 s3.
Proof. unfold same_frame. intuition congruence. Qed.

(** What makes a list of records the contents of a segment based at [base]. *)
Record seg_records (base : Z) (rs : list record) : Prop := {
  sg_ok : Forall storable rs;
  sg_consec : consecutive base rs;
  sg_starts : starts_ok rs;
  sg_int64 : 0 ≤ base ∧ inS 64 (base + zlen rs)
}.

Lemma seg_records_take base rs i : seg_records base rs → seg_records base (take i rs).
Proof.
  intros [? ? ? [? ?]]. constructor; [by apply Forall_take|by apply consecutive_take|by apply starts_ok_take|].
  split; [done|]. rewrite length_take. widths. lia.
Qed.

(** The records below [stopOffset], all of them in recovery mode. *)
Definition keep (stopOffset base : Z) (rs : list record) : list record :=
  if stopOffset <? 0 then rs else take (Z.to_nat (stopOffset - base)) rs.

(** One record of the scan. *)
Lemma rebuild_step s done r rest : rebuilt s done →
  seg_records s.(BaseOffset) (done ++ r :: rest) → 0 < s.(seg_indexInterval) →
  entrySize * zlen (entries_of s.(BaseOffset) s.(seg_indexInterval) (done ++ r :: rest))
    ≤ s.(seg_index).(idx_maxSize) →
  ∃ s1, index_record r.(rec_Offset) (uint32 s.(seg_bytesWritten))
    (set_counters (s.(seg_bytesWritten) + EncodedSize r)
       (s.(seg_bytesSinceLastIndex) + EncodedSize r) s) = (Ok tt, s1) ∧
    rebuilt (SetNextOffset (int64 (r.(rec_Offset) + 1)) s1) (done ++ [r]) ∧
    same_frame s (SetNextOffset (int64 (r.(rec_Offset) + 1)) s1).
Proof.
  intros [Hw Hn Hi Hs] [Hok Hc Hst [H0 H64]] Hint Hcap.
  pose proof (Hst (length done) ltac:(rewrite length_app; simpl; lia)) as Hpos.
  rewrite take_app_length in Hpos.
  pose proof (Hc (length done) r ltac:(by rewrite lookup_app_r, Nat.sub_diag by lia)) as Er.
  assert (Hc' : consecutive (BaseOffset s) done).
  { pose proof (consecutive_take _ _ (length done) Hc) as Hc'. by rewrite take_app_length in Hc'. }
  destruct (index_of_ok _ _ _ Hint Hc') as [Hp _ _ _ _ _].
  pose proof (starts_ok_length _ Hst) as Hlen. rewrite length_app in Hlen, H64. cbn [length] in Hlen, H64.
  set (s0 := set_counters _ _ s). rewrite Hw, wrapU_small by (widths; lia).
  destruct (index_record_step s0 done r (zlen (images done))) as (i & Ei & Hi' & Hmax); simpl;
    [done|by rewrite Hs|done|widths; lia|rewrite Er; widths; lia| |].
  - destruct (entries_of_prefix (BaseOffset s) (seg_indexInterval s) (done ++ [r]) rest) as [more E].
    rewrite <- app_assoc in E. simpl in E. rewrite E, length_app in Hcap. unfold entrySize in *. lia.
  - eexists. split; [exact Ei|]. split; [|split_and!; simpl; done].
    constructor; simpl; [|rewrite wrapS_small|done|done].
    + rewrite images_snoc, length_app, Nat2Z.inj_add, length_record_image. lia.
    + rewrite Er, length_app. simpl. lia.
    + lia.
    + rewrite Er. widths. lia.
Qed.

Lemma rebuild_loop_ok stop tail rest : ∀ s done fuel, rebuilt s done →
  seg_records s.(BaseOffset) (done ++ rest) → 0 < s.(seg_indexInterval) →
  entrySize * zlen (entries_of s.(BaseOffset) s.(seg_indexInterval) (done ++ rest))
    ≤ s.(seg_index).(idx_maxSize) →
  (∃ n e t, DecodeRecord tail = ((n, Err e), t)) → (length (images rest ++ tail) < fuel)%nat →
  (0 ≤ stop → s.(BaseOffset) + zlen done ≤ stop) → ∃ s',
  rebuild_loop fuel stop (images rest ++ tail) s = (Ok tt, s') ∧
  rebuilt s' (done ++ keep stop (s.(BaseOffset) + zlen done) rest) ∧ same_frame s s'.
Proof.
  induction rest as [|r rest IH]; intros s done fuel Hrb Hrec Hint Hcap Htail Hf Hstop.
  { destruct fuel; [simpl in Hf; lia|]. cbn [rebuild_loop]. simpl app.
    destruct Htail as (n & e & t & ->). exists s. split; [done|].
    unfold keep. rewrite take_nil. by destruct (_ <? _); rewrite app_nil_r. }
  destruct fuel as [|fuel]; [lia|]. cbn [rebuild_loop].
  pose proof (sg_ok _ _ Hrec) as Hok. apply Forall_app in Hok as [_ [Hr _]%Forall_cons].
  rewrite decode_images by done.
  pose proof (sg_consec _ _ Hrec (length done) r ltac:(by rewrite lookup_app_r, Nat.sub_diag by lia)) as Er.
  destruct ((0 <=? stop) && (stop <=? rec_Offset r)) eqn:Et.
  - apply andb_true_iff in Et as [H0%Z.leb_le H1%Z.leb_le]. exists s. split; [done|].
    unfold keep. case_test. rewrite Er in H1.
    replace (Z.to_nat (stop - (BaseOffset s + zlen done))) with 0%nat by lia. simpl. by rewrite app_nil_r.
  - destruct (rebuild_step s done r rest Hrb Hrec Hint Hcap) as (s1 & E1 & Hrb1 & Hfr).
    rewrite E1. set (s2 := SetNextOffset _ s1) in *. pose proof Hfr as (Eb & _ & _ & Ei & _ & _ & Em).
    destruct (IH s2 (done ++ [r]) fuel) as (s' & E' & Hrb' & Hfr');
      rewrite ?Eb, ?Ei, ?Em, <- ?app_assoc; try done.
    + rewrite images_cons, <- app_assoc, length_app in Hf.
      pose proof (length_record_image r). pose proof (EncodedSize_min r). lia.
    + intros H0. specialize (Hstop H0). apply andb_false_iff in Et as [Et%Z.leb_gt|Et%Z.leb_gt]; len.
    + exists s'. split; [done|]. split; [|by eapply same_frame_trans].
      rewrite Eb, <- app_assoc in Hrb'.
      replace (keep stop (BaseOffset s + zlen done) (r :: rest))
        with (r :: keep stop (BaseOffset s + zlen (done ++ [r])) rest); [done|].
      unfold keep. rewrite length_app. simpl. destruct (Z.ltb_spec stop 0) as [|H0]; [done|].
      specialize (Hstop H0). apply andb_false_iff in Et as [Et%Z.leb_gt|Et%Z.leb_gt]; [lia|].
      replace (Z.to_nat (stop - (BaseOffset s + zlen done)))
        with (S (Z.to_nat (stop - (BaseOffset s + Z.of_nat (length done + 1))))) by lia. done.
Qed.

Lemma keep_prefix stop base rs : ∃ rest, rs = keep stop base rs ++ rest.
Proof.
  unfold keep. destruct (_ <? _); [exists []; by rewrite app_nil_r|].
  exists (drop (Z.to_nat (stop - base)) rs). by rewrite take_drop.
Qed.

Lemma seg_records_keep stop base rs : seg_records base rs → seg_records base (keep stop base rs).
Proof. unfold keep. destruct (_ <? _); [done|]. apply seg_records_take. Qed.

(** Rebuilding keeps the whole records before the stop offset and before the first
    undecodable byte, drops everything after them, and leaves a segment that is
    ready to append at the cut. *)
Lemma rebuildSegment_ok stop s rs tail : s.(seg_closed) = false → writer_inv s.(seg_writer) →
  written s.(seg_writer) = images rs ++ tail → seg_records s.(BaseOffset) rs →
  (∃ n e t, DecodeRecord tail = ((n, Err e), t)) → 0 < s.(seg_indexInterval) →
  entrySize ≤ s.(seg_index).(idx_maxSize) →
  entrySize * zlen (entries_of s.(BaseOffset) s.(seg_indexInterval) rs) ≤ s.(seg_index).(idx_maxSize) →
  (0 ≤ stop → s.(BaseOffset) ≤ stop) → ∃ s',
  rebuildSegment stop s = (Ok tt, s') ∧ seg_rep s' (keep stop s.(BaseOffset) rs) ∧ flushed s' ∧
  s'.(BaseOffset) = s.(BaseOffset) ∧ s'.(seg_maxBytes) = s.(seg_maxBytes) ∧
  s'.(seg_indexInterval) = s.(seg_indexInterval) ∧
  entrySize ≤ s'.(seg_index).(idx_maxSize) ≤ s.(seg_index).(idx_maxSize) ∧
  s'.(seg_index).(idx_maxSize) mod entrySize = 0.
Proof.
  intros Hcl Hw Ew Hrec Htail Hint Hmax Hcap Hstop. unfold rebuildSegment. rewrite Hcl.
  destruct (bufio_Flush_ok _ Hw) as (w & -> & Hw' & Hb & Ew' & _).
  change (bufio_written (seg_writer s)) with (written (seg_writer s)) in Ew'. rewrite Ew in Ew'.
  cbn [seg_index set_writer].
  destruct (NewIndex_fresh _ Hmax) as (i & -> & Hi & Em).
  set (s1 := SetNextOffset _ _). assert (Ed : file_data (seg_logFile s1) = images rs ++ tail).
  { rewrite <- Ew'. unfold bufio_written. rewrite Hb, app_nil_r. done. }
  pose proof (Z.mod_pos_bound (idx_maxSize (seg_index s)) 8 ltac:(lia)).
  pose proof (Z.div_mod (idx_maxSize (seg_index s)) 8 ltac:(lia)).
  assert (Hm8 : ∀ n, 8 * n ≤ idx_maxSize (seg_index s) → 8 * n ≤ idx_maxSize i).
  { intros n Hn. rewrite Em. unfold entrySize. lia. }
  rewrite Ed. destruct (rebuild_loop_ok stop tail rs s1 [] (S (length (images rs ++ tail))))
    as (s2 & E2 & [Hrw Hrn Hri Hrs] & (Fb & Fw & Fm & Fi & Fc & Fcl & Fmax));
    [by constructor; simpl; [|lia|..]|done|done|by unfold entrySize in *; apply Hm8|done|lia|
     simpl; intros Hs0; specialize (Hstop Hs0); lia|].
  rewrite E2. eexists. split; [reflexivity|]. simpl in Fb, Fw, Fm, Fi, Fcl, Fmax.
  change (BaseOffset s1) with (BaseOffset s) in *. change (zlen (@nil record)) with 0 in *.
  rewrite Z.add_0_r in *. simpl app in *. rewrite Fb, ?Fi in Hrn, Hri, Hrs.
  set (kept := keep stop (BaseOffset s) rs) in *.
  destruct (keep_prefix stop (BaseOffset s) rs) as (rest & Er).
  destruct (seg_records_keep stop _ _ Hrec) as [Kok Kc Kst _].
  assert (Et : file_truncate (seg_bytesWritten s2) (file_data (bw_wr w)) = images kept).
  { change (file_data (bw_wr w)) with (file_data (seg_logFile s1)).
    rewrite Ed, Er, images_app, <- app_assoc, Hrw. by apply file_truncate_app. }
  destruct Hw' as (? & ? & ? & ?). split_and!; simpl; rewrite ?Fw, ?Fmax; try done.
  2: { unfold entrySize in *. apply (Hm8 1). lia. }
  2: { rewrite Em. unfold entrySize. lia. }
  2: { by rewrite Em, Zminus_mod, Zmod_mod, Z.sub_diag. }
  constructor; simpl; [constructor; simpl|..]; rewrite ?Fb, ?Fi, ?Fcl, ?Fw; try done.
  - split_and!; simpl; [by rewrite Et, Hrw|done|done|rewrite Hb; simpl; lia].
  - unfold bufio_written. simpl. by rewrite Et, Hb, app_nil_r.
  - by rewrite Fi in Hri.
  - by rewrite Fi in Hrs.
Qed.

(** ** Truncation *)

Lemma log_index_path o : log_path o ≠ index_path o.
Proof.
  unfold log_path, index_path. intros E. by apply (inj (String.append _)) in E.
Qed.

(** Removing an open segment leaves no trace in the directory. *)
Lemma Segment_Remove_ok removeOk s rs (d : Dir) : (∀ p, removeOk p = true) → seg_data s rs →
  d !! log_path s.(BaseOffset) = None → d !! index_path s.(BaseOffset) = None →
  ∃ s', Segment_Remove removeOk (s, d) = (Ok tt, (s', d)).
Proof.
  intros Hok Hd H1 H2. unfold Segment_Remove.
  destruct (Segment_Close_disk s rs d Hd) as (s' & d' & E & _ & ->).
  pose proof (log_index_path (BaseOffset s)).
  unfold Segment_Close in *. rewrite (sd_open _ _ Hd) in *. simpl in *.
  destruct (bufio_flush_seg s rs Hd) as (w & E1 & _). rewrite E1 in *.
  injection E as <- Ed. rewrite Ed. simpl. rewrite !Hok. simpl. eexists. do 3 f_equal.
  rewrite delete_insert_id by (by rewrite lookup_insert_ne). by rewrite delete_insert_id.
Qed.

(** With every removal succeeding, the loop keeps the segments below the offset
    and leaves the directory alone. *)
Lemma truncate_loop_ok removeOk offset segs (d : Dir) : (∀ p, removeOk p = true) → dir_free d →
  Forall (λ s, 0 ≤ s.(BaseOffset) ∧ inS 64 s.(BaseOffset) ∧ ∃ rs, seg_data s rs) segs →
  ∃ all, truncate_loop removeOk offset segs d =
    (None, all, filter (λ s, s.(BaseOffset) < offset) segs, d) ∧ length all = length segs.
Proof.
  intros Hok Hd. induction segs as [|s segs IH]; intros Hf; simpl; [by exists []|].
  apply Forall_cons in Hf as [(H0 & H64 & rs & Hs) Hf]. destruct (IH Hf) as (all & E & El).
  destruct (Z.leb_spec offset (BaseOffset s)).
  - destruct (Hd _ H0 H64). destruct (Segment_Remove_ok removeOk s rs d) as (s' & ->); [done..|].
    rewrite E, filter_cons_False by lia. eexists. split; [done|]. simpl. lia.
  - rewrite E, filter_cons_True by lia. eexists. split; [done|]. simpl. lia.
Qed.

Lemma sealed_chain_take b e segs rss i s : sealed_chain b e segs rss → segs !! i = Some s →
  sealed_chain b s.(BaseOffset) (take i segs) (take i rss).
Proof.
  intros H. revert i. induction H as [|b e s0 segs rs rss Hb Hd Hf Hne H IH]; intros i Hi; [done|].
  destruct i as [|i]; simpl in *; [simplify_eq; constructor|]. constructor; auto.
Qed.

Lemma seg_data_records s rs : seg_data s rs → 0 ≤ s.(BaseOffset) →
  inS 64 (s.(BaseOffset) + zlen rs) → seg_records s.(BaseOffset) rs.
Proof. intros [] ??. by constructor. Qed.

Lemma sealed_next_take segs rss i : sealed_next segs rss → sealed_next (take i segs) (take i rss).
Proof. apply Forall2_take. Qed.

(** Rebuilding an intact segment at an offset inside it. *)
Lemma rebuild_intact cfg stop s rs : seg_data s rs → 0 ≤ s.(BaseOffset) →
  inS 64 (s.(BaseOffset) + zlen rs) → seg_limits cfg s → s.(BaseOffset) ≤ stop → ∃ s',
  rebuildSegment stop s = (Ok tt, s') ∧
  seg_rep s' (take (Z.to_nat (stop - s.(BaseOffset))) rs) ∧
  s'.(BaseOffset) = s.(BaseOffset) ∧ seg_limits cfg s'.
Proof.
  intros Hd H0 H64 (Hm & Hi & Hmod & Hv) Hstop.
  destruct (rebuildSegment_ok stop s rs []) as (s' & E & Hrep & _ & Eb & Em & Ev & Hi' & Hmod').
  all: try (by apply Hd). 1: by rewrite app_nil_r, (sd_bytes _ _ Hd). 1: by apply seg_data_records.
  1: by eexists _, _, _. 1: lia. 2: done.
  1: { pose proof (rep_max _ _ (sd_index _ _ Hd)) as Hmax. by rewrite (rep_size _ _ (sd_index _ _ Hd)) in Hmax. }
  exists s'. unfold keep in Hrep. destruct (Z.ltb_spec stop 0); [lia|].
  split_and!; [done|done|done|]. unfold seg_limits. rewrite Em, Ev. split_and!; lia || done.
Qed.

Lemma log_rep_segments_ok l b e sealed rss a ra : log_rep l b e sealed rss a ra →
  Forall (λ s, 0 ≤ s.(BaseOffset) ∧ inS 64 s.(BaseOffset) ∧ ∃ rs, seg_data s rs) (sealed ++ [a]).
Proof.
  intros []. pose proof (sealed_chain_length _ _ _ _ lr_sealed0). apply Forall_app. split.
  - apply Forall_lookup_2. intros i s Hi.
    destruct (sealed_lookup _ _ _ _ _ _ lr_sealed0 Hi) as [rs []].
    split_and!; [lia|widths; lia|eauto].
  - apply Forall_singleton. subst e. split_and!; [lia|widths; lia|eexists; apply lr_active0].
Qed.

(** The last kept segment becomes the active one. *)
Lemma truncate_finish f l b e sealed rss s rs offset now s' : log_view f l b (mjoin rss ++ rs) →
  sealed_chain b e sealed rss → (f = true → sealed_next sealed rss) → s.(BaseOffset) = e →
  inS 64 (e + zlen (take (Z.to_nat (offset - e)) rs)) →
  seg_rep s' (take (Z.to_nat (offset - e)) rs) → s'.(BaseOffset) = e →
  Forall (seg_limits l.(log_config)) (sealed ++ [s']) → b ≤ e ≤ offset →
  log_view f (set_active_at now (set_segments (sealed ++ [s']) l)) b
    (take (Z.to_nat (offset - b)) (mjoin rss ++ rs)).
Proof.
  intros (e0 & sealed0 & rss0 & a0 & ra0 & Hr & _ & _) Hch Hnx Hb H64 Hrep Eb Hlim Ho.
  pose proof (sealed_chain_length _ _ _ _ Hch).
  exists e, sealed, rss, s', (take (Z.to_nat (offset - e)) rs). split_and!; [|
    rewrite take_app, take_ge by lia; do 2 f_equal; lia|done].
  constructor; simpl; try done; apply Hr.
Qed.

Lemma Log_Truncate_low mt removeOk now offset f l b rs : log_view f l b rs →
  (∀ p, removeOk p = true) → 0 ≤ offset → inS 64 offset → offset ≤ b → ∃ l',
  Log_Truncate mt removeOk now offset l = (Ok tt, l') ∧ log_view f l' offset [].
Proof.
  intros (e & sealed & rss & a & ra & Hr & -> & _) Hok H0 H64 Ho. unfold Log_Truncate.
  rewrite (lr_open _ _ _ _ _ _ _ Hr). pose proof (log_rep_segments_ok _ _ _ _ _ _ _ Hr) as Hsegs.
  destruct (truncate_loop_ok removeOk offset _ _ Hok (lr_free _ _ _ _ _ _ _ Hr) Hsegs) as (all & E & _).
  rewrite <- (lr_segments _ _ _ _ _ _ _ Hr) in E.
  destruct (log_rep_lowest _ _ _ _ _ _ _ Hr) as (s0 & tl & E0 & Eb). rewrite E, E0. cbn match.
  rewrite <- E0, (lr_segments _ _ _ _ _ _ _ Hr), (filter_take _ _ 0). 2: {
    intros j s Hj. split; [lia|]. intros Hlt. apply lookup_app_Some in Hj as [Hj|[_ Hj]].
    - destruct (sealed_lookup _ _ _ _ _ _ (lr_sealed _ _ _ _ _ _ _ Hr) Hj) as [rs' []]. lia.
    - apply list_lookup_singleton_Some in Hj as [_ <-].
      pose proof (sealed_chain_length _ _ _ _ (lr_sealed _ _ _ _ _ _ _ Hr)).
      pose proof (lr_base _ _ _ _ _ _ _ Hr). lia. }
  simpl take. cbn match. destruct (lr_config _ _ _ _ _ _ _ Hr) as (Hd & Hmx & Hsb).
  destruct (lr_free _ _ _ _ _ _ _ Hr offset H0 H64) as [F1 F2].
  destruct (NewSegment_fresh mt now offset (log_config l) (log_dir l) F1 F2)
    as (s & Es & Hrep & _ & Hb & Hm & Hv & Hi & _); [by rewrite Hd|].
  simpl log_config. simpl log_dir. rewrite Es. eexists. split; [done|].
  exists offset, [], [], s, []. split_and!; [|done|by constructor].
  constructor; simpl; try done; try apply Hr; [constructor| |by rewrite Z.add_0_r].
  rewrite Hd in Hm, Hv, Hi. constructor; [|constructor].
  by apply (fresh_limits (log_config l)); [apply Hr|..].
Qed.

(** [Truncate] once it is known which segments are below the offset. *)
Lemma Log_Truncate_kept mt removeOk now offset l b e sealed rss a ra kept s s' :
  log_rep l b e sealed rss a ra → (∀ p, removeOk p = true) →
  filter (λ s, s.(BaseOffset) < offset) (sealed ++ [a]) = kept ++ [s] →
  rebuildSegment offset s = (Ok tt, s') →
  Log_Truncate mt removeOk now offset l =
    (Ok tt, set_active_at now (set_segments (kept ++ [s']) l)).
Proof.
  intros Hr Hok Hf Hrb. unfold Log_Truncate. rewrite (lr_open _ _ _ _ _ _ _ Hr).
  pose proof (log_rep_segments_ok _ _ _ _ _ _ _ Hr) as Hsegs.
  destruct (truncate_loop_ok removeOk offset _ _ Hok (lr_free _ _ _ _ _ _ _ Hr) Hsegs) as (all & E & _).
  rewrite <- (lr_segments _ _ _ _ _ _ _ Hr) in E.
  destruct (log_rep_lowest _ _ _ _ _ _ _ Hr) as (s0 & tl & E0 & Eb). rewrite E, E0. cbn match.
  rewrite <- E0, (lr_segments _ _ _ _ _ _ _ Hr), Hf.
  assert (El : pred (length (kept ++ [s])) = length kept) by (rewrite length_app; simpl; lia).
  destruct (kept ++ [s]) as [|s1 tl1] eqn:Ek; [by destruct kept|]. rewrite <- Ek in *.
  rewrite El, lookup_app_r, Nat.sub_diag by lia. simpl lookup. cbn match. rewrite Hrb.
  rewrite insert_app_r_alt, Nat.sub_diag by lia. by destruct l.
Qed.

(** Which segments start below the offset, by where the offset falls. *)
Lemma filter_active l b e sealed rss a ra offset : log_rep l b e sealed rss a ra → e < offset →
  filter (λ s, s.(BaseOffset) < offset) (sealed ++ [a]) = sealed ++ [a].
Proof.
  intros Hr Ho. rewrite (filter_take _ _ (length (sealed ++ [a]))); [by rewrite take_ge|].
  intros j s Hj. split; [intros _|intros _; by eapply lookup_lt_Some].
  apply lookup_app_Some in Hj as [Hj|[_ Hj]].
  - destruct (sealed_lookup _ _ _ _ _ _ (lr_sealed _ _ _ _ _ _ _ Hr) Hj) as [rs' []]. lia.
  - apply list_lookup_singleton_Some in Hj as [_ <-]. rewrite (lr_base _ _ _ _ _ _ _ Hr). done.
Qed.

Lemma filter_sealed l b e sealed rss a ra offset i s rs : log_rep l b e sealed rss a ra →
  offset ≤ e → sealed !! i = Some s → sealed_at b e sealed rss i s rs →
  s.(BaseOffset) < offset ≤ s.(BaseOffset) + zlen rs →
  filter (λ s, s.(BaseOffset) < offset) (sealed ++ [a]) = take i sealed ++ [s].
Proof.
  intros Hr Ho Hi Hs Hin. pose proof (lookup_lt_Some _ _ _ Hi) as Hlt.
  rewrite (filter_take _ _ (S i)).
  { rewrite take_app_le by lia. by apply take_S_r. }
  intros j s1 Hj. apply lookup_app_Some in Hj as [Hj|[Hge Hj]].
  - destruct (lt_eq_lt_dec j i) as [[Hlt'| ->]|Hgt].
    + split; [intros _|lia].
      destruct (sealed_lookup _ _ _ _ _ _ (lr_sealed _ _ _ _ _ _ _ Hr) Hj) as [rs1 Hs1].
      pose proof (sa_after _ _ _ _ _ _ _ Hs1 i s Hlt' Hi). lia.
    + simplify_eq. lia.
    + pose proof (sa_after _ _ _ _ _ _ _ Hs j s1 Hgt Hj). lia.
  - apply list_lookup_singleton_Some in Hj as [_ <-]. rewrite (lr_base _ _ _ _ _ _ _ Hr). lia.
Qed.

Lemma Log_Truncate_rep mt removeOk now offset f l b rs : log_view f l b rs →
  (∀ p, removeOk p = true) → 0 ≤ offset → inS 64 offset → ∃ l',
  Log_Truncate mt removeOk now offset l = (Ok tt, l') ∧
  log_view f l' (Z.min b offset) (take (Z.to_nat (offset - b)) rs).
Proof.
  intros Hv Hok H0 H64. destruct (Z.le_gt_cases offset b) as [Hle|Hgt].
  { destruct (Log_Truncate_low mt removeOk now offset f l b rs Hv Hok H0 H64 Hle) as (l' & E & Hv').
    exists l'. replace (Z.to_nat (offset - b)) with 0%nat by lia. by rewrite Z.min_r by lia. }
  rewrite Z.min_l by lia. pose proof Hv as (e & sealed & rss & a & ra & Hr & -> & Hnx).
  pose proof (sealed_chain_length _ _ _ _ (lr_sealed _ _ _ _ _ _ _ Hr)) as He.
  pose proof (lr_low _ _ _ _ _ _ _ Hr) as Hlow. pose proof (lr_base _ _ _ _ _ _ _ Hr) as Hb.
  destruct (log_rep_limits _ _ _ _ _ _ _ Hr) as [Hls Hla].
  pose proof (lr_int64 _ _ _ _ _ _ _ Hr) as Hi64. destruct (Z.lt_ge_cases e offset) as [Hin|Hin].
  - destruct (rebuild_intact (log_config l) offset a ra) as (a' & Ea & Hrep & Eb & Hlim);
      [apply Hr|lia|by rewrite Hb|done|lia|]. rewrite Hb in *.
    eexists. split; [eapply Log_Truncate_kept; [done|done|by eapply filter_active|done]|].
    eapply truncate_finish; try done; [apply Hr| | |lia]; [rewrite length_take; widths; lia|].
    apply Forall_app. split; [done|by constructor].
  - destruct (sealed_locate _ _ _ _ (offset - 1) (lr_sealed _ _ _ _ _ _ _ Hr))
      as (i & s & rs & Hi & Hs & Hat); [lia|].
    pose proof (sa_end _ _ _ _ _ _ _ Hs). pose proof (sa_base _ _ _ _ _ _ _ Hs).
    destruct (rebuild_intact (log_config l) offset s rs) as (s' & Es & Hrep & Eb & Hlim);
      [apply Hs|lia|widths; lia|by eapply (Forall_lookup_1 _ sealed)|lia|].
    eexists. split; [eapply Log_Truncate_kept; [done|done|eapply filter_sealed; [done|lia|done|done|lia]|done]|].
    assert (Ev : take (Z.to_nat (offset - b)) (mjoin rss ++ ra) =
                 take (Z.to_nat (offset - b)) (mjoin (take i rss) ++ rs)).
    { rewrite <- (take_drop_middle rss i rs (sa_rs _ _ _ _ _ _ _ Hs)) at 1.
      rewrite join_app. simpl. rewrite <- !app_assoc, app_assoc. apply take_app_le. len. }
    rewrite Ev. exists s.(BaseOffset), (take i sealed), (take i rss), s', (take (Z.to_nat (offset - BaseOffset s)) rs).
    split_and!; [|rewrite take_app, take_ge by lia; do 2 f_equal; lia|intros ->; by apply sealed_next_take, Hnx].
    constructor; simpl; try done; try apply Hr;
      [by eapply sealed_chain_take; [apply Hr|]| |rewrite length_take; widths; lia].
    apply Forall_app. split; [by apply Forall_take|by constructor].
Qed.

(** ** Opening a new log *)

Lemma NewLog_empty mt now cfg : config_ok (withDefaults cfg) →
  ∃ l, NewLog mt now cfg ∅ = (Ok tt, l) ∧ log_view true l 0 [].
Proof.
  intros Hcfg. pose proof Hcfg as (Hd & Hmx & Hsb). unfold NewLog, scanBaseOffsets.
  rewrite map_to_list_empty. simpl.
  destruct (NewSegment_fresh mt now 0 (withDefaults cfg) ∅)
    as (s & E & Hrep & _ & Hb & Hm & Hv & Hi & _); [done|done|by rewrite Hd|].
  rewrite E. eexists. split; [done|]. exists 0, [], [], s, []. split_and!; [|done|by constructor].
  rewrite Hd in Hm, Hv, Hi. constructor; simpl; try done; [constructor|].
  constructor; [|constructor]. by apply fresh_limits.
Qed.

Lemma NewLog_empty_frame mt now cfg l : NewLog mt now cfg ∅ = (Ok tt, l) →
  l.(log_dir) = ∅ ∧ l.(log_config) = withDefaults cfg.
Proof.
  unfold NewLog, scanBaseOffsets. rewrite map_to_list_empty. cbn [fmap list_fmap omap list_omap merge_sort].
  unfold NewSegment. destruct (NewIndex _ _); simpl; [|done]. intros [= <-]. simpl. by rewrite !delete_empty.
Qed.

(** ** One append *)

Lemma Log_Append_rep mt now f l b rs r : log_view f l b rs →
  record_wf (set_Offset (b + zlen rs) r) → inS 64 (b + zlen rs + 1) →
  if MaxRecordSize <? EncodedSize r
  then ∃ l', Log_Append mt now (Some r) l =
         (Err (wrapError "log: append" (wrapError "segment: encode record" ErrRecordTooLarge)), l') ∧
         log_view f l' b rs
  else ∃ l', Log_Append mt now (Some r) l = (Ok (b + zlen rs), l') ∧
         log_view f l' b (rs ++ [set_Offset (b + zlen rs) r]).
Proof.
  intros (e & sealed & rss & a & ra & Hr & -> & Hnx) Hwf H64.
  pose proof (sealed_chain_length _ _ _ _ (lr_sealed _ _ _ _ _ _ _ Hr)) as He.
  assert (Hleo : e + zlen ra = b + zlen (mjoin rss ++ ra)) by (rewrite length_app; lia).
  unfold Log_Append. rewrite (lr_open _ _ _ _ _ _ _ Hr).
  destruct (Z.ltb_spec MaxRecordSize (EncodedSize r)) as [Hbig|Hsmall].
  - destruct (append_one_too_large mt now l b e sealed rss a ra r Hr Hbig) as
      (l1 & l2 & e' & sealed' & rss' & a' & ra' & E1 & E2 & Hr' & Ev & Hnx').
    rewrite E1, E2. eexists. split; [done|]. exists e', sealed', rss', a', ra'. split_and!; auto.
  - destruct (append_one mt now l b e sealed rss a ra r Hr) as
      (l1 & l2 & e' & sealed' & rss' & a' & ra' & E1 & E2 & Hr' & Ev & Hnx');
      rewrite ?Hleo; [done|by split|].
    rewrite E1, E2, Hleo. eexists. split; [done|]. exists e', sealed', rss', a', ra'.
    rewrite Hleo in Ev. split_and!; auto.
Qed.

(** Appends touch neither the rest of the directory nor the configuration. *)
Lemma on_active_frame {A} (m : M Segment A) l :
  (on_active m l).2.(log_dir) = l.(log_dir) ∧ (on_active m l).2.(log_config) = l.(log_config).
Proof.
  unfold on_active. destruct (active l) as [a|]; [|done]. destruct (m a) as [r a'].
  unfold set_active. simpl. by repeat case_match.
Qed.

Lemma count_flush_frame l : (count_flush l).(log_dir) = l.(log_dir) ∧ (count_flush l).(log_config) = l.(log_config).
Proof.
  unfold count_flush. repeat case_match; try done. cbn [log_dir log_config set_messages].
  destruct (on_active_frame Segment_Flush (set_messages (messagesSinceFlush l + 1) l)) as [-> ->]. done.
Qed.

Lemma maybeRotate_frame mt now l l' : maybeRotateLocked mt now l = (Ok tt, l') → l.(log_dir) = ∅ →
  l'.(log_dir) = ∅ ∧ l'.(log_config) = l.(log_config).
Proof.
  unfold maybeRotateLocked. destruct (active l) as [a|]; [|done].
  destruct (negb _); [by intros [= <-]|]. unfold rotateLocked.
  destruct (on_active Segment_Flush l) as [[?|?] l1] eqn:E1; [|done].
  destruct (on_active _ l1) as [[?|?] l2] eqn:E2; [|done].
  apply (f_equal snd) in E1, E2. simpl in E1, E2.
  destruct (on_active_frame Segment_Flush l) as [D1 C1]. rewrite E1 in D1, C1.
  pose proof (on_active_frame (λ s, let '(r, i) := Seal s.(seg_index) in (r, (set_index i s))) l1) as [D2 C2].
  rewrite E2 in D2, C2. unfold NewSegment. destruct (NewIndex _ _); [|done]. intros [= <-] Hd.
  simpl. rewrite D2, D1, Hd, !delete_empty. by rewrite C2, C1.
Qed.

Lemma Log_Append_frame mt now r f l b rs : log_view f l b rs → l.(log_dir) = ∅ →
  (Log_Append mt now r l).2.(log_dir) = ∅ ∧ (Log_Append mt now r l).2.(log_config) = l.(log_config).
Proof.
  intros (e & sealed & rss & a & ra & Hr & _) Hd. unfold Log_Append.
  destruct (log_closed l); [done|]. destruct r as [r|]; [|done].
  destruct (maybeRotate_ok mt now l b e sealed rss a ra Hr) as (l1 & ? & ? & ? & ? & ? & E1 & _). rewrite E1.
  destruct (maybeRotate_frame _ _ _ _ E1 Hd) as [D1 C1].
  destruct (on_active (Segment_Append (Some r)) l1) as [[o|e'] l2] eqn:E2;
    apply (f_equal snd) in E2; simpl in E2 |- *;
    destruct (on_active_frame (Segment_Append (Some r)) l1) as [D2 C2]; rewrite E2 in D2, C2.
  - destruct (count_flush_frame l2) as [-> ->]. by rewrite D2, C2.
  - by rewrite D2, C2.
Qed.

Lemma sealed_chain_consecutive b e segs rss : sealed_chain b e segs rss → consecutive b (mjoin rss).
Proof.
  induction 1 as [|b e s segs rs rss Hb Hd Hf Hne H IH]; [by intros i r|].
  simpl. apply consecutive_app; [|done]. rewrite <- Hb. apply Hd.
Qed.

Lemma log_view_consecutive f l b rs : log_view f l b rs → consecutive b rs.
Proof.
  intros (e & sealed & rss & a & ra & Hr & -> & _).
  pose proof (sealed_chain_length _ _ _ _ (lr_sealed _ _ _ _ _ _ _ Hr)) as He.
  apply consecutive_app; [by eapply sealed_chain_consecutive, Hr|].
  rewrite <- He, <- (lr_base _ _ _ _ _ _ _ Hr). apply (lr_active _ _ _ _ _ _ _ Hr).
Qed.

(** ** Claims *)

(** C6: a batch append extends the log: on a log holding [rs] from offset [b], a
    batch of storable records is appended in order with the next offsets and the
    first of them is returned, whatever rotations by size, index space or age
    happen on the way; [ErrIndexFull] and position overflow never surface, and
    nothing already in the log changes. *)
Theorem AppendBatch_correct mt now f l b rs recs : log_view f l b rs → recs ≠ [] →
  storable_at (b + zlen rs) recs → ∃ l',
  AppendBatch mt now (Some <$> recs) l = ((b + zlen rs, None), l') ∧
  log_view f l' b (rs ++ number_from (b + zlen rs) recs) ∧
  HighestOffset l' = b + zlen rs + zlen recs.
Proof.
  intros Hv Hne Hok. destruct (append_loop_ok mt now recs l f b rs None Hv Hok) as (l' & E & Hv').
  exists l'. split_and!; [|done|].
  - unfold AppendBatch. pose proof Hv as (e & sealed & rss & a & ra & Hr & _).
    rewrite (lr_open _ _ _ _ _ _ _ Hr). by destruct recs.
  - rewrite (log_view_highest _ _ _ _ Hv'), length_app.
    assert (∀ o, length (number_from o recs) = length recs) as ->; [|lia].
    clear. induction recs as [|r recs IH]; intros o; simpl; [done|]. by rewrite IH.
Qed.

(** One append: a record over the size limit is refused with
    [ErrRecordTooLarge] and the log keeps its records; any other record is stored at
    the log end offset, which is returned. *)
Theorem Log_Append_correct mt now f l b rs r : log_view f l b rs →
  record_wf (set_Offset (b + zlen rs) r) → inS 64 (b + zlen rs + 1) →
  if MaxRecordSize <? EncodedSize r
  then ∃ l', Log_Append mt now (Some r) l =
         (Err (wrapError "log: append" (wrapError "segment: encode record" ErrRecordTooLarge)), l') ∧
         log_view f l' b rs
  else ∃ l', Log_Append mt now (Some r) l = (Ok (b + zlen rs), l') ∧
         log_view f l' b (rs ++ [set_Offset (b + zlen rs) r]).
Proof. apply Log_Append_rep. Qed.

(** C16: [Read] returns exactly the record stored at an offset, from whichever
    segment holds it and whether or not it was flushed; below the log it returns
    [ErrOffsetOutOfRange], past the end a not-found error; the log is unchanged. *)
Theorem Log_Read_correct f l b rs offset : log_view f l b rs → ∃ l',
  Log_Read offset l =
    (if offset <? b then Err ErrOffsetOutOfRange
     else match rs !! Z.to_nat (offset - b) with
          | Some r => Ok r
          | None => Err (wrapError "log: read" (errorString "segment: offset not found"))
          end, l') ∧ log_view f l' b rs.
Proof.
  intros Hv. destruct (Z.ltb_spec offset b) as [Hlt|Hge].
  - pose proof Hv as (e & sealed & rss & a & ra & Hr & -> & Hnx). unfold Log_Read.
    rewrite (lr_open _ _ _ _ _ _ _ Hr).
    destruct (log_rep_lowest _ _ _ _ _ _ _ Hr) as (s0 & tl & -> & ->). case_test. by exists l.
  - by apply Log_Read_rep.
Qed.

(** A ranged read returns records of the log, in order, starting with the one
    at the requested offset, and all of them to the end when the byte budget
    suffices for them. *)
Theorem Log_ReadFrom_correct l b rs offset maxBytes : log_view true l b rs → b ≤ offset →
  0 < maxBytes ≤ MaxInt32 - MaxRecordSize → ∃ out l',
  Log_ReadFrom offset maxBytes l = ((out, None), l') ∧ log_view true l' b rs ∧
  sublist out (drop (Z.to_nat (offset - b)) rs) ∧ head out = rs !! Z.to_nat (offset - b) ∧
  (total_size (drop (Z.to_nat (offset - b)) rs) ≤ maxBytes →
   out = drop (Z.to_nat (offset - b)) rs).
Proof.
  intros Hv Ho Hm. destruct (Log_ReadFrom_rep l b rs offset maxBytes Hv Ho Hm) as (l' & rss & E & <- & Hv').
  eexists _, l'. split; [done|]. split; [done|]. split_and!.
  - apply readfrom_ref_sublist. lia.
  - pose proof (readfrom_ref_head maxBytes 0 (offset - b) rss ltac:(lia)) as Hh.
    rewrite <- (Nat.add_0_r (Z.to_nat (offset - b))), <- lookup_drop.
    destruct (readfrom_ref _ _ _ _), (drop _ _); simpl in *; congruence.
  - intros Hfit. apply readfrom_ref_all; lia.
Qed.

(** [Truncate(offset)] keeps exactly the records below [offset]: records in
    earlier segments, the front part of the segment the offset falls in, and a
    fresh segment at [offset] when nothing is left. Appends continue at the cut. *)
Theorem Log_Truncate_correct mt removeOk now offset f l b rs : log_view f l b rs →
  (∀ p, removeOk p = true) → 0 ≤ offset → inS 64 offset → ∃ l',
  Log_Truncate mt removeOk now offset l = (Ok tt, l') ∧
  log_view f l' (Z.min b offset) (take (Z.to_nat (offset - b)) rs) ∧
  (b ≤ offset ≤ HighestOffset l → HighestOffset l' = offset).
Proof.
  intros Hv Hok H0 H64.
  destruct (Log_Truncate_rep mt removeOk now offset f l b rs Hv Hok H0 H64) as (l' & E & Hv').
  exists l'. split_and!; [done|done|]. rewrite (log_view_highest _ _ _ _ Hv), (log_view_highest _ _ _ _ Hv').
  rewrite length_take. lia.
Qed.

(** A log with small segments, opened in an empty directory, and five records. *)
Definition sample_config : Config := mkConfig 100 64 60 0 0 0 0 0.
Definition sample_batch : list record := replicate 5 sample_record.
Definition empty_log : Log := (NewLog (λ _, 0) 5 sample_config ∅).2.
Definition sample_log : Log := (AppendBatch (λ _, 0) 5 (Some <$> sample_batch) empty_log).2.

Lemma empty_log_view : log_view true empty_log 0 [].
Proof.
  destruct (NewLog_empty (λ _, 0) 5 sample_config) as (l & E & Hv).
  - split_and!; [reflexivity|vm_compute; discriminate..].
  - unfold empty_log. by rewrite E.
Qed.

Lemma sample_log_view : log_view true sample_log 0 (number_from 0 sample_batch).
Proof.
  destruct (append_loop_ok (λ _, 0) 5 sample_batch empty_log true 0 [] None empty_log_view)
    as (l & E & Hv).
  - split; by_decide.
  - unfold sample_log, AppendBatch. destruct empty_log_view as (? & ? & ? & ? & ? & Hr & _).
    rewrite (lr_open _ _ _ _ _ _ _ Hr). by rewrite E.
Qed.

Lemma AppendBatch_correct_witness : ∃ l',
  AppendBatch (λ _, 0) 9 (Some <$> sample_batch) sample_log = ((0 + zlen (number_from 0 sample_batch), None), l') ∧
  log_view true l' 0 (number_from 0 sample_batch ++
    number_from (0 + zlen (number_from 0 sample_batch)) sample_batch) ∧
  HighestOffset l' = 0 + zlen (number_from 0 sample_batch) + zlen sample_batch.
Proof.
  apply (AppendBatch_correct (λ _, 0) 9 true sample_log 0 (number_from 0 sample_batch) sample_batch);
    [apply sample_log_view|discriminate|split; by_decide].
Defined.

Lemma Log_Append_correct_witness : ∃ l', Log_Append (λ _, 0) 9 (Some sample_record) sample_log = (Ok 5, l') ∧
  log_view true l' 0 (number_from 0 sample_batch ++ [set_Offset 5 sample_record]).
Proof.
  apply (Log_Append_correct (λ _, 0) 9 true sample_log 0 (number_from 0 sample_batch) sample_record);
    [apply sample_log_view|by_decide|by_decide].
Defined.

Lemma Log_Read_correct_witness : ∃ l', Log_Read 3 sample_log = (Ok (set_Offset 3 sample_record), l') ∧
  log_view true l' 0 (number_from 0 sample_batch).
Proof. apply (Log_Read_correct true sample_log 0 (number_from 0 sample_batch) 3), sample_log_view. Defined.

Lemma Log_ReadFrom_correct_witness : ∃ out l',
  Log_ReadFrom 1 1000 sample_log = ((out, None), l') ∧ log_view true l' 0 (number_from 0 sample_batch) ∧
  sublist out (drop (Z.to_nat (1 - 0)) (number_from 0 sample_batch)) ∧
  head out = number_from 0 sample_batch !! Z.to_nat (1 - 0) ∧
  (total_size (drop (Z.to_nat (1 - 0)) (number_from 0 sample_batch)) ≤ 1000 →
   out = drop (Z.to_nat (1 - 0)) (number_from 0 sample_batch)).
Proof.
  apply (Log_ReadFrom_correct sample_log 0 (number_from 0 sample_batch) 1 1000);
    [apply sample_log_view|lia|split; vm_compute; [reflexivity|discriminate]].
Defined.

Lemma Log_Truncate_correct_witness : ∃ l',
  Log_Truncate (λ _, 0) (λ _, true) 9 2 sample_log = (Ok tt, l') ∧
  log_view true l' (Z.min 0 2) (take (Z.to_nat (2 - 0)) (number_from 0 sample_batch)) ∧
  (0 ≤ 2 ≤ HighestOffset sample_log → HighestOffset l' = 2).
Proof.
  apply (Log_Truncate_correct (λ _, 0) (λ _, true) 9 2 true sample_log 0 (number_from 0 sample_batch));
    [apply sample_log_view|reflexivity|lia|by_decide].
Defined.

(** A ranged read can skip records at a segment boundary. When the budget runs
    out inside a segment with bytes to spare, the loop still moves on to the next
    segment and returns its first record: with five 37-byte records in segments of
    three, a read of at most 100 bytes from offset 0 returns offsets 0, 1 and 3,
    more than 100 bytes, without the record at offset 2, which is there. *)
Theorem Log_ReadFrom_skips_record :
  (rec_Offset <$> (Log_ReadFrom 0 100 sample_log).1.1, (Log_ReadFrom 0 100 sample_log).1.2,
   total_size (Log_ReadFrom 0 100 sample_log).1.1) = ([0; 1; 3], None, 111) ∧
  (Log_Read 2 sample_log).1 = Ok (set_Offset 2 sample_record).
Proof. vm_compute. split; reflexivity. Qed.
