(* ===== verification/Recovery.v ===== *)
(** * Reopening a partition log (src/internal/storage/log.go)

    [NewLog] on the files that a crash or a clean [Close] left behind: the directory
    scan, the reopening of sealed segments and the recovery of the active one. *)
From Stdlib Require Import ZArith Lia Strings.Byte Strings.Ascii.
From stdpp Require Import base list strings gmap sorting.
From S2P Require Import Prelude Files Decimal Record Index Segment PartitionLog.
Open Scope Z_scope.

(** ** File names *)

Lemma to_chars_app s1 s2 : to_chars (s1 +:+ s2) = to_chars s1 ++ to_chars s2.
Proof. induction s1 as [|c s1 IH]; simpl; [done|]. by rewrite <- IH. Qed.

Lemma of_to_chars s : of_chars (to_chars s) = s.
Proof. apply String.string_of_list_ascii_of_string. Qed.

Lemma parse_log_path o : 0 ≤ o → inS 64 o → parse_log_name (log_path o) = Some o.
Proof.
  intros H0 H64. unfold parse_log_name, log_path. rewrite to_chars_app, length_app.
  pose proof (length_fmt_020d o H0 H64) as Hl. rewrite Hl. simpl length. simpl Nat.sub.
  rewrite drop_app_length', take_app_length' by done.
  rewrite bool_decide_true, Hl by done. cbn [negb Nat.eqb].
  rewrite take_app_length', of_to_chars, ParseInt_fmt_020d by done. simpl.
  by destruct (Z.ltb_spec o 0); [lia|].
Qed.

Lemma parse_index_path o : 0 ≤ o → inS 64 o → parse_log_name (index_path o) = None.
Proof.
  intros H0 H64. unfold parse_log_name, index_path. rewrite to_chars_app, length_app.
  pose proof (length_fmt_020d o H0 H64) as Hl. rewrite Hl. simpl length. simpl Nat.sub.
  by rewrite drop_app, (drop_ge (to_chars (fmt_020d o))), Hl by (rewrite Hl; lia).
Qed.

Lemma index_path_inj a b : 0 ≤ a → inS 64 a → 0 ≤ b → inS 64 b → index_path a = index_path b → a = b.
Proof.
  intros Ha Ha' Hb Hb' E. apply (f_equal to_chars) in E. unfold index_path in E.
  rewrite !to_chars_app in E. apply app_inv_tail in E. apply (f_equal of_chars) in E.
  rewrite !of_to_chars in E. by apply fmt_020d_inj.
Qed.

(** ** A directory as a list of segment file pairs *)

Record segfiles := mkSegfiles {
  sf_base : Z;
  sf_log : bytes;
  sf_index : bytes
}.

Definition files_of (fs : list segfiles) : list (string * bytes) :=
  fs ≫= λ f, [(log_path f.(sf_base), f.(sf_log)); (index_path f.(sf_base), f.(sf_index))].
Definition dir_of (fs : list segfiles) : Dir := list_to_map (files_of fs).

(** Base offsets ascend and fit. *)
Definition bases_ok (fs : list segfiles) : Prop :=
  StronglySorted Z.lt (sf_base <$> fs) ∧ Forall (λ f, 0 ≤ f.(sf_base) ∧ inS 64 f.(sf_base)) fs.

Lemma bases_ok_cons f fs : bases_ok (f :: fs) →
  (0 ≤ f.(sf_base) ∧ inS 64 f.(sf_base)) ∧ bases_ok fs ∧
  Forall (λ g, f.(sf_base) < g.(sf_base)) fs.
Proof.
  intros [Hs [Hf Hfs]%Forall_cons]. simpl in Hs. apply StronglySorted_inv in Hs as [Hs Hlt].
  split; [done|]. split; [by split|]. by rewrite Forall_fmap in Hlt.
Qed.

(** The names of other segments do not collide. *)
Lemma files_of_fresh o fs : 0 ≤ o → inS 64 o → Forall (λ f, 0 ≤ f.(sf_base) ∧ inS 64 f.(sf_base)) fs →
  Forall (λ f, f.(sf_base) ≠ o) fs → (log_path o ∉ (files_of fs).*1) ∧ (index_path o ∉ (files_of fs).*1).
Proof.
  intros H0 H64 Hf Hne. induction fs as [|f fs IH]; simpl; [split; apply not_elem_of_nil|].
  apply Forall_cons in Hf as [[Hf1 Hf2] Hf]. apply Forall_cons in Hne as [Hn Hne].
  destruct (IH Hf Hne) as [I1 I2].
  assert (Hl : log_path o ≠ log_path (sf_base f)).
  { intros E. apply (f_equal parse_log_name) in E. rewrite !parse_log_path in E by done. congruence. }
  assert (Hli : log_path o ≠ index_path (sf_base f)).
  { intros E. apply (f_equal parse_log_name) in E. rewrite parse_log_path, parse_index_path in E; done. }
  assert (Hil : index_path o ≠ log_path (sf_base f)).
  { intros E. apply (f_equal parse_log_name) in E. rewrite parse_log_path, parse_index_path in E; done. }
  assert (Hi : index_path o ≠ index_path (sf_base f)).
  { intros E. apply Hn. symmetry. by apply index_path_inj. }
  split; rewrite !not_elem_of_cons; done.
Qed.

Lemma files_of_NoDup fs : bases_ok fs → NoDup (files_of fs).*1.
Proof.
  induction fs as [|f fs IH]; intros Hb; simpl; [constructor|].
  apply bases_ok_cons in Hb as ([H0 H64] & Hb & Hlt).
  destruct (files_of_fresh (sf_base f) fs H0 H64) as [I1 I2]; [apply Hb| |].
  { eapply Forall_impl; [done|]. simpl. intros. lia. }
  constructor; [|constructor; [done|by apply IH]].
  rewrite not_elem_of_cons. split; [apply log_index_path|done].
Qed.

(** The scan finds the base offsets of the log files, in order. *)
Lemma scanBaseOffsets_dir fs : bases_ok fs → scanBaseOffsets (dir_of fs) = sf_base <$> fs.
Proof.
  intros Hb. unfold scanBaseOffsets, dir_of.
  assert (Ho : omap parse_log_name (files_of fs).*1 = sf_base <$> fs).
  { destruct Hb as [_ Hf]. clear -Hf. induction fs as [|f fs IH]; [done|].
    apply Forall_cons in Hf as [[H0 H64] Hf]. simpl.
    rewrite parse_log_path, parse_index_path by done. simpl. f_equal. by apply IH. }
  apply (StronglySorted_unique Z.le).
  - apply (StronglySorted_merge_sort Z.le).
  - apply (StronglySorted_mono Z.lt); [lia|apply Hb].
  - rewrite merge_sort_Permutation, <- Ho.
    by rewrite (map_to_list_to_map (files_of fs)) by (by apply files_of_NoDup).
Qed.

(** ** Opening the segments found *)

(** Any index file can be opened; the capacity is the configured one. *)
Lemma NewIndex_total ix m : entrySize ≤ m → ∃ i,
  NewIndex ix m = Ok i ∧ i.(idx_maxSize) = m - m mod entrySize.
Proof.
  unfold entrySize. intros Hm. unfold NewIndex, entrySize. case_bool (Z.ltb_spec m 0).
  rewrite Z.rem_mod_nonneg by lia. pose proof (Z.mod_pos_bound m 8 ltac:(lia)).
  case_bool (Z.eqb_spec (m - m mod 8) 0). by eexists.
Qed.

Lemma NewIndex_round ix m : entrySize ≤ m → NewIndex ix m = NewIndex ix (m - m mod entrySize).
Proof.
  unfold entrySize. intros Hm. pose proof (Z.mod_pos_bound m 8 ltac:(lia)).
  unfold NewIndex, entrySize. case_bool (Z.ltb_spec m 0). case_bool (Z.ltb_spec (m - m mod 8) 0).
  rewrite !Z.rem_mod_nonneg by lia.
  by rewrite Zminus_mod, Zmod_mod, Z.sub_diag, Zmod_0_l, Z.sub_0_r.
Qed.

(** The segment [NewSegment] makes of a pair of files. *)
Definition opened (mt : string → Z) (now : Z) (cfg : Config) (f : segfiles) (s : Segment) : Prop :=
  ∃ i, NewIndex f.(sf_index) cfg.(IndexMaxBytes) = Ok i ∧
  s = mkSegment f.(sf_base) f.(sf_base)
        (NewWriterSize (mkFile f.(sf_log) (zlen f.(sf_log))) segment_bufsize) i
        cfg.(SegmentBytes) cfg.(IndexIntervalBytes) (zlen f.(sf_log)) 0
        (if 0 <? zlen f.(sf_log) then mt (log_path f.(sf_base)) else now) false.

Lemma NewSegment_files mt now cfg f fs : config_ok cfg → bases_ok (f :: fs) → ∃ s,
  NewSegment mt now f.(sf_base) cfg (dir_of (f :: fs)) = (Ok s, dir_of fs) ∧ opened mt now cfg f s.
Proof.
  intros (Hd & Hmx & _) Hb. apply bases_ok_cons in Hb as ([H0 H64] & Hb & Hlt).
  destruct (files_of_fresh (sf_base f) fs H0 H64) as [I1 I2]; [apply Hb| |].
  { eapply Forall_impl; [done|]. simpl. intros. lia. }
  apply not_elem_of_list_to_map_1 in I1, I2. pose proof (log_index_path (sf_base f)) as Hne.
  destruct (NewIndex_total (sf_index f) _ Hmx) as (i & Ei & _).
  unfold NewSegment, dir_of. simpl list_to_map. rewrite Hd.
  rewrite lookup_insert_eq, lookup_insert_ne, lookup_insert_eq by done. simpl default. rewrite Ei.
  eexists. split; [|exists i; done]. f_equal.
  rewrite delete_insert_id; [by rewrite delete_insert_id|]. by rewrite lookup_insert_ne.
Qed.

Lemma open_segments_ok mt now cfg fs : config_ok cfg → ∀ l, bases_ok fs → l.(log_dir) = dir_of fs →
  ∃ segs, open_segments mt now cfg (sf_base <$> fs) l =
    (Ok tt, set_segments (l.(segments) ++ segs) (set_dir ∅ l)) ∧ Forall2 (opened mt now cfg) fs segs.
Proof.
  intros Hcfg. induction fs as [|f fs IH]; intros l Hb Hd; simpl.
  { exists []. rewrite app_nil_r. split; [|constructor]. destruct l. simpl in *. by subst. }
  destruct (NewSegment_files mt now cfg f fs Hcfg Hb) as (s & E & Ho). rewrite Hd, E.
  apply bases_ok_cons in Hb as (_ & Hb & _).
  destruct (IH (set_segments (segments l ++ [s]) (set_dir (dir_of fs) l)) Hb eq_refl) as (segs & E' & Hf).
  exists (s :: segs). split; [|by constructor]. etrans; [exact E'|]. simpl. by rewrite <- app_assoc.
Qed.

Lemma opened_bases mt now cfg fs segs : Forall2 (opened mt now cfg) fs segs →
  BaseOffset <$> segs = sf_base <$> fs.
Proof. induction 1 as [|f s fs segs (i & _ & ->) _ IH]; simpl; [done|]. by f_equal. Qed.

#[global] Instance seg_le_trans : Transitive seg_le.
Proof. unfold seg_le. intros ???. lia. Qed.
#[global] Instance seg_le_total : Total seg_le.
Proof. unfold seg_le. intros x y. lia. Qed.

(** Ascending segments are left as they are by the sort. *)
Lemma sort_segments_id segs : StronglySorted Z.lt (BaseOffset <$> segs) → sort_segments segs = segs.
Proof.
  intros Hs. apply (StronglySorted_unique_strong seg_le).
  - intros x1 x2 Hx1 Hx2 H1 H2. unfold seg_le in *.
    unfold sort_segments in Hx1. rewrite merge_sort_Permutation in Hx1.
    apply list_elem_of_lookup in Hx1 as [i Hi], Hx2 as [j Hj].
    destruct (lt_eq_lt_dec i j) as [[Hlt| ->]|Hlt]; [|by simplify_eq|].
    + eapply (StronglySorted_lookup _ _ i j) in Hs; [|by rewrite list_lookup_fmap, ?Hi, ?Hj..|done]. lia.
    + eapply (StronglySorted_lookup _ _ j i) in Hs; [|by rewrite list_lookup_fmap, ?Hi, ?Hj..|done]. lia.
  - apply (StronglySorted_merge_sort seg_le).
  - clear -Hs. induction segs as [|s segs IH]; [constructor|]. simpl in Hs.
    apply StronglySorted_inv in Hs as [Hs Hf]. constructor; [by apply IH|].
    rewrite Forall_fmap in Hf. eapply Forall_impl; [done|]. unfold seg_le. simpl. intros. lia.
  - apply merge_sort_Permutation.
Qed.

(** [NewLog] on a non-empty directory: everything is opened, the last segment is
    rebuilt. *)
Lemma NewLog_files mt now cfg fs : config_ok cfg → bases_ok fs → fs ≠ [] → ∃ segs,
  Forall2 (opened mt now cfg) fs segs ∧
  ∀ sealed a a', segs = sealed ++ [a] → rebuildSegment (-1) a = (Ok tt, a') →
  NewLog mt now cfg (dir_of fs) =
    (Ok tt, mkLog ∅ cfg (sealed ++ [a']) None now 0 now false).
Proof.
  intros Hcfg Hb Hne. pose proof Hcfg as (Hd & _).
  destruct (open_segments_ok mt now cfg fs Hcfg (mkLog (dir_of fs) cfg [] None 0 0 now false) Hb eq_refl)
    as (segs & E & Hf).
  exists segs. split; [done|]. intros sealed a a' -> Ha. unfold NewLog.
  rewrite Hd, scanBaseOffsets_dir by done.
  destruct (sf_base <$> fs) as [|o os] eqn:Eo; [by destruct fs|].
  rewrite E. simpl segments. rewrite sort_segments_id.
  2: { rewrite (opened_bases _ _ _ _ _ Hf), Eo. rewrite <- Eo. apply Hb. }
  by rewrite (on_active_last (rebuildSegment (-1)) _ sealed a (Ok tt) a') by done.
Qed.

(** ** What a crash leaves on disk *)

(** The files of an open segment: what has been written to the log file, not the
    buffer, and the shared mapping of the index. *)
Definition seg_files (s : Segment) : segfiles :=
  mkSegfiles s.(BaseOffset) (seg_logFile s).(file_data) s.(seg_index).(idx_disk).

(** The files after a crash: sealed segments are complete; of the active log file
    the first [k] bytes reached the disk, and its index file may hold anything. *)
Definition crash_files (k : nat) (ix : bytes) (l : Log) : list segfiles :=
  match last l.(segments) with
  | None => []
  | Some a =>
      (seg_files <$> take (pred (length l.(segments))) l.(segments)) ++
      [mkSegfiles a.(BaseOffset) (take k (seg_logFile a).(file_data)) ix]
  end.

(** The whole records among the first bytes of a log file. *)
Fixpoint whole_records (n : Z) (rs : list record) : list record :=
  match rs with
  | [] => []
  | r :: rs => if EncodedSize r <=? n then r :: whole_records (n - EncodedSize r) rs else []
  end.

Lemma images_cut rs k : Forall storable rs → (k ≤ length (images rs))%nat → ∃ part,
  take k (images rs) = images (whole_records (Z.of_nat k) rs) ++ part ∧
  ∃ n e t, DecodeRecord part = ((n, Err e), t).
Proof.
  revert k. induction rs as [|r rs IH]; intros k Hok Hk; cbn [whole_records].
  { exists []. simpl in Hk. replace k with 0%nat by lia. split; [done|]. by eexists _, _, _. }
  apply Forall_cons in Hok as [Hr Hok]. rewrite images_cons in *.
  pose proof (length_record_image r) as Hl. rewrite length_app in Hk.
  destruct (Z.leb_spec (EncodedSize r) (Z.of_nat k)).
  - destruct (IH (k - length (record_image r))%nat Hok ltac:(lia)) as (part & E & Hp). exists part.
    split; [|done]. rewrite take_app, take_ge, E, images_cons, <- app_assoc by lia.
    by replace (Z.of_nat (k - length (record_image r))) with (Z.of_nat k - EncodedSize r) by lia.
  - exists (take k (record_image r)). split; [by rewrite take_app_le by lia|].
    destruct (DecodeRecord_prefix r (take k (record_image r)) (drop k (record_image r)))
      as (n & e & E & _); [apply Hr|by rewrite take_drop| |by eexists _, _, _].
    intros E. apply (f_equal length) in E. rewrite length_drop in E. simpl in E. lia.
Qed.

Lemma whole_records_prefix n rs : ∃ i, whole_records n rs = take i rs.
Proof.
  revert n. induction rs as [|r rs IH]; intros n; simpl; [by exists 0%nat|].
  destruct (_ <=? _); [|by exists 0%nat]. destruct (IH (n - EncodedSize r)) as [i ->]. by exists (S i).
Qed.

(** Nothing is lost when the whole file survived. *)
Lemma whole_records_all n rs : zlen (images rs) ≤ n → whole_records n rs = rs.
Proof.
  rewrite length_images. revert n. induction rs as [|r rs IH]; intros n Hn; simpl in *; [done|].
  pose proof (total_size_min rs). case_test. f_equal. apply IH. lia.
Qed.

Lemma log_file_prefix s rs : seg_data s rs → ∃ rest, images rs = (seg_logFile s).(file_data) ++ rest.
Proof. intros Hd. exists s.(seg_writer).(bw_buf). by rewrite <- (sd_bytes _ _ Hd). Qed.

Lemma log_file_flushed s rs : seg_data s rs → flushed s → (seg_logFile s).(file_data) = images rs.
Proof.
  intros Hd Hf. rewrite <- (sd_bytes _ _ Hd). simpl. unfold bufio_written. by rewrite Hf, app_nil_r.
Qed.

(** The limits after reopening. *)
Lemma opened_limits mt now cfg f s : config_ok cfg → opened mt now cfg f s → seg_limits cfg s.
Proof.
  intros Hcfg (i & Ei & ->). apply fresh_limits; [done..|]. simpl.
  destruct (NewIndex_total (sf_index f) cfg.(IndexMaxBytes)) as (i' & E' & Em); [apply Hcfg|]. congruence.
Qed.

(** Files that hold all records and index entries of a segment. *)
Record good_files (s : Segment) (rs : list record) (f : segfiles) : Prop := {
  gf_base : f.(sf_base) = s.(BaseOffset);
  gf_log : f.(sf_log) = images rs;
  gf_index : disk_rep f.(sf_index) (entries_of s.(BaseOffset) s.(seg_indexInterval) rs);
  gf_mod : zlen f.(sf_index) mod entrySize = 0
}.

(** A sealed segment comes back with its records. *)
Lemma reopen_sealed mt now cfg s0 rs f s : config_ok cfg → seg_data s0 rs → rs ≠ [] →
  seg_limits cfg s0 → good_files s0 rs f → opened mt now cfg f s →
  seg_data s rs ∧ flushed s ∧ s.(BaseOffset) = s0.(BaseOffset).
Proof.
  intros Hcfg Hd Hne (_ & Hmax & Hmod & Hiv) [Gb Gl Gi Gm] (i & Ei & ->). simpl in Ei.
  pose proof Hcfg as (_ & Hmx & _). pose proof (sd_index _ _ Hd) as Hi.
  destruct (index_of_ok _ _ _ (sd_interval _ _ Hd) (sd_consec _ _ Hd)) as [_ _ Hs Hn _ _].
  destruct (NewIndex_reopen f.(sf_index)
    (entries_of s0.(BaseOffset) s0.(seg_indexInterval) rs)
    (cfg.(IndexMaxBytes) - cfg.(IndexMaxBytes) mod entrySize)) as (i' & Ei' & Hi' & _).
  1: done. 1: done. 1: apply Hi. 1: by apply Hn. 1: done.
  1: by rewrite Zminus_mod, Zmod_mod, Z.sub_diag.
  1: { rewrite length_entries_bytes, <- (rep_size _ _ Hi). pose proof (rep_max _ _ Hi).
       unfold entrySize in *. pose proof (Z.mod_pos_bound (IndexMaxBytes cfg) 8 ltac:(lia)).
       pose proof (Z.div_mod (IndexMaxBytes cfg) 8 ltac:(lia)).
       pose proof (Z.div_mod (idx_maxSize (seg_index s0)) 8 ltac:(lia)). lia. }
  rewrite NewIndex_round, Ei' in Ei by done. injection Ei as <-.
  rewrite Gb, Gl. split; [|done]. destruct Hd. constructor; simpl; rewrite <- ?Hiv; try done.
  unfold bufio_written. simpl. by rewrite app_nil_r.
Qed.

Lemma reopen_chain mt now cfg (g : Segment → segfiles) b e sealed rss : config_ok cfg →
  (∀ s rs, seg_data s rs → flushed s → seg_limits cfg s → good_files s rs (g s)) →
  sealed_chain b e sealed rss → Forall (seg_limits cfg) sealed →
  ∀ sealed', Forall2 (opened mt now cfg) (g <$> sealed) sealed' →
  sealed_chain b e sealed' rss ∧ Forall (seg_limits cfg) sealed'.
Proof.
  intros Hcfg Hg. induction 1 as [|b e s segs rs rss Hb Hd Hf Hne H IH]; intros Hl sealed' Ho.
  { simpl in Ho. apply Forall2_nil_inv_l in Ho as ->. split; constructor. }
  apply Forall_cons in Hl as [Hs Hl]. simpl in Ho.
  apply Forall2_cons_inv_l in Ho as (s' & segs' & Ho & Hos & ->).
  destruct (IH Hl segs' Hos) as [IHc IHl].
  destruct (reopen_sealed mt now cfg s rs (g s) s') as (Hd' & Hf' & Hb'); [by auto..|].
  split; [constructor; [congruence|done..]|]. constructor; [by eapply opened_limits|done].
Qed.

(** The active segment is recovered up to the last whole record on disk. *)
Lemma recover_active mt now cfg a ra p rest ix a1 : config_ok cfg → seg_data a ra →
  images ra = p ++ rest → 0 ≤ a.(BaseOffset) →
  inS 64 (a.(BaseOffset) + zlen ra) → seg_limits cfg a →
  opened mt now cfg (mkSegfiles a.(BaseOffset) p ix) a1 →
  ∃ a', rebuildSegment (-1) a1 = (Ok tt, a') ∧ seg_rep a' (whole_records (zlen p) ra) ∧
    a'.(BaseOffset) = a.(BaseOffset) ∧ seg_limits cfg a'.
Proof.
  intros Hcfg Hd Er H0 H64 (_ & Hmax & Hmod & Hiv) Ho.
  pose proof (opened_limits _ _ _ _ _ Hcfg Ho) as (Hm1 & Hi1 & Hmod1 & Hv1).
  destruct Ho as (i & Ei & ->). simpl in *. set (rs := whole_records (zlen p) ra).
  assert (Hp : p = take (length p) (images ra)).
  { by rewrite Er, take_app_length. }
  destruct (images_cut ra (length p)) as (part & Ec & Hbad); [apply Hd| |].
  { rewrite Er, length_app. lia. }
  rewrite <- Hp in Ec. fold rs in Ec. destruct (whole_records_prefix (zlen p) ra) as [j Ej]. fold rs in Ej.
  assert (Hrec : seg_records a.(BaseOffset) rs).
  { rewrite Ej. apply seg_records_take. by apply seg_data_records. }
  destruct (entries_of_prefix a.(BaseOffset) a.(seg_indexInterval) rs (drop j ra)) as [more Em].
  rewrite Ej, take_drop, <- Ej in Em.
  destruct (rebuildSegment_ok (-1) (mkSegment (BaseOffset a) (BaseOffset a)
    (NewWriterSize (mkFile p (zlen p)) segment_bufsize) i (SegmentBytes cfg) (IndexIntervalBytes cfg) (zlen p) 0
    (if 0 <? zlen p then mt (log_path (BaseOffset a)) else now) false) rs part)
    as (a' & E & Hrep & _ & Eb & Emx & Ev & Hi' & Hmod'); simpl; try done.
  - unfold bufio_written. simpl. by rewrite app_nil_r.
  - rewrite <- Hiv. apply Hd.
  - lia.
  - pose proof (rep_size _ _ (sd_index _ _ Hd)) as Hs. pose proof (rep_max _ _ (sd_index _ _ Hd)).
    rewrite <- Hiv. rewrite Em, length_app in Hs. simpl in Hmod1.
    destruct (NewIndex_total ix cfg.(IndexMaxBytes)) as (i2 & Ei2 & Em2); [apply Hcfg|].
    rewrite Ei in Ei2. injection Ei2 as <-. unfold entrySize in *.
    pose proof (Z.mod_pos_bound (IndexMaxBytes cfg) 8 ltac:(lia)).
    pose proof (Z.div_mod (IndexMaxBytes cfg) 8 ltac:(lia)).
    pose proof (Z.div_mod (idx_maxSize (seg_index a)) 8 ltac:(lia)). lia.
  - exists a'. split_and!; try done. simpl in *. unfold seg_limits. rewrite Emx, Ev.
    split_and!; lia || done.
Qed.

(** ** Recovery of the whole log *)

Lemma sealed_chain_bases b e segs rss : sealed_chain b e segs rss →
  StronglySorted Z.lt (BaseOffset <$> segs) ∧ Forall (λ o, b ≤ o < e) (BaseOffset <$> segs).
Proof.
  induction 1 as [|b e s segs rs rss Hb Hd Hf Hne H [IHs IHf]]; simpl; [repeat constructor|].
  pose proof (sealed_chain_length _ _ _ _ H). assert (0 < zlen rs) by (destruct rs; simpl; [done|lia]).
  split; constructor; [done| |lia|]; (eapply Forall_impl; [exact IHf|]); simpl; intros; lia.
Qed.

Lemma reopen_bases (g : Segment → segfiles) l b e sealed rss a ra p ix :
  log_rep l b e sealed rss a ra →
  (∀ s rs, seg_data s rs → flushed s → seg_limits l.(log_config) s → good_files s rs (g s)) →
  bases_ok ((g <$> sealed) ++ [mkSegfiles a.(BaseOffset) p ix]).
Proof.
  intros Hr Hg. destruct (log_rep_limits _ _ _ _ _ _ _ Hr) as [Hls _].
  pose proof (lr_sealed _ _ _ _ _ _ _ Hr) as Hc. pose proof (sealed_chain_length _ _ _ _ Hc) as He.
  pose proof (lr_base _ _ _ _ _ _ _ Hr) as Hba. pose proof (lr_low _ _ _ _ _ _ _ Hr).
  pose proof (lr_int64 _ _ _ _ _ _ _ Hr).
  destruct (sealed_chain_bases _ _ _ _ (lr_sealed _ _ _ _ _ _ _ Hr)) as [Hs Hf].
  assert (E : sf_base <$> (g <$> sealed) = BaseOffset <$> sealed).
  { clear -Hg Hc Hls. induction Hc as [|b0 e0 s segs rs rss0 _ Hd Hf _ _ IH]; simpl; [done|].
    apply Forall_cons in Hls as [Hl Hls].
    rewrite (gf_base _ _ _ (Hg s rs Hd Hf Hl)). f_equal. by apply IH. }
  assert (Hb : Forall (λ o, 0 ≤ o ∧ inS 64 o) (sf_base <$> (g <$> sealed))).
  { rewrite E. eapply Forall_impl; [exact Hf|]. simpl. intros o Ho. split; [lia|widths; lia]. }
  unfold bases_ok. rewrite fmap_app, E. split.
  - apply StronglySorted_snoc; [done|]. simpl. rewrite Hba.
    eapply Forall_impl; [exact Hf|]. simpl. intros. lia.
  - apply Forall_app. split; [by rewrite Forall_fmap in Hb|].
    apply Forall_singleton; simpl. rewrite Hba. split; [lia|widths; lia].
Qed.

(** A log just opened from its files: the next offsets of the sealed segments are
    their base offsets. *)
Definition reopened_view (l : Log) (b : Z) (rs : list record) : Prop :=
  ∃ e sealed rss a ra, log_rep l b e sealed rss a ra ∧ rs = mjoin rss ++ ra ∧
    Forall (λ s, s.(NextOffset) = s.(BaseOffset)) sealed.

Lemma reopened_log_view l b rs : reopened_view l b rs → log_view false l b rs.
Proof. intros (e & sealed & rss & a & ra & Hr & E & _). by exists e, sealed, rss, a, ra. Qed.

(** Opening the files of all segments of a log, the active log file perhaps cut. *)
Lemma reopen_rep mt now (g : Segment → segfiles) l b e sealed rss a ra p rest ix :
  log_rep l b e sealed rss a ra →
  (∀ s rs, seg_data s rs → flushed s → seg_limits l.(log_config) s → good_files s rs (g s)) →
  images ra = p ++ rest →
  let fs := (g <$> sealed) ++ [mkSegfiles a.(BaseOffset) p ix] in
  bases_ok fs ∧ ∃ l', NewLog mt now l.(log_config) (dir_of fs) = (Ok tt, l') ∧
  reopened_view l' b (mjoin rss ++ whole_records (zlen p) ra) ∧ l'.(log_dir) = ∅ ∧
  l'.(log_config) = l.(log_config).
Proof.
  intros Hr Hg Hp fs. pose proof (lr_config _ _ _ _ _ _ _ Hr) as Hcfg.
  destruct (log_rep_limits _ _ _ _ _ _ _ Hr) as [Hls Hla].
  pose proof (sealed_chain_length _ _ _ _ (lr_sealed _ _ _ _ _ _ _ Hr)) as He.
  pose proof (lr_base _ _ _ _ _ _ _ Hr) as Hba. pose proof (lr_low _ _ _ _ _ _ _ Hr).
  pose proof (lr_int64 _ _ _ _ _ _ _ Hr).
  assert (Hb : bases_ok fs) by (by eapply reopen_bases).
  split; [done|].
  destruct (NewLog_files mt now (log_config l) fs Hcfg Hb) as (segs & Ho & HN); [by destruct sealed|].
  apply Forall2_app_inv_l in Ho as (sealed' & last' & Hos & Hol & ->).
  apply Forall2_cons_inv_l in Hol as (a1 & nil' & Ho1 & Hnil & ->).
  apply Forall2_nil_inv_l in Hnil as ->.
  destruct (reopen_chain _ _ _ g _ _ _ _ Hcfg Hg (lr_sealed _ _ _ _ _ _ _ Hr) Hls _ Hos) as [Hch Hls'].
  destruct (recover_active mt now (log_config l) a ra p rest ix a1) as (a' & Ea & Hrep & Eb & Hla');
    [done|apply Hr|done|lia|by rewrite Hba|done|done|].
  rewrite (HN sealed' a1 a' eq_refl Ea). eexists. split; [done|].
  split; [|done]. eexists e, sealed', rss, a', _. split_and!; [|done|].
  2: { clear -Hos. induction Hos as [|? ? ? ? (i & _ & ->) _ IH]; by constructor. }
  constructor; simpl; try done; [congruence|apply Forall_app; split; [done|by constructor]|].
  destruct (whole_records_prefix (zlen p) ra) as [j ->]. rewrite length_take. widths. lia.
Qed.

Lemma seg_files_good cfg s rs : seg_data s rs → flushed s → seg_limits cfg s →
  good_files s rs (seg_files s).
Proof.
  intros Hd Hf (_ & _ & Hmod & _). pose proof (sd_index _ _ Hd) as Hi.
  constructor; simpl; [done|by apply log_file_flushed|apply Hi|by rewrite (rep_len _ _ Hi)].
Qed.

(** ** A clean shutdown *)

(** The files of a segment after [Close]: the buffer flushed, the index trimmed. *)
Definition closed_files (s : Segment) : segfiles :=
  mkSegfiles s.(BaseOffset) (written s.(seg_writer)) (idx_disk (Index_Close s.(seg_index))).

Lemma closed_files_good s rs : seg_data s rs → good_files s rs (closed_files s).
Proof.
  intros Hd. constructor; simpl; [done|apply Hd|..]; rewrite (Index_Close_disk _ _ (sd_index _ _ Hd)).
  - exists 0%nat. by rewrite app_nil_r.
  - rewrite length_entries_bytes, Z.mul_comm. by apply Z.mod_mul.
Qed.

Lemma close_loop_ok segs (d : Dir) : Forall (λ s, ∃ rs, seg_data s rs) segs →
  bases_ok (closed_files <$> segs) →
  close_loop segs d = (None, dir_of (closed_files <$> segs) ∪ d).
Proof.
  revert d. induction segs as [|s segs IH]; intros d Hf Hb; cbn [close_loop].
  { f_equal. symmetry. apply (left_id_L ∅ (∪)). }
  apply Forall_cons in Hf as [[rs Hd] Hf]. simpl in Hb.
  apply bases_ok_cons in Hb as ([H0 H64] & Hb & Hlt).
  destruct (files_of_fresh (BaseOffset s) (closed_files <$> segs)) as [I1 I2]; [done|done|apply Hb| |].
  { eapply Forall_impl; [exact Hlt|]. simpl. intros. lia. }
  apply not_elem_of_list_to_map_1 in I1, I2.
  destruct (Segment_Close_disk s rs d Hd) as (s' & d' & E & _ & ->). rewrite E.
  rewrite IH by done. f_equal. unfold dir_of. simpl.
  rewrite <- (sd_bytes _ _ Hd), <- (Index_Close_disk _ _ (sd_index _ _ Hd)).
  rewrite <- insert_union_r by done. rewrite <- insert_union_r by done.
  by rewrite !insert_union_l.
Qed.

Lemma crash_files_eq l b e sealed rss a ra k ix : log_rep l b e sealed rss a ra →
  crash_files k ix l =
  (seg_files <$> sealed) ++ [mkSegfiles a.(BaseOffset) (take k (seg_logFile a).(file_data)) ix].
Proof.
  intros Hr. unfold crash_files. rewrite (lr_segments _ _ _ _ _ _ _ Hr), last_snoc.
  rewrite length_app, Nat.add_1_r. simpl. by rewrite take_app_length.
Qed.

Lemma close_reopen_rep mt now f l b rs : log_view f l b rs → l.(log_dir) = ∅ → ∃ l1 l2,
  Log_Close l = (Ok tt, l1) ∧ l1.(log_closed) = true ∧
  NewLog mt now l.(log_config) l1.(log_dir) = (Ok tt, l2) ∧ reopened_view l2 b rs ∧ l2.(log_dir) = ∅ ∧
  l2.(log_config) = l.(log_config).
Proof.
  intros (e & sealed & rss & a & ra & Hr & -> & _) Hdir.
  destruct (reopen_rep mt now closed_files l b e sealed rss a ra (images ra) []
    (idx_disk (Index_Close a.(seg_index))) Hr) as (Hb & l2 & E & Hv & Hd2 & Hc2).
  - intros. by apply closed_files_good.
  - by rewrite app_nil_r.
  - assert (Ef : (closed_files <$> sealed) ++ [mkSegfiles (BaseOffset a) (images ra)
                   (idx_disk (Index_Close (seg_index a)))] = closed_files <$> sealed ++ [a]).
    { rewrite fmap_app, list_fmap_singleton. unfold closed_files at 3.
      by rewrite (sd_bytes _ _ (lr_active _ _ _ _ _ _ _ Hr)). }
    rewrite Ef in *. pose proof (log_rep_segments_ok _ _ _ _ _ _ _ Hr) as Hs.
    eexists _, l2. unfold Log_Close, closeSegments. rewrite (lr_open _ _ _ _ _ _ _ Hr). simpl.
    rewrite (lr_segments _ _ _ _ _ _ _ Hr), close_loop_ok; [|by eapply Forall_impl; [exact Hs|intros ? (_ & _ & ?)]|done].
    split; [done|]. simpl. rewrite Hdir, (right_id_L ∅ (∪)).
    rewrite whole_records_all in Hv by lia. split_and!; done.
Qed.

(** ** Reading a reopened log *)

Lemma take_budget_some m rs : ∃ rest, rs = take_budget m 0 rs ++ rest ∧ (take_budget m 0 rs = [] → rest = []).
Proof.
  destruct (take_budget_prefix m 0 rs) as (rest & E & _ & Hmax). exists rest. split; [done|].
  intros Et. destruct rest as [|r rest]; [done|]. destruct (Hmax ltac:(done) r rest eq_refl) as [H _].
  rewrite Et in H. simpl in H. lia.
Qed.

(** A ranged read of a reopened log stays within one segment. *)
Lemma readfrom_loop_reopened l b e sealed rss a ra maxBytes : log_rep l b e sealed rss a ra →
  0 < maxBytes ≤ MaxInt32 - MaxRecordSize → Forall (λ s, s.(NextOffset) = s.(BaseOffset)) sealed →
  ∀ bi suf rsuf pre offset, sealed = pre ++ suf → sealed_chain bi e suf rsuf → 0 ≤ bi ≤ offset →
  ∃ a' recs rest,
  readfrom_loop (S (length suf)) (length pre) offset maxBytes [] 0 l =
    ((recs, None), set_segments (sealed ++ [a']) l) ∧
  log_rep (set_segments (sealed ++ [a']) l) b e sealed rss a' ra ∧
  drop (Z.to_nat (offset - bi)) (mjoin rsuf ++ ra) = recs ++ rest ∧ (recs = [] → rest = []).
Proof.
  intros Hr Hm Hnx bi suf rsuf pre offset Hsuf Hch. revert pre offset Hsuf.
  induction Hch as [bi|bi e s suf rs rsuf Hb Hd Hf Hne Hch IH]; intros pre offset Hsuf Hbi.
  { rewrite app_nil_r in Hsuf. subst pre. cbn [length].
    destruct (readfrom_active l b bi sealed rss a ra offset maxBytes [] 0) as (a' & E & Hr'); [done|lia..|].
    exists a'. rewrite E. cbn [app]. simpl. rewrite Z.sub_0_r.
    destruct (take_budget_some maxBytes (drop (Z.to_nat (offset - bi)) ra)) as (rest & Et & Hone).
    exists (take_budget maxBytes 0 (drop (Z.to_nat (offset - bi)) ra)), rest.
    split_and!; [|done..]. repeat case_match; by rewrite ?app_nil_r. }
  destruct (suffix_lookup _ _ _ _ _ _ _ _ _ _ _ _ Hr Hsuf Hch) as (Hi & s2 & Hi' & Eb2).
  assert (Hsuf' : sealed = (pre ++ [s]) ++ suf) by (by rewrite <- app_assoc).
  specialize (IH Hr (pre ++ [s])). rewrite length_app, Nat.add_1_r in IH.
  cbn [length]. remember (S (length suf)) as n. cbn [readfrom_loop].
  rewrite Hi, Hi', Eb2. case_bool (Z.leb_spec 0 (bi + zlen rs)). rewrite andb_true_l.
  change (mjoin (rs :: rsuf)) with (rs ++ mjoin rsuf). rewrite <- app_assoc.
  destruct (Z.leb_spec (bi + zlen rs) offset) as [Hskip|Hin].
  { destruct (IH offset Hsuf' ltac:(lia)) as (a' & recs & rest & E & Hr' & Ed & Hs).
    exists a', recs, rest. split_and!; [done..| |done]. rewrite <- Ed, drop_app, drop_ge by lia. simpl.
    f_equal. lia. }
  rewrite Hb. case_test.
  rewrite (flush_for_read_sealed _ _ _ _ _ _ _ (length pre) s Hr) by (by rewrite Hsuf, lookup_app_r, Nat.sub_diag by lia).
  destruct (readfrom_step s rs offset maxBytes 0) as (E1 & _ & _); [done|done|lia|done|lia|].
  simpl in E1. rewrite Hb, Z.sub_0_r in E1. rewrite (Z.sub_0_r maxBytes), E1.
  assert (En : s.(NextOffset) = bi).
  { rewrite Hsuf in Hnx. apply Forall_app in Hnx as [_ [En _]%Forall_cons]. by rewrite En. }
  rewrite En. case_bool (Z.leb_spec bi offset).
  destruct (take_budget_some maxBytes (drop (Z.to_nat (offset - bi)) rs)) as (rest & Et & Hone).
  exists a, (take_budget maxBytes 0 (drop (Z.to_nat (offset - bi)) rs)), (rest ++ mjoin rsuf ++ ra).
  assert (El : set_segments (sealed ++ [a]) l = l).
  { rewrite <- (lr_segments _ _ _ _ _ _ _ Hr). by destruct l. }
  rewrite El. split_and!; [by destruct (_ <=? _)|done| |].
  - rewrite drop_app. replace (Z.to_nat (offset - bi) - length rs)%nat with 0%nat by lia.
    rewrite app_assoc. f_equal. by rewrite <- Et.
  - intros E0. exfalso. rewrite E0 in Et. rewrite (Hone E0) in Et.
    apply (f_equal length) in Et. rewrite length_drop in Et. simpl in Et. lia.
Qed.

(** Reading a reopened log returns a run of records from the offset on, and none only
    at the end of the log. *)
Lemma ReadFrom_reopened l b rs offset maxBytes : reopened_view l b rs → b ≤ offset →
  0 < maxBytes ≤ MaxInt32 - MaxRecordSize → ∃ l' recs rest,
  Log_ReadFrom offset maxBytes l = ((recs, None), l') ∧ reopened_view l' b rs ∧
  l'.(log_dir) = l.(log_dir) ∧ l'.(log_config) = l.(log_config) ∧
  drop (Z.to_nat (offset - b)) rs = recs ++ rest ∧ (recs = [] → rest = []).
Proof.
  intros (e & sealed & rss & a & ra & Hr & -> & Hnx) Ho Hm.
  unfold Log_ReadFrom. rewrite (lr_open _ _ _ _ _ _ _ Hr). case_test.
  destruct (log_rep_lowest _ _ _ _ _ _ _ Hr) as (s0 & tl & E0 & Eb). rewrite E0. cbn match.
  rewrite <- E0, Eb. case_test. rewrite (lr_segments _ _ _ _ _ _ _ Hr), length_app, Nat.add_1_r.
  destruct (readfrom_loop_reopened l b e sealed rss a ra maxBytes Hr Hm Hnx b sealed rss [] offset)
    as (a' & recs & rest & E & Hr' & Ed & Hs); [done|apply Hr| |].
  { pose proof (lr_low _ _ _ _ _ _ _ Hr). lia. }
  simpl length in E. rewrite E. eexists _, recs, rest. split_and!; try done.
  by exists e, sealed, rss, a', ra.
Qed.

(** ** Claims *)

(** C7: recovery after a crash. However few bytes [k] of the active log file
    reached the disk, in the middle of a record or not, and whatever its index file
    holds, [NewLog] succeeds and the log holds every record of the sealed segments
    and exactly the active segment's records that are whole on disk: the torn tail
    is cut off, the index is rebuilt, and appends continue after the last whole
    record. *)
Theorem crash_recovery mt now l b e sealed rss a ra k ix : log_rep l b e sealed rss a ra →
  let rs := mjoin rss ++ whole_records (zlen (take k (seg_logFile a).(file_data))) ra in
  ∃ l', NewLog mt now l.(log_config) (dir_of (crash_files k ix l)) = (Ok tt, l') ∧
    log_view false l' b rs ∧ HighestOffset l' = b + zlen rs ∧
    rs `prefix_of` mjoin rss ++ ra.
Proof.
  intros Hr rs. rewrite (crash_files_eq _ _ _ _ _ _ _ _ _ Hr).
  destruct (log_file_prefix a ra (lr_active _ _ _ _ _ _ _ Hr)) as [rest Er].
  destruct (reopen_rep mt now seg_files l b e sealed rss a ra
    (take k (file_data (seg_logFile a))) (drop k (file_data (seg_logFile a)) ++ rest) ix) as (_ & l' & E & Hv & _).
  - done.
  - intros. by eapply seg_files_good.
  - by rewrite Er, app_assoc, take_drop.
  - apply reopened_log_view in Hv. exists l'. split_and!; [done|done|by apply log_view_highest in Hv|].
    unfold rs. destruct (whole_records_prefix (zlen (take k (file_data (seg_logFile a)))) ra) as [j ->].
    apply prefix_app. exists (drop j ra). by rewrite take_drop.
Qed.

(** A clean shutdown loses nothing: [Close] writes every segment out, and
    [NewLog] on the directory it leaves holds the same records. *)
Theorem close_reopen mt now f l b rs : log_view f l b rs → l.(log_dir) = ∅ → ∃ l1 l2,
  Log_Close l = (Ok tt, l1) ∧ l1.(log_closed) = true ∧
  NewLog mt now l.(log_config) l1.(log_dir) = (Ok tt, l2) ∧ log_view false l2 b rs.
Proof.
  intros Hv Hd. destruct (close_reopen_rep mt now f l b rs Hv Hd) as (l1 & l2 & E1 & Hc & E2 & Hv2 & _).
  exists l1, l2. split_and!; try done. by apply reopened_log_view.
Qed.

Lemma crash_recovery_witness : ∃ e sealed rss a ra,
  log_rep sample_log 0 e sealed rss a ra ∧
  let rs := mjoin rss ++ whole_records (zlen (take 50 (seg_logFile a).(file_data))) ra in
  ∃ l', NewLog (λ _, 0) 9 sample_log.(log_config) (dir_of (crash_files 50 [x01] sample_log)) = (Ok tt, l') ∧
    log_view false l' 0 rs ∧ HighestOffset l' = 0 + zlen rs ∧ rs `prefix_of` mjoin rss ++ ra.
Proof.
  destruct sample_log_view as (e & sealed & rss & a & ra & Hr & _).
  exists e, sealed, rss, a, ra. split; [exact Hr|].
  exact (crash_recovery (λ _, 0) 9 sample_log 0 e sealed rss a ra 50 [x01] Hr).
Defined.

Lemma close_reopen_witness : ∃ l1 l2,
  Log_Close sample_log = (Ok tt, l1) ∧ l1.(log_closed) = true ∧
  NewLog (λ _, 0) 9 sample_log.(log_config) l1.(log_dir) = (Ok tt, l2) ∧
  log_view false l2 0 (number_from 0 sample_batch).
Proof.
  apply (close_reopen (λ _, 0) 9 true sample_log 0 (number_from 0 sample_batch));
    [apply sample_log_view|vm_compute; reflexivity].
Defined.

(** After a restart a ranged read stops at a segment boundary: sealed segments
    are reopened with [NextOffset] equal to their base offset, so a read that starts
    in a sealed segment never goes on to the next one, although every record is
    still there. *)
Theorem reopened_ReadFrom_stops :
  let closed := (Log_Close sample_log).2 in
  let l := (NewLog (λ _, 0) 9 sample_config closed.(log_dir)).2 in
  (rec_Offset <$> (Log_ReadFrom 0 1000 sample_log).1.1) = [0; 1; 2; 3; 4] ∧
  (rec_Offset <$> (Log_ReadFrom 0 1000 l).1.1) = [0; 1; 2] ∧
  (Log_Read 4 l).1 = Ok (set_Offset 4 sample_record).
Proof. vm_compute. split_and!; reflexivity. Qed.
