(* ===== verification/Retention.v ===== *)
(** * Retention (src/internal/storage/log.go, [runRetention])

    Time- and size-based retention removes whole segments from the front of the log
    and never touches the active one. *)
From Stdlib Require Import ZArith Lia.
From stdpp Require Import base list strings gmap sorting.
From S2P Require Import Prelude Files Decimal Record Index Segment PartitionLog.
Open Scope Z_scope.

(** The segment has outlived the retention window. *)
Definition expired (cfg : Config) (now : Z) (s : Segment) : Prop :=
  0 < cfg.(RetentionMs) ∧ s.(CreatedAt) ≠ 0 ∧
  DurationMs cfg.(RetentionMs) ≤ time_Sub now s.(CreatedAt).
#[global] Instance expired_dec cfg now s : Decision (expired cfg now s).
Proof. unfold expired. apply _. Defined.

Lemma expired_bool cfg now s :
  ((0 <? cfg.(RetentionMs)) && negb (s.(CreatedAt) =? 0)) &&
  (DurationMs cfg.(RetentionMs) <=? time_Sub now s.(CreatedAt)) = bool_decide (expired cfg now s).
Proof.
  unfold expired. destruct (Z.ltb_spec 0 (RetentionMs cfg)), (Z.eqb_spec (CreatedAt s) 0),
    (Z.leb_spec (DurationMs (RetentionMs cfg)) (time_Sub now (CreatedAt s))); simpl; symmetry;
    rewrite ?bool_decide_eq_true, ?bool_decide_eq_false; lia.
Qed.

Definition removable (s : Segment) : Prop :=
  0 ≤ s.(BaseOffset) ∧ inS 64 s.(BaseOffset) ∧ ∃ rs, seg_data s rs.

(** The time-based pass keeps the segments that have not expired, and the active
    one. *)
Lemma retention_time_ok removeOk cfg now a (d : Dir) : (∀ p, removeOk p = true) → dir_free d →
  ∀ sealed i, Forall removable sealed →
  retention_time removeOk cfg now (i + length sealed) i (sealed ++ [a]) d =
    (filter (λ s, ¬ expired cfg now s) sealed ++ [a], d).
Proof.
  intros Hok Hd. induction sealed as [|s sealed IH]; intros i Hf; simpl.
  { by rewrite Nat.add_0_r, Nat.eqb_refl. }
  apply Forall_cons in Hf as [(H0 & H64 & rs & Hs) Hf].
  destruct (Nat.eqb_spec i (i + S (length sealed))); [lia|].
  replace (i + S (length sealed))%nat with (S i + length sealed)%nat by lia.
  rewrite expired_bool. destruct (bool_decide_reflect (expired cfg now s)) as [He|He].
  - destruct (Hd _ H0 H64). destruct (Segment_Remove_ok removeOk s rs d) as (s' & ->); [done..|].
    rewrite IH by done. by rewrite filter_cons_False by tauto.
  - rewrite IH by done. by rewrite filter_cons_True.
Qed.

(** The size-based pass drops segments from the front until the rest fits. *)
Lemma retention_bytes_ok removeOk limit (d : Dir) : (∀ p, removeOk p = true) → dir_free d →
  ∀ segs, Forall removable segs → segs ≠ [] → ∃ j,
  retention_bytes removeOk limit (totalSizeLocked segs) segs d = (drop j segs, d) ∧
  (j < length segs)%nat ∧
  (totalSizeLocked (drop j segs) ≤ limit ∨ length (drop j segs) = 1%nat).
Proof.
  intros Hok Hd. induction segs as [|s segs IH]; intros Hf Hne; [done|].
  apply Forall_cons in Hf as [(H0 & H64 & rs & Hs) Hf].
  destruct segs as [|s2 segs]; [exists 0%nat; simpl; split_and!; [done|lia|by right]|].
  cbn [retention_bytes]. destruct (Z.ltb_spec limit (totalSizeLocked (s :: s2 :: segs))).
  - destruct (Hd _ H0 H64). destruct (Segment_Remove_ok removeOk s rs d) as (s' & ->); [done..|].
    replace (totalSizeLocked (s :: s2 :: segs) - Segment_Size s) with (totalSizeLocked (s2 :: segs))
      by (unfold totalSizeLocked; simpl; lia).
    destruct (IH Hf ltac:(done)) as (j & E & Hj & Hfit). exists (S j). simpl drop.
    split_and!; [exact E|simpl in *; lia|done].
  - exists 0%nat. simpl drop. split_and!; [done|simpl; lia|by left].
Qed.

(** Segments created in order expire in order. *)
Lemma expired_prefix cfg now sealed : StronglySorted Z.le (CreatedAt <$> sealed) →
  Forall (λ s, 0 < s.(CreatedAt)) sealed →
  ∃ j, filter (λ s, ¬ expired cfg now s) sealed = drop j sealed.
Proof.
  induction sealed as [|s sealed IH]; intros Hs Hp; [by exists 0%nat|]. simpl in Hs.
  apply StronglySorted_inv in Hs as [Hs Hle]. apply Forall_cons in Hp as [Hp0 Hp].
  destruct (decide (expired cfg now s)) as [He|He].
  - rewrite filter_cons_False by tauto. destruct (IH Hs Hp) as [j ->]. by exists (S j).
  - exists 0%nat. simpl. rewrite filter_cons_True by done. f_equal.
    rewrite (filter_take _ _ (length sealed)), take_ge; [done|done|].
    rewrite Forall_fmap in Hle. clear IH. intros i s' Hi.
    split; [intros _|intros _; by eapply lookup_lt_Some].
    pose proof (Forall_lookup_1 _ _ _ _ Hle Hi) as Hc. pose proof (Forall_lookup_1 _ _ _ _ Hp Hi).
    simpl in Hc. intros (H1 & _ & H2). apply He. split_and!; [done|lia|]. unfold time_Sub in *. lia.
Qed.

(** The front of a chain can go. *)
Lemma sealed_chain_drop b e segs rss j : sealed_chain b e segs rss → ∃ b',
  sealed_chain b' e (drop j segs) (drop j rss) ∧ b ≤ b' ∧
  mjoin (drop j rss) = drop (Z.to_nat (b' - b)) (mjoin rss).
Proof.
  intros H. revert j. induction H as [|b e s segs rs rss Hb Hd Hf Hne H IH]; intros j.
  { exists b. rewrite !drop_nil. split_and!; [apply sealed_nil|lia|simpl; by rewrite drop_nil]. }
  destruct j as [|j]; simpl.
  - exists b. rewrite Z.sub_diag. split_and!; [by constructor|lia|done].
  - destruct (IH j) as (b' & Hc & Hle & E). exists b'. split_and!; [done|lia|].
    rewrite E. symmetry. rewrite drop_app, (drop_ge rs) by lia. simpl. f_equal. lia.
Qed.

Lemma log_rep_drop l b e sealed rss a ra j : log_rep l b e sealed rss a ra → ∃ b',
  log_rep (set_segments (drop j sealed ++ [a]) l) b' e (drop j sealed) (drop j rss) a ra ∧ b ≤ b' ∧
  mjoin (drop j rss) ++ ra = drop (Z.to_nat (b' - b)) (mjoin rss ++ ra).
Proof.
  intros Hr. pose proof (lr_sealed _ _ _ _ _ _ _ Hr) as Hc.
  destruct (sealed_chain_drop _ _ _ _ j Hc) as (b' & Hc' & Hle & E).
  pose proof (sealed_chain_length _ _ _ _ Hc). pose proof (sealed_chain_length _ _ _ _ Hc').
  destruct (log_rep_limits _ _ _ _ _ _ _ Hr) as [Hls Hla].
  exists b'. split_and!; [|done|].
  - constructor; simpl; try done; try apply Hr; [pose proof (lr_low _ _ _ _ _ _ _ Hr); lia|].
    apply Forall_app. split; [by apply Forall_drop|by constructor].
  - rewrite E, drop_app. f_equal.
    replace (Z.to_nat (b' - b) - length (mjoin rss))%nat with 0%nat by lia. done.
Qed.

(** What one retention pass does to the list of segments. *)
Lemma runRetention_rep removeOk now l b e sealed rss a ra : (∀ p, removeOk p = true) →
  log_rep l b e sealed rss a ra → StronglySorted Z.le (CreatedAt <$> sealed) →
  Forall (λ s, 0 < s.(CreatedAt)) sealed → ∃ j,
  runRetention removeOk now l = set_segments (drop j sealed ++ [a]) l ∧
  (sealed ≠ [] → Forall (λ s, ¬ expired l.(log_config) now s) (drop j sealed)) ∧
  (sealed ≠ [] → 0 < l.(log_config).(RetentionBytes) →
   totalSizeLocked (drop j sealed ++ [a]) ≤ l.(log_config).(RetentionBytes) ∨ drop j sealed = []).
Proof.
  intros Hok Hr Hs Hp. unfold runRetention. rewrite (lr_open _ _ _ _ _ _ _ Hr). simpl orb.
  pose proof (log_rep_segments_ok _ _ _ _ _ _ _ Hr) as Hsegs.
  rewrite (lr_attached _ _ _ _ _ _ _ Hr), (lr_segments _ _ _ _ _ _ _ Hr), length_app.
  destruct (Nat.leb_spec (length sealed + length [a]) 1) as [Hl|Hl].
  { assert (sealed = []) as -> by (destruct sealed; [done|simpl in Hl; lia]).
    exists 0%nat. split_and!; [|done..]. simpl.
    pose proof (lr_segments _ _ _ _ _ _ _ Hr) as Es. destruct l. simpl in *. by rewrite Es. }
  cbn [length]. rewrite Nat.add_1_r. cbn [pred].
  apply Forall_app in Hsegs as [Hsd Ha].
  rewrite (retention_time_ok removeOk _ now a _ Hok (lr_free _ _ _ _ _ _ _ Hr) sealed 0 Hsd).
  destruct (expired_prefix l.(log_config) now sealed Hs Hp) as [j1 Ej]. rewrite Ej.
  assert (Hkeep : Forall (λ s, ¬ expired (log_config l) now s) (drop j1 sealed)).
  { rewrite <- Ej. apply Forall_forall. intros s Hin%list_elem_of_filter. tauto. }
  assert (Hld : ∀ segs, set_segments segs (set_dir (log_dir l) l) = set_segments segs l) by (by destruct l).
  destruct (Z.ltb_spec 0 (RetentionBytes (log_config l))).
  - destruct (retention_bytes_ok removeOk (RetentionBytes (log_config l)) _ Hok (lr_free _ _ _ _ _ _ _ Hr)
      (drop j1 sealed ++ [a])) as (j2 & E & Hj & Hfit).
    { apply Forall_app. split; [by apply Forall_drop|done]. }
    { by destruct (drop j1 sealed). }
    rewrite E, Hld. exists (j1 + j2)%nat. rewrite length_app in Hj. simpl in Hj.
    rewrite (drop_app_le _ _ j2) in * by lia. rewrite drop_drop in *.
    split_and!; [done|intros _; rewrite <- drop_drop; by apply Forall_drop|].
    intros _ _. destruct Hfit as [?|Hone]; [by left|right].
    rewrite length_app in Hone. simpl in Hone. destruct (drop (j1 + j2) sealed); [done|simpl in Hone; lia].
  - exists j1. rewrite Hld. split_and!; [done|done|intros; lia].
Qed.

(** ** Claims *)


