(* ===== verification/LogFacts.v ===== *)
(** * What any use of a log preserves (src/internal/storage/log.go)

    The theorems of [PartitionLog] are about batches and byte budgets that fit. A broker
    passes on what its clients send: this file shows what holds of a log, and of
    decoded records, whatever they are. *)
From Stdlib Require Import ZArith Lia Strings.Byte.
From stdpp Require Import base list strings gmap.
From S2P Require Import Prelude Files Decimal Record Index Segment PartitionLog Recovery Retention.
Open Scope Z_scope.

(** ** Decoded records *)

Lemma be_signed_slice (n : nat) payload o : (0 < n)%nat → length (slice payload o (Z.of_nat n)) = n →
  inS (8 * Z.of_nat n) (be_signed (slice payload o (Z.of_nat n))).
Proof.
  intros Hn Hl. rewrite <- Hl at 1. apply be_signed_range. intros E. rewrite E in Hl. simpl in Hl. lia.
Qed.

Lemma length_slice_in (payload : bytes) o n : 0 ≤ o → 0 ≤ n → o + n ≤ zlen payload →
  length (slice payload o n) = Z.to_nat n.
Proof. intros. unfold slice. rewrite length_take, length_drop. lia. Qed.

Lemma decode_fields_wf payload r : decode_fields payload = Ok r → record_wf r.
Proof.
  unfold decode_fields. destruct (Z.ltb_spec (zlen payload) minPayload) as [|Hmin]; [done|].
  unfold minPayload in Hmin. destruct (negb _); [done|].
  destruct (decode_payload payload (20 + 1)) as [[k o]|]; [|done].
  destruct (decode_payload payload o) as [[v o']|]; [|done]. intros E.
  assert (H1 := be_signed_slice 8 payload 0 ltac:(lia) ltac:(apply length_slice_in; lia)).
  assert (H2 := be_signed_slice 8 payload 8 ltac:(lia) ltac:(apply length_slice_in; lia)).
  assert (H3 := be_signed_slice 1 payload 20 ltac:(lia) ltac:(apply length_slice_in; lia)).
  simpl Z.of_nat in *. simpl Z.mul in *.
  repeat case_match; simplify_eq/=; done.
Qed.

Lemma DecodeRecord_wf s n r s' : DecodeRecord s = ((n, Ok r), s') → record_wf r.
Proof.
  unfold DecodeRecord. destruct (ReadFull 4 s) as [[lenBuf|] s1]; [|done].
  destruct (_ <? 0); [done|]. destruct (MaxRecordSize <? _); [done|].
  destruct (ReadFull _ s1) as [[payload|] s2]; [|done]. intros [= _ E _]. by eapply decode_fields_wf.
Qed.

(** ** Appending *)

(** Of a batch of any records the log takes a front part, all of it when there is no
    error; a record that is too large stops it. *)
Lemma append_loop_any mt now recs : ∀ l f b rs first, log_view f l b rs → Forall record_wf recs →
  inS 64 (b + zlen rs + zlen recs) → l.(log_dir) = ∅ → ∃ k l' base err,
  append_loop mt now first (Some <$> recs) l = ((base, err), l') ∧
  log_view f l' b (rs ++ number_from (b + zlen rs) (take k recs)) ∧
  l'.(log_dir) = ∅ ∧ l'.(log_config) = l.(log_config) ∧
  (err = None → take k recs = recs ∧ base = default (match recs with [] => 0 | _ => b + zlen rs end) first).
Proof.
  induction recs as [|r recs IH]; intros l f b rs first Hv Hwf H64 Hd; simpl in *.
  { exists 0%nat, l, (default 0 first), None. rewrite app_nil_r. by destruct first. }
  apply Forall_cons in Hwf as [Hr0 Hwf].
  destruct Hv as (e & sealed & rss & a & ra & Hr & -> & Hnx).
  pose proof (sealed_chain_length _ _ _ _ (lr_sealed _ _ _ _ _ _ _ Hr)) as He.
  assert (Hleo : e + zlen ra = b + zlen (mjoin rss ++ ra)) by (rewrite length_app; lia).
  pose proof (lr_low _ _ _ _ _ _ _ Hr).
  destruct (Z.lt_ge_cases MaxRecordSize (EncodedSize r)) as [Hbig|Hfit].
  { destruct (append_one_too_large mt now l b e sealed rss a ra r Hr Hbig) as
      (l1 & l2 & e' & sealed' & rss' & a' & ra' & E1 & E2 & Hr' & Ev & Hnx'). rewrite E1, E2.
    destruct (maybeRotate_frame _ _ _ _ E1 Hd) as [D1 C1].
    destruct (on_active_frame (Segment_Append (Some r)) l1) as [D2 C2]. rewrite E2 in D2, C2. simpl in D2, C2.
    exists 0%nat, l2, (default 0 first), (Some (wrapError "log: append" (wrapError "segment: encode record" ErrRecordTooLarge))).
    simpl. rewrite app_nil_r. split_and!; [by destruct first| |congruence|congruence|done].
    exists e', sealed', rss', a', ra'. rewrite Ev. auto. }
  destruct (append_one mt now l b e sealed rss a ra r Hr) as
    (l1 & l2 & e' & sealed' & rss' & a' & ra' & E1 & E2 & Hr' & Ev & Hnx').
  { rewrite Hleo. widths. lia. }
  { destruct Hr0 as (_ & ? & ?). split; [split_and!; simpl; [widths; lia|done..]|done]. }
  rewrite E1, E2, Hleo.
  destruct (maybeRotate_frame _ _ _ _ E1 Hd) as [D1 C1].
  destruct (on_active_frame (Segment_Append (Some r)) l1) as [D2 C2]. rewrite E2 in D2, C2. simpl in D2, C2.
  destruct (count_flush_frame l2) as [D3 C3].
  assert (El : b + zlen ((mjoin rss ++ ra) ++ [set_Offset (b + zlen (mjoin rss ++ ra)) r]) =
               b + zlen (mjoin rss ++ ra) + 1) by len.
  destruct (IH (count_flush l2) f b ((mjoin rss ++ ra) ++ [set_Offset (b + zlen (mjoin rss ++ ra)) r])
    (Some (default (b + zlen (mjoin rss ++ ra)) first))) as (k & l' & base & err & E & Hv' & Hd' & Hc' & Hn).
  - exists e', sealed', rss', a', ra'. rewrite Ev, Hleo. split_and!; [done|done|auto].
  - done.
  - rewrite El. widths. lia.
  - congruence.
  - exists (S k), l', base, err. simpl. split; [exact E|]. rewrite El, <- app_assoc in Hv'.
    split_and!; [done|done|congruence|]. intros Hnone. destruct (Hn Hnone) as [-> ->]. by destruct first.
Qed.

Lemma AppendBatch_any mt now recs l f b rs : log_view f l b rs → Forall record_wf recs → recs ≠ [] →
  inS 64 (b + zlen rs + zlen recs) → l.(log_dir) = ∅ → ∃ k l' base err,
  AppendBatch mt now (Some <$> recs) l = ((base, err), l') ∧
  log_view f l' b (rs ++ number_from (b + zlen rs) (take k recs)) ∧
  l'.(log_dir) = ∅ ∧ l'.(log_config) = l.(log_config) ∧
  (err = None → take k recs = recs ∧ base = b + zlen rs).
Proof.
  intros Hv Hwf Hne H64 Hd. pose proof Hv as (e & sealed & rss & a & ra & Hr & _).
  destruct (append_loop_any mt now recs l f b rs None Hv Hwf H64 Hd) as (k & l' & base & err & E & H).
  exists k, l', base, err. unfold AppendBatch. rewrite (lr_open _ _ _ _ _ _ _ Hr).
  destruct recs as [|r recs]; [done|]. simpl in *. by rewrite E.
Qed.

(** ** Reading *)

(** Whatever the budget, a scan returns records of the segment from the offset on. *)
Lemma read_loop_any rs (fuel : nat) offset maxBytes : ∀ out acc, Forall storable rs → (length (images rs) < fuel)%nat →
  ∃ out', read_loop fuel offset maxBytes (images rs) out acc = (out ++ out', None) ∧
  ∀ r, r ∈ out' → r ∈ rs ∧ offset ≤ r.(rec_Offset).
Proof.
  revert fuel. induction rs as [|r rs IH]; intros fuel out acc Hok Hf.
  { exists []. rewrite app_nil_r. destruct fuel; [lia|]. split; [done|]. by intros r ?%not_elem_of_nil. }
  apply Forall_cons in Hok as [Hr Hok]. destruct fuel as [|fuel]; [lia|]. cbn [read_loop]. rewrite decode_images' by done.
  pose proof (images_fuel r rs fuel Hf) as Hf'. destruct (Z.ltb_spec (rec_Offset r) offset).
  { destruct (IH fuel out acc Hok Hf') as (out' & E & Hin). exists out'. split; [done|].
    intros x Hx. destruct (Hin x Hx). split; [by right|done]. }
  destruct (_ && _). { exists []. rewrite app_nil_r. split; [done|]. by intros x ?%not_elem_of_nil. }
  destruct (IH fuel (out ++ [r]) (int32 (acc + int32 (EncodedSize r))) Hok Hf') as (out' & E & Hin).
  exists (r :: out'). split; [by rewrite E, <- app_assoc|].
  intros x [->|Hx]%elem_of_cons; [split; [left|done]|]. destruct (Hin x Hx). split; [by right|done].
Qed.

Lemma Segment_ReadFrom_any s rs offset maxBytes : seg_data s rs → flushed s → s.(BaseOffset) ≤ offset → ∃ out,
  Segment_ReadFrom offset maxBytes s = (out, None) ∧ ∀ r, r ∈ out → r ∈ rs ∧ offset ≤ r.(rec_Offset).
Proof.
  intros Hd Hf Ho. unfold Segment_ReadFrom. rewrite (sd_open _ _ Hd).
  assert (Hnil : ∀ r, r ∈ [] → r ∈ rs ∧ offset ≤ r.(rec_Offset)) by (by intros r ?%not_elem_of_nil).
  destruct (maxBytes <=? 0); [by exists []|]. case_test.
  destruct (Lookup_points s rs (uint32 (offset - BaseOffset s)) Hd) as (pos & found & i & -> & -> & Hi & Hrel).
  rewrite (readHandle_flushed s rs i Hd Hf).
  destruct (read_loop_any (drop i rs) (S (length (images (drop i rs)))) offset maxBytes [] 0) as (out & E & Hin);
    [apply Forall_drop, (sd_ok _ _ Hd)|lia|].
  exists out. split; [done|]. intros r Hr. destruct (Hin r Hr) as [Hx ?]. split; [|done].
  rewrite <- (take_drop i rs). apply elem_of_app. by right.
Qed.

Lemma sealed_chain_in b e segs rss (i : nat) s : sealed_chain b e segs rss → segs !! i = Some s → ∃ rs,
  seg_data s rs ∧ flushed s ∧ ∀ r, r ∈ rs → r ∈ mjoin rss.
Proof.
  intros Hc. revert i. induction Hc as [|b e s0 segs rs rss Hb Hd Hf Hne Hc IH]; intros i Hi; [done|].
  destruct i as [|i]; simplify_eq/=.
  - exists rs. split_and!; [done|done|]. intros r Hr. apply elem_of_app. by left.
  - destruct (IH i Hi) as (rs' & ? & ? & Hin). exists rs'. split_and!; [done|done|]. intros r Hr. apply elem_of_app. auto.
Qed.

(** Flushing is all that a read does to the log: afterwards the segment read has its
    records in the file. *)
Lemma flush_for_read_any i s l f b rs : log_view f l b rs → l.(segments) !! i = Some s → ∃ s' l' rs',
  flush_for_read i s l = (Ok s', l') ∧ log_view f l' b rs ∧ l'.(log_dir) = l.(log_dir) ∧
  l'.(log_config) = l.(log_config) ∧ s'.(BaseOffset) = s.(BaseOffset) ∧
  seg_data s' rs' ∧ flushed s' ∧ ∀ r, r ∈ rs' → r ∈ rs.
Proof.
  intros (e & sealed & rss & a & ra & Hr & -> & Hnx) Hi. rewrite (lr_segments _ _ _ _ _ _ _ Hr) in Hi.
  apply lookup_app_Some in Hi as [Hi|[Hge Hi]].
  - destruct (sealed_chain_in _ _ _ _ _ _ (lr_sealed _ _ _ _ _ _ _ Hr) Hi) as (rs' & Hd & Hf & Hin).
    exists s, l, rs'. rewrite (flush_for_read_sealed _ _ _ _ _ _ _ _ _ Hr Hi). split_and!; try done.
    + by exists e, sealed, rss, a, ra.
    + intros r Hr'. apply elem_of_app. auto.
  - apply list_lookup_singleton_Some in Hi as [Hi <-]. assert (i = length sealed) as -> by lia.
    destruct (flush_for_read_active _ _ _ _ _ _ _ Hr) as (w & E & Hr' & Hf). rewrite E.
    eexists _, _, ra. split_and!; [done| |done|done|done|apply (lr_active _ _ _ _ _ _ _ Hr')|done|].
    + by exists e, sealed, rss, (set_writer w a), ra.
    + intros r Hin. apply elem_of_app. by right.
Qed.

(** What a ranged read gives of any log, with any budget. *)
Definition reads_log (l : Log) (f : bool) (b : Z) (rs : list record) (offset : Z) (out : list record) (l' : Log) : Prop :=
  log_view f l' b rs ∧ l'.(log_dir) = l.(log_dir) ∧ l'.(log_config) = l.(log_config) ∧
  ∀ r, r ∈ out → r ∈ rs ∧ offset ≤ r.(rec_Offset).

Lemma readfrom_loop_any n f b rs : ∀ i offset maxBytes out acc l, log_view f l b rs → ∃ out' l',
  readfrom_loop n i offset maxBytes out acc l = ((out ++ out', None), l') ∧ reads_log l f b rs offset out' l'.
Proof.
  assert (Hstop : ∀ offset l (out : list record), log_view f l b rs → ∃ out' l',
    ((out, None), l) = ((out ++ out', None : option error), l') ∧ reads_log l f b rs offset out' l').
  { intros offset l out Hv. exists [], l. rewrite app_nil_r. split; [done|]. split_and!; try done. by intros r ?%not_elem_of_nil. }
  induction n as [|n IH]; intros i offset maxBytes out acc l Hv; cbn [readfrom_loop]; [by apply Hstop|].
  destruct (segments l !! i) as [s|] eqn:Hi; [|by apply Hstop].
  destruct (_ && _); [by apply IH|]. destruct (Z.ltb_spec offset (BaseOffset s)); [by apply Hstop|].
  destruct (flush_for_read_any i s l f b rs Hv Hi) as (s' & l1 & rs' & E & Hv1 & D1 & C1 & Eb & Hd & Hf & Hin). rewrite E.
  destruct (Segment_ReadFrom_any s' rs' offset (int32 (maxBytes - acc)) Hd Hf) as (recs & Er & Hrecs); [lia|]. rewrite Er.
  assert (Hgot : reads_log l f b rs offset recs l1).
  { split_and!; try done. intros r Hr. destruct (Hrecs r Hr). auto. }
  destruct (_ <=? _); [by exists recs, l1|]. destruct (Z.leb_spec s'.(NextOffset) offset); [by exists recs, l1|].
  destruct (IH (S i) s'.(NextOffset) maxBytes (out ++ recs) (accumulate recs acc) l1 Hv1) as (out' & l' & E' & Hv' & D' & C' & Hin').
  exists (recs ++ out'), l'. split; [by rewrite E', app_assoc|]. split_and!; [done|congruence..|].
  intros r [Hr|Hr]%elem_of_app; [by apply Hgot|]. destruct (Hin' r Hr). split; [done|lia].
Qed.

(** The three cases of [ReadFrom] of an open log. *)
Lemma Log_ReadFrom_any offset maxBytes l f b rs : log_view f l b rs → ∃ out err l',
  Log_ReadFrom offset maxBytes l = ((out, err), l') ∧ reads_log l f b rs offset out l' ∧
  err = (if (0 <? maxBytes) && (offset <? b) then Some ErrOffsetOutOfRange else None).
Proof.
  intros Hv. pose proof Hv as (e & sealed & rss & a & ra & Hr & _). unfold Log_ReadFrom.
  rewrite (lr_open _ _ _ _ _ _ _ Hr).
  assert (Hnil : reads_log l f b rs offset [] l) by (split_and!; try done; by intros r ?%not_elem_of_nil).
  destruct (Z.leb_spec maxBytes 0); [exists [], None, l; by case_bool (Z.ltb_spec 0 maxBytes)|].
  case_bool (Z.ltb_spec 0 maxBytes). cbn [andb].
  destruct (log_rep_lowest _ _ _ _ _ _ _ Hr) as (s0 & tl & E0 & Eb). rewrite E0, Eb.
  destruct (Z.ltb_spec offset b); [by exists [], (Some ErrOffsetOutOfRange), l|].
  destruct (readfrom_loop_any (length (s0 :: tl)) f b rs 0 offset maxBytes [] 0 l Hv) as (out & l' & E & H').
  exists out, None, l'. by rewrite E.
Qed.

(** ** Directories that can be opened *)

(** Whatever the clock and the modification times, the directory opens as a log with
    the records [rs] from offset [b] on. *)
Definition dir_holds (cfg : Config) (d : Dir) (b : Z) (rs : list record) : Prop := ∀ mt now, ∃ l f,
  NewLog mt now cfg d = (Ok tt, l) ∧ log_view f l b rs ∧ l.(log_dir) = ∅ ∧ l.(log_config) = withDefaults cfg.

Lemma dir_holds_empty cfg : config_ok (withDefaults cfg) → dir_holds cfg ∅ 0 [].
Proof.
  intros Hc mt now. destruct (NewLog_empty mt now cfg Hc) as (l & E & Hv).
  destruct (NewLog_empty_frame _ _ _ _ E) as [Hd Hcfg]. by exists l, true.
Qed.

Lemma NewLog_withDefaults mt now cfg d : NewLog mt now (withDefaults cfg) d = NewLog mt now cfg d.
Proof.
  unfold NewLog. by replace (withDefaults (withDefaults cfg)) with (withDefaults cfg)
    by (unfold withDefaults; cbn; split_ifs).
Qed.

Lemma dir_holds_closed cfg l f b rs : log_view f l b rs → l.(log_dir) = ∅ → l.(log_config) = withDefaults cfg →
  dir_holds cfg (Log_Close l).2.(log_dir) b rs.
Proof.
  intros Hv Hd Hc mt now.
  destruct (close_reopen_rep mt now f l b rs Hv Hd) as (l1 & l2 & E1 & _ & E2 & Hv2 & D2 & C2).
  rewrite E1. simpl. rewrite Hc, NewLog_withDefaults in E2.
  exists l2, false. split_and!; [done|by apply reopened_log_view|done|congruence].
Qed.
