(* ===== verification/Codec.v ===== *)
(** * Primitive wire codec (src/internal/protocol/codec.go)

    The [Put*] encoders over any writer, the decoders over a byte stream, arrays,
    and the round trip of each. [Wire] is the interface that a message type offers
    to the code that sends and receives it. *)
From Stdlib Require Import ZArith Lia Strings.Byte.
From stdpp Require Import base list strings.
From S2P Require Import Prelude.
Open Scope Z_scope.

Abbreviation str_bytes := String.list_byte_of_string.
Abbreviation bytes_str := String.string_of_list_byte.

Definition MaxStringLength : Z := 10 * 1024 * 1024.
Definition MaxBytesLength : Z := 100 * 1024 * 1024.
Definition MaxArrayElements : Z := MaxInt32.

(** ** Encoders *)

Section put.
Context {W : Type} `{Writer W}.

(** [binary.Write(w, binary.BigEndian, v)] for an [n]-byte integer. *)
Definition put_int (n : nat) (v : Z) : M W Z := Write (be_encode n v) ;; mret (Z.of_nat n).

Definition PutInt8 (v : Z) : M W Z := put_int 1 v.
Definition PutInt16 (v : Z) : M W Z := put_int 2 v.
Definition PutInt32 (v : Z) : M W Z := put_int 4 v.
Definition PutInt64 (v : Z) : M W Z := put_int 8 v.

Definition PutBool (v : bool) : M W Z :=
  let b := if v then 1 else 0 in PutInt8 b.

Definition PutString (v : string) : M W Z :=
  let n := zlen (str_bytes v) in
  if MaxInt16 <? n then raise (errorString "protocol: string length exceeds int16 range")
  else
    written ← PutInt16 (int16 n);
    if n =? 0 then mret written
    else m ← Write (str_bytes v); mret (written + m).

Definition PutNullableString (v : option string) : M W Z :=
  match v with
  | None => PutInt16 (-1)
  | Some v => PutString v
  end.

Definition PutBytes (v : bytes) : M W Z :=
  let n := zlen v in
  if MaxInt32 <? n then raise (errorString "protocol: bytes length exceeds int32 range")
  else
    written ← PutInt32 (int32 n);
    if n =? 0 then mret written
    else m ← Write v; mret (written + m).

Definition PutNullableBytes (v : option bytes) : M W Z :=
  match v with
  | None => PutInt32 (-1)
  | Some v => PutBytes v
  end.

Definition PutArrayHeader (length : Z) : M W Z :=
  if MaxInt32 <? length then raise (errorString "protocol: array length exceeds int32 range")
  else PutInt32 (int32 length).

(** An array: its header, then every element. *)
Definition put_array {A} (put : A → M W unit) (l : list A) : M W unit :=
  PutArrayHeader (zlen l) ;; for_each l put.
End put.

(** ** Decoders *)

(** [binary.Read(r, binary.BigEndian, &v)] for an [n]-byte integer. *)
Definition get_int (n : Z) : M bytes Z := b ← ReadFull n; mret (be_signed b).

Definition Int8 : M bytes Z := get_int 1.
Definition Int16 : M bytes Z := get_int 2.
Definition Int32 : M bytes Z := get_int 4.
Definition Int64 : M bytes Z := get_int 8.

Definition Bool : M bytes bool := v ← Int8; mret (negb (v =? 0)).

Definition GetString : M bytes string :=
  length ← Int16;
  if length <? 0 then mret EmptyString
  else if length =? 0 then mret EmptyString
  else if MaxStringLength <? length
  then raise (errorString "protocol: string length exceeds maximum allowed limit")
  else buf ← ReadFull length; mret (bytes_str buf).

Definition NullableString : M bytes (option string) :=
  length ← Int16;
  if length <? 0 then mret None
  else if length =? 0 then mret (Some EmptyString)
  else if MaxStringLength <? length
  then raise (errorString "protocol: string length exceeds maximum allowed limit")
  else buf ← ReadFull length; mret (Some (bytes_str buf)).

(** The nil slice of a negative length is the empty slice to every reader of the
    result. *)
Definition Bytes : M bytes bytes :=
  length ← Int32;
  if length <? 0 then mret []
  else if length =? 0 then mret []
  else if MaxBytesLength <? length
  then raise (errorString "protocol: bytes length exceeds maximum allowed limit")
  else ReadFull length.

Definition NullableBytes : M bytes (option bytes) :=
  length ← Int32;
  if length <? 0 then mret None
  else if length =? 0 then mret (Some [])
  else if MaxBytesLength <? length
  then raise (errorString "protocol: bytes length exceeds maximum allowed limit")
  else buf ← ReadFull length; mret (Some buf).

Definition ArrayHeader : M bytes Z :=
  v ← Int32;
  if MaxArrayElements <? v
  then raise (errorString "protocol: array element count exceeds maximum allowed limit")
  else mret v.

(** The cap that request decoders put on array lengths. *)
Definition arrayCap : Z := 100000.

Definition ReadArrayHeader : M bytes Z :=
  count ← ArrayHeader;
  if arrayCap <? count
  then raise (errorString "protocol: array element count exceeds safety limit")
  else mret count.

(** [count] elements, none for a null array. *)
Definition get_elems {A} (get : M bytes A) (count : Z) : M bytes (list A) :=
  if count <? 0 then mret [] else repeat_n (Z.to_nat count) get.

(** An array in a request (capped) and in a response. *)
Definition get_array {A} (get : M bytes A) : M bytes (list A) :=
  count ← ReadArrayHeader; get_elems get count.
Definition get_array_uncapped {A} (get : M bytes A) : M bytes (list A) :=
  count ← ArrayHeader; get_elems get count.

(** ** Round trips *)

Definition str_ok (s : string) : Prop := zlen (str_bytes s) ≤ MaxInt16.
Definition bytes_ok (b : bytes) : Prop := zlen b ≤ MaxBytesLength.
#[global] Instance str_ok_dec s : Decision (str_ok s).
Proof. unfold str_ok. apply _. Defined.
#[global] Instance bytes_ok_dec b : Decision (bytes_ok b).
Proof. unfold bytes_ok. apply _. Defined.

Lemma bytes_str_bytes s : bytes_str (str_bytes s) = s.
Proof. apply String.string_of_list_byte_of_string. Qed.

Section rt.
Context {W : Type} `{WriterOk W}.

(** A plain write is read back by [ReadFull]. *)
Lemma roundtrip_write (p : bytes) (n : Z) : n = zlen p → roundtrip (W:=W) (Write p) (ReadFull n) p.
Proof.
  intros -> w Hw. destruct (write_ok p w Hw) as (w' & E & Hw' & Ew).
  exists (zlen p), w', p. split_and!; [done..|]. intros rest. apply ReadFull_app.
Qed.

(** The writer may do pure work at the end. *)
Lemma roundtrip_put_ret {A A' B} (put : M W A) (f : A → A') (get : M bytes B) v :
  roundtrip put get v → roundtrip (x ← put; mret (f x)) get v.
Proof.
  intros H1 w Hw. destruct (H1 w Hw) as (n & w1 & b1 & E1 & Hw1 & W1 & G1).
  exists (f n), w1, b1. split_and!; [|done..]. unfold mbind, M_bind. by rewrite E1.
Qed.

Lemma roundtrip_int (n : nat) v : (0 < n)%nat → inS (8 * Z.of_nat n) v →
  roundtrip (W:=W) (put_int n v) (get_int (Z.of_nat n)) v.
Proof.
  intros Hn Hv. unfold put_int, get_int.
  eapply (roundtrip_put_ret _ (λ _, Z.of_nat n)), (roundtrip_last _ _ be_signed).
  - apply roundtrip_write. by rewrite length_be_encode.
  - by rewrite be_signed_encode.
Qed.

Lemma roundtrip_Int8 v : inS 8 v → roundtrip (W:=W) (PutInt8 v) Int8 v.
Proof. intros. apply (roundtrip_int 1); [lia|done]. Qed.
Lemma roundtrip_Int16 v : inS 16 v → roundtrip (W:=W) (PutInt16 v) Int16 v.
Proof. intros. apply (roundtrip_int 2); [lia|done]. Qed.
Lemma roundtrip_Int32 v : inS 32 v → roundtrip (W:=W) (PutInt32 v) Int32 v.
Proof. intros. apply (roundtrip_int 4); [lia|done]. Qed.
Lemma roundtrip_Int64 v : inS 64 v → roundtrip (W:=W) (PutInt64 v) Int64 v.
Proof. intros. apply (roundtrip_int 8); [lia|done]. Qed.

Lemma roundtrip_Bool v : roundtrip (W:=W) (PutBool v) Bool v.
Proof.
  unfold PutBool, Bool. eapply roundtrip_last; [apply roundtrip_Int8; by destruct v|by destruct v].
Qed.

(** Length prefix and body, the body left out when empty. *)
Lemma roundtrip_prefixed {B} (put : M W Z) (get : M bytes Z) (body : bytes) (k : Z → M bytes B) v :
  roundtrip put get (zlen body) →
  (body = [] → k 0 = mret v) →
  (body ≠ [] → roundtrip (W:=W) (Write body) (k (zlen body)) v) →
  roundtrip (written ← put; if zlen body =? 0 then mret written else m ← Write body; mret (written + m))
    (get ≫= k) v.
Proof.
  intros Hp Hnil Hcons. eapply roundtrip_bind; [done|]. intros n. destruct body as [|c body].
  - change (zlen (@nil byte)) with 0. simpl. rewrite Hnil by done. apply roundtrip_ret.
  - destruct (Z.eqb_spec (zlen (c :: body)) 0) as [E|_]; [simpl in E; lia|]. apply roundtrip_put_ret. by apply Hcons.
Qed.

Lemma roundtrip_String s : str_ok s → roundtrip (W:=W) (PutString s) GetString s.
Proof.
  unfold str_ok. intros Hs. unfold PutString, GetString. case_test.
  rewrite wrapS_small by width_lia. apply roundtrip_prefixed.
  - apply roundtrip_Int16. width_lia.
  - intros E. simpl. by rewrite <- (bytes_str_bytes s), E.
  - intros Hne. assert (0 < zlen (str_bytes s)) by (destruct (str_bytes s); simpl; [done|lia]).
    case_bool (Z.ltb_spec (zlen (str_bytes s)) 0). case_bool (Z.eqb_spec (zlen (str_bytes s)) 0).
    unfold MaxStringLength. widths. case_test.
    eapply roundtrip_last; [by apply roundtrip_write|]. by rewrite bytes_str_bytes.
Qed.

Lemma roundtrip_NullableString o : (∀ s, o = Some s → str_ok s) →
  roundtrip (W:=W) (PutNullableString o) NullableString o.
Proof.
  intros Hs. destruct o as [s|]; simpl.
  - specialize (Hs s eq_refl). unfold str_ok in Hs. unfold PutString, NullableString. case_test.
    rewrite wrapS_small by width_lia. apply roundtrip_prefixed.
    + apply roundtrip_Int16. width_lia.
    + intros E. simpl. by rewrite <- (bytes_str_bytes s), E.
    + intros Hne. assert (0 < zlen (str_bytes s)) by (destruct (str_bytes s); simpl; [done|lia]).
      case_bool (Z.ltb_spec (zlen (str_bytes s)) 0). case_bool (Z.eqb_spec (zlen (str_bytes s)) 0).
      unfold MaxStringLength. widths. case_test.
      eapply roundtrip_last; [by apply roundtrip_write|]. by rewrite bytes_str_bytes.
  - intros w Hw. destruct (roundtrip_Int16 (-1) ltac:(by_decide) w Hw) as (n & w' & bs & E & Hw' & Ew & G).
    exists n, w', bs. split_and!; [done..|]. intros rest. unfold NullableString, mbind, M_bind. by rewrite G.
Qed.

Lemma roundtrip_Bytes b : bytes_ok b → roundtrip (W:=W) (PutBytes b) Bytes b.
Proof.
  unfold bytes_ok, MaxBytesLength. intros Hb. unfold PutBytes, Bytes, MaxBytesLength.
  assert (zlen b ≤ MaxInt32) by width_lia. case_test.
  rewrite wrapS_small by width_lia. apply roundtrip_prefixed.
  - apply roundtrip_Int32. width_lia.
  - intros ->. done.
  - intros Hne. assert (0 < zlen b) by (destruct b; simpl; [done|lia]).
    do 3 case_test. by apply roundtrip_write.
Qed.

Lemma roundtrip_NullableBytes o : (∀ b, o = Some b → bytes_ok b) →
  roundtrip (W:=W) (PutNullableBytes o) NullableBytes o.
Proof.
  intros Hs. destruct o as [b|]; simpl.
  - specialize (Hs b eq_refl). unfold bytes_ok, MaxBytesLength in Hs.
    unfold PutBytes, NullableBytes, MaxBytesLength.
    assert (zlen b ≤ MaxInt32) by width_lia. case_test.
    rewrite wrapS_small by width_lia. apply roundtrip_prefixed.
    + apply roundtrip_Int32. width_lia.
    + intros ->. done.
    + intros Hne. assert (0 < zlen b) by (destruct b; simpl; [done|lia]).
      do 3 case_test. eapply roundtrip_last; [by apply roundtrip_write|done].
  - intros w Hw. destruct (roundtrip_Int32 (-1) ltac:(by_decide) w Hw) as (n & w' & bs & E & Hw' & Ew & G).
    exists n, w', bs. split_and!; [done..|]. intros rest. unfold NullableBytes, mbind, M_bind. by rewrite G.
Qed.
End rt.

(** ** Arrays *)

Section arrays.
Context {W : Type} `{WriterOk W}.

Lemma roundtrip_elems {A} (l : list A) (put : A → M W unit) (get : M bytes A) :
  (∀ x, x ∈ l → roundtrip (put x) get x) →
  roundtrip (for_each l put) (get_elems get (zlen l)) l.
Proof.
  intros Hl. unfold get_elems. case_test. rewrite Nat2Z.id.
  pose proof (roundtrip_list l put get id Hl) as Hrt. by rewrite list_fmap_id in Hrt.
Qed.

Lemma roundtrip_ArrayHeader n : -1 ≤ n ≤ MaxInt32 → roundtrip (W:=W) (PutArrayHeader n) ArrayHeader n.
Proof.
  intros Hn. unfold PutArrayHeader, ArrayHeader. case_test. rewrite wrapS_small by width_lia. intros w Hw.
  destruct (roundtrip_Int32 n ltac:(width_lia) w Hw) as (k & w' & bs & E & Hw' & Ew & G).
  exists k, w', bs. split_and!; [done..|]. intros rest. unfold mbind, M_bind. rewrite G.
  unfold MaxArrayElements. by case_test.
Qed.

Lemma roundtrip_ReadArrayHeader n : -1 ≤ n ≤ arrayCap →
  roundtrip (W:=W) (PutArrayHeader n) ReadArrayHeader n.
Proof.
  intros Hn w Hw. assert (-1 ≤ n ≤ MaxInt32) as Hn' by (unfold arrayCap in Hn; width_lia).
  destruct (roundtrip_ArrayHeader n Hn' w Hw) as (k & w' & bs & E & Hw' & Ew & G).
  exists k, w', bs. split_and!; [done..|]. intros rest. unfold ReadArrayHeader, mbind, M_bind. rewrite G.
  by case_test.
Qed.

Lemma roundtrip_array_uncapped {A} (l : list A) (put : A → M W unit) (get : M bytes A) :
  zlen l ≤ MaxInt32 → (∀ x, x ∈ l → roundtrip (put x) get x) →
  roundtrip (put_array put l) (get_array_uncapped get) l.
Proof.
  intros Hn Hl. eapply roundtrip_bind; [apply roundtrip_ArrayHeader; lia|].
  intros _. by apply roundtrip_elems.
Qed.

Lemma roundtrip_array {A} (l : list A) (put : A → M W unit) (get : M bytes A) :
  zlen l ≤ arrayCap → (∀ x, x ∈ l → roundtrip (put x) get x) →
  roundtrip (put_array put l) (get_array get) l.
Proof.
  intros Hn Hl. eapply roundtrip_bind; [apply roundtrip_ReadArrayHeader; lia|].
  intros _. by apply roundtrip_elems.
Qed.

Lemma roundtrip_done {A} (a : A) {B} (v v' : B) : v = v' → roundtrip (W:=W) (mret a) (mret v) v'.
Proof. intros ->. apply roundtrip_ret. Qed.
End arrays.

(** A null array or one with more than [arrayCap] elements is refused by a request
    decoder before any element is read. *)
Lemma get_array_cap {A} (get : M bytes A) v rest : inS 32 v → arrayCap < v →
  get_array get (be_encode 4 v ++ rest) =
    (Err (errorString "protocol: array element count exceeds safety limit"), rest).
Proof.
  intros Hv Hcap. unfold get_array, ReadArrayHeader, ArrayHeader, Int32, get_int, mbind, M_bind.
  rewrite ReadFull_eq by len. simpl. unfold mret, M_ret.
  assert (v ≤ MaxInt32) by width_lia. rewrite be_signed_encode by (done || lia).
  unfold MaxArrayElements. case_bool (Z.ltb_spec MaxInt32 v). by case_bool (Z.ltb_spec arrayCap v).
Qed.

(** ** Prefixes *)

(** A decoder that succeeds does not look past what it consumes. *)
Definition extends {A} (get : M bytes A) : Prop :=
  ∀ p v s q, get p = (Ok v, s) → get (p ++ q) = (Ok v, s ++ q).

Create HintDb extends.

Lemma extends_ret {A} (a : A) : extends (mret a).
Proof. by intros p v s q [= <- <-]. Qed.
Lemma extends_raise {A} e : extends (A:=A) (raise e).
Proof. done. Qed.
Lemma extends_bind {A B} (m : M bytes A) (f : A → M bytes B) :
  extends m → (∀ a, extends (f a)) → extends (m ≫= f).
Proof.
  intros Hm Hf p v s q. unfold mbind, M_bind. destruct (m p) as [[a|e] s'] eqn:E; [|done].
  rewrite (Hm _ _ _ q E). apply Hf.
Qed.
Lemma extends_if {A} (b : bool) (m1 m2 : M bytes A) : extends m1 → extends m2 → extends (if b then m1 else m2).
Proof. by destruct b. Qed.
Lemma extends_ReadFull n : extends (ReadFull n).
Proof.
  intros p v s q. unfold ReadFull. destruct (Z.leb_spec n 0); [by intros [= <- <-]|].
  destruct p as [|b p]; [done|]. remember (b :: p) as p0 eqn:Ep.
  destruct (Z.ltb_spec (zlen p0) n); [done|]. intros [= <- <-].
  destruct (p0 ++ q) as [|c r] eqn:E; [by subst|]. rewrite <- E.
  destruct (Z.ltb_spec (zlen (p0 ++ q)) n); [rewrite length_app in *; lia|].
  by rewrite take_app_le, drop_app_le by lia.
Qed.
Lemma extends_repeat_n {A} n (m : M bytes A) : extends m → extends (repeat_n n m).
Proof.
  intros Hm. induction n as [|n IH]; simpl; [apply extends_ret|].
  apply extends_bind; [done|]. intros x. apply extends_bind; [done|]. intros l. apply extends_ret.
Qed.
#[export] Hint Resolve extends_ret extends_raise extends_ReadFull extends_repeat_n : extends.

(** Goes through a decoder. *)
Ltac extends := repeat first [apply extends_bind; [|intros ?] | apply extends_if]; auto with extends.

Lemma extends_get_int n : extends (get_int n).
Proof. unfold get_int. extends. Qed.
#[export] Hint Resolve extends_get_int : extends.
Lemma extends_ArrayHeader : extends ArrayHeader.
Proof. unfold ArrayHeader, Int32. extends. Qed.
Lemma extends_ReadArrayHeader : extends ReadArrayHeader.
Proof. unfold ReadArrayHeader. pose proof extends_ArrayHeader. extends. Qed.
Lemma extends_Int16 : extends Int16.
Proof. apply extends_get_int. Qed.
Lemma extends_Int32 : extends Int32.
Proof. apply extends_get_int. Qed.
Lemma extends_Int64 : extends Int64.
Proof. apply extends_get_int. Qed.
Lemma extends_GetString : extends GetString.
Proof. unfold GetString, Int16. extends. Qed.
Lemma extends_Bytes : extends Bytes.
Proof. unfold Bytes, Int32. extends. Qed.
Lemma extends_get_elems {A} (get : M bytes A) n : extends get → extends (get_elems get n).
Proof. intros. unfold get_elems. extends. Qed.
#[export] Hint Resolve extends_ArrayHeader extends_ReadArrayHeader extends_Int16 extends_Int32 extends_Int64
  extends_GetString extends_Bytes extends_get_elems : extends.
Lemma extends_get_array {A} (get : M bytes A) : extends get → extends (get_array get).
Proof. intros. unfold get_array. extends. Qed.
Lemma extends_get_array_uncapped {A} (get : M bytes A) : extends get → extends (get_array_uncapped get).
Proof. intros. unfold get_array_uncapped. extends. Qed.
#[export] Hint Resolve extends_get_array extends_get_array_uncapped : extends.

(** ** Messages *)

(** A type with an [Encode] and a [Decode] method. *)
Class Wire (A : Type) := {
  wire_put {W : Type} `{Writer W} : A → M W unit;
  wire_get : M bytes A;
  wire_wf : A → Prop
}.

(** What callers rely on: a well-formed value decodes to itself, whatever writer
    it goes through and whatever follows it, and what follows is not looked at. *)
Class WireOk (A : Type) `{Wire A} := {
  wire_rt (W : Type) `{WriterOk W} (a : A) : wire_wf a → roundtrip (W:=W) (wire_put a) wire_get a;
  wire_extends : extends (wire_get (A:=A))
}.

(** Encoding into a [bytes.Buffer] and decoding from a [bytes.Reader]. *)
Definition marshal {A} `{Wire A} (a : A) : result bytes :=
  match wire_put a ([] : bytes) with (Ok _, b) => Ok b | (Err e, _) => Err e end.
Definition unmarshal {A} `{Wire A} (b : bytes) : result A := (wire_get b).1.

Lemma marshal_unmarshal {A} `{WireOk A} (a : A) : wire_wf a →
  ∃ bs, marshal a = Ok bs ∧ ∀ rest, unmarshal (bs ++ rest) = Ok a.
Proof.
  intros Hwf. destruct (wire_rt bytes a Hwf [] ltac:(exact I)) as (n & w' & bs & E & _ & Ew & G).
  exists bs. unfold marshal, unmarshal. simpl in Ew. subst w'. rewrite E. split; [done|].
  intros rest. by rewrite G.
Qed.

(** A message cut short is an error. *)
Lemma unmarshal_cut {A} `{WireOk A} (a : A) p q : wire_wf a → q ≠ [] → marshal a = Ok (p ++ q) →
  ∃ e, unmarshal (A:=A) p = Err e.
Proof.
  intros Hwf Hq. unfold marshal, unmarshal.
  destruct (wire_rt bytes a Hwf [] ltac:(exact I)) as (n & w' & bs & E & _ & Ew & G).
  simpl in Ew. subst w'. rewrite E. intros [= ->].
  destruct (wire_get p) as [[v|e] s] eqn:Ep; [|by exists e].
  apply (wire_extends _ _ _ q) in Ep. specialize (G []). rewrite app_nil_r, Ep in G.
  exfalso. injection G as _ G. by apply app_nil in G as [_ ->].
Qed.

(** Follows an encoder and a decoder field by field; the round trips of the message
    types that occur as array elements are in the database [wire]. *)
Create HintDb wire.

Lemma roundtrip_elem {W A} `{WriterOk W} (put : A → M W Z) (get : M bytes A) x :
  roundtrip (put x) get x → roundtrip (put x ;; mret ()) get x.
Proof. apply (roundtrip_put_ret _ (λ _, ())). Qed.

Ltac rt_field :=
  first [ apply roundtrip_Int8 | apply roundtrip_Int16 | apply roundtrip_Int32 | apply roundtrip_Int64
        | apply roundtrip_Bool | apply roundtrip_String | apply roundtrip_Bytes
        | apply roundtrip_NullableBytes | apply roundtrip_NullableString
        | apply roundtrip_array | apply roundtrip_array_uncapped ].
Ltac rt_elem :=
  intros ? ?; match goal with
  | HF : Forall _ ?l, Hx : _ ∈ ?l |- _ => pose proof (proj1 (Forall_forall _ _) HF _ Hx)
  end; first [by eauto with wire | apply roundtrip_elem; rt_field; done].
Ltac rt_message :=
  intros; destruct_and?; repeat (eapply roundtrip_bind; [rt_field; first [done|rt_elem]|intros _]);
  by apply roundtrip_done.
