(* ===== verification/Frame.v ===== *)
(** * Request and response frames (src/internal/protocol/frame.go)

    Length-prefixed frames, the size limits, and the round trip of a frame together
    with the message in its payload. *)
From Stdlib Require Import ZArith Lia Strings.Byte.
From stdpp Require Import base list strings.
From S2P Require Import Prelude Codec.
Open Scope Z_scope.

Definition MaxFrameSize : Z := 100 * 1024 * 1024.

Record RequestFrame := mkRequestFrame {
  rqf_Size : Z;
  rqf_ApiKey : Z;
  rqf_ApiVersion : Z;
  rqf_CorrelationID : Z;
  rqf_ClientID : string;
  rqf_Payload : bytes
}.

Record ResponseFrame := mkResponseFrame {
  rsf_Size : Z;
  rsf_CorrelationID : Z;
  rsf_ErrorCode : Z;
  rsf_Payload : bytes
}.

(** [io.LimitedReader{R: r, N: n}]: [m] sees at most [n] bytes of the stream. *)
Definition limited {A} (n : Z) (m : M bytes A) : M bytes A := λ s,
  let '(r, s') := m (take (Z.to_nat n) s) in (r, s' ++ drop (Z.to_nat n) s).

(** [io.CopyN(io.Discard, r, n)]. *)
Definition discard (n : Z) : M bytes unit := λ s,
  if zlen s <? n then (Err EOF, []) else (Ok tt, drop (Z.to_nat n) s).

(** The probe for one more byte after the last field. *)
Definition probe_end : M bytes unit := λ s,
  match s with
  | [] => (Ok tt, [])
  | _ :: s' => (Err ErrFrameSizeMismatch, s')
  end.

(** ** Requests *)

Definition ReadRequestFrameWithLimit (maxRequestBytes : Z) : M bytes RequestFrame :=
  size ← Int32;
  if (size <? 0) || (MaxFrameSize <? size) then raise ErrFrameTooLarge
  else if (0 <? maxRequestBytes) && (maxRequestBytes <? size) then
    discard size ;; raise ErrFrameTooLarge
  else limited size
    (apiKey ← Int16;
     apiVersion ← Int16;
     correlationID ← Int32;
     clientID ← GetString;
     payload ← Bytes;
     probe_end ;;
     mret (mkRequestFrame size apiKey apiVersion correlationID clientID payload)).

Definition ReadRequestFrame : M bytes RequestFrame := ReadRequestFrameWithLimit 0.

(** The body that [Write] assembles in a buffer. *)
Definition request_body (f : RequestFrame) : M bytes unit :=
  PutInt16 f.(rqf_ApiKey) ;;
  PutInt16 f.(rqf_ApiVersion) ;;
  PutInt32 f.(rqf_CorrelationID) ;;
  PutString f.(rqf_ClientID) ;;
  PutBytes f.(rqf_Payload) ;;
  mret ().

(** The size field and the body go to the writer. *)
Definition write_frame {W} `{Writer W} (body : bytes) : M W Z :=
  n ← PutInt32 (int32 (zlen body));
  m ← Write body;
  mret (n + m).

Definition RequestFrame_Write {W} `{Writer W} (f : RequestFrame) : M W Z :=
  match request_body f ([] : bytes) with
  | (Err e, _) => raise e
  | (Ok _, body) => write_frame body
  end.

(** ** Responses *)

Definition ReadResponseFrame : M bytes ResponseFrame :=
  size ← Int32;
  if (size <? 0) || (MaxFrameSize <? size) then raise ErrFrameTooLarge
  else limited size
    (correlationID ← Int32;
     errorCode ← Int16;
     payload ← Bytes;
     probe_end ;;
     mret (mkResponseFrame size correlationID errorCode payload)).

Definition response_body (f : ResponseFrame) : M bytes unit :=
  PutInt32 f.(rsf_CorrelationID) ;;
  PutInt16 f.(rsf_ErrorCode) ;;
  PutBytes f.(rsf_Payload) ;;
  mret ().

Definition ResponseFrame_Write {W} `{Writer W} (f : ResponseFrame) : M W Z :=
  match response_body f ([] : bytes) with
  | (Err e, _) => raise e
  | (Ok _, body) => write_frame body
  end.

(** ** Well-formed frames *)

Definition request_wf (f : RequestFrame) : Prop :=
  inS 16 f.(rqf_ApiKey) ∧ inS 16 f.(rqf_ApiVersion) ∧ inS 32 f.(rqf_CorrelationID) ∧
  str_ok f.(rqf_ClientID) ∧ bytes_ok f.(rqf_Payload) ∧
  f.(rqf_Size) = 14 + zlen (str_bytes f.(rqf_ClientID)) + zlen f.(rqf_Payload) ∧
  f.(rqf_Size) ≤ MaxFrameSize.
#[global] Instance request_wf_dec f : Decision (request_wf f).
Proof. unfold request_wf. apply _. Defined.

Definition response_wf (f : ResponseFrame) : Prop :=
  inS 32 f.(rsf_CorrelationID) ∧ inS 16 f.(rsf_ErrorCode) ∧ bytes_ok f.(rsf_Payload) ∧
  f.(rsf_Size) = 10 + zlen f.(rsf_Payload) ∧ f.(rsf_Size) ≤ MaxFrameSize.
#[global] Instance response_wf_dec f : Decision (response_wf f).
Proof. unfold response_wf. apply _. Defined.

(** ** What goes into the buffer *)

Lemma PutString_buf s (w : bytes) : str_ok s →
  PutString s w = (Ok (2 + zlen (str_bytes s)), w ++ be_encode 2 (zlen (str_bytes s)) ++ str_bytes s).
Proof.
  unfold str_ok. intros Hs. unfold PutString. case_test. rewrite wrapS_small by width_lia.
  unfold mbind, M_bind. simpl. destruct (Z.eqb_spec (zlen (str_bytes s)) 0) as [E|E]; unfold mret, M_ret.
  - destruct (str_bytes s); [|simpl in E; lia]. by rewrite app_nil_r.
  - simpl. by rewrite app_assoc.
Qed.

Lemma PutBytes_buf b (w : bytes) : bytes_ok b →
  PutBytes b w = (Ok (4 + zlen b), w ++ be_encode 4 (zlen b) ++ b).
Proof.
  unfold bytes_ok, MaxBytesLength. intros Hb. assert (zlen b ≤ MaxInt32) by width_lia.
  unfold PutBytes. case_test. rewrite wrapS_small by width_lia.
  unfold mbind, M_bind. simpl. destruct (Z.eqb_spec (zlen b) 0) as [E|E]; unfold mret, M_ret.
  - destruct b; [|simpl in E; lia]. by rewrite app_nil_r.
  - simpl. by rewrite app_assoc.
Qed.

Definition request_bytes (f : RequestFrame) : bytes :=
  be_encode 2 f.(rqf_ApiKey) ++ be_encode 2 f.(rqf_ApiVersion) ++ be_encode 4 f.(rqf_CorrelationID) ++
  (be_encode 2 (zlen (str_bytes f.(rqf_ClientID))) ++ str_bytes f.(rqf_ClientID)) ++
  be_encode 4 (zlen f.(rqf_Payload)) ++ f.(rqf_Payload).

Definition response_bytes (f : ResponseFrame) : bytes :=
  be_encode 4 f.(rsf_CorrelationID) ++ be_encode 2 f.(rsf_ErrorCode) ++
  be_encode 4 (zlen f.(rsf_Payload)) ++ f.(rsf_Payload).

Lemma request_body_bytes f : request_wf f → request_body f [] = (Ok tt, request_bytes f).
Proof.
  intros (_ & _ & _ & Hs & Hb & _). unfold request_body, mbind, M_bind. simpl.
  rewrite PutString_buf by done. rewrite PutBytes_buf by done. unfold request_bytes.
  by rewrite <- !app_assoc.
Qed.

Lemma response_body_bytes f : response_wf f → response_body f [] = (Ok tt, response_bytes f).
Proof.
  intros (_ & _ & Hb & _). unfold response_body, mbind, M_bind. simpl.
  rewrite PutBytes_buf by done. unfold response_bytes. by rewrite <- !app_assoc.
Qed.

Lemma length_request_bytes f : request_wf f → zlen (request_bytes f) = f.(rqf_Size).
Proof. intros (_ & _ & _ & _ & _ & -> & _). unfold request_bytes. len. Qed.

Lemma length_response_bytes f : response_wf f → zlen (response_bytes f) = f.(rsf_Size).
Proof. intros (_ & _ & _ & -> & _). unfold response_bytes. len. Qed.

(** ** Reading fields *)

Lemma get_int_bytes (n : nat) v rest : (0 < n)%nat → inS (8 * Z.of_nat n) v →
  get_int (Z.of_nat n) (be_encode n v ++ rest) = (Ok v, rest).
Proof.
  intros Hn Hv. unfold get_int, mbind, M_bind. rewrite ReadFull_eq by (by rewrite length_be_encode).
  by rewrite be_signed_encode.
Qed.

Lemma Int16_bytes v rest : inS 16 v → Int16 (be_encode 2 v ++ rest) = (Ok v, rest).
Proof. intros. apply (get_int_bytes 2); [lia|done]. Qed.
Lemma Int32_bytes v rest : inS 32 v → Int32 (be_encode 4 v ++ rest) = (Ok v, rest).
Proof. intros. apply (get_int_bytes 4); [lia|done]. Qed.

Lemma GetString_bytes s rest : str_ok s →
  GetString ((be_encode 2 (zlen (str_bytes s)) ++ str_bytes s) ++ rest) = (Ok s, rest).
Proof.
  intros Hs. destruct (roundtrip_String (W:=bytes) s Hs [] ltac:(exact I)) as (n & w' & bs & E & _ & Ew & G).
  rewrite PutString_buf in E by done. simpl in *. simplify_eq. apply G.
Qed.

Lemma Bytes_bytes b rest : bytes_ok b → Bytes (be_encode 4 (zlen b) ++ b ++ rest) = (Ok b, rest).
Proof.
  intros Hs. destruct (roundtrip_Bytes (W:=bytes) b Hs [] ltac:(exact I)) as (n & w' & bs & E & _ & Ew & G).
  rewrite PutBytes_buf in E by done. simpl in *. simplify_eq. rewrite app_assoc. apply G.
Qed.

Lemma Bytes_bytes_end b : bytes_ok b → Bytes (be_encode 4 (zlen b) ++ b) = (Ok b, []).
Proof. intros Hb. rewrite <- (Bytes_bytes b [] Hb). by rewrite app_nil_r. Qed.

(** ** Frames *)

Lemma limited_app {A} (m : M bytes A) (body rest : bytes) n r s' :
  n = zlen body → m body = (r, s') → limited n m (body ++ rest) = (r, s' ++ rest).
Proof.
  intros -> E. unfold limited. by rewrite Nat2Z.id, take_app_length, drop_app_length, E.
Qed.

Lemma read_request_bytes limit f rest : request_wf f → limit ≤ 0 ∨ f.(rqf_Size) ≤ limit →
  ReadRequestFrameWithLimit limit (be_encode 4 f.(rqf_Size) ++ request_bytes f ++ rest) = (Ok f, rest).
Proof.
  intros Hwf Hlim. pose proof (length_request_bytes f Hwf) as Hl.
  destruct Hwf as (Hk & Hv & Hc & Hs & Hb & Hsz & Hmax). unfold MaxFrameSize in Hmax.
  unfold ReadRequestFrameWithLimit, mbind at 1, M_bind at 1. rewrite Int32_bytes by width_lia.
  case_bool (Z.ltb_spec (rqf_Size f) 0). unfold MaxFrameSize. case_bool (Z.ltb_spec (100 * 1024 * 1024) (rqf_Size f)).
  cbn [orb].
  assert ((0 <? limit) && (limit <? rqf_Size f) = false) as ->.
  { destruct (Z.ltb_spec 0 limit), (Z.ltb_spec limit (rqf_Size f)); lia || done. }
  rewrite (limited_app _ (request_bytes f) rest _ (Ok f) []) by (lia || (
    unfold request_bytes, mbind, M_bind; rewrite Int16_bytes by done; rewrite Int16_bytes by done;
    rewrite Int32_bytes by done; rewrite GetString_bytes by done;
    rewrite Bytes_bytes_end by done; by destruct f)).
  done.
Qed.

Lemma read_response_bytes f rest : response_wf f →
  ReadResponseFrame (be_encode 4 f.(rsf_Size) ++ response_bytes f ++ rest) = (Ok f, rest).
Proof.
  intros Hwf. pose proof (length_response_bytes f Hwf) as Hl.
  destruct Hwf as (Hc & He & Hb & Hsz & Hmax). unfold MaxFrameSize in Hmax.
  unfold ReadResponseFrame, mbind at 1, M_bind at 1. rewrite Int32_bytes by width_lia.
  case_bool (Z.ltb_spec (rsf_Size f) 0). unfold MaxFrameSize. case_bool (Z.ltb_spec (100 * 1024 * 1024) (rsf_Size f)).
  cbn [orb].
  rewrite (limited_app _ (response_bytes f) rest _ (Ok f) []) by (lia || (
    unfold response_bytes, mbind, M_bind; rewrite Int32_bytes by done; rewrite Int16_bytes by done;
    rewrite Bytes_bytes_end by done; by destruct f)).
  done.
Qed.

Lemma write_frame_ok {W} `{WriterOk W} (body : bytes) (w : W) : writer_inv w →
  zlen body ≤ MaxFrameSize → ∃ w',
  write_frame body w = (Ok (4 + zlen body), w') ∧ writer_inv w' ∧
  written w' = written w ++ be_encode 4 (zlen body) ++ body.
Proof.
  unfold MaxFrameSize. intros Hw Hsz. unfold write_frame, PutInt32, put_int, mbind, M_bind.
  rewrite wrapS_small by width_lia.
  destruct (write_ok (be_encode 4 (zlen body)) w Hw) as (w1 & E1 & Hw1 & Ew1). rewrite E1. simpl.
  destruct (write_ok body w1 Hw1) as (w2 & E2 & Hw2 & Ew2). rewrite E2.
  exists w2. split_and!; [done|done|]. by rewrite Ew2, Ew1, app_assoc.
Qed.

Lemma RequestFrame_Write_ok {W} `{WriterOk W} f (w : W) : request_wf f → writer_inv w → ∃ w',
  RequestFrame_Write f w = (Ok (4 + f.(rqf_Size)), w') ∧ writer_inv w' ∧
  written w' = written w ++ be_encode 4 f.(rqf_Size) ++ request_bytes f.
Proof.
  intros Hwf Hw. unfold RequestFrame_Write. rewrite request_body_bytes by done.
  rewrite <- (length_request_bytes f Hwf). apply write_frame_ok; [done|].
  rewrite length_request_bytes by done. apply Hwf.
Qed.

Lemma ResponseFrame_Write_ok {W} `{WriterOk W} f (w : W) : response_wf f → writer_inv w → ∃ w',
  ResponseFrame_Write f w = (Ok (4 + f.(rsf_Size)), w') ∧ writer_inv w' ∧
  written w' = written w ++ be_encode 4 f.(rsf_Size) ++ response_bytes f.
Proof.
  intros Hwf Hw. unfold ResponseFrame_Write. rewrite response_body_bytes by done.
  rewrite <- (length_response_bytes f Hwf). apply write_frame_ok; [done|].
  rewrite length_response_bytes by done. apply Hwf.
Qed.

(** ** Claims *)

(** A request frame written to any good writer is read back by a server whose
    limit it respects, with its size field, and the stream is left right after it;
    a message in the payload then decodes to itself. *)
Theorem request_frame_roundtrip {W A} `{WriterOk W} `{WireOk A} limit f (a : A) (w : W) rest :
  wire_wf a → marshal a = Ok f.(rqf_Payload) → request_wf f →
  limit ≤ 0 ∨ f.(rqf_Size) ≤ limit → writer_inv w →
  ∃ w' bs, RequestFrame_Write f w = (Ok (4 + f.(rqf_Size)), w') ∧ written w' = written w ++ bs ∧
    ReadRequestFrameWithLimit limit (bs ++ rest) = (Ok f, rest) ∧ unmarshal f.(rqf_Payload) = Ok a.
Proof.
  intros Ha Hm Hwf Hlim Hw. destruct (RequestFrame_Write_ok f w Hwf Hw) as (w' & E & _ & Ew).
  exists w', (be_encode 4 f.(rqf_Size) ++ request_bytes f). split_and!; [done|done| |].
  - rewrite <- app_assoc. by apply read_request_bytes.
  - destruct (marshal_unmarshal a Ha) as (bs & Eb & G). rewrite Hm in Eb. injection Eb as ->.
    specialize (G []). by rewrite app_nil_r in G.
Qed.

(** A response frame written to any good writer is read back by the client. *)
Theorem response_frame_roundtrip {W} `{WriterOk W} f (w : W) rest :
  response_wf f → writer_inv w →
  ∃ w' bs, ResponseFrame_Write f w = (Ok (4 + f.(rsf_Size)), w') ∧ written w' = written w ++ bs ∧
    ReadResponseFrame (bs ++ rest) = (Ok f, rest).
Proof.
  intros Hwf Hw. destruct (ResponseFrame_Write_ok f w Hwf Hw) as (w' & E & _ & Ew).
  exists w', (be_encode 4 f.(rsf_Size) ++ response_bytes f). split_and!; [done|done|].
  rewrite <- app_assoc. by apply read_response_bytes.
Qed.

(** A frame over the server limit is refused without decoding any field, and
    its body is taken off the wire, so that the stream is positioned at the next
    frame; a declared size that is negative or above [MaxFrameSize] is refused at
    once. *)
Theorem oversized_frame_refused limit size (body rest : bytes) : inS 32 size →
  (0 < limit < size → size ≤ MaxFrameSize → zlen body = size →
   ReadRequestFrameWithLimit limit (be_encode 4 size ++ body ++ rest) = (Err ErrFrameTooLarge, rest)) ∧
  (size < 0 ∨ MaxFrameSize < size →
   ReadRequestFrameWithLimit limit (be_encode 4 size ++ rest) = (Err ErrFrameTooLarge, rest)).
Proof.
  intros Hs. unfold MaxFrameSize in *. split.
  - intros Hl Hm Hb. unfold ReadRequestFrameWithLimit, mbind at 1, M_bind at 1. rewrite Int32_bytes by done.
    case_bool (Z.ltb_spec size 0). unfold MaxFrameSize. case_bool (Z.ltb_spec (100 * 1024 * 1024) size).
    case_bool (Z.ltb_spec 0 limit). case_bool (Z.ltb_spec limit size). cbn [orb andb].
    unfold mbind, M_bind, discard. rewrite length_app. case_bool (Z.ltb_spec (Z.of_nat (length body + length rest)) size).
    subst size. by rewrite Nat2Z.id, drop_app_length.
  - intros Hbad. unfold ReadRequestFrameWithLimit, mbind at 1, M_bind at 1. rewrite Int32_bytes by done.
    unfold MaxFrameSize.
    destruct (Z.ltb_spec size 0), (Z.ltb_spec (100 * 1024 * 1024) size); simpl; lia || done.
Qed.

Definition sample_response : ResponseFrame := mkResponseFrame 12 42 0 [x00; x05].

Lemma response_frame_roundtrip_witness :
  ∃ (w' bs : bytes), ResponseFrame_Write sample_response [] = (Ok (4 + 12), w') ∧
    written w' = written ([] : bytes) ++ bs ∧
    ReadResponseFrame (bs ++ [x07]) = (Ok sample_response, [x07]).
Proof. apply (response_frame_roundtrip (W:=bytes) sample_response [] [x07]); [by_decide|exact I]. Defined.

Lemma oversized_frame_refused_witness :
  ReadRequestFrameWithLimit 2 (be_encode 4 3 ++ [x01; x02; x03] ++ [x07]) = (Err ErrFrameTooLarge, [x07]) ∧
  ReadRequestFrameWithLimit 2 (be_encode 4 (-1) ++ [x07]) = (Err ErrFrameTooLarge, [x07]).
Proof.
  split.
  - apply (oversized_frame_refused 2 3 [x01; x02; x03] [x07]); [by_decide|lia|by_decide|done].
  - apply (oversized_frame_refused 2 (-1) [] [x07]); [by_decide|left; lia].
Defined.
