(* ===== verification/Requests.v ===== *)
(** * Request bodies (src/internal/protocol/requests.go)

    Every request type with its [Encode] and [Decode] methods and the round trip of
    each as an instance of [Wire]. An inner loop of a method is the [Encode] or
    [Decode] of the element type. *)
From Stdlib Require Import ZArith Lia Strings.Byte.
From stdpp Require Import base list strings.
From S2P Require Import Prelude Codec Frame.
Open Scope Z_scope.

(** One partition of a [Produce] request: the record set to append. *)
Record ProduceRequestPartition := mkProduceRequestPartition {
  prp_PartitionID : Z;  (* int32 *)
  prp_RecordSet : bytes
}.

Definition ProduceRequestPartition_Encode {W} `{Writer W} (r : ProduceRequestPartition) : M W unit :=
  PutInt32 r.(prp_PartitionID) ;;
  PutBytes r.(prp_RecordSet) ;;
  mret ().

Definition ProduceRequestPartition_Decode : M bytes ProduceRequestPartition :=
  partitionID ← Int32;
  recordSet ← Bytes;
  mret (mkProduceRequestPartition partitionID recordSet).

Definition ProduceRequestPartition_wf (r : ProduceRequestPartition) : Prop :=
  inS 32 r.(prp_PartitionID) ∧ bytes_ok r.(prp_RecordSet).
#[global] Instance ProduceRequestPartition_wf_dec r : Decision (ProduceRequestPartition_wf r).
Proof. unfold ProduceRequestPartition_wf. apply _. Defined.

Record ProduceRequestTopic := mkProduceRequestTopic {
  prt_Name : string;
  prt_Partitions : list ProduceRequestPartition
}.

Definition ProduceRequestTopic_Encode {W} `{Writer W} (r : ProduceRequestTopic) : M W unit :=
  PutString r.(prt_Name) ;;
  put_array ProduceRequestPartition_Encode r.(prt_Partitions) ;;
  mret ().

Definition ProduceRequestTopic_Decode : M bytes ProduceRequestTopic :=
  name ← GetString;
  partitions ← get_array ProduceRequestPartition_Decode;
  mret (mkProduceRequestTopic name partitions).

Definition ProduceRequestTopic_wf (r : ProduceRequestTopic) : Prop :=
  str_ok r.(prt_Name) ∧ zlen r.(prt_Partitions) ≤ arrayCap ∧
  Forall ProduceRequestPartition_wf r.(prt_Partitions).
#[global] Instance ProduceRequestTopic_wf_dec r : Decision (ProduceRequestTopic_wf r).
Proof. unfold ProduceRequestTopic_wf. apply _. Defined.

(** [Produce] (apiKey 0). *)
Record ProduceRequest := mkProduceRequest {
  prq_Acks : Z;  (* int16 *)
  prq_TimeoutMs : Z;  (* int32 *)
  prq_Topics : list ProduceRequestTopic
}.

Definition ProduceRequest_Encode {W} `{Writer W} (r : ProduceRequest) : M W unit :=
  PutInt16 r.(prq_Acks) ;;
  PutInt32 r.(prq_TimeoutMs) ;;
  put_array ProduceRequestTopic_Encode r.(prq_Topics) ;;
  mret ().

Definition ProduceRequest_Decode : M bytes ProduceRequest :=
  acks ← Int16;
  timeoutMs ← Int32;
  topics ← get_array ProduceRequestTopic_Decode;
  mret (mkProduceRequest acks timeoutMs topics).

Definition ProduceRequest_wf (r : ProduceRequest) : Prop :=
  inS 16 r.(prq_Acks) ∧ inS 32 r.(prq_TimeoutMs) ∧ zlen r.(prq_Topics) ≤ arrayCap ∧
  Forall ProduceRequestTopic_wf r.(prq_Topics).
#[global] Instance ProduceRequest_wf_dec r : Decision (ProduceRequest_wf r).
Proof. unfold ProduceRequest_wf. apply _. Defined.

(** One partition of a [Fetch] request. *)
Record FetchRequestPartition := mkFetchRequestPartition {
  frp_PartitionID : Z;  (* int32 *)
  frp_FetchOffset : Z;  (* int64 *)
  frp_MaxBytes : Z  (* int32 *)
}.

Definition FetchRequestPartition_Encode {W} `{Writer W} (r : FetchRequestPartition) : M W unit :=
  PutInt32 r.(frp_PartitionID) ;;
  PutInt64 r.(frp_FetchOffset) ;;
  PutInt32 r.(frp_MaxBytes) ;;
  mret ().

Definition FetchRequestPartition_Decode : M bytes FetchRequestPartition :=
  partitionID ← Int32;
  fetchOffset ← Int64;
  maxBytes ← Int32;
  mret (mkFetchRequestPartition partitionID fetchOffset maxBytes).

Definition FetchRequestPartition_wf (r : FetchRequestPartition) : Prop :=
  inS 32 r.(frp_PartitionID) ∧ inS 64 r.(frp_FetchOffset) ∧ inS 32 r.(frp_MaxBytes).
#[global] Instance FetchRequestPartition_wf_dec r : Decision (FetchRequestPartition_wf r).
Proof. unfold FetchRequestPartition_wf. apply _. Defined.

Record FetchRequestTopic := mkFetchRequestTopic {
  frt_Name : string;
  frt_Partitions : list FetchRequestPartition
}.

Definition FetchRequestTopic_Encode {W} `{Writer W} (r : FetchRequestTopic) : M W unit :=
  PutString r.(frt_Name) ;;
  put_array FetchRequestPartition_Encode r.(frt_Partitions) ;;
  mret ().

Definition FetchRequestTopic_Decode : M bytes FetchRequestTopic :=
  name ← GetString;
  partitions ← get_array FetchRequestPartition_Decode;
  mret (mkFetchRequestTopic name partitions).

Definition FetchRequestTopic_wf (r : FetchRequestTopic) : Prop :=
  str_ok r.(frt_Name) ∧ zlen r.(frt_Partitions) ≤ arrayCap ∧
  Forall FetchRequestPartition_wf r.(frt_Partitions).
#[global] Instance FetchRequestTopic_wf_dec r : Decision (FetchRequestTopic_wf r).
Proof. unfold FetchRequestTopic_wf. apply _. Defined.

(** [Fetch] (apiKey 1). *)
Record FetchRequest := mkFetchRequest {
  frq_MaxWaitMs : Z;  (* int32 *)
  frq_MinBytes : Z;  (* int32 *)
  frq_MaxBytes : Z;  (* int32 *)
  frq_Topics : list FetchRequestTopic
}.

Definition FetchRequest_Encode {W} `{Writer W} (r : FetchRequest) : M W unit :=
  PutInt32 r.(frq_MaxWaitMs) ;;
  PutInt32 r.(frq_MinBytes) ;;
  PutInt32 r.(frq_MaxBytes) ;;
  put_array FetchRequestTopic_Encode r.(frq_Topics) ;;
  mret ().

Definition FetchRequest_Decode : M bytes FetchRequest :=
  maxWaitMs ← Int32;
  minBytes ← Int32;
  maxBytes ← Int32;
  topics ← get_array FetchRequestTopic_Decode;
  mret (mkFetchRequest maxWaitMs minBytes maxBytes topics).

Definition FetchRequest_wf (r : FetchRequest) : Prop :=
  inS 32 r.(frq_MaxWaitMs) ∧ inS 32 r.(frq_MinBytes) ∧ inS 32 r.(frq_MaxBytes) ∧
  zlen r.(frq_Topics) ≤ arrayCap ∧ Forall FetchRequestTopic_wf r.(frq_Topics).
#[global] Instance FetchRequest_wf_dec r : Decision (FetchRequest_wf r).
Proof. unfold FetchRequest_wf. apply _. Defined.

Record CreateTopicsRequestTopic := mkCreateTopicsRequestTopic {
  ctt_Name : string;
  ctt_NumPartitions : Z;  (* int32 *)
  ctt_ReplicationFactor : Z  (* int16 *)
}.

Definition CreateTopicsRequestTopic_Encode {W} `{Writer W} (r : CreateTopicsRequestTopic) : M W unit :=
  PutString r.(ctt_Name) ;;
  PutInt32 r.(ctt_NumPartitions) ;;
  PutInt16 r.(ctt_ReplicationFactor) ;;
  mret ().

Definition CreateTopicsRequestTopic_Decode : M bytes CreateTopicsRequestTopic :=
  name ← GetString;
  numPartitions ← Int32;
  replicationFactor ← Int16;
  mret (mkCreateTopicsRequestTopic name numPartitions replicationFactor).

Definition CreateTopicsRequestTopic_wf (r : CreateTopicsRequestTopic) : Prop :=
  str_ok r.(ctt_Name) ∧ inS 32 r.(ctt_NumPartitions) ∧ inS 16 r.(ctt_ReplicationFactor).
#[global] Instance CreateTopicsRequestTopic_wf_dec r : Decision (CreateTopicsRequestTopic_wf r).
Proof. unfold CreateTopicsRequestTopic_wf. apply _. Defined.

(** [CreateTopics] (apiKey 3). *)
Record CreateTopicsRequest := mkCreateTopicsRequest {
  ctq_Topics : list CreateTopicsRequestTopic
}.

Definition CreateTopicsRequest_Encode {W} `{Writer W} (r : CreateTopicsRequest) : M W unit :=
  put_array CreateTopicsRequestTopic_Encode r.(ctq_Topics) ;;
  mret ().

Definition CreateTopicsRequest_Decode : M bytes CreateTopicsRequest :=
  topics ← get_array CreateTopicsRequestTopic_Decode;
  mret (mkCreateTopicsRequest topics).

Definition CreateTopicsRequest_wf (r : CreateTopicsRequest) : Prop :=
  zlen r.(ctq_Topics) ≤ arrayCap ∧ Forall CreateTopicsRequestTopic_wf r.(ctq_Topics).
#[global] Instance CreateTopicsRequest_wf_dec r : Decision (CreateTopicsRequest_wf r).
Proof. unfold CreateTopicsRequest_wf. apply _. Defined.

Record JoinGroupProtocol := mkJoinGroupProtocol {
  jgp_Name : string;
  jgp_Metadata : bytes
}.

Definition JoinGroupProtocol_Encode {W} `{Writer W} (r : JoinGroupProtocol) : M W unit :=
  PutString r.(jgp_Name) ;;
  PutBytes r.(jgp_Metadata) ;;
  mret ().

Definition JoinGroupProtocol_Decode : M bytes JoinGroupProtocol :=
  name ← GetString;
  metadata ← Bytes;
  mret (mkJoinGroupProtocol name metadata).

Definition JoinGroupProtocol_wf (r : JoinGroupProtocol) : Prop :=
  str_ok r.(jgp_Name) ∧ bytes_ok r.(jgp_Metadata).
#[global] Instance JoinGroupProtocol_wf_dec r : Decision (JoinGroupProtocol_wf r).
Proof. unfold JoinGroupProtocol_wf. apply _. Defined.

(** [JoinGroup] (apiKey 4). *)
Record JoinGroupRequest := mkJoinGroupRequest {
  jgq_GroupID : string;
  jgq_SessionTimeoutMs : Z;  (* int32 *)
  jgq_MemberID : string;
  jgq_ProtocolType : string;
  jgq_Protocols : list JoinGroupProtocol
}.

Definition JoinGroupRequest_Encode {W} `{Writer W} (r : JoinGroupRequest) : M W unit :=
  PutString r.(jgq_GroupID) ;;
  PutInt32 r.(jgq_SessionTimeoutMs) ;;
  PutString r.(jgq_MemberID) ;;
  PutString r.(jgq_ProtocolType) ;;
  put_array JoinGroupProtocol_Encode r.(jgq_Protocols) ;;
  mret ().

Definition JoinGroupRequest_Decode : M bytes JoinGroupRequest :=
  groupID ← GetString;
  sessionTimeoutMs ← Int32;
  memberID ← GetString;
  protocolType ← GetString;
  protocols ← get_array JoinGroupProtocol_Decode;
  mret (mkJoinGroupRequest groupID sessionTimeoutMs memberID protocolType protocols).

Definition JoinGroupRequest_wf (r : JoinGroupRequest) : Prop :=
  str_ok r.(jgq_GroupID) ∧ inS 32 r.(jgq_SessionTimeoutMs) ∧ str_ok r.(jgq_MemberID) ∧
  str_ok r.(jgq_ProtocolType) ∧ zlen r.(jgq_Protocols) ≤ arrayCap ∧
  Forall JoinGroupProtocol_wf r.(jgq_Protocols).
#[global] Instance JoinGroupRequest_wf_dec r : Decision (JoinGroupRequest_wf r).
Proof. unfold JoinGroupRequest_wf. apply _. Defined.

Record SyncGroupAssignment := mkSyncGroupAssignment {
  sga_MemberID : string;
  sga_Assignment : bytes
}.

Definition SyncGroupAssignment_Encode {W} `{Writer W} (r : SyncGroupAssignment) : M W unit :=
  PutString r.(sga_MemberID) ;;
  PutBytes r.(sga_Assignment) ;;
  mret ().

Definition SyncGroupAssignment_Decode : M bytes SyncGroupAssignment :=
  memberID ← GetString;
  assignment ← Bytes;
  mret (mkSyncGroupAssignment memberID assignment).

Definition SyncGroupAssignment_wf (r : SyncGroupAssignment) : Prop :=
  str_ok r.(sga_MemberID) ∧ bytes_ok r.(sga_Assignment).
#[global] Instance SyncGroupAssignment_wf_dec r : Decision (SyncGroupAssignment_wf r).
Proof. unfold SyncGroupAssignment_wf. apply _. Defined.

(** [SyncGroup] (apiKey 5). *)
Record SyncGroupRequest := mkSyncGroupRequest {
  sgq_GroupID : string;
  sgq_GenerationID : Z;  (* int32 *)
  sgq_MemberID : string;
  sgq_Assignments : list SyncGroupAssignment
}.

Definition SyncGroupRequest_Encode {W} `{Writer W} (r : SyncGroupRequest) : M W unit :=
  PutString r.(sgq_GroupID) ;;
  PutInt32 r.(sgq_GenerationID) ;;
  PutString r.(sgq_MemberID) ;;
  put_array SyncGroupAssignment_Encode r.(sgq_Assignments) ;;
  mret ().

Definition SyncGroupRequest_Decode : M bytes SyncGroupRequest :=
  groupID ← GetString;
  generationID ← Int32;
  memberID ← GetString;
  assignments ← get_array SyncGroupAssignment_Decode;
  mret (mkSyncGroupRequest groupID generationID memberID assignments).

Definition SyncGroupRequest_wf (r : SyncGroupRequest) : Prop :=
  str_ok r.(sgq_GroupID) ∧ inS 32 r.(sgq_GenerationID) ∧ str_ok r.(sgq_MemberID) ∧
  zlen r.(sgq_Assignments) ≤ arrayCap ∧ Forall SyncGroupAssignment_wf r.(sgq_Assignments).
#[global] Instance SyncGroupRequest_wf_dec r : Decision (SyncGroupRequest_wf r).
Proof. unfold SyncGroupRequest_wf. apply _. Defined.

(** [Heartbeat] (apiKey 6). *)
Record HeartbeatRequest := mkHeartbeatRequest {
  hbq_GroupID : string;
  hbq_GenerationID : Z;  (* int32 *)
  hbq_MemberID : string
}.

Definition HeartbeatRequest_Encode {W} `{Writer W} (r : HeartbeatRequest) : M W unit :=
  PutString r.(hbq_GroupID) ;;
  PutInt32 r.(hbq_GenerationID) ;;
  PutString r.(hbq_MemberID) ;;
  mret ().

Definition HeartbeatRequest_Decode : M bytes HeartbeatRequest :=
  groupID ← GetString;
  generationID ← Int32;
  memberID ← GetString;
  mret (mkHeartbeatRequest groupID generationID memberID).

Definition HeartbeatRequest_wf (r : HeartbeatRequest) : Prop :=
  str_ok r.(hbq_GroupID) ∧ inS 32 r.(hbq_GenerationID) ∧ str_ok r.(hbq_MemberID).
#[global] Instance HeartbeatRequest_wf_dec r : Decision (HeartbeatRequest_wf r).
Proof. unfold HeartbeatRequest_wf. apply _. Defined.

(** [LeaveGroup] (apiKey 7). *)
Record LeaveGroupRequest := mkLeaveGroupRequest {
  lgq_GroupID : string;
  lgq_MemberID : string
}.

Definition LeaveGroupRequest_Encode {W} `{Writer W} (r : LeaveGroupRequest) : M W unit :=
  PutString r.(lgq_GroupID) ;;
  PutString r.(lgq_MemberID) ;;
  mret ().

Definition LeaveGroupRequest_Decode : M bytes LeaveGroupRequest :=
  groupID ← GetString;
  memberID ← GetString;
  mret (mkLeaveGroupRequest groupID memberID).

Definition LeaveGroupRequest_wf (r : LeaveGroupRequest) : Prop :=
  str_ok r.(lgq_GroupID) ∧ str_ok r.(lgq_MemberID).
#[global] Instance LeaveGroupRequest_wf_dec r : Decision (LeaveGroupRequest_wf r).
Proof. unfold LeaveGroupRequest_wf. apply _. Defined.

Record OffsetCommitRequestPartition := mkOffsetCommitRequestPartition {
  ocp_PartitionID : Z;  (* int32 *)
  ocp_Offset : Z;  (* int64 *)
  ocp_Metadata : string
}.

Definition OffsetCommitRequestPartition_Encode {W} `{Writer W} (r : OffsetCommitRequestPartition) : M W unit :=
  PutInt32 r.(ocp_PartitionID) ;;
  PutInt64 r.(ocp_Offset) ;;
  PutString r.(ocp_Metadata) ;;
  mret ().

Definition OffsetCommitRequestPartition_Decode : M bytes OffsetCommitRequestPartition :=
  partitionID ← Int32;
  offset ← Int64;
  metadata ← GetString;
  mret (mkOffsetCommitRequestPartition partitionID offset metadata).

Definition OffsetCommitRequestPartition_wf (r : OffsetCommitRequestPartition) : Prop :=
  inS 32 r.(ocp_PartitionID) ∧ inS 64 r.(ocp_Offset) ∧ str_ok r.(ocp_Metadata).
#[global] Instance OffsetCommitRequestPartition_wf_dec r : Decision (OffsetCommitRequestPartition_wf r).
Proof. unfold OffsetCommitRequestPartition_wf. apply _. Defined.

Record OffsetCommitRequestTopic := mkOffsetCommitRequestTopic {
  oct_Name : string;
  oct_Partitions : list OffsetCommitRequestPartition
}.

Definition OffsetCommitRequestTopic_Encode {W} `{Writer W} (r : OffsetCommitRequestTopic) : M W unit :=
  PutString r.(oct_Name) ;;
  put_array OffsetCommitRequestPartition_Encode r.(oct_Partitions) ;;
  mret ().

Definition OffsetCommitRequestTopic_Decode : M bytes OffsetCommitRequestTopic :=
  name ← GetString;
  partitions ← get_array OffsetCommitRequestPartition_Decode;
  mret (mkOffsetCommitRequestTopic name partitions).

Definition OffsetCommitRequestTopic_wf (r : OffsetCommitRequestTopic) : Prop :=
  str_ok r.(oct_Name) ∧ zlen r.(oct_Partitions) ≤ arrayCap ∧
  Forall OffsetCommitRequestPartition_wf r.(oct_Partitions).
#[global] Instance OffsetCommitRequestTopic_wf_dec r : Decision (OffsetCommitRequestTopic_wf r).
Proof. unfold OffsetCommitRequestTopic_wf. apply _. Defined.

(** [OffsetCommit] (apiKey 8). *)
Record OffsetCommitRequest := mkOffsetCommitRequest {
  ocq_GroupID : string;
  ocq_GenerationID : Z;  (* int32 *)
  ocq_MemberID : string;
  ocq_Topics : list OffsetCommitRequestTopic
}.

Definition OffsetCommitRequest_Encode {W} `{Writer W} (r : OffsetCommitRequest) : M W unit :=
  PutString r.(ocq_GroupID) ;;
  PutInt32 r.(ocq_GenerationID) ;;
  PutString r.(ocq_MemberID) ;;
  put_array OffsetCommitRequestTopic_Encode r.(ocq_Topics) ;;
  mret ().

Definition OffsetCommitRequest_Decode : M bytes OffsetCommitRequest :=
  groupID ← GetString;
  generationID ← Int32;
  memberID ← GetString;
  topics ← get_array OffsetCommitRequestTopic_Decode;
  mret (mkOffsetCommitRequest groupID generationID memberID topics).

Definition OffsetCommitRequest_wf (r : OffsetCommitRequest) : Prop :=
  str_ok r.(ocq_GroupID) ∧ inS 32 r.(ocq_GenerationID) ∧ str_ok r.(ocq_MemberID) ∧
  zlen r.(ocq_Topics) ≤ arrayCap ∧ Forall OffsetCommitRequestTopic_wf r.(ocq_Topics).
#[global] Instance OffsetCommitRequest_wf_dec r : Decision (OffsetCommitRequest_wf r).
Proof. unfold OffsetCommitRequest_wf. apply _. Defined.

Record OffsetFetchRequestTopic := mkOffsetFetchRequestTopic {
  oft_Name : string;
  oft_Partitions : list Z
}.

Definition OffsetFetchRequestTopic_Encode {W} `{Writer W} (r : OffsetFetchRequestTopic) : M W unit :=
  PutString r.(oft_Name) ;;
  put_array (λ x, PutInt32 x ;; mret ()) r.(oft_Partitions) ;;
  mret ().

Definition OffsetFetchRequestTopic_Decode : M bytes OffsetFetchRequestTopic :=
  name ← GetString;
  partitions ← get_array Int32;
  mret (mkOffsetFetchRequestTopic name partitions).

Definition OffsetFetchRequestTopic_wf (r : OffsetFetchRequestTopic) : Prop :=
  str_ok r.(oft_Name) ∧ zlen r.(oft_Partitions) ≤ arrayCap ∧ Forall (inS 32) r.(oft_Partitions).
#[global] Instance OffsetFetchRequestTopic_wf_dec r : Decision (OffsetFetchRequestTopic_wf r).
Proof. unfold OffsetFetchRequestTopic_wf. apply _. Defined.

(** [OffsetFetch] (apiKey 9). *)
Record OffsetFetchRequest := mkOffsetFetchRequest {
  ofq_GroupID : string;
  ofq_Topics : list OffsetFetchRequestTopic
}.

Definition OffsetFetchRequest_Encode {W} `{Writer W} (r : OffsetFetchRequest) : M W unit :=
  PutString r.(ofq_GroupID) ;;
  put_array OffsetFetchRequestTopic_Encode r.(ofq_Topics) ;;
  mret ().

Definition OffsetFetchRequest_Decode : M bytes OffsetFetchRequest :=
  groupID ← GetString;
  topics ← get_array OffsetFetchRequestTopic_Decode;
  mret (mkOffsetFetchRequest groupID topics).

Definition OffsetFetchRequest_wf (r : OffsetFetchRequest) : Prop :=
  str_ok r.(ofq_GroupID) ∧ zlen r.(ofq_Topics) ≤ arrayCap ∧
  Forall OffsetFetchRequestTopic_wf r.(ofq_Topics).
#[global] Instance OffsetFetchRequest_wf_dec r : Decision (OffsetFetchRequest_wf r).
Proof. unfold OffsetFetchRequest_wf. apply _. Defined.

Record ListOffsetsRequestPartition := mkListOffsetsRequestPartition {
  lop_PartitionID : Z;  (* int32 *)
  lop_Timestamp : Z  (* int64 *)
}.

Definition ListOffsetsRequestPartition_Encode {W} `{Writer W} (r : ListOffsetsRequestPartition) : M W unit :=
  PutInt32 r.(lop_PartitionID) ;;
  PutInt64 r.(lop_Timestamp) ;;
  mret ().

Definition ListOffsetsRequestPartition_Decode : M bytes ListOffsetsRequestPartition :=
  partitionID ← Int32;
  timestamp ← Int64;
  mret (mkListOffsetsRequestPartition partitionID timestamp).

Definition ListOffsetsRequestPartition_wf (r : ListOffsetsRequestPartition) : Prop :=
  inS 32 r.(lop_PartitionID) ∧ inS 64 r.(lop_Timestamp).
#[global] Instance ListOffsetsRequestPartition_wf_dec r : Decision (ListOffsetsRequestPartition_wf r).
Proof. unfold ListOffsetsRequestPartition_wf. apply _. Defined.

Record ListOffsetsRequestTopic := mkListOffsetsRequestTopic {
  lot_Name : string;
  lot_Partitions : list ListOffsetsRequestPartition
}.

Definition ListOffsetsRequestTopic_Encode {W} `{Writer W} (r : ListOffsetsRequestTopic) : M W unit :=
  PutString r.(lot_Name) ;;
  put_array ListOffsetsRequestPartition_Encode r.(lot_Partitions) ;;
  mret ().

Definition ListOffsetsRequestTopic_Decode : M bytes ListOffsetsRequestTopic :=
  name ← GetString;
  partitions ← get_array ListOffsetsRequestPartition_Decode;
  mret (mkListOffsetsRequestTopic name partitions).

Definition ListOffsetsRequestTopic_wf (r : ListOffsetsRequestTopic) : Prop :=
  str_ok r.(lot_Name) ∧ zlen r.(lot_Partitions) ≤ arrayCap ∧
  Forall ListOffsetsRequestPartition_wf r.(lot_Partitions).
#[global] Instance ListOffsetsRequestTopic_wf_dec r : Decision (ListOffsetsRequestTopic_wf r).
Proof. unfold ListOffsetsRequestTopic_wf. apply _. Defined.

(** [ListOffsets] (apiKey 10). *)
Record ListOffsetsRequest := mkListOffsetsRequest {
  loq_Topics : list ListOffsetsRequestTopic
}.

Definition ListOffsetsRequest_Encode {W} `{Writer W} (r : ListOffsetsRequest) : M W unit :=
  put_array ListOffsetsRequestTopic_Encode r.(loq_Topics) ;;
  mret ().

Definition ListOffsetsRequest_Decode : M bytes ListOffsetsRequest :=
  topics ← get_array ListOffsetsRequestTopic_Decode;
  mret (mkListOffsetsRequest topics).

Definition ListOffsetsRequest_wf (r : ListOffsetsRequest) : Prop :=
  zlen r.(loq_Topics) ≤ arrayCap ∧ Forall ListOffsetsRequestTopic_wf r.(loq_Topics).
#[global] Instance ListOffsetsRequest_wf_dec r : Decision (ListOffsetsRequest_wf r).
Proof. unfold ListOffsetsRequest_wf. apply _. Defined.

(** [ApiVersions] (apiKey 12) has an empty body. *)
Record ApiVersionsRequest := mkApiVersionsRequest {}.

Definition ApiVersionsRequest_Encode {W} `{Writer W} (r : ApiVersionsRequest) : M W unit := mret ().
Definition ApiVersionsRequest_Decode : M bytes ApiVersionsRequest := mret mkApiVersionsRequest.

(** [Metadata] (apiKey 2); the nil list asks for all topics. *)
Record MetadataRequest := mkMetadataRequest {
  mdq_Topics : option (list string)
}.

Definition MetadataRequest_Encode {W} `{Writer W} (r : MetadataRequest) : M W unit :=
  match r.(mdq_Topics) with
  | None => PutArrayHeader (-1) ;; mret ()
  | Some topics => put_array (λ t, PutString t ;; mret ()) topics
  end.

Definition MetadataRequest_Decode : M bytes MetadataRequest :=
  count ← ReadArrayHeader;
  if count <? 0 then mret (mkMetadataRequest None)
  else topics ← repeat_n (Z.to_nat count) GetString; mret (mkMetadataRequest (Some topics)).

Definition MetadataRequest_wf (r : MetadataRequest) : Prop :=
  match r.(mdq_Topics) with
  | None => True
  | Some topics => zlen topics ≤ arrayCap ∧ Forall str_ok topics
  end.
#[global] Instance MetadataRequest_wf_dec r : Decision (MetadataRequest_wf r).
Proof. unfold MetadataRequest_wf. destruct (mdq_Topics r); apply _. Defined.

(** ** Round trips *)

Lemma ProduceRequestPartition_rt {W} `{WriterOk W} r : ProduceRequestPartition_wf r →
  roundtrip (W:=W) (ProduceRequestPartition_Encode r) ProduceRequestPartition_Decode r.
Proof. unfold ProduceRequestPartition_wf, ProduceRequestPartition_Encode, ProduceRequestPartition_Decode.
  destruct r; cbn. rt_message. Qed.
#[export] Hint Resolve ProduceRequestPartition_rt : wire.

Lemma ProduceRequestPartition_Decode_ext : extends ProduceRequestPartition_Decode.
Proof. unfold ProduceRequestPartition_Decode. extends. Qed.
#[export] Hint Resolve ProduceRequestPartition_Decode_ext : extends.

Lemma ProduceRequestTopic_rt {W} `{WriterOk W} r : ProduceRequestTopic_wf r →
  roundtrip (W:=W) (ProduceRequestTopic_Encode r) ProduceRequestTopic_Decode r.
Proof. unfold ProduceRequestTopic_wf, ProduceRequestTopic_Encode, ProduceRequestTopic_Decode.
  destruct r; cbn. rt_message. Qed.
#[export] Hint Resolve ProduceRequestTopic_rt : wire.

Lemma ProduceRequestTopic_Decode_ext : extends ProduceRequestTopic_Decode.
Proof. unfold ProduceRequestTopic_Decode. extends. Qed.
#[export] Hint Resolve ProduceRequestTopic_Decode_ext : extends.

Lemma ProduceRequest_rt {W} `{WriterOk W} r : ProduceRequest_wf r →
  roundtrip (W:=W) (ProduceRequest_Encode r) ProduceRequest_Decode r.
Proof. unfold ProduceRequest_wf, ProduceRequest_Encode, ProduceRequest_Decode.
  destruct r; cbn. rt_message. Qed.
#[export] Hint Resolve ProduceRequest_rt : wire.

Lemma ProduceRequest_Decode_ext : extends ProduceRequest_Decode.
Proof. unfold ProduceRequest_Decode. extends. Qed.
#[export] Hint Resolve ProduceRequest_Decode_ext : extends.

#[global] Instance ProduceRequest_Wire : Wire ProduceRequest :=
  {| wire_put _ _ := ProduceRequest_Encode; wire_get := ProduceRequest_Decode; wire_wf := ProduceRequest_wf |}.
#[global] Instance ProduceRequest_WireOk : WireOk ProduceRequest.
Proof. split; [intros W ? ? r; apply ProduceRequest_rt|apply ProduceRequest_Decode_ext]. Qed.

Lemma FetchRequestPartition_rt {W} `{WriterOk W} r : FetchRequestPartition_wf r →
  roundtrip (W:=W) (FetchRequestPartition_Encode r) FetchRequestPartition_Decode r.
Proof. unfold FetchRequestPartition_wf, FetchRequestPartition_Encode, FetchRequestPartition_Decode.
  destruct r; cbn. rt_message. Qed.
#[export] Hint Resolve FetchRequestPartition_rt : wire.

Lemma FetchRequestPartition_Decode_ext : extends FetchRequestPartition_Decode.
Proof. unfold FetchRequestPartition_Decode. extends. Qed.
#[export] Hint Resolve FetchRequestPartition_Decode_ext : extends.

Lemma FetchRequestTopic_rt {W} `{WriterOk W} r : FetchRequestTopic_wf r →
  roundtrip (W:=W) (FetchRequestTopic_Encode r) FetchRequestTopic_Decode r.
Proof. unfold FetchRequestTopic_wf, FetchRequestTopic_Encode, FetchRequestTopic_Decode.
  destruct r; cbn. rt_message. Qed.
#[export] Hint Resolve FetchRequestTopic_rt : wire.

Lemma FetchRequestTopic_Decode_ext : extends FetchRequestTopic_Decode.
Proof. unfold FetchRequestTopic_Decode. extends. Qed.
#[export] Hint Resolve FetchRequestTopic_Decode_ext : extends.

Lemma FetchRequest_rt {W} `{WriterOk W} r : FetchRequest_wf r →
  roundtrip (W:=W) (FetchRequest_Encode r) FetchRequest_Decode r.
Proof. unfold FetchRequest_wf, FetchRequest_Encode, FetchRequest_Decode.
  destruct r; cbn. rt_message. Qed.
#[export] Hint Resolve FetchRequest_rt : wire.

Lemma FetchRequest_Decode_ext : extends FetchRequest_Decode.
Proof. unfold FetchRequest_Decode. extends. Qed.
#[export] Hint Resolve FetchRequest_Decode_ext : extends.

#[global] Instance FetchRequest_Wire : Wire FetchRequest :=
  {| wire_put _ _ := FetchRequest_Encode; wire_get := FetchRequest_Decode; wire_wf := FetchRequest_wf |}.
#[global] Instance FetchRequest_WireOk : WireOk FetchRequest.
Proof. split; [intros W ? ? r; apply FetchRequest_rt|apply FetchRequest_Decode_ext]. Qed.

Lemma CreateTopicsRequestTopic_rt {W} `{WriterOk W} r : CreateTopicsRequestTopic_wf r →
  roundtrip (W:=W) (CreateTopicsRequestTopic_Encode r) CreateTopicsRequestTopic_Decode r.
Proof. unfold CreateTopicsRequestTopic_wf, CreateTopicsRequestTopic_Encode, CreateTopicsRequestTopic_Decode.
  destruct r; cbn. rt_message. Qed.
#[export] Hint Resolve CreateTopicsRequestTopic_rt : wire.

Lemma CreateTopicsRequestTopic_Decode_ext : extends CreateTopicsRequestTopic_Decode.
Proof. unfold CreateTopicsRequestTopic_Decode. extends. Qed.
#[export] Hint Resolve CreateTopicsRequestTopic_Decode_ext : extends.

Lemma CreateTopicsRequest_rt {W} `{WriterOk W} r : CreateTopicsRequest_wf r →
  roundtrip (W:=W) (CreateTopicsRequest_Encode r) CreateTopicsRequest_Decode r.
Proof. unfold CreateTopicsRequest_wf, CreateTopicsRequest_Encode, CreateTopicsRequest_Decode.
  destruct r; cbn. rt_message. Qed.
#[export] Hint Resolve CreateTopicsRequest_rt : wire.

Lemma CreateTopicsRequest_Decode_ext : extends CreateTopicsRequest_Decode.
Proof. unfold CreateTopicsRequest_Decode. extends. Qed.
#[export] Hint Resolve CreateTopicsRequest_Decode_ext : extends.

#[global] Instance CreateTopicsRequest_Wire : Wire CreateTopicsRequest :=
  {| wire_put _ _ := CreateTopicsRequest_Encode; wire_get := CreateTopicsRequest_Decode; wire_wf := CreateTopicsRequest_wf |}.
#[global] Instance CreateTopicsRequest_WireOk : WireOk CreateTopicsRequest.
Proof. split; [intros W ? ? r; apply CreateTopicsRequest_rt|apply CreateTopicsRequest_Decode_ext]. Qed.

Lemma JoinGroupProtocol_rt {W} `{WriterOk W} r : JoinGroupProtocol_wf r →
  roundtrip (W:=W) (JoinGroupProtocol_Encode r) JoinGroupProtocol_Decode r.
Proof. unfold JoinGroupProtocol_wf, JoinGroupProtocol_Encode, JoinGroupProtocol_Decode.
  destruct r; cbn. rt_message. Qed.
#[export] Hint Resolve JoinGroupProtocol_rt : wire.

Lemma JoinGroupProtocol_Decode_ext : extends JoinGroupProtocol_Decode.
Proof. unfold JoinGroupProtocol_Decode. extends. Qed.
#[export] Hint Resolve JoinGroupProtocol_Decode_ext : extends.

Lemma JoinGroupRequest_rt {W} `{WriterOk W} r : JoinGroupRequest_wf r →
  roundtrip (W:=W) (JoinGroupRequest_Encode r) JoinGroupRequest_Decode r.
Proof. unfold JoinGroupRequest_wf, JoinGroupRequest_Encode, JoinGroupRequest_Decode.
  destruct r; cbn. rt_message. Qed.
#[export] Hint Resolve JoinGroupRequest_rt : wire.

Lemma JoinGroupRequest_Decode_ext : extends JoinGroupRequest_Decode.
Proof. unfold JoinGroupRequest_Decode. extends. Qed.
#[export] Hint Resolve JoinGroupRequest_Decode_ext : extends.

#[global] Instance JoinGroupRequest_Wire : Wire JoinGroupRequest :=
  {| wire_put _ _ := JoinGroupRequest_Encode; wire_get := JoinGroupRequest_Decode; wire_wf := JoinGroupRequest_wf |}.
#[global] Instance JoinGroupRequest_WireOk : WireOk JoinGroupRequest.
Proof. split; [intros W ? ? r; apply JoinGroupRequest_rt|apply JoinGroupRequest_Decode_ext]. Qed.

Lemma SyncGroupAssignment_rt {W} `{WriterOk W} r : SyncGroupAssignment_wf r →
  roundtrip (W:=W) (SyncGroupAssignment_Encode r) SyncGroupAssignment_Decode r.
Proof. unfold SyncGroupAssignment_wf, SyncGroupAssignment_Encode, SyncGroupAssignment_Decode.
  destruct r; cbn. rt_message. Qed.
#[export] Hint Resolve SyncGroupAssignment_rt : wire.

Lemma SyncGroupAssignment_Decode_ext : extends SyncGroupAssignment_Decode.
Proof. unfold SyncGroupAssignment_Decode. extends. Qed.
#[export] Hint Resolve SyncGroupAssignment_Decode_ext : extends.

Lemma SyncGroupRequest_rt {W} `{WriterOk W} r : SyncGroupRequest_wf r →
  roundtrip (W:=W) (SyncGroupRequest_Encode r) SyncGroupRequest_Decode r.
Proof. unfold SyncGroupRequest_wf, SyncGroupRequest_Encode, SyncGroupRequest_Decode.
  destruct r; cbn. rt_message. Qed.
#[export] Hint Resolve SyncGroupRequest_rt : wire.

Lemma SyncGroupRequest_Decode_ext : extends SyncGroupRequest_Decode.
Proof. unfold SyncGroupRequest_Decode. extends. Qed.
#[export] Hint Resolve SyncGroupRequest_Decode_ext : extends.

#[global] Instance SyncGroupRequest_Wire : Wire SyncGroupRequest :=
  {| wire_put _ _ := SyncGroupRequest_Encode; wire_get := SyncGroupRequest_Decode; wire_wf := SyncGroupRequest_wf |}.
#[global] Instance SyncGroupRequest_WireOk : WireOk SyncGroupRequest.
Proof. split; [intros W ? ? r; apply SyncGroupRequest_rt|apply SyncGroupRequest_Decode_ext]. Qed.

Lemma HeartbeatRequest_rt {W} `{WriterOk W} r : HeartbeatRequest_wf r →
  roundtrip (W:=W) (HeartbeatRequest_Encode r) HeartbeatRequest_Decode r.
Proof. unfold HeartbeatRequest_wf, HeartbeatRequest_Encode, HeartbeatRequest_Decode.
  destruct r; cbn. rt_message. Qed.
#[export] Hint Resolve HeartbeatRequest_rt : wire.

Lemma HeartbeatRequest_Decode_ext : extends HeartbeatRequest_Decode.
Proof. unfold HeartbeatRequest_Decode. extends. Qed.
#[export] Hint Resolve HeartbeatRequest_Decode_ext : extends.

#[global] Instance HeartbeatRequest_Wire : Wire HeartbeatRequest :=
  {| wire_put _ _ := HeartbeatRequest_Encode; wire_get := HeartbeatRequest_Decode; wire_wf := HeartbeatRequest_wf |}.
#[global] Instance HeartbeatRequest_WireOk : WireOk HeartbeatRequest.
Proof. split; [intros W ? ? r; apply HeartbeatRequest_rt|apply HeartbeatRequest_Decode_ext]. Qed.

Lemma LeaveGroupRequest_rt {W} `{WriterOk W} r : LeaveGroupRequest_wf r →
  roundtrip (W:=W) (LeaveGroupRequest_Encode r) LeaveGroupRequest_Decode r.
Proof. unfold LeaveGroupRequest_wf, LeaveGroupRequest_Encode, LeaveGroupRequest_Decode.
  destruct r; cbn. rt_message. Qed.
#[export] Hint Resolve LeaveGroupRequest_rt : wire.

Lemma LeaveGroupRequest_Decode_ext : extends LeaveGroupRequest_Decode.
Proof. unfold LeaveGroupRequest_Decode. extends. Qed.
#[export] Hint Resolve LeaveGroupRequest_Decode_ext : extends.

#[global] Instance LeaveGroupRequest_Wire : Wire LeaveGroupRequest :=
  {| wire_put _ _ := LeaveGroupRequest_Encode; wire_get := LeaveGroupRequest_Decode; wire_wf := LeaveGroupRequest_wf |}.
#[global] Instance LeaveGroupRequest_WireOk : WireOk LeaveGroupRequest.
Proof. split; [intros W ? ? r; apply LeaveGroupRequest_rt|apply LeaveGroupRequest_Decode_ext]. Qed.

Lemma OffsetCommitRequestPartition_rt {W} `{WriterOk W} r : OffsetCommitRequestPartition_wf r →
  roundtrip (W:=W) (OffsetCommitRequestPartition_Encode r) OffsetCommitRequestPartition_Decode r.
Proof. unfold OffsetCommitRequestPartition_wf, OffsetCommitRequestPartition_Encode, OffsetCommitRequestPartition_Decode.
  destruct r; cbn. rt_message. Qed.
#[export] Hint Resolve OffsetCommitRequestPartition_rt : wire.

Lemma OffsetCommitRequestPartition_Decode_ext : extends OffsetCommitRequestPartition_Decode.
Proof. unfold OffsetCommitRequestPartition_Decode. extends. Qed.
#[export] Hint Resolve OffsetCommitRequestPartition_Decode_ext : extends.

Lemma OffsetCommitRequestTopic_rt {W} `{WriterOk W} r : OffsetCommitRequestTopic_wf r →
  roundtrip (W:=W) (OffsetCommitRequestTopic_Encode r) OffsetCommitRequestTopic_Decode r.
Proof. unfold OffsetCommitRequestTopic_wf, OffsetCommitRequestTopic_Encode, OffsetCommitRequestTopic_Decode.
  destruct r; cbn. rt_message. Qed.
#[export] Hint Resolve OffsetCommitRequestTopic_rt : wire.

Lemma OffsetCommitRequestTopic_Decode_ext : extends OffsetCommitRequestTopic_Decode.
Proof. unfold OffsetCommitRequestTopic_Decode. extends. Qed.
#[export] Hint Resolve OffsetCommitRequestTopic_Decode_ext : extends.

Lemma OffsetCommitRequest_rt {W} `{WriterOk W} r : OffsetCommitRequest_wf r →
  roundtrip (W:=W) (OffsetCommitRequest_Encode r) OffsetCommitRequest_Decode r.
Proof. unfold OffsetCommitRequest_wf, OffsetCommitRequest_Encode, OffsetCommitRequest_Decode.
  destruct r; cbn. rt_message. Qed.
#[export] Hint Resolve OffsetCommitRequest_rt : wire.

Lemma OffsetCommitRequest_Decode_ext : extends OffsetCommitRequest_Decode.
Proof. unfold OffsetCommitRequest_Decode. extends. Qed.
#[export] Hint Resolve OffsetCommitRequest_Decode_ext : extends.

#[global] Instance OffsetCommitRequest_Wire : Wire OffsetCommitRequest :=
  {| wire_put _ _ := OffsetCommitRequest_Encode; wire_get := OffsetCommitRequest_Decode; wire_wf := OffsetCommitRequest_wf |}.
#[global] Instance OffsetCommitRequest_WireOk : WireOk OffsetCommitRequest.
Proof. split; [intros W ? ? r; apply OffsetCommitRequest_rt|apply OffsetCommitRequest_Decode_ext]. Qed.

Lemma OffsetFetchRequestTopic_rt {W} `{WriterOk W} r : OffsetFetchRequestTopic_wf r →
  roundtrip (W:=W) (OffsetFetchRequestTopic_Encode r) OffsetFetchRequestTopic_Decode r.
Proof. unfold OffsetFetchRequestTopic_wf, OffsetFetchRequestTopic_Encode, OffsetFetchRequestTopic_Decode.
  destruct r; cbn. rt_message. Qed.
#[export] Hint Resolve OffsetFetchRequestTopic_rt : wire.

Lemma OffsetFetchRequestTopic_Decode_ext : extends OffsetFetchRequestTopic_Decode.
Proof. unfold OffsetFetchRequestTopic_Decode. extends. Qed.
#[export] Hint Resolve OffsetFetchRequestTopic_Decode_ext : extends.

Lemma OffsetFetchRequest_rt {W} `{WriterOk W} r : OffsetFetchRequest_wf r →
  roundtrip (W:=W) (OffsetFetchRequest_Encode r) OffsetFetchRequest_Decode r.
Proof. unfold OffsetFetchRequest_wf, OffsetFetchRequest_Encode, OffsetFetchRequest_Decode.
  destruct r; cbn. rt_message. Qed.
#[export] Hint Resolve OffsetFetchRequest_rt : wire.

Lemma OffsetFetchRequest_Decode_ext : extends OffsetFetchRequest_Decode.
Proof. unfold OffsetFetchRequest_Decode. extends. Qed.
#[export] Hint Resolve OffsetFetchRequest_Decode_ext : extends.

#[global] Instance OffsetFetchRequest_Wire : Wire OffsetFetchRequest :=
  {| wire_put _ _ := OffsetFetchRequest_Encode; wire_get := OffsetFetchRequest_Decode; wire_wf := OffsetFetchRequest_wf |}.
#[global] Instance OffsetFetchRequest_WireOk : WireOk OffsetFetchRequest.
Proof. split; [intros W ? ? r; apply OffsetFetchRequest_rt|apply OffsetFetchRequest_Decode_ext]. Qed.

Lemma ListOffsetsRequestPartition_rt {W} `{WriterOk W} r : ListOffsetsRequestPartition_wf r →
  roundtrip (W:=W) (ListOffsetsRequestPartition_Encode r) ListOffsetsRequestPartition_Decode r.
Proof. unfold ListOffsetsRequestPartition_wf, ListOffsetsRequestPartition_Encode, ListOffsetsRequestPartition_Decode.
  destruct r; cbn. rt_message. Qed.
#[export] Hint Resolve ListOffsetsRequestPartition_rt : wire.

Lemma ListOffsetsRequestPartition_Decode_ext : extends ListOffsetsRequestPartition_Decode.
Proof. unfold ListOffsetsRequestPartition_Decode. extends. Qed.
#[export] Hint Resolve ListOffsetsRequestPartition_Decode_ext : extends.

Lemma ListOffsetsRequestTopic_rt {W} `{WriterOk W} r : ListOffsetsRequestTopic_wf r →
  roundtrip (W:=W) (ListOffsetsRequestTopic_Encode r) ListOffsetsRequestTopic_Decode r.
Proof. unfold ListOffsetsRequestTopic_wf, ListOffsetsRequestTopic_Encode, ListOffsetsRequestTopic_Decode.
  destruct r; cbn. rt_message. Qed.
#[export] Hint Resolve ListOffsetsRequestTopic_rt : wire.

Lemma ListOffsetsRequestTopic_Decode_ext : extends ListOffsetsRequestTopic_Decode.
Proof. unfold ListOffsetsRequestTopic_Decode. extends. Qed.
#[export] Hint Resolve ListOffsetsRequestTopic_Decode_ext : extends.

Lemma ListOffsetsRequest_rt {W} `{WriterOk W} r : ListOffsetsRequest_wf r →
  roundtrip (W:=W) (ListOffsetsRequest_Encode r) ListOffsetsRequest_Decode r.
Proof. unfold ListOffsetsRequest_wf, ListOffsetsRequest_Encode, ListOffsetsRequest_Decode.
  destruct r; cbn. rt_message. Qed.
#[export] Hint Resolve ListOffsetsRequest_rt : wire.

Lemma ListOffsetsRequest_Decode_ext : extends ListOffsetsRequest_Decode.
Proof. unfold ListOffsetsRequest_Decode. extends. Qed.
#[export] Hint Resolve ListOffsetsRequest_Decode_ext : extends.

#[global] Instance ListOffsetsRequest_Wire : Wire ListOffsetsRequest :=
  {| wire_put _ _ := ListOffsetsRequest_Encode; wire_get := ListOffsetsRequest_Decode; wire_wf := ListOffsetsRequest_wf |}.
#[global] Instance ListOffsetsRequest_WireOk : WireOk ListOffsetsRequest.
Proof. split; [intros W ? ? r; apply ListOffsetsRequest_rt|apply ListOffsetsRequest_Decode_ext]. Qed.

Lemma MetadataRequest_rt {W} `{WriterOk W} r : MetadataRequest_wf r →
  roundtrip (W:=W) (MetadataRequest_Encode r) MetadataRequest_Decode r.
Proof.
  unfold MetadataRequest_wf, MetadataRequest_Encode, MetadataRequest_Decode, arrayCap.
  destruct r as [[topics|]]; cbn.
  - intros [Hn Hok]. eapply roundtrip_bind; [apply roundtrip_ReadArrayHeader; unfold arrayCap; lia|].
    intros _. case_test. rewrite Nat2Z.id. eapply roundtrip_last; [|done].
    rewrite <- (list_fmap_id topics) at 3. apply roundtrip_list. intros t Ht. cbn.
    apply roundtrip_elem, roundtrip_String. by eapply Forall_forall in Hok.
  - intros _. eapply roundtrip_bind; [by apply roundtrip_ReadArrayHeader|]. intros _. apply roundtrip_ret.
Qed.

#[global] Instance MetadataRequest_Wire : Wire MetadataRequest :=
  {| wire_put _ _ := MetadataRequest_Encode; wire_get := MetadataRequest_Decode;
     wire_wf := MetadataRequest_wf |}.
#[global] Instance MetadataRequest_WireOk : WireOk MetadataRequest.
Proof.
  split; [intros W ? ? r; apply MetadataRequest_rt|]. cbn. unfold MetadataRequest_Decode. extends.
Qed.

#[global] Instance ApiVersionsRequest_Wire : Wire ApiVersionsRequest :=
  {| wire_put _ _ := ApiVersionsRequest_Encode; wire_get := ApiVersionsRequest_Decode;
     wire_wf _ := True |}.
#[global] Instance ApiVersionsRequest_WireOk : WireOk ApiVersionsRequest.
Proof. split; [intros W ? ? [] _; apply roundtrip_ret|apply extends_ret]. Qed.

(** ** All request messages *)

Inductive Request :=
  | RqProduce (r : ProduceRequest)
  | RqFetch (r : FetchRequest)
  | RqMetadata (r : MetadataRequest)
  | RqCreateTopics (r : CreateTopicsRequest)
  | RqJoinGroup (r : JoinGroupRequest)
  | RqSyncGroup (r : SyncGroupRequest)
  | RqHeartbeat (r : HeartbeatRequest)
  | RqLeaveGroup (r : LeaveGroupRequest)
  | RqOffsetCommit (r : OffsetCommitRequest)
  | RqOffsetFetch (r : OffsetFetchRequest)
  | RqListOffsets (r : ListOffsetsRequest)
  | RqApiVersions (r : ApiVersionsRequest).

(** The apiKey a request is registered under. *)
Definition apiKey (m : Request) : Z :=
  match m with
  | RqProduce _ => 0
  | RqFetch _ => 1
  | RqMetadata _ => 2
  | RqCreateTopics _ => 3
  | RqJoinGroup _ => 4
  | RqSyncGroup _ => 5
  | RqHeartbeat _ => 6
  | RqLeaveGroup _ => 7
  | RqOffsetCommit _ => 8
  | RqOffsetFetch _ => 9
  | RqListOffsets _ => 10
  | RqApiVersions _ => 12
  end.

Definition Request_wf (m : Request) : Prop :=
  match m with
  | RqProduce r => wire_wf r
  | RqFetch r => wire_wf r
  | RqMetadata r => wire_wf r
  | RqCreateTopics r => wire_wf r
  | RqJoinGroup r => wire_wf r
  | RqSyncGroup r => wire_wf r
  | RqHeartbeat r => wire_wf r
  | RqLeaveGroup r => wire_wf r
  | RqOffsetCommit r => wire_wf r
  | RqOffsetFetch r => wire_wf r
  | RqListOffsets r => wire_wf r
  | RqApiVersions r => wire_wf r
  end.

Definition Request_marshal (m : Request) : result bytes :=
  match m with
  | RqProduce r => marshal r
  | RqFetch r => marshal r
  | RqMetadata r => marshal r
  | RqCreateTopics r => marshal r
  | RqJoinGroup r => marshal r
  | RqSyncGroup r => marshal r
  | RqHeartbeat r => marshal r
  | RqLeaveGroup r => marshal r
  | RqOffsetCommit r => marshal r
  | RqOffsetFetch r => marshal r
  | RqListOffsets r => marshal r
  | RqApiVersions r => marshal r
  end.

(** The decoder chosen by the apiKey. *)
Definition Request_unmarshal (key : Z) (b : bytes) : result Request :=
  let as_ {A} (f : A → Request) (r : result A) := match r with Ok a => Ok (f a) | Err e => Err e end in
  match key with
  | 0 => as_ RqProduce (unmarshal b)
  | 1 => as_ RqFetch (unmarshal b)
  | 2 => as_ RqMetadata (unmarshal b)
  | 3 => as_ RqCreateTopics (unmarshal b)
  | 4 => as_ RqJoinGroup (unmarshal b)
  | 5 => as_ RqSyncGroup (unmarshal b)
  | 6 => as_ RqHeartbeat (unmarshal b)
  | 7 => as_ RqLeaveGroup (unmarshal b)
  | 8 => as_ RqOffsetCommit (unmarshal b)
  | 9 => as_ RqOffsetFetch (unmarshal b)
  | 10 => as_ RqListOffsets (unmarshal b)
  | 12 => as_ RqApiVersions (unmarshal b)
  | _ => Err (errorString "unsupported apiKey")
  end.

Lemma message_roundtrip {A B} `{WireOk A} (f : A → B) (a : A) : wire_wf a →
  let as_ (r : result A) := match r with Ok a => Ok (f a) | Err e => Err e end in
  ∃ bs, marshal a = Ok bs ∧ (∀ rest, as_ (unmarshal (bs ++ rest)) = Ok (f a)) ∧
    (∀ p q, bs = p ++ q → q ≠ [] → ∃ e, as_ (unmarshal p) = Err e).
Proof.
  intros Hwf. destruct (marshal_unmarshal a Hwf) as (bs & E & G). exists bs. split_and!; [done| |].
  - intros rest. by rewrite G.
  - intros p q -> Hq. destruct (unmarshal_cut a p q Hwf Hq E) as [e ->]. by exists e.
Qed.

(** ** Claims *)

Definition sample_heartbeat : HeartbeatRequest := mkHeartbeatRequest "g" 3 "m-1".
Definition sample_produce : ProduceRequest :=
  mkProduceRequest 1 500 [mkProduceRequestTopic "orders" [mkProduceRequestPartition 2 [x01; x02; x03]]].

(** C26: every request message, whatever its type, encodes to bytes that the decoder
    registered for its apiKey turns back into the same message, also with bytes
    after it; and if the encoding is cut anywhere the decoder reports an error. *)
Theorem request_message_roundtrip (m : Request) : Request_wf m →
  ∃ bs, Request_marshal m = Ok bs ∧
    (∀ rest, Request_unmarshal (apiKey m) (bs ++ rest) = Ok m) ∧
    (∀ p q, bs = p ++ q → q ≠ [] → ∃ e, Request_unmarshal (apiKey m) p = Err e).
Proof.
  destruct m as [r|r|r|r|r|r|r|r|r|r|r|r];
    cbn [Request_wf Request_marshal Request_unmarshal apiKey]; apply message_roundtrip.
Qed.

Lemma request_message_roundtrip_witness :
  ∃ bs, Request_marshal (RqProduce sample_produce) = Ok bs ∧
    (∀ rest, Request_unmarshal 0 (bs ++ rest) = Ok (RqProduce sample_produce)) ∧
    (∀ p q, bs = p ++ q → q ≠ [] → ∃ e, Request_unmarshal 0 p = Err e).
Proof. apply (request_message_roundtrip (RqProduce sample_produce)). by_decide. Defined.

Definition sample_request_frame : RequestFrame :=
  mkRequestFrame 27 6 1 42 "cli" [x00; x01; x67; x00; x00; x00; x03; x00; x01; x6d].

Lemma request_frame_roundtrip_witness :
  ∃ (w' bs : bytes), RequestFrame_Write sample_request_frame [] = (Ok (4 + 27), w') ∧
    written w' = written ([] : bytes) ++ bs ∧
    ReadRequestFrameWithLimit 1024 (bs ++ [x07]) = (Ok sample_request_frame, [x07]) ∧
    unmarshal sample_request_frame.(rqf_Payload) = Ok (mkHeartbeatRequest "g" 3 "m").
Proof.
  apply (request_frame_roundtrip (W:=bytes) 1024 sample_request_frame (mkHeartbeatRequest "g" 3 "m") [] [x07]).
  - by_decide.
  - by vm_compute.
  - by_decide.
  - right. by vm_compute.
  - exact I.
Defined.
