(* ===== verification/Responses.v ===== *)
(** * Response bodies (src/internal/protocol/responses.go)

    Every response type with its [Encode] and [Decode] methods and its round trip.
    Response decoders do not put the request cap on array lengths. *)
From Stdlib Require Import ZArith Lia Strings.Byte.
From stdpp Require Import base list strings.
From S2P Require Import Prelude Codec Frame Requests.
Open Scope Z_scope.

(** One partition of a [Produce] response. *)
Record ProduceResponsePartition := mkProduceResponsePartition {
  psp_PartitionID : Z;  (* int32 *)
  psp_ErrorCode : Z;  (* int16 *)
  psp_BaseOffset : Z;  (* int64 *)
  psp_LogAppendTime : Z  (* int64 *)
}.

Definition ProduceResponsePartition_Encode {W} `{Writer W} (r : ProduceResponsePartition) : M W unit :=
  PutInt32 r.(psp_PartitionID) ;;
  PutInt16 r.(psp_ErrorCode) ;;
  PutInt64 r.(psp_BaseOffset) ;;
  PutInt64 r.(psp_LogAppendTime) ;;
  mret ().

Definition ProduceResponsePartition_Decode : M bytes ProduceResponsePartition :=
  partitionID ← Int32;
  errorCode ← Int16;
  baseOffset ← Int64;
  logAppendTime ← Int64;
  mret (mkProduceResponsePartition partitionID errorCode baseOffset logAppendTime).

Definition ProduceResponsePartition_wf (r : ProduceResponsePartition) : Prop :=
  inS 32 r.(psp_PartitionID) ∧ inS 16 r.(psp_ErrorCode) ∧ inS 64 r.(psp_BaseOffset) ∧
  inS 64 r.(psp_LogAppendTime).
#[global] Instance ProduceResponsePartition_wf_dec r : Decision (ProduceResponsePartition_wf r).
Proof. unfold ProduceResponsePartition_wf. apply _. Defined.

Record ProduceResponseTopic := mkProduceResponseTopic {
  pst_Name : string;
  pst_Partitions : list ProduceResponsePartition
}.

Definition ProduceResponseTopic_Encode {W} `{Writer W} (r : ProduceResponseTopic) : M W unit :=
  PutString r.(pst_Name) ;;
  put_array ProduceResponsePartition_Encode r.(pst_Partitions) ;;
  mret ().

Definition ProduceResponseTopic_Decode : M bytes ProduceResponseTopic :=
  name ← GetString;
  partitions ← get_array_uncapped ProduceResponsePartition_Decode;
  mret (mkProduceResponseTopic name partitions).

Definition ProduceResponseTopic_wf (r : ProduceResponseTopic) : Prop :=
  str_ok r.(pst_Name) ∧ zlen r.(pst_Partitions) ≤ MaxInt32 ∧
  Forall ProduceResponsePartition_wf r.(pst_Partitions).
#[global] Instance ProduceResponseTopic_wf_dec r : Decision (ProduceResponseTopic_wf r).
Proof. unfold ProduceResponseTopic_wf. apply _. Defined.

(** [Produce] (apiKey 0). *)
Record ProduceResponse := mkProduceResponse {
  prs_Topics : list ProduceResponseTopic
}.

Definition ProduceResponse_Encode {W} `{Writer W} (r : ProduceResponse) : M W unit :=
  put_array ProduceResponseTopic_Encode r.(prs_Topics) ;;
  mret ().

Definition ProduceResponse_Decode : M bytes ProduceResponse :=
  topics ← get_array_uncapped ProduceResponseTopic_Decode;
  mret (mkProduceResponse topics).

Definition ProduceResponse_wf (r : ProduceResponse) : Prop :=
  zlen r.(prs_Topics) ≤ MaxInt32 ∧ Forall ProduceResponseTopic_wf r.(prs_Topics).
#[global] Instance ProduceResponse_wf_dec r : Decision (ProduceResponse_wf r).
Proof. unfold ProduceResponse_wf. apply _. Defined.

(** One partition of a [Fetch] response; [RecordSet] holds encoded records. *)
Record FetchResponsePartition := mkFetchResponsePartition {
  fsp_PartitionID : Z;  (* int32 *)
  fsp_ErrorCode : Z;  (* int16 *)
  fsp_HighWatermark : Z;  (* int64 *)
  fsp_LogStartOffset : Z;  (* int64 *)
  fsp_RecordSet : bytes
}.

Definition FetchResponsePartition_Encode {W} `{Writer W} (r : FetchResponsePartition) : M W unit :=
  PutInt32 r.(fsp_PartitionID) ;;
  PutInt16 r.(fsp_ErrorCode) ;;
  PutInt64 r.(fsp_HighWatermark) ;;
  PutInt64 r.(fsp_LogStartOffset) ;;
  PutBytes r.(fsp_RecordSet) ;;
  mret ().

Definition FetchResponsePartition_Decode : M bytes FetchResponsePartition :=
  partitionID ← Int32;
  errorCode ← Int16;
  highWatermark ← Int64;
  logStartOffset ← Int64;
  recordSet ← Bytes;
  mret (mkFetchResponsePartition partitionID errorCode highWatermark logStartOffset recordSet).

Definition FetchResponsePartition_wf (r : FetchResponsePartition) : Prop :=
  inS 32 r.(fsp_PartitionID) ∧ inS 16 r.(fsp_ErrorCode) ∧ inS 64 r.(fsp_HighWatermark) ∧
  inS 64 r.(fsp_LogStartOffset) ∧ bytes_ok r.(fsp_RecordSet).
#[global] Instance FetchResponsePartition_wf_dec r : Decision (FetchResponsePartition_wf r).
Proof. unfold FetchResponsePartition_wf. apply _. Defined.

Record FetchResponseTopic := mkFetchResponseTopic {
  fst_Name : string;
  fst_Partitions : list FetchResponsePartition
}.

Definition FetchResponseTopic_Encode {W} `{Writer W} (r : FetchResponseTopic) : M W unit :=
  PutString r.(fst_Name) ;;
  put_array FetchResponsePartition_Encode r.(fst_Partitions) ;;
  mret ().

Definition FetchResponseTopic_Decode : M bytes FetchResponseTopic :=
  name ← GetString;
  partitions ← get_array_uncapped FetchResponsePartition_Decode;
  mret (mkFetchResponseTopic name partitions).

Definition FetchResponseTopic_wf (r : FetchResponseTopic) : Prop :=
  str_ok r.(fst_Name) ∧ zlen r.(fst_Partitions) ≤ MaxInt32 ∧
  Forall FetchResponsePartition_wf r.(fst_Partitions).
#[global] Instance FetchResponseTopic_wf_dec r : Decision (FetchResponseTopic_wf r).
Proof. unfold FetchResponseTopic_wf. apply _. Defined.

(** [Fetch] (apiKey 1). *)
Record FetchResponse := mkFetchResponse {
  frs_Topics : list FetchResponseTopic
}.

Definition FetchResponse_Encode {W} `{Writer W} (r : FetchResponse) : M W unit :=
  put_array FetchResponseTopic_Encode r.(frs_Topics) ;;
  mret ().

Definition FetchResponse_Decode : M bytes FetchResponse :=
  topics ← get_array_uncapped FetchResponseTopic_Decode;
  mret (mkFetchResponse topics).

Definition FetchResponse_wf (r : FetchResponse) : Prop :=
  zlen r.(frs_Topics) ≤ MaxInt32 ∧ Forall FetchResponseTopic_wf r.(frs_Topics).
#[global] Instance FetchResponse_wf_dec r : Decision (FetchResponse_wf r).
Proof. unfold FetchResponse_wf. apply _. Defined.

Record ApiVersion := mkApiVersion {
  av_ApiKey : Z;  (* int16 *)
  av_MinVersion : Z;  (* int16 *)
  av_MaxVersion : Z  (* int16 *)
}.

Definition ApiVersion_Encode {W} `{Writer W} (r : ApiVersion) : M W unit :=
  PutInt16 r.(av_ApiKey) ;;
  PutInt16 r.(av_MinVersion) ;;
  PutInt16 r.(av_MaxVersion) ;;
  mret ().

Definition ApiVersion_Decode : M bytes ApiVersion :=
  apiKey ← Int16;
  minVersion ← Int16;
  maxVersion ← Int16;
  mret (mkApiVersion apiKey minVersion maxVersion).

Definition ApiVersion_wf (r : ApiVersion) : Prop :=
  inS 16 r.(av_ApiKey) ∧ inS 16 r.(av_MinVersion) ∧ inS 16 r.(av_MaxVersion).
#[global] Instance ApiVersion_wf_dec r : Decision (ApiVersion_wf r).
Proof. unfold ApiVersion_wf. apply _. Defined.

(** [ApiVersions] (apiKey 12). *)
Record ApiVersionsResponse := mkApiVersionsResponse {
  avs_ApiKeys : list ApiVersion
}.

Definition ApiVersionsResponse_Encode {W} `{Writer W} (r : ApiVersionsResponse) : M W unit :=
  put_array ApiVersion_Encode r.(avs_ApiKeys) ;;
  mret ().

Definition ApiVersionsResponse_Decode : M bytes ApiVersionsResponse :=
  apiKeys ← get_array_uncapped ApiVersion_Decode;
  mret (mkApiVersionsResponse apiKeys).

Definition ApiVersionsResponse_wf (r : ApiVersionsResponse) : Prop :=
  zlen r.(avs_ApiKeys) ≤ MaxInt32 ∧ Forall ApiVersion_wf r.(avs_ApiKeys).
#[global] Instance ApiVersionsResponse_wf_dec r : Decision (ApiVersionsResponse_wf r).
Proof. unfold ApiVersionsResponse_wf. apply _. Defined.

Record BrokerMetadata := mkBrokerMetadata {
  bm_NodeID : Z;  (* int32 *)
  bm_Host : string;
  bm_Port : Z  (* int32 *)
}.

Definition BrokerMetadata_Encode {W} `{Writer W} (r : BrokerMetadata) : M W unit :=
  PutInt32 r.(bm_NodeID) ;;
  PutString r.(bm_Host) ;;
  PutInt32 r.(bm_Port) ;;
  mret ().

Definition BrokerMetadata_Decode : M bytes BrokerMetadata :=
  nodeID ← Int32;
  host ← GetString;
  port ← Int32;
  mret (mkBrokerMetadata nodeID host port).

Definition BrokerMetadata_wf (r : BrokerMetadata) : Prop :=
  inS 32 r.(bm_NodeID) ∧ str_ok r.(bm_Host) ∧ inS 32 r.(bm_Port).
#[global] Instance BrokerMetadata_wf_dec r : Decision (BrokerMetadata_wf r).
Proof. unfold BrokerMetadata_wf. apply _. Defined.

Record PartitionMetadata := mkPartitionMetadata {
  pm_PartitionID : Z;  (* int32 *)
  pm_Leader : Z;  (* int32 *)
  pm_Replicas : list Z;
  pm_ISR : list Z
}.

Definition PartitionMetadata_Encode {W} `{Writer W} (r : PartitionMetadata) : M W unit :=
  PutInt32 r.(pm_PartitionID) ;;
  PutInt32 r.(pm_Leader) ;;
  put_array (λ x, PutInt32 x ;; mret ()) r.(pm_Replicas) ;;
  put_array (λ x, PutInt32 x ;; mret ()) r.(pm_ISR) ;;
  mret ().

Definition PartitionMetadata_Decode : M bytes PartitionMetadata :=
  partitionID ← Int32;
  leader ← Int32;
  replicas ← get_array_uncapped Int32;
  isr ← get_array_uncapped Int32;
  mret (mkPartitionMetadata partitionID leader replicas isr).

Definition PartitionMetadata_wf (r : PartitionMetadata) : Prop :=
  inS 32 r.(pm_PartitionID) ∧ inS 32 r.(pm_Leader) ∧ zlen r.(pm_Replicas) ≤ MaxInt32 ∧
  Forall (inS 32) r.(pm_Replicas) ∧ zlen r.(pm_ISR) ≤ MaxInt32 ∧ Forall (inS 32) r.(pm_ISR).
#[global] Instance PartitionMetadata_wf_dec r : Decision (PartitionMetadata_wf r).
Proof. unfold PartitionMetadata_wf. apply _. Defined.

Record TopicMetadata := mkTopicMetadata {
  tm_Name : string;
  tm_ErrorCode : Z;  (* int16 *)
  tm_Partitions : list PartitionMetadata
}.

Definition TopicMetadata_Encode {W} `{Writer W} (r : TopicMetadata) : M W unit :=
  PutString r.(tm_Name) ;;
  PutInt16 r.(tm_ErrorCode) ;;
  put_array PartitionMetadata_Encode r.(tm_Partitions) ;;
  mret ().

Definition TopicMetadata_Decode : M bytes TopicMetadata :=
  name ← GetString;
  errorCode ← Int16;
  partitions ← get_array_uncapped PartitionMetadata_Decode;
  mret (mkTopicMetadata name errorCode partitions).

Definition TopicMetadata_wf (r : TopicMetadata) : Prop :=
  str_ok r.(tm_Name) ∧ inS 16 r.(tm_ErrorCode) ∧ zlen r.(tm_Partitions) ≤ MaxInt32 ∧
  Forall PartitionMetadata_wf r.(tm_Partitions).
#[global] Instance TopicMetadata_wf_dec r : Decision (TopicMetadata_wf r).
Proof. unfold TopicMetadata_wf. apply _. Defined.

(** [Metadata] (apiKey 2). *)
Record MetadataResponse := mkMetadataResponse {
  mds_Brokers : list BrokerMetadata;
  mds_Topics : list TopicMetadata
}.

Definition MetadataResponse_Encode {W} `{Writer W} (r : MetadataResponse) : M W unit :=
  put_array BrokerMetadata_Encode r.(mds_Brokers) ;;
  put_array TopicMetadata_Encode r.(mds_Topics) ;;
  mret ().

Definition MetadataResponse_Decode : M bytes MetadataResponse :=
  brokers ← get_array_uncapped BrokerMetadata_Decode;
  topics ← get_array_uncapped TopicMetadata_Decode;
  mret (mkMetadataResponse brokers topics).

Definition MetadataResponse_wf (r : MetadataResponse) : Prop :=
  zlen r.(mds_Brokers) ≤ MaxInt32 ∧ Forall BrokerMetadata_wf r.(mds_Brokers) ∧
  zlen r.(mds_Topics) ≤ MaxInt32 ∧ Forall TopicMetadata_wf r.(mds_Topics).
#[global] Instance MetadataResponse_wf_dec r : Decision (MetadataResponse_wf r).
Proof. unfold MetadataResponse_wf. apply _. Defined.

Record CreateTopicResponseTopic := mkCreateTopicResponseTopic {
  cst_Name : string;
  cst_ErrorCode : Z  (* int16 *)
}.

Definition CreateTopicResponseTopic_Encode {W} `{Writer W} (r : CreateTopicResponseTopic) : M W unit :=
  PutString r.(cst_Name) ;;
  PutInt16 r.(cst_ErrorCode) ;;
  mret ().

Definition CreateTopicResponseTopic_Decode : M bytes CreateTopicResponseTopic :=
  name ← GetString;
  errorCode ← Int16;
  mret (mkCreateTopicResponseTopic name errorCode).

Definition CreateTopicResponseTopic_wf (r : CreateTopicResponseTopic) : Prop :=
  str_ok r.(cst_Name) ∧ inS 16 r.(cst_ErrorCode).
#[global] Instance CreateTopicResponseTopic_wf_dec r : Decision (CreateTopicResponseTopic_wf r).
Proof. unfold CreateTopicResponseTopic_wf. apply _. Defined.

(** [CreateTopics] (apiKey 3). *)
Record CreateTopicsResponse := mkCreateTopicsResponse {
  cts_Topics : list CreateTopicResponseTopic
}.

Definition CreateTopicsResponse_Encode {W} `{Writer W} (r : CreateTopicsResponse) : M W unit :=
  put_array CreateTopicResponseTopic_Encode r.(cts_Topics) ;;
  mret ().

Definition CreateTopicsResponse_Decode : M bytes CreateTopicsResponse :=
  topics ← get_array_uncapped CreateTopicResponseTopic_Decode;
  mret (mkCreateTopicsResponse topics).

Definition CreateTopicsResponse_wf (r : CreateTopicsResponse) : Prop :=
  zlen r.(cts_Topics) ≤ MaxInt32 ∧ Forall CreateTopicResponseTopic_wf r.(cts_Topics).
#[global] Instance CreateTopicsResponse_wf_dec r : Decision (CreateTopicsResponse_wf r).
Proof. unfold CreateTopicsResponse_wf. apply _. Defined.

Record JoinGroupMember := mkJoinGroupMember {
  jgm_MemberID : string;
  jgm_Metadata : bytes
}.

Definition JoinGroupMember_Encode {W} `{Writer W} (r : JoinGroupMember) : M W unit :=
  PutString r.(jgm_MemberID) ;;
  PutBytes r.(jgm_Metadata) ;;
  mret ().

Definition JoinGroupMember_Decode : M bytes JoinGroupMember :=
  memberID ← GetString;
  metadata ← Bytes;
  mret (mkJoinGroupMember memberID metadata).

Definition JoinGroupMember_wf (r : JoinGroupMember) : Prop :=
  str_ok r.(jgm_MemberID) ∧ bytes_ok r.(jgm_Metadata).
#[global] Instance JoinGroupMember_wf_dec r : Decision (JoinGroupMember_wf r).
Proof. unfold JoinGroupMember_wf. apply _. Defined.

(** [JoinGroup] (apiKey 4). *)
Record JoinGroupResponse := mkJoinGroupResponse {
  jgs_ErrorCode : Z;  (* int16 *)
  jgs_GenerationID : Z;  (* int32 *)
  jgs_ProtocolName : string;
  jgs_LeaderID : string;
  jgs_MemberID : string;
  jgs_Members : list JoinGroupMember
}.

Definition JoinGroupResponse_Encode {W} `{Writer W} (r : JoinGroupResponse) : M W unit :=
  PutInt16 r.(jgs_ErrorCode) ;;
  PutInt32 r.(jgs_GenerationID) ;;
  PutString r.(jgs_ProtocolName) ;;
  PutString r.(jgs_LeaderID) ;;
  PutString r.(jgs_MemberID) ;;
  put_array JoinGroupMember_Encode r.(jgs_Members) ;;
  mret ().

Definition JoinGroupResponse_Decode : M bytes JoinGroupResponse :=
  errorCode ← Int16;
  generationID ← Int32;
  protocolName ← GetString;
  leaderID ← GetString;
  memberID ← GetString;
  members ← get_array_uncapped JoinGroupMember_Decode;
  mret (mkJoinGroupResponse errorCode generationID protocolName leaderID memberID members).

Definition JoinGroupResponse_wf (r : JoinGroupResponse) : Prop :=
  inS 16 r.(jgs_ErrorCode) ∧ inS 32 r.(jgs_GenerationID) ∧ str_ok r.(jgs_ProtocolName) ∧
  str_ok r.(jgs_LeaderID) ∧ str_ok r.(jgs_MemberID) ∧ zlen r.(jgs_Members) ≤ MaxInt32 ∧
  Forall JoinGroupMember_wf r.(jgs_Members).
#[global] Instance JoinGroupResponse_wf_dec r : Decision (JoinGroupResponse_wf r).
Proof. unfold JoinGroupResponse_wf. apply _. Defined.

(** [SyncGroup] (apiKey 5). *)
Record SyncGroupResponse := mkSyncGroupResponse {
  sgs_ErrorCode : Z;  (* int16 *)
  sgs_Assignment : bytes
}.

Definition SyncGroupResponse_Encode {W} `{Writer W} (r : SyncGroupResponse) : M W unit :=
  PutInt16 r.(sgs_ErrorCode) ;;
  PutBytes r.(sgs_Assignment) ;;
  mret ().

Definition SyncGroupResponse_Decode : M bytes SyncGroupResponse :=
  errorCode ← Int16;
  assignment ← Bytes;
  mret (mkSyncGroupResponse errorCode assignment).

Definition SyncGroupResponse_wf (r : SyncGroupResponse) : Prop :=
  inS 16 r.(sgs_ErrorCode) ∧ bytes_ok r.(sgs_Assignment).
#[global] Instance SyncGroupResponse_wf_dec r : Decision (SyncGroupResponse_wf r).
Proof. unfold SyncGroupResponse_wf. apply _. Defined.

(** [Heartbeat] (apiKey 6). *)
Record HeartbeatResponse := mkHeartbeatResponse {
  hbs_ErrorCode : Z  (* int16 *)
}.

Definition HeartbeatResponse_Encode {W} `{Writer W} (r : HeartbeatResponse) : M W unit :=
  PutInt16 r.(hbs_ErrorCode) ;;
  mret ().

Definition HeartbeatResponse_Decode : M bytes HeartbeatResponse :=
  errorCode ← Int16;
  mret (mkHeartbeatResponse errorCode).

Definition HeartbeatResponse_wf (r : HeartbeatResponse) : Prop :=
  inS 16 r.(hbs_ErrorCode).
#[global] Instance HeartbeatResponse_wf_dec r : Decision (HeartbeatResponse_wf r).
Proof. unfold HeartbeatResponse_wf. apply _. Defined.

(** [LeaveGroup] (apiKey 7). *)
Record LeaveGroupResponse := mkLeaveGroupResponse {
  lgs_ErrorCode : Z  (* int16 *)
}.

Definition LeaveGroupResponse_Encode {W} `{Writer W} (r : LeaveGroupResponse) : M W unit :=
  PutInt16 r.(lgs_ErrorCode) ;;
  mret ().

Definition LeaveGroupResponse_Decode : M bytes LeaveGroupResponse :=
  errorCode ← Int16;
  mret (mkLeaveGroupResponse errorCode).

Definition LeaveGroupResponse_wf (r : LeaveGroupResponse) : Prop :=
  inS 16 r.(lgs_ErrorCode).
#[global] Instance LeaveGroupResponse_wf_dec r : Decision (LeaveGroupResponse_wf r).
Proof. unfold LeaveGroupResponse_wf. apply _. Defined.

Record OffsetCommitResponsePartition := mkOffsetCommitResponsePartition {
  osp_PartitionID : Z;  (* int32 *)
  osp_ErrorCode : Z  (* int16 *)
}.

Definition OffsetCommitResponsePartition_Encode {W} `{Writer W} (r : OffsetCommitResponsePartition) : M W unit :=
  PutInt32 r.(osp_PartitionID) ;;
  PutInt16 r.(osp_ErrorCode) ;;
  mret ().

Definition OffsetCommitResponsePartition_Decode : M bytes OffsetCommitResponsePartition :=
  partitionID ← Int32;
  errorCode ← Int16;
  mret (mkOffsetCommitResponsePartition partitionID errorCode).

Definition OffsetCommitResponsePartition_wf (r : OffsetCommitResponsePartition) : Prop :=
  inS 32 r.(osp_PartitionID) ∧ inS 16 r.(osp_ErrorCode).
#[global] Instance OffsetCommitResponsePartition_wf_dec r : Decision (OffsetCommitResponsePartition_wf r).
Proof. unfold OffsetCommitResponsePartition_wf. apply _. Defined.

Record OffsetCommitResponseTopic := mkOffsetCommitResponseTopic {
  ost_Name : string;
  ost_Partitions : list OffsetCommitResponsePartition
}.

Definition OffsetCommitResponseTopic_Encode {W} `{Writer W} (r : OffsetCommitResponseTopic) : M W unit :=
  PutString r.(ost_Name) ;;
  put_array OffsetCommitResponsePartition_Encode r.(ost_Partitions) ;;
  mret ().

Definition OffsetCommitResponseTopic_Decode : M bytes OffsetCommitResponseTopic :=
  name ← GetString;
  partitions ← get_array_uncapped OffsetCommitResponsePartition_Decode;
  mret (mkOffsetCommitResponseTopic name partitions).

Definition OffsetCommitResponseTopic_wf (r : OffsetCommitResponseTopic) : Prop :=
  str_ok r.(ost_Name) ∧ zlen r.(ost_Partitions) ≤ MaxInt32 ∧
  Forall OffsetCommitResponsePartition_wf r.(ost_Partitions).
#[global] Instance OffsetCommitResponseTopic_wf_dec r : Decision (OffsetCommitResponseTopic_wf r).
Proof. unfold OffsetCommitResponseTopic_wf. apply _. Defined.

(** [OffsetCommit] (apiKey 8). *)
Record OffsetCommitResponse := mkOffsetCommitResponse {
  ocs_Topics : list OffsetCommitResponseTopic
}.

Definition OffsetCommitResponse_Encode {W} `{Writer W} (r : OffsetCommitResponse) : M W unit :=
  put_array OffsetCommitResponseTopic_Encode r.(ocs_Topics) ;;
  mret ().

Definition OffsetCommitResponse_Decode : M bytes OffsetCommitResponse :=
  topics ← get_array_uncapped OffsetCommitResponseTopic_Decode;
  mret (mkOffsetCommitResponse topics).

Definition OffsetCommitResponse_wf (r : OffsetCommitResponse) : Prop :=
  zlen r.(ocs_Topics) ≤ MaxInt32 ∧ Forall OffsetCommitResponseTopic_wf r.(ocs_Topics).
#[global] Instance OffsetCommitResponse_wf_dec r : Decision (OffsetCommitResponse_wf r).
Proof. unfold OffsetCommitResponse_wf. apply _. Defined.

Record OffsetFetchResponsePartition := mkOffsetFetchResponsePartition {
  ofp_PartitionID : Z;  (* int32 *)
  ofp_Offset : Z;  (* int64 *)
  ofp_ErrorCode : Z  (* int16 *)
}.

Definition OffsetFetchResponsePartition_Encode {W} `{Writer W} (r : OffsetFetchResponsePartition) : M W unit :=
  PutInt32 r.(ofp_PartitionID) ;;
  PutInt64 r.(ofp_Offset) ;;
  PutInt16 r.(ofp_ErrorCode) ;;
  mret ().

Definition OffsetFetchResponsePartition_Decode : M bytes OffsetFetchResponsePartition :=
  partitionID ← Int32;
  offset ← Int64;
  errorCode ← Int16;
  mret (mkOffsetFetchResponsePartition partitionID offset errorCode).

Definition OffsetFetchResponsePartition_wf (r : OffsetFetchResponsePartition) : Prop :=
  inS 32 r.(ofp_PartitionID) ∧ inS 64 r.(ofp_Offset) ∧ inS 16 r.(ofp_ErrorCode).
#[global] Instance OffsetFetchResponsePartition_wf_dec r : Decision (OffsetFetchResponsePartition_wf r).
Proof. unfold OffsetFetchResponsePartition_wf. apply _. Defined.

Record OffsetFetchResponseTopic := mkOffsetFetchResponseTopic {
  oftr_Name : string;
  oftr_Partitions : list OffsetFetchResponsePartition
}.

Definition OffsetFetchResponseTopic_Encode {W} `{Writer W} (r : OffsetFetchResponseTopic) : M W unit :=
  PutString r.(oftr_Name) ;;
  put_array OffsetFetchResponsePartition_Encode r.(oftr_Partitions) ;;
  mret ().

Definition OffsetFetchResponseTopic_Decode : M bytes OffsetFetchResponseTopic :=
  name ← GetString;
  partitions ← get_array_uncapped OffsetFetchResponsePartition_Decode;
  mret (mkOffsetFetchResponseTopic name partitions).

Definition OffsetFetchResponseTopic_wf (r : OffsetFetchResponseTopic) : Prop :=
  str_ok r.(oftr_Name) ∧ zlen r.(oftr_Partitions) ≤ MaxInt32 ∧
  Forall OffsetFetchResponsePartition_wf r.(oftr_Partitions).
#[global] Instance OffsetFetchResponseTopic_wf_dec r : Decision (OffsetFetchResponseTopic_wf r).
Proof. unfold OffsetFetchResponseTopic_wf. apply _. Defined.

(** [OffsetFetch] (apiKey 9). *)
Record OffsetFetchResponse := mkOffsetFetchResponse {
  ofs_Topics : list OffsetFetchResponseTopic
}.

Definition OffsetFetchResponse_Encode {W} `{Writer W} (r : OffsetFetchResponse) : M W unit :=
  put_array OffsetFetchResponseTopic_Encode r.(ofs_Topics) ;;
  mret ().

Definition OffsetFetchResponse_Decode : M bytes OffsetFetchResponse :=
  topics ← get_array_uncapped OffsetFetchResponseTopic_Decode;
  mret (mkOffsetFetchResponse topics).

Definition OffsetFetchResponse_wf (r : OffsetFetchResponse) : Prop :=
  zlen r.(ofs_Topics) ≤ MaxInt32 ∧ Forall OffsetFetchResponseTopic_wf r.(ofs_Topics).
#[global] Instance OffsetFetchResponse_wf_dec r : Decision (OffsetFetchResponse_wf r).
Proof. unfold OffsetFetchResponse_wf. apply _. Defined.

Record ListOffsetsResponsePartition := mkListOffsetsResponsePartition {
  lsp_PartitionID : Z;  (* int32 *)
  lsp_ErrorCode : Z;  (* int16 *)
  lsp_Offset : Z  (* int64 *)
}.

Definition ListOffsetsResponsePartition_Encode {W} `{Writer W} (r : ListOffsetsResponsePartition) : M W unit :=
  PutInt32 r.(lsp_PartitionID) ;;
  PutInt16 r.(lsp_ErrorCode) ;;
  PutInt64 r.(lsp_Offset) ;;
  mret ().

Definition ListOffsetsResponsePartition_Decode : M bytes ListOffsetsResponsePartition :=
  partitionID ← Int32;
  errorCode ← Int16;
  offset ← Int64;
  mret (mkListOffsetsResponsePartition partitionID errorCode offset).

Definition ListOffsetsResponsePartition_wf (r : ListOffsetsResponsePartition) : Prop :=
  inS 32 r.(lsp_PartitionID) ∧ inS 16 r.(lsp_ErrorCode) ∧ inS 64 r.(lsp_Offset).
#[global] Instance ListOffsetsResponsePartition_wf_dec r : Decision (ListOffsetsResponsePartition_wf r).
Proof. unfold ListOffsetsResponsePartition_wf. apply _. Defined.

Record ListOffsetsResponseTopic := mkListOffsetsResponseTopic {
  lst_Name : string;
  lst_Partitions : list ListOffsetsResponsePartition
}.

Definition ListOffsetsResponseTopic_Encode {W} `{Writer W} (r : ListOffsetsResponseTopic) : M W unit :=
  PutString r.(lst_Name) ;;
  put_array ListOffsetsResponsePartition_Encode r.(lst_Partitions) ;;
  mret ().

Definition ListOffsetsResponseTopic_Decode : M bytes ListOffsetsResponseTopic :=
  name ← GetString;
  partitions ← get_array_uncapped ListOffsetsResponsePartition_Decode;
  mret (mkListOffsetsResponseTopic name partitions).

Definition ListOffsetsResponseTopic_wf (r : ListOffsetsResponseTopic) : Prop :=
  str_ok r.(lst_Name) ∧ zlen r.(lst_Partitions) ≤ MaxInt32 ∧
  Forall ListOffsetsResponsePartition_wf r.(lst_Partitions).
#[global] Instance ListOffsetsResponseTopic_wf_dec r : Decision (ListOffsetsResponseTopic_wf r).
Proof. unfold ListOffsetsResponseTopic_wf. apply _. Defined.

(** [ListOffsets] (apiKey 10). *)
Record ListOffsetsResponse := mkListOffsetsResponse {
  los_Topics : list ListOffsetsResponseTopic
}.

Definition ListOffsetsResponse_Encode {W} `{Writer W} (r : ListOffsetsResponse) : M W unit :=
  put_array ListOffsetsResponseTopic_Encode r.(los_Topics) ;;
  mret ().

Definition ListOffsetsResponse_Decode : M bytes ListOffsetsResponse :=
  topics ← get_array_uncapped ListOffsetsResponseTopic_Decode;
  mret (mkListOffsetsResponse topics).

Definition ListOffsetsResponse_wf (r : ListOffsetsResponse) : Prop :=
  zlen r.(los_Topics) ≤ MaxInt32 ∧ Forall ListOffsetsResponseTopic_wf r.(los_Topics).
#[global] Instance ListOffsetsResponse_wf_dec r : Decision (ListOffsetsResponse_wf r).
Proof. unfold ListOffsetsResponse_wf. apply _. Defined.

(** ** Round trips *)

Lemma ProduceResponsePartition_rt {W} `{WriterOk W} r : ProduceResponsePartition_wf r →
  roundtrip (W:=W) (ProduceResponsePartition_Encode r) ProduceResponsePartition_Decode r.
Proof. unfold ProduceResponsePartition_wf, ProduceResponsePartition_Encode, ProduceResponsePartition_Decode.
  destruct r; cbn. rt_message. Qed.
#[export] Hint Resolve ProduceResponsePartition_rt : wire.

Lemma ProduceResponsePartition_Decode_ext : extends ProduceResponsePartition_Decode.
Proof. unfold ProduceResponsePartition_Decode. extends. Qed.
#[export] Hint Resolve ProduceResponsePartition_Decode_ext : extends.

Lemma ProduceResponseTopic_rt {W} `{WriterOk W} r : ProduceResponseTopic_wf r →
  roundtrip (W:=W) (ProduceResponseTopic_Encode r) ProduceResponseTopic_Decode r.
Proof. unfold ProduceResponseTopic_wf, ProduceResponseTopic_Encode, ProduceResponseTopic_Decode.
  destruct r; cbn. rt_message. Qed.
#[export] Hint Resolve ProduceResponseTopic_rt : wire.

Lemma ProduceResponseTopic_Decode_ext : extends ProduceResponseTopic_Decode.
Proof. unfold ProduceResponseTopic_Decode. extends. Qed.
#[export] Hint Resolve ProduceResponseTopic_Decode_ext : extends.

Lemma ProduceResponse_rt {W} `{WriterOk W} r : ProduceResponse_wf r →
  roundtrip (W:=W) (ProduceResponse_Encode r) ProduceResponse_Decode r.
Proof. unfold ProduceResponse_wf, ProduceResponse_Encode, ProduceResponse_Decode.
  destruct r; cbn. rt_message. Qed.
#[export] Hint Resolve ProduceResponse_rt : wire.

Lemma ProduceResponse_Decode_ext : extends ProduceResponse_Decode.
Proof. unfold ProduceResponse_Decode. extends. Qed.
#[export] Hint Resolve ProduceResponse_Decode_ext : extends.

#[global] Instance ProduceResponse_Wire : Wire ProduceResponse :=
  {| wire_put _ _ := ProduceResponse_Encode; wire_get := ProduceResponse_Decode; wire_wf := ProduceResponse_wf |}.
#[global] Instance ProduceResponse_WireOk : WireOk ProduceResponse.
Proof. split; [intros W ? ? r; apply ProduceResponse_rt|apply ProduceResponse_Decode_ext]. Qed.

Lemma FetchResponsePartition_rt {W} `{WriterOk W} r : FetchResponsePartition_wf r →
  roundtrip (W:=W) (FetchResponsePartition_Encode r) FetchResponsePartition_Decode r.
Proof. unfold FetchResponsePartition_wf, FetchResponsePartition_Encode, FetchResponsePartition_Decode.
  destruct r; cbn. rt_message. Qed.
#[export] Hint Resolve FetchResponsePartition_rt : wire.

Lemma FetchResponsePartition_Decode_ext : extends FetchResponsePartition_Decode.
Proof. unfold FetchResponsePartition_Decode. extends. Qed.
#[export] Hint Resolve FetchResponsePartition_Decode_ext : extends.

Lemma FetchResponseTopic_rt {W} `{WriterOk W} r : FetchResponseTopic_wf r →
  roundtrip (W:=W) (FetchResponseTopic_Encode r) FetchResponseTopic_Decode r.
Proof. unfold FetchResponseTopic_wf, FetchResponseTopic_Encode, FetchResponseTopic_Decode.
  destruct r; cbn. rt_message. Qed.
#[export] Hint Resolve FetchResponseTopic_rt : wire.

Lemma FetchResponseTopic_Decode_ext : extends FetchResponseTopic_Decode.
Proof. unfold FetchResponseTopic_Decode. extends. Qed.
#[export] Hint Resolve FetchResponseTopic_Decode_ext : extends.

Lemma FetchResponse_rt {W} `{WriterOk W} r : FetchResponse_wf r →
  roundtrip (W:=W) (FetchResponse_Encode r) FetchResponse_Decode r.
Proof. unfold FetchResponse_wf, FetchResponse_Encode, FetchResponse_Decode.
  destruct r; cbn. rt_message. Qed.
#[export] Hint Resolve FetchResponse_rt : wire.

Lemma FetchResponse_Decode_ext : extends FetchResponse_Decode.
Proof. unfold FetchResponse_Decode. extends. Qed.
#[export] Hint Resolve FetchResponse_Decode_ext : extends.

#[global] Instance FetchResponse_Wire : Wire FetchResponse :=
  {| wire_put _ _ := FetchResponse_Encode; wire_get := FetchResponse_Decode; wire_wf := FetchResponse_wf |}.
#[global] Instance FetchResponse_WireOk : WireOk FetchResponse.
Proof. split; [intros W ? ? r; apply FetchResponse_rt|apply FetchResponse_Decode_ext]. Qed.

Lemma ApiVersion_rt {W} `{WriterOk W} r : ApiVersion_wf r →
  roundtrip (W:=W) (ApiVersion_Encode r) ApiVersion_Decode r.
Proof. unfold ApiVersion_wf, ApiVersion_Encode, ApiVersion_Decode.
  destruct r; cbn. rt_message. Qed.
#[export] Hint Resolve ApiVersion_rt : wire.

Lemma ApiVersion_Decode_ext : extends ApiVersion_Decode.
Proof. unfold ApiVersion_Decode. extends. Qed.
#[export] Hint Resolve ApiVersion_Decode_ext : extends.

Lemma ApiVersionsResponse_rt {W} `{WriterOk W} r : ApiVersionsResponse_wf r →
  roundtrip (W:=W) (ApiVersionsResponse_Encode r) ApiVersionsResponse_Decode r.
Proof. unfold ApiVersionsResponse_wf, ApiVersionsResponse_Encode, ApiVersionsResponse_Decode.
  destruct r; cbn. rt_message. Qed.
#[export] Hint Resolve ApiVersionsResponse_rt : wire.

Lemma ApiVersionsResponse_Decode_ext : extends ApiVersionsResponse_Decode.
Proof. unfold ApiVersionsResponse_Decode. extends. Qed.
#[export] Hint Resolve ApiVersionsResponse_Decode_ext : extends.

#[global] Instance ApiVersionsResponse_Wire : Wire ApiVersionsResponse :=
  {| wire_put _ _ := ApiVersionsResponse_Encode; wire_get := ApiVersionsResponse_Decode; wire_wf := ApiVersionsResponse_wf |}.
#[global] Instance ApiVersionsResponse_WireOk : WireOk ApiVersionsResponse.
Proof. split; [intros W ? ? r; apply ApiVersionsResponse_rt|apply ApiVersionsResponse_Decode_ext]. Qed.

Lemma BrokerMetadata_rt {W} `{WriterOk W} r : BrokerMetadata_wf r →
  roundtrip (W:=W) (BrokerMetadata_Encode r) BrokerMetadata_Decode r.
Proof. unfold BrokerMetadata_wf, BrokerMetadata_Encode, BrokerMetadata_Decode.
  destruct r; cbn. rt_message. Qed.
#[export] Hint Resolve BrokerMetadata_rt : wire.

Lemma BrokerMetadata_Decode_ext : extends BrokerMetadata_Decode.
Proof. unfold BrokerMetadata_Decode. extends. Qed.
#[export] Hint Resolve BrokerMetadata_Decode_ext : extends.

Lemma PartitionMetadata_rt {W} `{WriterOk W} r : PartitionMetadata_wf r →
  roundtrip (W:=W) (PartitionMetadata_Encode r) PartitionMetadata_Decode r.
Proof. unfold PartitionMetadata_wf, PartitionMetadata_Encode, PartitionMetadata_Decode.
  destruct r; cbn. rt_message. Qed.
#[export] Hint Resolve PartitionMetadata_rt : wire.

Lemma PartitionMetadata_Decode_ext : extends PartitionMetadata_Decode.
Proof. unfold PartitionMetadata_Decode. extends. Qed.
#[export] Hint Resolve PartitionMetadata_Decode_ext : extends.

Lemma TopicMetadata_rt {W} `{WriterOk W} r : TopicMetadata_wf r →
  roundtrip (W:=W) (TopicMetadata_Encode r) TopicMetadata_Decode r.
Proof. unfold TopicMetadata_wf, TopicMetadata_Encode, TopicMetadata_Decode.
  destruct r; cbn. rt_message. Qed.
#[export] Hint Resolve TopicMetadata_rt : wire.

Lemma TopicMetadata_Decode_ext : extends TopicMetadata_Decode.
Proof. unfold TopicMetadata_Decode. extends. Qed.
#[export] Hint Resolve TopicMetadata_Decode_ext : extends.

Lemma MetadataResponse_rt {W} `{WriterOk W} r : MetadataResponse_wf r →
  roundtrip (W:=W) (MetadataResponse_Encode r) MetadataResponse_Decode r.
Proof. unfold MetadataResponse_wf, MetadataResponse_Encode, MetadataResponse_Decode.
  destruct r; cbn. rt_message. Qed.
#[export] Hint Resolve MetadataResponse_rt : wire.

Lemma MetadataResponse_Decode_ext : extends MetadataResponse_Decode.
Proof. unfold MetadataResponse_Decode. extends. Qed.
#[export] Hint Resolve MetadataResponse_Decode_ext : extends.

#[global] Instance MetadataResponse_Wire : Wire MetadataResponse :=
  {| wire_put _ _ := MetadataResponse_Encode; wire_get := MetadataResponse_Decode; wire_wf := MetadataResponse_wf |}.
#[global] Instance MetadataResponse_WireOk : WireOk MetadataResponse.
Proof. split; [intros W ? ? r; apply MetadataResponse_rt|apply MetadataResponse_Decode_ext]. Qed.

Lemma CreateTopicResponseTopic_rt {W} `{WriterOk W} r : CreateTopicResponseTopic_wf r →
  roundtrip (W:=W) (CreateTopicResponseTopic_Encode r) CreateTopicResponseTopic_Decode r.
Proof. unfold CreateTopicResponseTopic_wf, CreateTopicResponseTopic_Encode, CreateTopicResponseTopic_Decode.
  destruct r; cbn. rt_message. Qed.
#[export] Hint Resolve CreateTopicResponseTopic_rt : wire.

Lemma CreateTopicResponseTopic_Decode_ext : extends CreateTopicResponseTopic_Decode.
Proof. unfold CreateTopicResponseTopic_Decode. extends. Qed.
#[export] Hint Resolve CreateTopicResponseTopic_Decode_ext : extends.

Lemma CreateTopicsResponse_rt {W} `{WriterOk W} r : CreateTopicsResponse_wf r →
  roundtrip (W:=W) (CreateTopicsResponse_Encode r) CreateTopicsResponse_Decode r.
Proof. unfold CreateTopicsResponse_wf, CreateTopicsResponse_Encode, CreateTopicsResponse_Decode.
  destruct r; cbn. rt_message. Qed.
#[export] Hint Resolve CreateTopicsResponse_rt : wire.

Lemma CreateTopicsResponse_Decode_ext : extends CreateTopicsResponse_Decode.
Proof. unfold CreateTopicsResponse_Decode. extends. Qed.
#[export] Hint Resolve CreateTopicsResponse_Decode_ext : extends.

#[global] Instance CreateTopicsResponse_Wire : Wire CreateTopicsResponse :=
  {| wire_put _ _ := CreateTopicsResponse_Encode; wire_get := CreateTopicsResponse_Decode; wire_wf := CreateTopicsResponse_wf |}.
#[global] Instance CreateTopicsResponse_WireOk : WireOk CreateTopicsResponse.
Proof. split; [intros W ? ? r; apply CreateTopicsResponse_rt|apply CreateTopicsResponse_Decode_ext]. Qed.

Lemma JoinGroupMember_rt {W} `{WriterOk W} r : JoinGroupMember_wf r →
  roundtrip (W:=W) (JoinGroupMember_Encode r) JoinGroupMember_Decode r.
Proof. unfold JoinGroupMember_wf, JoinGroupMember_Encode, JoinGroupMember_Decode.
  destruct r; cbn. rt_message. Qed.
#[export] Hint Resolve JoinGroupMember_rt : wire.

Lemma JoinGroupMember_Decode_ext : extends JoinGroupMember_Decode.
Proof. unfold JoinGroupMember_Decode. extends. Qed.
#[export] Hint Resolve JoinGroupMember_Decode_ext : extends.

Lemma JoinGroupResponse_rt {W} `{WriterOk W} r : JoinGroupResponse_wf r →
  roundtrip (W:=W) (JoinGroupResponse_Encode r) JoinGroupResponse_Decode r.
Proof. unfold JoinGroupResponse_wf, JoinGroupResponse_Encode, JoinGroupResponse_Decode.
  destruct r; cbn. rt_message. Qed.
#[export] Hint Resolve JoinGroupResponse_rt : wire.

Lemma JoinGroupResponse_Decode_ext : extends JoinGroupResponse_Decode.
Proof. unfold JoinGroupResponse_Decode. extends. Qed.
#[export] Hint Resolve JoinGroupResponse_Decode_ext : extends.

#[global] Instance JoinGroupResponse_Wire : Wire JoinGroupResponse :=
  {| wire_put _ _ := JoinGroupResponse_Encode; wire_get := JoinGroupResponse_Decode; wire_wf := JoinGroupResponse_wf |}.
#[global] Instance JoinGroupResponse_WireOk : WireOk JoinGroupResponse.
Proof. split; [intros W ? ? r; apply JoinGroupResponse_rt|apply JoinGroupResponse_Decode_ext]. Qed.

Lemma SyncGroupResponse_rt {W} `{WriterOk W} r : SyncGroupResponse_wf r →
  roundtrip (W:=W) (SyncGroupResponse_Encode r) SyncGroupResponse_Decode r.
Proof. unfold SyncGroupResponse_wf, SyncGroupResponse_Encode, SyncGroupResponse_Decode.
  destruct r; cbn. rt_message. Qed.
#[export] Hint Resolve SyncGroupResponse_rt : wire.

Lemma SyncGroupResponse_Decode_ext : extends SyncGroupResponse_Decode.
Proof. unfold SyncGroupResponse_Decode. extends. Qed.
#[export] Hint Resolve SyncGroupResponse_Decode_ext : extends.

#[global] Instance SyncGroupResponse_Wire : Wire SyncGroupResponse :=
  {| wire_put _ _ := SyncGroupResponse_Encode; wire_get := SyncGroupResponse_Decode; wire_wf := SyncGroupResponse_wf |}.
#[global] Instance SyncGroupResponse_WireOk : WireOk SyncGroupResponse.
Proof. split; [intros W ? ? r; apply SyncGroupResponse_rt|apply SyncGroupResponse_Decode_ext]. Qed.

Lemma HeartbeatResponse_rt {W} `{WriterOk W} r : HeartbeatResponse_wf r →
  roundtrip (W:=W) (HeartbeatResponse_Encode r) HeartbeatResponse_Decode r.
Proof. unfold HeartbeatResponse_wf, HeartbeatResponse_Encode, HeartbeatResponse_Decode.
  destruct r; cbn. rt_message. Qed.
#[export] Hint Resolve HeartbeatResponse_rt : wire.

Lemma HeartbeatResponse_Decode_ext : extends HeartbeatResponse_Decode.
Proof. unfold HeartbeatResponse_Decode. extends. Qed.
#[export] Hint Resolve HeartbeatResponse_Decode_ext : extends.

#[global] Instance HeartbeatResponse_Wire : Wire HeartbeatResponse :=
  {| wire_put _ _ := HeartbeatResponse_Encode; wire_get := HeartbeatResponse_Decode; wire_wf := HeartbeatResponse_wf |}.
#[global] Instance HeartbeatResponse_WireOk : WireOk HeartbeatResponse.
Proof. split; [intros W ? ? r; apply HeartbeatResponse_rt|apply HeartbeatResponse_Decode_ext]. Qed.

Lemma LeaveGroupResponse_rt {W} `{WriterOk W} r : LeaveGroupResponse_wf r →
  roundtrip (W:=W) (LeaveGroupResponse_Encode r) LeaveGroupResponse_Decode r.
Proof. unfold LeaveGroupResponse_wf, LeaveGroupResponse_Encode, LeaveGroupResponse_Decode.
  destruct r; cbn. rt_message. Qed.
#[export] Hint Resolve LeaveGroupResponse_rt : wire.

Lemma LeaveGroupResponse_Decode_ext : extends LeaveGroupResponse_Decode.
Proof. unfold LeaveGroupResponse_Decode. extends. Qed.
#[export] Hint Resolve LeaveGroupResponse_Decode_ext : extends.

#[global] Instance LeaveGroupResponse_Wire : Wire LeaveGroupResponse :=
  {| wire_put _ _ := LeaveGroupResponse_Encode; wire_get := LeaveGroupResponse_Decode; wire_wf := LeaveGroupResponse_wf |}.
#[global] Instance LeaveGroupResponse_WireOk : WireOk LeaveGroupResponse.
Proof. split; [intros W ? ? r; apply LeaveGroupResponse_rt|apply LeaveGroupResponse_Decode_ext]. Qed.

Lemma OffsetCommitResponsePartition_rt {W} `{WriterOk W} r : OffsetCommitResponsePartition_wf r →
  roundtrip (W:=W) (OffsetCommitResponsePartition_Encode r) OffsetCommitResponsePartition_Decode r.
Proof. unfold OffsetCommitResponsePartition_wf, OffsetCommitResponsePartition_Encode, OffsetCommitResponsePartition_Decode.
  destruct r; cbn. rt_message. Qed.
#[export] Hint Resolve OffsetCommitResponsePartition_rt : wire.

Lemma OffsetCommitResponsePartition_Decode_ext : extends OffsetCommitResponsePartition_Decode.
Proof. unfold OffsetCommitResponsePartition_Decode. extends. Qed.
#[export] Hint Resolve OffsetCommitResponsePartition_Decode_ext : extends.

Lemma OffsetCommitResponseTopic_rt {W} `{WriterOk W} r : OffsetCommitResponseTopic_wf r →
  roundtrip (W:=W) (OffsetCommitResponseTopic_Encode r) OffsetCommitResponseTopic_Decode r.
Proof. unfold OffsetCommitResponseTopic_wf, OffsetCommitResponseTopic_Encode, OffsetCommitResponseTopic_Decode.
  destruct r; cbn. rt_message. Qed.
#[export] Hint Resolve OffsetCommitResponseTopic_rt : wire.

Lemma OffsetCommitResponseTopic_Decode_ext : extends OffsetCommitResponseTopic_Decode.
Proof. unfold OffsetCommitResponseTopic_Decode. extends. Qed.
#[export] Hint Resolve OffsetCommitResponseTopic_Decode_ext : extends.

Lemma OffsetCommitResponse_rt {W} `{WriterOk W} r : OffsetCommitResponse_wf r →
  roundtrip (W:=W) (OffsetCommitResponse_Encode r) OffsetCommitResponse_Decode r.
Proof. unfold OffsetCommitResponse_wf, OffsetCommitResponse_Encode, OffsetCommitResponse_Decode.
  destruct r; cbn. rt_message. Qed.
#[export] Hint Resolve OffsetCommitResponse_rt : wire.

Lemma OffsetCommitResponse_Decode_ext : extends OffsetCommitResponse_Decode.
Proof. unfold OffsetCommitResponse_Decode. extends. Qed.
#[export] Hint Resolve OffsetCommitResponse_Decode_ext : extends.

#[global] Instance OffsetCommitResponse_Wire : Wire OffsetCommitResponse :=
  {| wire_put _ _ := OffsetCommitResponse_Encode; wire_get := OffsetCommitResponse_Decode; wire_wf := OffsetCommitResponse_wf |}.
#[global] Instance OffsetCommitResponse_WireOk : WireOk OffsetCommitResponse.
Proof. split; [intros W ? ? r; apply OffsetCommitResponse_rt|apply OffsetCommitResponse_Decode_ext]. Qed.

Lemma OffsetFetchResponsePartition_rt {W} `{WriterOk W} r : OffsetFetchResponsePartition_wf r →
  roundtrip (W:=W) (OffsetFetchResponsePartition_Encode r) OffsetFetchResponsePartition_Decode r.
Proof. unfold OffsetFetchResponsePartition_wf, OffsetFetchResponsePartition_Encode, OffsetFetchResponsePartition_Decode.
  destruct r; cbn. rt_message. Qed.
#[export] Hint Resolve OffsetFetchResponsePartition_rt : wire.

Lemma OffsetFetchResponsePartition_Decode_ext : extends OffsetFetchResponsePartition_Decode.
Proof. unfold OffsetFetchResponsePartition_Decode. extends. Qed.
#[export] Hint Resolve OffsetFetchResponsePartition_Decode_ext : extends.

Lemma OffsetFetchResponseTopic_rt {W} `{WriterOk W} r : OffsetFetchResponseTopic_wf r →
  roundtrip (W:=W) (OffsetFetchResponseTopic_Encode r) OffsetFetchResponseTopic_Decode r.
Proof. unfold OffsetFetchResponseTopic_wf, OffsetFetchResponseTopic_Encode, OffsetFetchResponseTopic_Decode.
  destruct r; cbn. rt_message. Qed.
#[export] Hint Resolve OffsetFetchResponseTopic_rt : wire.

Lemma OffsetFetchResponseTopic_Decode_ext : extends OffsetFetchResponseTopic_Decode.
Proof. unfold OffsetFetchResponseTopic_Decode. extends. Qed.
#[export] Hint Resolve OffsetFetchResponseTopic_Decode_ext : extends.

Lemma OffsetFetchResponse_rt {W} `{WriterOk W} r : OffsetFetchResponse_wf r →
  roundtrip (W:=W) (OffsetFetchResponse_Encode r) OffsetFetchResponse_Decode r.
Proof. unfold OffsetFetchResponse_wf, OffsetFetchResponse_Encode, OffsetFetchResponse_Decode.
  destruct r; cbn. rt_message. Qed.
#[export] Hint Resolve OffsetFetchResponse_rt : wire.

Lemma OffsetFetchResponse_Decode_ext : extends OffsetFetchResponse_Decode.
Proof. unfold OffsetFetchResponse_Decode. extends. Qed.
#[export] Hint Resolve OffsetFetchResponse_Decode_ext : extends.

#[global] Instance OffsetFetchResponse_Wire : Wire OffsetFetchResponse :=
  {| wire_put _ _ := OffsetFetchResponse_Encode; wire_get := OffsetFetchResponse_Decode; wire_wf := OffsetFetchResponse_wf |}.
#[global] Instance OffsetFetchResponse_WireOk : WireOk OffsetFetchResponse.
Proof. split; [intros W ? ? r; apply OffsetFetchResponse_rt|apply OffsetFetchResponse_Decode_ext]. Qed.

Lemma ListOffsetsResponsePartition_rt {W} `{WriterOk W} r : ListOffsetsResponsePartition_wf r →
  roundtrip (W:=W) (ListOffsetsResponsePartition_Encode r) ListOffsetsResponsePartition_Decode r.
Proof. unfold ListOffsetsResponsePartition_wf, ListOffsetsResponsePartition_Encode, ListOffsetsResponsePartition_Decode.
  destruct r; cbn. rt_message. Qed.
#[export] Hint Resolve ListOffsetsResponsePartition_rt : wire.

Lemma ListOffsetsResponsePartition_Decode_ext : extends ListOffsetsResponsePartition_Decode.
Proof. unfold ListOffsetsResponsePartition_Decode. extends. Qed.
#[export] Hint Resolve ListOffsetsResponsePartition_Decode_ext : extends.

Lemma ListOffsetsResponseTopic_rt {W} `{WriterOk W} r : ListOffsetsResponseTopic_wf r →
  roundtrip (W:=W) (ListOffsetsResponseTopic_Encode r) ListOffsetsResponseTopic_Decode r.
Proof. unfold ListOffsetsResponseTopic_wf, ListOffsetsResponseTopic_Encode, ListOffsetsResponseTopic_Decode.
  destruct r; cbn. rt_message. Qed.
#[export] Hint Resolve ListOffsetsResponseTopic_rt : wire.

Lemma ListOffsetsResponseTopic_Decode_ext : extends ListOffsetsResponseTopic_Decode.
Proof. unfold ListOffsetsResponseTopic_Decode. extends. Qed.
#[export] Hint Resolve ListOffsetsResponseTopic_Decode_ext : extends.

Lemma ListOffsetsResponse_rt {W} `{WriterOk W} r : ListOffsetsResponse_wf r →
  roundtrip (W:=W) (ListOffsetsResponse_Encode r) ListOffsetsResponse_Decode r.
Proof. unfold ListOffsetsResponse_wf, ListOffsetsResponse_Encode, ListOffsetsResponse_Decode.
  destruct r; cbn. rt_message. Qed.
#[export] Hint Resolve ListOffsetsResponse_rt : wire.

Lemma ListOffsetsResponse_Decode_ext : extends ListOffsetsResponse_Decode.
Proof. unfold ListOffsetsResponse_Decode. extends. Qed.
#[export] Hint Resolve ListOffsetsResponse_Decode_ext : extends.

#[global] Instance ListOffsetsResponse_Wire : Wire ListOffsetsResponse :=
  {| wire_put _ _ := ListOffsetsResponse_Encode; wire_get := ListOffsetsResponse_Decode; wire_wf := ListOffsetsResponse_wf |}.
#[global] Instance ListOffsetsResponse_WireOk : WireOk ListOffsetsResponse.
Proof. split; [intros W ? ? r; apply ListOffsetsResponse_rt|apply ListOffsetsResponse_Decode_ext]. Qed.

(** ** All response messages *)

Inductive Response :=
  | RsProduce (r : ProduceResponse)
  | RsFetch (r : FetchResponse)
  | RsMetadata (r : MetadataResponse)
  | RsCreateTopics (r : CreateTopicsResponse)
  | RsJoinGroup (r : JoinGroupResponse)
  | RsSyncGroup (r : SyncGroupResponse)
  | RsHeartbeat (r : HeartbeatResponse)
  | RsLeaveGroup (r : LeaveGroupResponse)
  | RsOffsetCommit (r : OffsetCommitResponse)
  | RsOffsetFetch (r : OffsetFetchResponse)
  | RsListOffsets (r : ListOffsetsResponse)
  | RsApiVersions (r : ApiVersionsResponse).

(** The apiKey of the request it answers. *)
Definition response_apiKey (m : Response) : Z :=
  match m with
  | RsProduce _ => 0
  | RsFetch _ => 1
  | RsMetadata _ => 2
  | RsCreateTopics _ => 3
  | RsJoinGroup _ => 4
  | RsSyncGroup _ => 5
  | RsHeartbeat _ => 6
  | RsLeaveGroup _ => 7
  | RsOffsetCommit _ => 8
  | RsOffsetFetch _ => 9
  | RsListOffsets _ => 10
  | RsApiVersions _ => 12
  end.

Definition Response_wf (m : Response) : Prop :=
  match m with
  | RsProduce r => wire_wf r
  | RsFetch r => wire_wf r
  | RsMetadata r => wire_wf r
  | RsCreateTopics r => wire_wf r
  | RsJoinGroup r => wire_wf r
  | RsSyncGroup r => wire_wf r
  | RsHeartbeat r => wire_wf r
  | RsLeaveGroup r => wire_wf r
  | RsOffsetCommit r => wire_wf r
  | RsOffsetFetch r => wire_wf r
  | RsListOffsets r => wire_wf r
  | RsApiVersions r => wire_wf r
  end.

Definition Response_marshal (m : Response) : result bytes :=
  match m with
  | RsProduce r => marshal r
  | RsFetch r => marshal r
  | RsMetadata r => marshal r
  | RsCreateTopics r => marshal r
  | RsJoinGroup r => marshal r
  | RsSyncGroup r => marshal r
  | RsHeartbeat r => marshal r
  | RsLeaveGroup r => marshal r
  | RsOffsetCommit r => marshal r
  | RsOffsetFetch r => marshal r
  | RsListOffsets r => marshal r
  | RsApiVersions r => marshal r
  end.

(** The decoder chosen by the apiKey. *)
Definition Response_unmarshal (key : Z) (b : bytes) : result Response :=
  let as_ {A} (f : A → Response) (r : result A) := match r with Ok a => Ok (f a) | Err e => Err e end in
  match key with
  | 0 => as_ RsProduce (unmarshal b)
  | 1 => as_ RsFetch (unmarshal b)
  | 2 => as_ RsMetadata (unmarshal b)
  | 3 => as_ RsCreateTopics (unmarshal b)
  | 4 => as_ RsJoinGroup (unmarshal b)
  | 5 => as_ RsSyncGroup (unmarshal b)
  | 6 => as_ RsHeartbeat (unmarshal b)
  | 7 => as_ RsLeaveGroup (unmarshal b)
  | 8 => as_ RsOffsetCommit (unmarshal b)
  | 9 => as_ RsOffsetFetch (unmarshal b)
  | 10 => as_ RsListOffsets (unmarshal b)
  | 12 => as_ RsApiVersions (unmarshal b)
  | _ => Err (errorString "unsupported apiKey")
  end.

(** ** Claims *)


Definition sample_metadata : MetadataResponse :=
  mkMetadataResponse [mkBrokerMetadata 1 "localhost" 9092]
    [mkTopicMetadata "orders" 0 [mkPartitionMetadata 0 1 [1; 2] [1]]].

