(* ===== verification/Typed.v ===== *)
(** * Decoded messages are well-formed (src/internal/protocol)

    The decoders read whatever a peer sends. This file shows what holds of a message that a
    decoder accepts: every integer fits its field, and every string, byte slice and array has a
    length that the encoders and the callers can rely on. *)
From Stdlib Require Import ZArith Lia Strings.Byte.
From stdpp Require Import base list strings.
From S2P Require Import Prelude Codec Frame Requests Responses.
Open Scope Z_scope.

(** ** Decoders that yield values with a property *)

Definition yields {A} (P : A → Prop) (get : M bytes A) : Prop := ∀ s x s', get s = (Ok x, s') → P x.

Create HintDb typed.

Lemma yields_ret {A} (P : A → Prop) x : P x → yields P (mret x).
Proof. by intros HP s y s' [= <- _]. Qed.

Lemma yields_raise {A} (P : A → Prop) e : yields P (raise e).
Proof. by intros s x s'. Qed.

Lemma yields_bind {A B} (Q : A → Prop) (P : B → Prop) get (f : A → M bytes B) :
  yields Q get → (∀ x, Q x → yields P (f x)) → yields P (get ≫= f).
Proof.
  intros Hg Hf s y s'. unfold mbind, M_bind. destruct (get s) as [[x|] s1] eqn:E; [|done]. apply Hf. by eapply Hg.
Qed.

Lemma yields_if {A} (P : A → Prop) (b : bool) (get1 get2 : M bytes A) :
  (b = true → yields P get1) → (b = false → yields P get2) → yields P (if b then get1 else get2).
Proof. destruct b; auto. Qed.

Lemma yields_ReadFull n : 0 ≤ n → yields (λ bs, zlen bs = n) (ReadFull n).
Proof. intros Hn s bs s' E. by apply ReadFull_Ok in E as [_ ?]. Qed.

Lemma yields_repeat_n {A} (P : A → Prop) get n : yields P get → yields (λ l, length l = n ∧ Forall P l) (repeat_n n get).
Proof.
  intros Hg. induction n as [|n IH]; cbn [repeat_n]; [by apply yields_ret|].
  eapply yields_bind; [exact Hg|]. intros x Hx. eapply yields_bind; [exact IH|]. intros l [Hl HF].
  apply yields_ret. split; [by cbn; rewrite Hl|by constructor].
Qed.

(** ** The primitives *)

Lemma yields_int n : 0 < n → yields (inS (8 * n)) (get_int n).
Proof.
  intros Hn. eapply yields_bind; [apply yields_ReadFull; lia|]. intros bs Hb. apply yields_ret. rewrite <- Hb.
  apply be_signed_range. intros ->. cbn in Hb. lia.
Qed.
Lemma yields_Int8 : yields (inS 8) Int8.
Proof. by apply (yields_int 1). Qed.
Lemma yields_Int16 : yields (inS 16) Int16.
Proof. by apply (yields_int 2). Qed.
Lemma yields_Int32 : yields (inS 32) Int32.
Proof. by apply (yields_int 4). Qed.
Lemma yields_Int64 : yields (inS 64) Int64.
Proof. by apply (yields_int 8). Qed.
#[export] Hint Resolve yields_Int8 yields_Int16 yields_Int32 yields_Int64 : typed.

Lemma str_bytes_str bs : str_bytes (bytes_str bs) = bs.
Proof. apply String.list_byte_of_string_of_list_byte. Qed.

Lemma yields_String : yields str_ok GetString.
Proof.
  eapply yields_bind; [apply yields_Int16|]. intros n Hn. do 2 (apply yields_if; intros ?; [by apply yields_ret|]).
  apply yields_if; intros ?; [apply yields_raise|]. eapply yields_bind; [apply yields_ReadFull; lia|]. intros bs Hb.
  apply yields_ret. unfold str_ok. rewrite str_bytes_str. width_lia.
Qed.

Lemma yields_Bytes : yields bytes_ok Bytes.
Proof.
  eapply yields_bind; [apply yields_Int32|]. intros n Hn. do 2 (apply yields_if; intros ?; [by apply yields_ret|]).
  apply yields_if; intros ?; [apply yields_raise|]. intros s bs s' E. apply yields_ReadFull in E; [|lia]. unfold bytes_ok. lia.
Qed.

Lemma yields_ArrayHeader : yields (λ n, n ≤ MaxInt32) ArrayHeader.
Proof.
  eapply yields_bind; [apply yields_Int32|]. intros n Hn. apply yields_if; intros ?; [apply yields_raise|]. apply yields_ret. width_lia.
Qed.

Lemma yields_ReadArrayHeader : yields (λ n, n ≤ arrayCap) ReadArrayHeader.
Proof.
  eapply yields_bind; [apply yields_ArrayHeader|]. intros n Hn. apply yields_if; intros ?; [apply yields_raise|]. apply yields_ret. lia.
Qed.

Lemma yields_elems {A} (P : A → Prop) get n c : 0 ≤ c → n ≤ c → yields P get → yields (λ l, zlen l ≤ c ∧ Forall P l) (get_elems get n).
Proof.
  intros Hc Hn Hg. apply yields_if; intros ?; [by apply yields_ret|]. intros s l s' E.
  apply (yields_repeat_n P) in E as [Hl HF]; [|done]. split; [lia|done].
Qed.

Lemma yields_array {A} (P : A → Prop) get : yields P get → yields (λ l, zlen l ≤ arrayCap ∧ Forall P l) (get_array get).
Proof. intros Hg. eapply yields_bind; [apply yields_ReadArrayHeader|]. intros n Hn. by apply yields_elems. Qed.

Lemma yields_array_uncapped {A} (P : A → Prop) get : yields P get → yields (λ l, zlen l ≤ MaxInt32 ∧ Forall P l) (get_array_uncapped get).
Proof. intros Hg. eapply yields_bind; [apply yields_ArrayHeader|]. intros n Hn. by apply yields_elems. Qed.
#[export] Hint Resolve yields_String yields_Bytes yields_array yields_array_uncapped : typed.

(** Follows a decoder field by field. *)
Ltac typed :=
  repeat (eapply yields_bind; [by eauto with typed|intros ? ?]); apply yields_ret; cbn beta in *; destruct_and?;
  first [assumption|hnf; repeat match goal with |- _ ∧ _ => split end; assumption].

(** ** Requests *)

Lemma ProduceRequestPartition_typed : yields ProduceRequestPartition_wf ProduceRequestPartition_Decode.
Proof. typed. Qed.
#[export] Hint Resolve ProduceRequestPartition_typed : typed.

Lemma ProduceRequestTopic_typed : yields ProduceRequestTopic_wf ProduceRequestTopic_Decode.
Proof. typed. Qed.
#[export] Hint Resolve ProduceRequestTopic_typed : typed.

Lemma ProduceRequest_typed : yields ProduceRequest_wf ProduceRequest_Decode.
Proof. typed. Qed.
#[export] Hint Resolve ProduceRequest_typed : typed.

Lemma FetchRequestPartition_typed : yields FetchRequestPartition_wf FetchRequestPartition_Decode.
Proof. typed. Qed.
#[export] Hint Resolve FetchRequestPartition_typed : typed.

Lemma FetchRequestTopic_typed : yields FetchRequestTopic_wf FetchRequestTopic_Decode.
Proof. typed. Qed.
#[export] Hint Resolve FetchRequestTopic_typed : typed.

Lemma FetchRequest_typed : yields FetchRequest_wf FetchRequest_Decode.
Proof. typed. Qed.
#[export] Hint Resolve FetchRequest_typed : typed.

Lemma CreateTopicsRequestTopic_typed : yields CreateTopicsRequestTopic_wf CreateTopicsRequestTopic_Decode.
Proof. typed. Qed.
#[export] Hint Resolve CreateTopicsRequestTopic_typed : typed.

Lemma CreateTopicsRequest_typed : yields CreateTopicsRequest_wf CreateTopicsRequest_Decode.
Proof. typed. Qed.
#[export] Hint Resolve CreateTopicsRequest_typed : typed.

Lemma JoinGroupProtocol_typed : yields JoinGroupProtocol_wf JoinGroupProtocol_Decode.
Proof. typed. Qed.
#[export] Hint Resolve JoinGroupProtocol_typed : typed.

Lemma JoinGroupRequest_typed : yields JoinGroupRequest_wf JoinGroupRequest_Decode.
Proof. typed. Qed.
#[export] Hint Resolve JoinGroupRequest_typed : typed.

Lemma SyncGroupAssignment_typed : yields SyncGroupAssignment_wf SyncGroupAssignment_Decode.
Proof. typed. Qed.
#[export] Hint Resolve SyncGroupAssignment_typed : typed.

Lemma SyncGroupRequest_typed : yields SyncGroupRequest_wf SyncGroupRequest_Decode.
Proof. typed. Qed.
#[export] Hint Resolve SyncGroupRequest_typed : typed.

Lemma HeartbeatRequest_typed : yields HeartbeatRequest_wf HeartbeatRequest_Decode.
Proof. typed. Qed.
#[export] Hint Resolve HeartbeatRequest_typed : typed.

Lemma LeaveGroupRequest_typed : yields LeaveGroupRequest_wf LeaveGroupRequest_Decode.
Proof. typed. Qed.
#[export] Hint Resolve LeaveGroupRequest_typed : typed.

Lemma OffsetCommitRequestPartition_typed : yields OffsetCommitRequestPartition_wf OffsetCommitRequestPartition_Decode.
Proof. typed. Qed.
#[export] Hint Resolve OffsetCommitRequestPartition_typed : typed.

Lemma OffsetCommitRequestTopic_typed : yields OffsetCommitRequestTopic_wf OffsetCommitRequestTopic_Decode.
Proof. typed. Qed.
#[export] Hint Resolve OffsetCommitRequestTopic_typed : typed.

Lemma OffsetCommitRequest_typed : yields OffsetCommitRequest_wf OffsetCommitRequest_Decode.
Proof. typed. Qed.
#[export] Hint Resolve OffsetCommitRequest_typed : typed.

Lemma OffsetFetchRequestTopic_typed : yields OffsetFetchRequestTopic_wf OffsetFetchRequestTopic_Decode.
Proof. typed. Qed.
#[export] Hint Resolve OffsetFetchRequestTopic_typed : typed.

Lemma OffsetFetchRequest_typed : yields OffsetFetchRequest_wf OffsetFetchRequest_Decode.
Proof. typed. Qed.
#[export] Hint Resolve OffsetFetchRequest_typed : typed.

Lemma ListOffsetsRequestPartition_typed : yields ListOffsetsRequestPartition_wf ListOffsetsRequestPartition_Decode.
Proof. typed. Qed.
#[export] Hint Resolve ListOffsetsRequestPartition_typed : typed.

Lemma ListOffsetsRequestTopic_typed : yields ListOffsetsRequestTopic_wf ListOffsetsRequestTopic_Decode.
Proof. typed. Qed.
#[export] Hint Resolve ListOffsetsRequestTopic_typed : typed.

Lemma ListOffsetsRequest_typed : yields ListOffsetsRequest_wf ListOffsetsRequest_Decode.
Proof. typed. Qed.
#[export] Hint Resolve ListOffsetsRequest_typed : typed.

Lemma MetadataRequest_typed : yields MetadataRequest_wf MetadataRequest_Decode.
Proof.
  eapply yields_bind; [apply yields_ReadArrayHeader|]. intros n Hn. apply yields_if; intros ?; [by apply yields_ret|].
  eapply yields_bind; [apply yields_repeat_n, yields_String|]. intros l [Hl HF]. apply yields_ret.
  unfold MetadataRequest_wf. cbn [mdq_Topics]. cbn beta in Hn. split; [lia|done].
Qed.
#[export] Hint Resolve MetadataRequest_typed : typed.

(** ** Responses *)

Lemma ProduceResponsePartition_typed : yields ProduceResponsePartition_wf ProduceResponsePartition_Decode.
Proof. typed. Qed.
#[export] Hint Resolve ProduceResponsePartition_typed : typed.

Lemma ProduceResponseTopic_typed : yields ProduceResponseTopic_wf ProduceResponseTopic_Decode.
Proof. typed. Qed.
#[export] Hint Resolve ProduceResponseTopic_typed : typed.

Lemma ProduceResponse_typed : yields ProduceResponse_wf ProduceResponse_Decode.
Proof. typed. Qed.
#[export] Hint Resolve ProduceResponse_typed : typed.

Lemma FetchResponsePartition_typed : yields FetchResponsePartition_wf FetchResponsePartition_Decode.
Proof. typed. Qed.
#[export] Hint Resolve FetchResponsePartition_typed : typed.

Lemma FetchResponseTopic_typed : yields FetchResponseTopic_wf FetchResponseTopic_Decode.
Proof. typed. Qed.
#[export] Hint Resolve FetchResponseTopic_typed : typed.

Lemma FetchResponse_typed : yields FetchResponse_wf FetchResponse_Decode.
Proof. typed. Qed.
#[export] Hint Resolve FetchResponse_typed : typed.

Lemma ApiVersion_typed : yields ApiVersion_wf ApiVersion_Decode.
Proof. typed. Qed.
#[export] Hint Resolve ApiVersion_typed : typed.

Lemma ApiVersionsResponse_typed : yields ApiVersionsResponse_wf ApiVersionsResponse_Decode.
Proof. typed. Qed.
#[export] Hint Resolve ApiVersionsResponse_typed : typed.

Lemma BrokerMetadata_typed : yields BrokerMetadata_wf BrokerMetadata_Decode.
Proof. typed. Qed.
#[export] Hint Resolve BrokerMetadata_typed : typed.

Lemma PartitionMetadata_typed : yields PartitionMetadata_wf PartitionMetadata_Decode.
Proof. typed. Qed.
#[export] Hint Resolve PartitionMetadata_typed : typed.

Lemma TopicMetadata_typed : yields TopicMetadata_wf TopicMetadata_Decode.
Proof. typed. Qed.
#[export] Hint Resolve TopicMetadata_typed : typed.

Lemma MetadataResponse_typed : yields MetadataResponse_wf MetadataResponse_Decode.
Proof. typed. Qed.
#[export] Hint Resolve MetadataResponse_typed : typed.

Lemma CreateTopicResponseTopic_typed : yields CreateTopicResponseTopic_wf CreateTopicResponseTopic_Decode.
Proof. typed. Qed.
#[export] Hint Resolve CreateTopicResponseTopic_typed : typed.

Lemma CreateTopicsResponse_typed : yields CreateTopicsResponse_wf CreateTopicsResponse_Decode.
Proof. typed. Qed.
#[export] Hint Resolve CreateTopicsResponse_typed : typed.

Lemma JoinGroupMember_typed : yields JoinGroupMember_wf JoinGroupMember_Decode.
Proof. typed. Qed.
#[export] Hint Resolve JoinGroupMember_typed : typed.

Lemma JoinGroupResponse_typed : yields JoinGroupResponse_wf JoinGroupResponse_Decode.
Proof. typed. Qed.
#[export] Hint Resolve JoinGroupResponse_typed : typed.

Lemma SyncGroupResponse_typed : yields SyncGroupResponse_wf SyncGroupResponse_Decode.
Proof. typed. Qed.
#[export] Hint Resolve SyncGroupResponse_typed : typed.

Lemma HeartbeatResponse_typed : yields HeartbeatResponse_wf HeartbeatResponse_Decode.
Proof. typed. Qed.
#[export] Hint Resolve HeartbeatResponse_typed : typed.

Lemma LeaveGroupResponse_typed : yields LeaveGroupResponse_wf LeaveGroupResponse_Decode.
Proof. typed. Qed.
#[export] Hint Resolve LeaveGroupResponse_typed : typed.

Lemma OffsetCommitResponsePartition_typed : yields OffsetCommitResponsePartition_wf OffsetCommitResponsePartition_Decode.
Proof. typed. Qed.
#[export] Hint Resolve OffsetCommitResponsePartition_typed : typed.

Lemma OffsetCommitResponseTopic_typed : yields OffsetCommitResponseTopic_wf OffsetCommitResponseTopic_Decode.
Proof. typed. Qed.
#[export] Hint Resolve OffsetCommitResponseTopic_typed : typed.

Lemma OffsetCommitResponse_typed : yields OffsetCommitResponse_wf OffsetCommitResponse_Decode.
Proof. typed. Qed.
#[export] Hint Resolve OffsetCommitResponse_typed : typed.

Lemma OffsetFetchResponsePartition_typed : yields OffsetFetchResponsePartition_wf OffsetFetchResponsePartition_Decode.
Proof. typed. Qed.
#[export] Hint Resolve OffsetFetchResponsePartition_typed : typed.

Lemma OffsetFetchResponseTopic_typed : yields OffsetFetchResponseTopic_wf OffsetFetchResponseTopic_Decode.
Proof. typed. Qed.
#[export] Hint Resolve OffsetFetchResponseTopic_typed : typed.

Lemma OffsetFetchResponse_typed : yields OffsetFetchResponse_wf OffsetFetchResponse_Decode.
Proof. typed. Qed.
#[export] Hint Resolve OffsetFetchResponse_typed : typed.

Lemma ListOffsetsResponsePartition_typed : yields ListOffsetsResponsePartition_wf ListOffsetsResponsePartition_Decode.
Proof. typed. Qed.
#[export] Hint Resolve ListOffsetsResponsePartition_typed : typed.

Lemma ListOffsetsResponseTopic_typed : yields ListOffsetsResponseTopic_wf ListOffsetsResponseTopic_Decode.
Proof. typed. Qed.
#[export] Hint Resolve ListOffsetsResponseTopic_typed : typed.

Lemma ListOffsetsResponse_typed : yields ListOffsetsResponse_wf ListOffsetsResponse_Decode.
Proof. typed. Qed.
#[export] Hint Resolve ListOffsetsResponse_typed : typed.

(** ** Messages *)

Lemma unmarshal_typed {A} `{Wire A} (b : bytes) (a : A) : yields (wire_wf (A:=A)) wire_get → unmarshal b = Ok a → wire_wf a.
Proof. unfold unmarshal. intros Hy. destruct (wire_get b) as [[x|] s] eqn:E; cbn; [|done]. intros [= <-]. by eapply Hy. Qed.

(** The message decodes to itself once it is encoded again. *)
Lemma reencoded {A B} `{WireOk A} (f : A → B) (a : A) : wire_wf a →
  let as_ (r : result A) := match r with Ok a => Ok (f a) | Err e => Err e end in
  ∃ bs, marshal a = Ok bs ∧ ∀ rest, as_ (unmarshal (bs ++ rest)) = Ok (f a).
Proof. intros Hwf. destruct (marshal_unmarshal a Hwf) as (bs & E & G). exists bs. split; [done|]. intros rest. by rewrite G. Qed.

Lemma ApiVersionsRequest_typed : yields (wire_wf (A:=ApiVersionsRequest)) ApiVersionsRequest_Decode.
Proof. by apply yields_ret. Qed.
#[export] Hint Resolve ApiVersionsRequest_typed : typed.

(** The apiKey selects the constructor, and its decoder yields a well-formed value. *)
Ltac typed_message :=
  repeat case_match; try discriminate;
  match goal with E : unmarshal ?b = Ok ?a, Hk : Ok _ = Ok _ |- _ =>
    injection Hk as <-; assert (wire_wf a) by (apply (unmarshal_typed b a); [exact ltac:(eauto with typed)|exact E]);
    split; [reflexivity|split; [assumption|by apply reencoded]] end.

(** C28: whatever bytes a peer sends, a request or a response that the decoder of an apiKey
    accepts is a message of that apiKey and well-formed: integers in the range of their fields,
    strings of at most 32767 bytes, byte slices of at most 100 MiB, request arrays of at most
    100000 elements. So it can be encoded again, and decodes to itself. *)
Theorem decoded_messages_typed key b :
  (∀ m, Request_unmarshal key b = Ok m → apiKey m = key ∧ Request_wf m ∧
    ∃ bs, Request_marshal m = Ok bs ∧ ∀ rest, Request_unmarshal key (bs ++ rest) = Ok m) ∧
  (∀ m, Response_unmarshal key b = Ok m → response_apiKey m = key ∧ Response_wf m ∧
    ∃ bs, Response_marshal m = Ok bs ∧ ∀ rest, Response_unmarshal key (bs ++ rest) = Ok m).
Proof.
  split; intros m Hk; [unfold Request_unmarshal in Hk|unfold Response_unmarshal in Hk]; typed_message.
Qed.
