(* ===== verification/Server.v ===== *)
(** * The TCP server (src/internal/server/handler.go, server.go)

    [Mux.Dispatch] and the per-connection loop [handleConn]; accepting connections and
    shutting down is [ServerLife]. A connection is the bytes the client sends before it closes
    its side (or the read fails) and a writer for the responses. Deadlines are not
    modelled: one that fires ends the loop like a closed connection. *)
From Stdlib Require Import ZArith Lia Strings.Byte.
From stdpp Require Import base list strings gmap.
From S2P Require Import Prelude Files Codec Frame.
Open Scope Z_scope.

(** ** Error codes *)

Definition ErrNone : Z := 0.
Definition ErrUnknown : Z := 1.
Definition CodeOffsetOutOfRange : Z := 2.
Definition ErrCorruptMessage : Z := 3.
Definition ErrUnknownTopicOrPartition : Z := 4.
Definition ErrNotLeaderForPartition : Z := 5.
Definition ErrRequestTimedOut : Z := 6.
Definition ErrMessageTooLarge : Z := 7.
Definition ErrNotEnoughReplicas : Z := 8.
Definition ErrUnknownMemberID : Z := 9.
Definition ErrRebalanceInProgress : Z := 10.
Definition ErrIllegalGeneration : Z := 11.
Definition ErrInvalidGroupID : Z := 12.
Definition ErrUnsupportedVersion : Z := 13.
Definition ErrTopicAlreadyExists : Z := 14.
Definition ErrInvalidPartitionCount : Z := 15.
Definition ErrInvalidTopicException : Z := 17.

(** ** Dispatch *)

(** How a handler call ends: it returns a frame or nil, it returns an error, which
    may carry an [ErrorCode()] ([errors.As] finds it), or it panics. *)
Inductive outcome :=
  | Returned (out : option ResponseFrame)
  | Failed (code : option Z)
  | Panicked.

(** What goes to the logger: the message, apiKey and correlationID. *)
Definition logEntry : Type := string * Z * Z.

Section mux.
(** The state the handlers work on. *)
Context {St : Type}.

Definition HandlerFunc : Type := RequestFrame → St → outcome * St.

Record Mux := mkMux {
  handlers : gmap Z HandlerFunc;
  mux_logger : bool  (* whether a logger is configured *)
}.

Definition NewMux (logger : bool) : Mux := mkMux ∅ logger.

Definition Handle (apiKey : Z) (h : HandlerFunc) (m : Mux) : Mux :=
  mkMux (<[apiKey := h]> m.(handlers)) m.(mux_logger).

Definition log_error (m : Mux) (msg : string) (req : RequestFrame) : list logEntry :=
  if m.(mux_logger) then [(msg, req.(rqf_ApiKey), req.(rqf_CorrelationID))] else [].

Definition Dispatch (m : Mux) (req : RequestFrame) (s : St) : ResponseFrame * list logEntry * St :=
  let resp code := mkResponseFrame 0 req.(rqf_CorrelationID) code [] in
  match m.(handlers) !! req.(rqf_ApiKey) with
  | None => (resp ErrUnsupportedVersion, [], s)
  | Some h =>
      match h req s with
      | (Panicked, s') => (resp ErrUnknown, log_error m "handler panic" req, s')
      | (Failed (Some code), s') => (resp code, log_error m "handler failed" req, s')
      | (Failed None, s') => (resp ErrUnknown, log_error m "handler failed" req, s')
      | (Returned (Some out), s') =>
          (mkResponseFrame out.(rsf_Size) req.(rqf_CorrelationID) out.(rsf_ErrorCode) out.(rsf_Payload), [], s')
      | (Returned None, s') => (resp ErrNone, [], s')
      end
  end.

(** ** Connections *)

Definition DefaultMaxRequestBytes : Z := 16 * 1024 * 1024.

Context {W : Type} `{Writer W}.

(** The loop of [handleConn]; the result is [None] only when the fuel runs out. *)
Fixpoint conn_loop (fuel : nat) (m : Mux) (limit : Z) (br : bytes) (bw : bufioWriter W) (s : St) :
    option (bufioWriter W * St) :=
  match fuel with
  | O => None
  | S fuel' =>
      match ReadRequestFrameWithLimit limit br with
      | (Err _, _) => Some (bw, s)
      | (Ok req, br) =>
          let '(resp, _, s) := Dispatch m req s in
          match ResponseFrame_Write resp bw with
          | (Err _, bw) => Some (bw, s)
          | (Ok _, bw) =>
              match bufio_Flush bw with
              | (Err _, bw) => Some (bw, s)
              | (Ok _, bw) => conn_loop fuel' m limit br bw s
              end
          end
      end
  end.

(** Every turn takes a size field off the input, so its length bounds the turns. *)
Definition handleConn (m : Mux) (maxRequestBytes : Z) (input : bytes) (conn : W) (s : St) :
    option (W * St) :=
  let limit := if maxRequestBytes =? 0 then DefaultMaxRequestBytes else maxRequestBytes in
  match conn_loop (S (length input)) m limit input (NewWriterSize conn (64 * 1024)) s with
  | Some (bw, s) => Some (bw.(bw_wr), s)
  | None => None
  end.
End mux.
Arguments Mux : clear implicits.
Arguments HandlerFunc : clear implicits.

(** ** Reading consumes *)

(** A reader leaves a suffix of its input. *)
Definition consumes {A} (m : M bytes A) : Prop :=
  ∀ p r s, m p = (r, s) → ∃ used, p = used ++ s.

Create HintDb consumes.

Lemma consumes_ret {A} (a : A) : consumes (mret a).
Proof. intros p r s [= <- <-]. by exists []. Qed.
Lemma consumes_raise {A} e : consumes (A:=A) (raise e).
Proof. intros p r s [= <- <-]. by exists []. Qed.
Lemma consumes_bind {A B} (m : M bytes A) (f : A → M bytes B) :
  consumes m → (∀ a, consumes (f a)) → consumes (m ≫= f).
Proof.
  intros Hm Hf p r s. unfold mbind, M_bind. destruct (m p) as [[a|e] s'] eqn:E.
  - intros E'. apply Hm in E as [u ->]. apply Hf in E' as [u' ->]. exists (u ++ u'). by rewrite app_assoc.
  - intros [= <- <-]. by apply Hm in E.
Qed.
Lemma consumes_if {A} (b : bool) (m1 m2 : M bytes A) :
  consumes m1 → consumes m2 → consumes (if b then m1 else m2).
Proof. by destruct b. Qed.
Lemma consumes_ReadFull n : consumes (ReadFull n).
Proof.
  intros p r s. unfold ReadFull. destruct (n <=? 0); [intros [= <- <-]; by exists []|].
  destruct p as [|b p]; [intros [= <- <-]; by exists []|]. remember (b :: p) as p0.
  destruct (zlen p0 <? n); intros [= <- <-]; [exists p0; by rewrite app_nil_r|].
  exists (take (Z.to_nat n) p0). by rewrite take_drop.
Qed.
Lemma consumes_limited {A} n (m : M bytes A) : consumes m → consumes (limited n m).
Proof.
  intros Hm p r s. unfold limited. destruct (m (take (Z.to_nat n) p)) as [r' s'] eqn:E.
  intros [= <- <-]. apply Hm in E as [u E]. exists u. by rewrite app_assoc, <- E, take_drop.
Qed.
Lemma consumes_discard n : consumes (discard n).
Proof.
  intros p r s. unfold discard. destruct (zlen p <? n); intros [= <- <-].
  - exists p. by rewrite app_nil_r.
  - exists (take (Z.to_nat n) p). by rewrite take_drop.
Qed.
Lemma consumes_probe_end : consumes probe_end.
Proof. intros [|b p] r s [= <- <-]; [by exists []|by exists [b]]. Qed.
#[export] Hint Resolve consumes_ret consumes_raise consumes_ReadFull consumes_limited consumes_discard
  consumes_probe_end : consumes.

Ltac consumes := repeat first [apply consumes_bind; [|intros ?] | apply consumes_if | apply consumes_limited];
  auto with consumes.

Lemma consumes_get_int n : consumes (get_int n).
Proof. unfold get_int. consumes. Qed.
#[export] Hint Resolve consumes_get_int : consumes.

(** A frame that was read took at least its size field. *)
Lemma read_request_shrinks limit br req br' :
  ReadRequestFrameWithLimit limit br = (Ok req, br') → (length br' < length br)%nat.
Proof.
  unfold ReadRequestFrameWithLimit. unfold mbind at 1, M_bind at 1.
  destruct (Int32 br) as [[size|e] s1] eqn:E1; [|done]. intros E2.
  assert (length s1 < length br)%nat.
  { unfold Int32, get_int, mbind, M_bind in E1. destruct (ReadFull 4 br) as [[b|] s] eqn:E; [|done].
    injection E1 as _ <-. apply ReadFull_Ok in E as [-> Hl]; [|lia]. rewrite length_app. lia. }
  assert (Hs : ∃ used, s1 = used ++ br').
  { revert E2. match goal with |- ?f s1 = _ → _ => assert (Hf : consumes f); [|by intros ?%Hf] end.
    unfold Int16, Int32, GetString, Bytes, Int16, Int32. consumes. }
  destruct Hs as [used ->]. rewrite length_app in *. lia.
Qed.

(** ** Answers *)

(** A frame as the client sees it: [Write] computes the size field. *)
Definition sized (f : ResponseFrame) : ResponseFrame :=
  mkResponseFrame (10 + zlen f.(rsf_Payload)) f.(rsf_CorrelationID) f.(rsf_ErrorCode) f.(rsf_Payload).

(** What a handler promises: its codes are int16 values and its payload fits a frame. *)
Definition handler_ok {St} (h : HandlerFunc St) : Prop := ∀ req s,
  match (h req s).1 with
  | Returned (Some out) => inS 16 out.(rsf_ErrorCode) ∧ 10 + zlen out.(rsf_Payload) ≤ MaxFrameSize
  | Failed (Some code) => inS 16 code
  | _ => True
  end.
Definition mux_ok {St} (m : Mux St) : Prop := ∀ k h, m.(handlers) !! k = Some h → handler_ok h.

(** The requests handled one after the other. *)
Fixpoint answers {St} (m : Mux St) (reqs : list RequestFrame) (s : St) : list ResponseFrame * St :=
  match reqs with
  | [] => ([], s)
  | req :: reqs =>
      let '(resp, _, s) := Dispatch m req s in
      let '(resps, s) := answers m reqs s in (resp :: resps, s)
  end.

Definition request_wire (f : RequestFrame) : bytes := be_encode 4 f.(rqf_Size) ++ request_bytes f.
Definition response_wire (f : ResponseFrame) : bytes :=
  be_encode 4 (rsf_Size (sized f)) ++ response_bytes (sized f).

Lemma Dispatch_correlation {St} (m : Mux St) req s :
  rsf_CorrelationID (Dispatch m req s).1.1 = rqf_CorrelationID req.
Proof.
  unfold Dispatch. destruct (handlers m !! rqf_ApiKey req) as [h|]; [|done].
  by destruct (h req s) as [[[out|]|[code|]|] s'].
Qed.

Lemma Dispatch_wf {St} (m : Mux St) req s : mux_ok m → inS 32 req.(rqf_CorrelationID) →
  response_wf (sized (Dispatch m req s).1.1).
Proof.
  intros Hm Hc. unfold Dispatch.
  assert (Hempty : ∀ code, inS 16 code →
    response_wf (sized (mkResponseFrame 0 (rqf_CorrelationID req) code []))).
  { intros. split_and!; [done|done|done|done|by_decide]. }
  destruct (handlers m !! rqf_ApiKey req) as [h|] eqn:E; [|apply Hempty; by_decide].
  pose proof (Hm _ _ E req s) as Hh. destruct (h req s) as [[[out|]|[code|]|] s']; simpl in *.
  2-5: apply Hempty; done || by_decide.
  destruct Hh as [He Hp]. unfold MaxFrameSize in Hp.
  split_and!; simpl; [done|done|unfold bytes_ok, MaxBytesLength; lia|done|unfold MaxFrameSize; lia].
Qed.

Lemma answers_correlation {St} (m : Mux St) reqs s :
  rsf_CorrelationID <$> (answers m reqs s).1 = rqf_CorrelationID <$> reqs.
Proof.
  revert s. induction reqs as [|req reqs IH]; intros s; [done|]. simpl.
  pose proof (Dispatch_correlation m req s) as Hc.
  destruct (Dispatch m req s) as [[resp l] s1]. specialize (IH s1).
  destruct (answers m reqs s1) as [resps s2]. cbn in *. by f_equal.
Qed.

Lemma answers_wf {St} (m : Mux St) reqs s : mux_ok m →
  Forall (λ f, inS 32 f.(rqf_CorrelationID)) reqs →
  Forall (λ f, response_wf (sized f)) (answers m reqs s).1.
Proof.
  intros Hm. revert s. induction reqs as [|req reqs IH]; intros s Hreqs; [constructor|]. simpl.
  inversion_clear Hreqs as [|? ? Hc Hreqs']. pose proof (Dispatch_wf m req s Hm Hc) as Hd.
  destruct (Dispatch m req s) as [[resp l] s1]. specialize (IH s1 Hreqs').
  destruct (answers m reqs s1) as [resps s2]. simpl in *. by constructor.
Qed.

(** What the client reads from the concatenated responses. *)
Lemma read_responses resps rest : Forall (λ f, response_wf (sized f)) resps →
  repeat_n (length resps) ReadResponseFrame (concat (response_wire <$> resps) ++ rest) =
    (Ok (sized <$> resps), rest).
Proof.
  induction resps as [|r resps IH]; intros Hr; [done|]. inversion_clear Hr as [|? ? Hwf Hr'].
  cbn [repeat_n length fmap list_fmap concat]. unfold mbind at 1, M_bind at 1.
  rewrite <- app_assoc. unfold response_wire at 1. rewrite <- app_assoc, read_response_bytes by done.
  unfold mbind at 1, M_bind at 1. by rewrite (IH Hr').
Qed.

(** ** The connection loop *)

Lemma conn_loop_terminates {St W} `{Writer W} (m : Mux St) limit fuel input (bw : bufioWriter W) s :
  (length input < fuel)%nat → is_Some (conn_loop fuel m limit input bw s).
Proof.
  revert input bw s. induction fuel as [|fuel IH]; intros input bw s Hf; [lia|]. simpl.
  destruct (ReadRequestFrameWithLimit limit input) as [[req|e] br] eqn:E; [|by eexists].
  apply read_request_shrinks in E. destruct (Dispatch m req s) as [[resp l] s1].
  destruct (ResponseFrame_Write resp bw) as [[n|e] bw1]; [|by eexists].
  destruct (bufio_Flush bw1) as [[u|e] bw2]; [|by eexists]. apply IH. lia.
Qed.

Section conn.
Context {St W : Type} `{WriterOk W}.
Implicit Types (m : Mux St) (bw : bufioWriter W).

(** One response: written and flushed, whatever the size field said. *)
Lemma respond_ok f bw : response_wf (sized f) → bufio_inv bw → ∃ bw1 bw2,
  ResponseFrame_Write f bw = (Ok (4 + rsf_Size (sized f)), bw1) ∧ bufio_Flush bw1 = (Ok tt, bw2) ∧
  bufio_inv bw2 ∧ bw2.(bw_buf) = [] ∧ bufio_written bw2 = bufio_written bw ++ response_wire f.
Proof.
  intros Hwf Hb. assert (Hb' : writer_inv (W:=bufioWriter W) bw) by exact Hb.
  destruct (ResponseFrame_Write_ok (sized f) bw Hwf Hb') as (bw1 & E1 & Hb1 & Ew1).
  destruct (bufio_Flush_ok bw1 Hb1) as (bw2 & E2 & Hb2 & Eb & Ew2 & _).
  exists bw1, bw2. split_and!; [by destruct f|done|done|done|]. rewrite Ew2. apply Ew1.
Qed.

Lemma conn_loop_pipeline m limit reqs tail fuel bw s :
  mux_ok m → Forall (λ f, request_wf f ∧ (limit ≤ 0 ∨ f.(rqf_Size) ≤ limit)) reqs →
  (∃ e rest, ReadRequestFrameWithLimit limit tail = (Err e, rest)) →
  (length reqs < fuel)%nat → bufio_inv bw → bw.(bw_buf) = [] →
  ∃ bw', conn_loop fuel m limit (concat (request_wire <$> reqs) ++ tail) bw s =
      Some (bw', (answers m reqs s).2) ∧ bw'.(bw_buf) = [] ∧
    bufio_written bw' = bufio_written bw ++ concat (response_wire <$> (answers m reqs s).1).
Proof.
  intros Hm Hreqs Htail. revert fuel bw s.
  induction reqs as [|req reqs IH]; intros fuel bw s Hf Hb Hbuf; destruct fuel as [|fuel]; try (simpl in Hf; lia).
  - destruct Htail as (e & rest & E). simpl. rewrite E. exists bw. by rewrite app_nil_r.
  - inversion_clear Hreqs as [|? ? [Hwf Hlim] Hreqs'].
    cbn [conn_loop fmap list_fmap concat]. rewrite <- app_assoc. unfold request_wire at 1.
    rewrite <- app_assoc, read_request_bytes by done. cbn [answers].
    assert (Hc : inS 32 req.(rqf_CorrelationID)) by apply Hwf.
    pose proof (Dispatch_wf m req s Hm Hc) as Hd.
    destruct (Dispatch m req s) as [[resp l] s1]. cbn [fst snd] in Hd.
    destruct (respond_ok resp bw Hd Hb) as (bw1 & bw2 & -> & -> & Hb2 & Eb2 & Ew2).
    destruct (IH Hreqs' fuel bw2 s1 ltac:(simpl in Hf; lia) Hb2 Eb2) as (bw' & -> & Eb' & Ew').
    exists bw'. destruct (answers m reqs s1) as [resps s2]. cbn [fst snd] in *.
    split_and!; [done|done|]. cbn [fmap list_fmap concat]. by rewrite Ew', Ew2, app_assoc.
Qed.

Lemma length_request_wires (reqs : list RequestFrame) : (length reqs ≤ length (concat (request_wire <$> reqs)))%nat.
Proof.
  induction reqs as [|r reqs IH]; [done|].
  cbn [fmap list_fmap concat length]. rewrite length_app. unfold request_wire at 1.
  rewrite length_app, length_be_encode. lia.
Qed.
End conn.

(** ** Claims *)

(** C17: requests pipelined on one connection are answered in order, each response
    carrying the correlation id of its request, with the state threaded through the
    handlers in that order; every response is flushed before the loop waits for the
    next request, and what ends the connection (end of input, a bad frame) does not
    disturb the answers already sent. *)
Theorem handleConn_pipeline {St W} `{WriterOk W} (m : Mux St) maxRequestBytes reqs tail (conn : W) s :
  let limit := if maxRequestBytes =? 0 then DefaultMaxRequestBytes else maxRequestBytes in
  mux_ok m → Forall (λ f, request_wf f ∧ (limit ≤ 0 ∨ f.(rqf_Size) ≤ limit)) reqs →
  (∃ e rest, ReadRequestFrameWithLimit limit tail = (Err e, rest)) → writer_inv conn →
  ∃ conn' out,
    handleConn m maxRequestBytes (concat (request_wire <$> reqs) ++ tail) conn s =
      Some (conn', (answers m reqs s).2) ∧
    written conn' = written conn ++ out ∧
    repeat_n (length reqs) ReadResponseFrame out = (Ok (sized <$> (answers m reqs s).1), []) ∧
    rsf_CorrelationID <$> (answers m reqs s).1 = rqf_CorrelationID <$> reqs.
Proof.
  intros limit Hm Hreqs Htail Hw. unfold handleConn. fold limit.
  pose proof (length_request_wires reqs) as Hl.
  destruct (conn_loop_pipeline m limit reqs tail
    (S (length (concat (request_wire <$> reqs) ++ tail))) (NewWriterSize conn (64 * 1024)) s)
    as (bw' & -> & Eb & Ew); [done|done|done|rewrite length_app; lia| |done|].
  { split_and!; [done|done|done|]. simpl. lia. }
  exists (bw_wr bw'), (concat (response_wire <$> (answers m reqs s).1)). split_and!; [done| | |].
  - unfold bufio_written in Ew. by rewrite Eb, !app_nil_r in Ew.
  - pose proof (answers_correlation m reqs s) as Hc. apply (f_equal length) in Hc.
    rewrite !length_fmap in Hc. rewrite <- Hc, <- (app_nil_r (concat _)). apply read_responses.
    apply answers_wf; [done|]. eapply Forall_impl; [exact Hreqs|]. intros f [Hf _]. apply Hf.
  - apply answers_correlation.
Qed.

(** The connection loop ends on every finite input, whatever the bytes and
    whatever the handlers do. *)
Theorem handleConn_terminates {St W} `{Writer W} (m : Mux St) maxRequestBytes input (conn : W) s :
  is_Some (handleConn m maxRequestBytes input conn s).
Proof.
  unfold handleConn. destruct (conn_loop_terminates m
    (if maxRequestBytes =? 0 then DefaultMaxRequestBytes else maxRequestBytes) (S (length input)) input
    (NewWriterSize conn (64 * 1024)) s) as [[bw s'] ->]; [lia|by eexists].
Qed.

(** A mux with one handler, which numbers its calls, and one that panics. *)
Definition sample_mux : Mux Z :=
  Handle 3 (λ _ s, (Panicked, s))
    (Handle 1 (λ _ s, (Returned (Some (mkResponseFrame 0 0 ErrNone (be_encode 4 s))), s + 1)) (NewMux true)).

Lemma sample_mux_ok : mux_ok sample_mux.
Proof.
  intros k h. unfold sample_mux, Handle. simpl.
  intros [[<- <-]|[_ [[<- <-]|[_ H]]%lookup_insert_Some]]%lookup_insert_Some req s; [done| |done].
  simpl. split; [by_decide|]. rewrite length_be_encode. by_decide.
Qed.

Definition sample_reqs : list RequestFrame :=
  [mkRequestFrame 15 1 0 7 "c" []; mkRequestFrame 15 3 0 8 "c" []; mkRequestFrame 15 1 0 9 "c" []].

Lemma handleConn_pipeline_witness :
  ∃ (conn' out : bytes),
    handleConn sample_mux 0 (concat (request_wire <$> sample_reqs) ++ [x00]) [] 5 =
      Some (conn', (answers sample_mux sample_reqs 5).2) ∧
    written conn' = written ([] : bytes) ++ out ∧
    repeat_n 3 ReadResponseFrame out = (Ok (sized <$> (answers sample_mux sample_reqs 5).1), []) ∧
    rsf_CorrelationID <$> (answers sample_mux sample_reqs 5).1 = [7; 8; 9].
Proof.
  apply (handleConn_pipeline (W:=bytes) sample_mux 0 sample_reqs [x00] [] 5).
  - apply sample_mux_ok.
  - by_decide.
  - eexists _, _. by vm_compute.
  - exact I.
Defined.
