(* ===== verification/ServerLife.v ===== *)
(** The life of the TCP server (internal/server/server.go): [Start] with its accept loop, the
    goroutines of the connections and concurrent calls of [Shutdown], one atomic operation of the
    source per step.  What happens inside a connection is [Server.handleConn]. *)
From stdpp Require Import base list.
From Stdlib Require Import ZArith Lia.
From S2P Require Import Prelude.
Open Scope Z_scope.

(** ** State *)

(** Where [Start] is.  [Bound] holds a listener that the field does not have yet; [Accepted] has a
    connection, [Allowed] one that passed the limit, [Counted] one added to [activeConns]. *)
Inductive start_pc :=
  | Idle
  | Bound
  | Accepting
  | Accepted
  | Allowed
  | Counted
  | AcceptFailed
  | StartReturned (err : bool).

(** Where a call of [Shutdown] is.  [Closing] has found [done] open and is about to close it;
    [Locking] is about to look at the listener; [found] says that it was there and is closed;
    [Drained] is told that the count of handlers reached zero. *)
Inductive shutdown_pc :=
  | Entering
  | Closing
  | Locking
  | Waiting (found : bool)
  | Drained (found : bool)
  | ShutdownReturned (found err : bool).

#[global] Instance start_pc_eq_dec : EqDecision start_pc.
Proof. solve_decision. Defined.
#[global] Instance shutdown_pc_eq_dec : EqDecision shutdown_pc.
Proof. solve_decision. Defined.

(** [sv_listener]: the field is set; [sv_open]: the listener accepts.  A handler goroutine is
    serving its connection, has closed it, or has left [handleConn] and not called [wg.Done] yet. *)
Record Server := mkServer {
  sv_maxConns : Z;       (* int64 *)
  sv_activeConns : Z;    (* int64 *)
  sv_wg : Z;
  sv_done : bool;
  sv_listener : bool;
  sv_open : bool;
  sv_start : start_pc;
  sv_serving : Z;
  sv_closed : Z;
  sv_leaving : Z;
  sv_calls : list shutdown_pc;
  sv_panic : bool
}.

Definition NewServer (maxConnections : Z) : Server :=
  mkServer (int64 maxConnections) 0 0 false false false Idle 0 0 0 [] false.

Definition set_start (pc : start_pc) (s : Server) : Server :=
  mkServer s.(sv_maxConns) s.(sv_activeConns) s.(sv_wg) s.(sv_done) s.(sv_listener) s.(sv_open) pc
    s.(sv_serving) s.(sv_closed) s.(sv_leaving) s.(sv_calls) s.(sv_panic).
Definition set_listener (field opened : bool) (s : Server) : Server :=
  mkServer s.(sv_maxConns) s.(sv_activeConns) s.(sv_wg) s.(sv_done) field opened s.(sv_start)
    s.(sv_serving) s.(sv_closed) s.(sv_leaving) s.(sv_calls) s.(sv_panic).
Definition set_activeConns (n : Z) (s : Server) : Server :=
  mkServer s.(sv_maxConns) (int64 n) s.(sv_wg) s.(sv_done) s.(sv_listener) s.(sv_open) s.(sv_start)
    s.(sv_serving) s.(sv_closed) s.(sv_leaving) s.(sv_calls) s.(sv_panic).
Definition set_handlers (serving closed leaving wg : Z) (s : Server) : Server :=
  mkServer s.(sv_maxConns) s.(sv_activeConns) wg s.(sv_done) s.(sv_listener) s.(sv_open) s.(sv_start)
    serving closed leaving s.(sv_calls) s.(sv_panic).
Definition set_done (s : Server) : Server :=
  mkServer s.(sv_maxConns) s.(sv_activeConns) s.(sv_wg) true s.(sv_listener) s.(sv_open) s.(sv_start)
    s.(sv_serving) s.(sv_closed) s.(sv_leaving) s.(sv_calls) s.(sv_panic).
Definition set_calls (calls : list shutdown_pc) (s : Server) : Server :=
  mkServer s.(sv_maxConns) s.(sv_activeConns) s.(sv_wg) s.(sv_done) s.(sv_listener) s.(sv_open) s.(sv_start)
    s.(sv_serving) s.(sv_closed) s.(sv_leaving) calls s.(sv_panic).
Definition set_panic (s : Server) : Server :=
  mkServer s.(sv_maxConns) s.(sv_activeConns) s.(sv_wg) s.(sv_done) s.(sv_listener) s.(sv_open) s.(sv_start)
    s.(sv_serving) s.(sv_closed) s.(sv_leaving) s.(sv_calls) true.

(** ** Steps *)

(** What the scheduler and the environment choose: the next operation of [Start], with the outcome
    of [net.Listen] and of [Accept] ([ok]); the next operation of some handler; a new call of
    [Shutdown]; the next operation of the [i]-th call, or the end of its context. *)
Inductive server_event :=
  | EvStart (ok : bool)
  | EvConnEnds
  | EvUncount
  | EvWgDone
  | EvShutdown
  | EvCall (i : nat)
  | EvCtxDone (i : nat).

Definition conns_full (s : Server) : bool := (0 <? s.(sv_maxConns)) && (s.(sv_maxConns) <=? s.(sv_activeConns)).

(** [Start]; [Accept] on an open listener returns a connection or an error, on a closed one an
    error. *)
Definition start_step (ok : bool) (s : Server) : option Server :=
  match s.(sv_start) with
  | Idle => if ok then Some (set_listener false true (set_start Bound s)) else Some (set_start (StartReturned true) s)
  | Bound => Some (set_listener true s.(sv_open) (set_start Accepting s))
  | Accepting =>
      if ok then if s.(sv_open) then Some (set_start Accepted s) else None
      else Some (set_start AcceptFailed s)
  | AcceptFailed => Some (set_start (StartReturned (negb s.(sv_done))) s)
  | Accepted => if conns_full s then Some (set_start Accepting s) else Some (set_start Allowed s)
  | Allowed => Some (set_activeConns (s.(sv_activeConns) + 1) (set_start Counted s))
  | Counted => Some (set_handlers (s.(sv_serving) + 1) s.(sv_closed) s.(sv_leaving) (s.(sv_wg) + 1) (set_start Accepting s))
  | StartReturned _ => None
  end.

(** The deferred calls of [handleConn] and of the goroutine, in the order they run. *)
Definition conn_ends (s : Server) : option Server :=
  if 0 <? s.(sv_serving) then Some (set_handlers (s.(sv_serving) - 1) (s.(sv_closed) + 1) s.(sv_leaving) s.(sv_wg) s) else None.
Definition uncount (s : Server) : option Server :=
  if 0 <? s.(sv_closed) then
    Some (set_activeConns (s.(sv_activeConns) + -1) (set_handlers s.(sv_serving) (s.(sv_closed) - 1) (s.(sv_leaving) + 1) s.(sv_wg) s))
  else None.
Definition wg_done (s : Server) : option Server :=
  if 0 <? s.(sv_leaving) then Some (set_handlers s.(sv_serving) s.(sv_closed) (s.(sv_leaving) - 1) (s.(sv_wg) - 1) s) else None.

(** The next operation of a call of [Shutdown].  Closing a closed channel panics. *)
Definition Shutdown (i : nat) (s : Server) : option Server :=
  pc ← s.(sv_calls) !! i;
  match pc with
  | Entering => Some (set_calls (<[i := if s.(sv_done) then Locking else Closing]> s.(sv_calls)) s)
  | Closing =>
      if s.(sv_done) then Some (set_panic s)
      else Some (set_done (set_calls (<[i := Locking]> s.(sv_calls)) s))
  | Locking =>
      let s' := set_calls (<[i := Waiting s.(sv_listener)]> s.(sv_calls)) s in
      if s.(sv_listener) then Some (set_listener true false s') else Some s'
  | Waiting found => if s.(sv_wg) =? 0 then Some (set_calls (<[i := Drained found]> s.(sv_calls)) s) else None
  | Drained found => Some (set_calls (<[i := ShutdownReturned found false]> s.(sv_calls)) s)
  | ShutdownReturned _ _ => None
  end.
Definition ctx_done (i : nat) (s : Server) : option Server :=
  pc ← s.(sv_calls) !! i;
  match pc with
  | Waiting found | Drained found => Some (set_calls (<[i := ShutdownReturned found true]> s.(sv_calls)) s)
  | _ => None
  end.

Definition server_step (ev : server_event) (s : Server) : option Server :=
  if s.(sv_panic) then None
  else match ev with
       | EvStart ok => start_step ok s
       | EvConnEnds => conn_ends s
       | EvUncount => uncount s
       | EvWgDone => wg_done s
       | EvShutdown => Some (set_calls (s.(sv_calls) ++ [Entering]) s)
       | EvCall i => Shutdown i s
       | EvCtxDone i => ctx_done i s
       end.
Fixpoint server_run (evs : list server_event) (s : Server) : option Server :=
  match evs with
  | [] => Some s
  | ev :: evs => s' ← server_step ev s; server_run evs s'
  end.

(** ** The invariant *)

(** Connections that [Start] has taken and not yet handed to a goroutine. *)
Definition taken (s : Server) : Z := match s.(sv_start) with Accepted | Allowed | Counted => 1 | _ => 0 end.
Definition goroutines (s : Server) : Z := s.(sv_serving) + s.(sv_closed) + s.(sv_leaving).
(** The connections that [activeConns] counts. *)
Definition counted (s : Server) : Z := s.(sv_serving) + s.(sv_closed) + match s.(sv_start) with Counted => 1 | _ => 0 end.

(** What a call of [Shutdown] knows. *)
Definition call_ok (s : Server) (pc : shutdown_pc) : Prop :=
  match pc with
  | Entering | Closing => True
  | Locking | Waiting false | Drained false | ShutdownReturned false _ => s.(sv_done) = true
  | Waiting true | ShutdownReturned true true => s.(sv_done) = true ∧ s.(sv_listener) = true ∧ s.(sv_open) = false
  | Drained true | ShutdownReturned true false =>
      s.(sv_done) = true ∧ s.(sv_listener) = true ∧ s.(sv_open) = false ∧ goroutines s + taken s ≤ 1
  end.

Definition listener_ok (s : Server) : Prop :=
  match s.(sv_start) with
  | Idle => s.(sv_listener) = false ∧ s.(sv_open) = false
  | Bound => s.(sv_listener) = false ∧ s.(sv_open) = true
  | StartReturned err => (s.(sv_listener) = true ∨ s.(sv_open) = false) ∧ (err = false → s.(sv_done) = true)
  | _ => s.(sv_listener) = true
  end.

Record server_inv (n : Z) (s : Server) : Prop := {
  sv_max_ok : s.(sv_maxConns) = int64 n;
  sv_counts : 0 ≤ s.(sv_serving) ∧ 0 ≤ s.(sv_closed) ∧ 0 ≤ s.(sv_leaving);
  sv_wg_ok : s.(sv_wg) = goroutines s;
  sv_active_ok : s.(sv_activeConns) = int64 (counted s);
  sv_limit_ok : 0 < int64 n → counted s + (match s.(sv_start) with Allowed => 1 | _ => 0 end) ≤ int64 n;
  sv_listener_ok : listener_ok s;
  sv_closed_ok : s.(sv_listener) = true → s.(sv_open) = false → s.(sv_done) = true;
  sv_calls_ok : Forall (call_ok s) s.(sv_calls)
}.

(** ** It is kept *)

(** Operations never undo the shutdown: a closed [done] and a closed listener stay closed, and
    with a closed listener no connection is taken. *)
Definition advances (s s' : Server) : Prop :=
  (s.(sv_done) = true → s'.(sv_done) = true) ∧
  (s.(sv_listener) = true → s.(sv_open) = false →
   s'.(sv_listener) = true ∧ s'.(sv_open) = false ∧ goroutines s' + taken s' ≤ goroutines s + taken s).

Lemma call_ok_advances s s' pc : advances s s' → call_ok s pc → call_ok s' pc.
Proof.
  intros [Hd Hl]. destruct pc as [| | |[]|[]|[] []]; cbn; intuition lia.
Qed.

Lemma NewServer_inv n : server_inv n (NewServer n).
Proof. constructor; try done. unfold counted. cbn [sv_serving sv_closed sv_start NewServer]. lia. Qed.

Ltac step_cases :=
  repeat match goal with
  | H : None = Some _ |- _ => discriminate H
  | H : Some _ = Some _ |- _ => injection H as <-
  | H : (if ?b then _ else _) = Some _ |- _ => let E := fresh "E" in destruct b eqn:E
  | H : match ?pc with _ => _ end = Some _ |- _ => let E := fresh "E" in destruct pc eqn:E
  | H : ?o ≫= _ = Some _ |- _ => let pc := fresh "pc" in let E := fresh "E" in destruct o as [pc|] eqn:E; [cbn [mbind option_bind] in H|discriminate H]
  end.

Lemma server_step_advances n ev s s' : server_inv n s → server_step ev s = Some s' → advances s s'.
Proof.
  intros Hi. pose proof (sv_listener_ok _ _ Hi) as Hl. unfold listener_ok in Hl. unfold server_step, start_step, conn_ends, uncount, wg_done, Shutdown, ctx_done.
  intros H. step_cases; unfold advances, goroutines, taken; cbn; repeat case_match; cbn in *; intuition (congruence || lia).
Qed.

Ltac fields :=
  cbn [sv_maxConns sv_activeConns sv_wg sv_done sv_listener sv_open sv_start sv_serving sv_closed sv_leaving sv_calls sv_panic
       set_start set_listener set_activeConns set_handlers set_done set_calls set_panic] in *.

(** The counters. *)
Record conn_counts_ok (n : Z) (s : Server) : Prop := {
  co_max : s.(sv_maxConns) = int64 n;
  co_counts : 0 ≤ s.(sv_serving) ∧ 0 ≤ s.(sv_closed) ∧ 0 ≤ s.(sv_leaving);
  co_wg : s.(sv_wg) = goroutines s;
  co_active : s.(sv_activeConns) = int64 (counted s);
  co_limit : 0 < int64 n → counted s + (match s.(sv_start) with Allowed => 1 | _ => 0 end) ≤ int64 n
}.

Lemma conns_full_limit n s : conn_counts_ok n s → s.(sv_start) = Accepted → conns_full s = false → 0 < int64 n → counted s + 1 ≤ int64 n.
Proof.
  intros [Hm Hc _ Ha Hl] Es Hf Hn. specialize (Hl Hn). unfold conns_full in Hf. rewrite Hm, Ha in Hf. unfold counted in *. rewrite Es in *.
  pose proof (wrapS_range 64 n). rewrite (wrapS_small 64 (_ + _)) in Hf by (lia || width_lia). lia.
Qed.

Lemma server_step_counts n ev s s' : conn_counts_ok n s → server_step ev s = Some s' → conn_counts_ok n s'.
Proof.
  intros Hi. pose proof (conns_full_limit n s Hi) as Hf. destruct Hi as [Hm Hc Hw Ha Hl].
  unfold server_step, start_step, conn_ends, uncount, wg_done, Shutdown, ctx_done, goroutines, counted in *. intros H.
  destruct s as [mc ac wg dn ls op st sv cl lv calls pn]. fields.
  step_cases; constructor; unfold goroutines, counted; fields; try done; try lia;
    try (rewrite Ha, ?wrapS_add; f_equal; destruct st; lia);
    intros Hn; specialize (Hl Hn); try specialize (Hf eq_refl eq_refl Hn); destruct st; lia.
Qed.

Lemma server_step_listener ev s s' : listener_ok s → (s.(sv_listener) = true → s.(sv_open) = false → s.(sv_done) = true) → Forall (call_ok s) s.(sv_calls) →
  server_step ev s = Some s' → listener_ok s' ∧ (s'.(sv_listener) = true → s'.(sv_open) = false → s'.(sv_done) = true).
Proof.
  intros Hl Hd Hc. assert (Hlock : ∀ i, s.(sv_calls) !! i = Some Locking → s.(sv_done) = true) by (intros i Hi; exact (Forall_lookup_1 _ _ _ _ Hc Hi)).
  unfold server_step, start_step, conn_ends, uncount, wg_done, Shutdown, ctx_done, listener_ok in *. intros H. destruct s as [mc ac wg dn ls op st sv cl lv calls pn]. fields. clear Hc.
  step_cases; fields; subst; (split; [try destruct st; try destruct dn; cbn in *; intuition congruence|]); intuition (eauto || congruence).
Qed.

Lemma server_step_calls n ev s s' : server_inv n s → advances s s' → server_step ev s = Some s' → Forall (call_ok s') s'.(sv_calls).
Proof.
  intros Hi Hadv. pose proof (sv_calls_ok _ _ Hi) as Hc. pose proof (sv_counts _ _ Hi) as Hn. pose proof (sv_wg_ok _ _ Hi) as Hw. pose proof (sv_closed_ok _ _ Hi) as Hd.
  assert (Hkeep : Forall (call_ok s') s.(sv_calls)) by (eapply Forall_impl; [exact Hc|]; intros pc; by apply call_ok_advances).
  unfold server_step. destruct (sv_panic s); [done|]. destruct ev.
  1-4: unfold start_step, conn_ends, uncount, wg_done; intros H; step_cases; exact Hkeep.
  - intros [= <-]. apply Forall_app. split; [exact Hkeep|]. by constructor.
  - unfold Shutdown. intros H. step_cases; fields; try exact Hkeep; apply Forall_insert; try exact Hkeep; pose proof (Forall_lookup_1 _ _ _ _ Hc E) as Hpc; cbn in *; auto.
    + by case_match.
    + destruct found; [|done]. unfold goroutines, taken in *. fields. destruct Hpc as (? & ? & ?). repeat (split; [done|]). case_match; lia.
  - unfold ctx_done. intros H. step_cases; fields; apply Forall_insert; try exact Hkeep; pose proof (Forall_lookup_1 _ _ _ _ Hc E) as Hpc; destruct found; cbn in *; tauto.
Qed.

Lemma server_step_inv n ev s s' : server_inv n s → server_step ev s = Some s' → server_inv n s'.
Proof.
  intros Hi H. pose proof (server_step_advances n ev s s' Hi H) as Hadv. pose proof (server_step_calls n ev s s' Hi Hadv H) as Hc.
  destruct (server_step_listener ev s s' (sv_listener_ok _ _ Hi) (sv_closed_ok _ _ Hi) (sv_calls_ok _ _ Hi) H) as [Hl Hd].
  destruct Hi as [H1 H2 H3 H4 H5 _ _ _]. destruct (server_step_counts n ev s s' ltac:(by constructor) H). by constructor.
Qed.

Lemma server_run_inv n evs : ∀ s s', server_inv n s → server_run evs s = Some s' → server_inv n s' ∧ advances s s'.
Proof.
  induction evs as [|ev evs IH]; intros s s' Hi; cbn [server_run]; [intros [= <-]; split; [done|]; split; [done|]; intros; repeat split; (done || lia)|].
  destruct (server_step ev s) as [s1|] eqn:E; [|done]. cbn [mbind option_bind]. intros Hr. destruct (IH s1 s' (server_step_inv _ _ _ _ Hi E) Hr) as [Hi' [Hd Hl]].
  destruct (server_step_advances _ _ _ _ Hi E) as [Hd1 Hl1]. split; [done|]. split; [tauto|]. intros L O. destruct (Hl1 L O) as (L1 & O1 & ?). destruct (Hl L1 O1) as (? & ? & ?). repeat split; (done || lia).
Qed.

Lemma server_reachable n evs s : server_run evs (NewServer n) = Some s → server_inv n s.
Proof. intros H. by eapply server_run_inv; [apply NewServer_inv|]. Qed.

(** ** What the server promises *)

(** C33: with a positive connection limit, whatever the interleaving of the accept loop, the
    handlers and calls of [Shutdown], [activeConns] is the number of connections handed to a
    goroutine or about to be, and never exceeds the limit. *)
Theorem connection_limit n evs s : 0 < int64 n → server_run evs (NewServer n) = Some s →
  s.(sv_activeConns) = counted s ∧ 0 ≤ counted s ≤ int64 n.
Proof.
  intros Hn Hr. apply server_reachable in Hr as [Hm Hc _ Ha Hl _ _ _]. specialize (Hl Hn). pose proof (wrapS_range 64 n).
  assert (Hb : 0 ≤ counted s ≤ int64 n) by (unfold counted in *; repeat case_match; lia). split; [|done]. rewrite Ha. apply wrapS_small; [lia|width_lia].
Qed.

(** C30: a call of [Shutdown] that finds the listener and returns nil leaves a closed listener and
    at most one connection alive: one that [Accept] returned before the listener was closed.
    From then on no connection is taken, so their number only goes down. *)
Theorem shutdown_drains n evs s : server_run evs (NewServer n) = Some s → ShutdownReturned true false ∈ s.(sv_calls) →
  s.(sv_open) = false ∧ goroutines s + taken s ≤ 1 ∧
  ∀ evs' s', server_run evs' s = Some s' → s'.(sv_open) = false ∧ goroutines s' + taken s' ≤ goroutines s + taken s.
Proof.
  intros Hr Hin. apply server_reachable in Hr as Hi. pose proof (sv_calls_ok _ _ Hi) as Hc. rewrite Forall_forall in Hc. destruct (Hc _ Hin) as (_ & L & O & Hle).
  split; [done|]. split; [done|]. intros evs' s' Hr'. destruct (server_run_inv n evs' s s' Hi Hr') as [_ [_ H]]. by apply H.
Qed.

(** [Start] returns nil only after a call of [Shutdown] has closed [done], and it cannot be
    accepting any more then. *)
Theorem start_returns_nil n evs s : server_run evs (NewServer n) = Some s → s.(sv_start) = StartReturned false → s.(sv_done) = true.
Proof. intros Hr Es. apply server_reachable in Hr. pose proof (sv_listener_ok _ _ Hr) as H. unfold listener_ok in H. rewrite Es in H. by apply H. Qed.

(** ** Shutting down comes to an end *)

Definition start_rank (pc : start_pc) : nat :=
  match pc with
  | Idle | Bound => 10
  | Accepted => 8
  | Allowed => 7
  | Counted => 6
  | Accepting => 2
  | AcceptFailed => 1
  | StartReturned _ => 0
  end.
Definition call_rank (pc : shutdown_pc) : nat :=
  match pc with Entering => 5 | Closing => 4 | Locking => 3 | Waiting _ => 2 | Drained _ => 1 | ShutdownReturned _ _ => 0 end.
(** The operations that are left once the listener is closed. *)
Definition work (s : Server) : nat :=
  start_rank s.(sv_start) + Z.to_nat (3 * s.(sv_serving) + 2 * s.(sv_closed) + s.(sv_leaving)) + sum_list (call_rank <$> s.(sv_calls)) +
  (if s.(sv_panic) then 0 else 1).

Lemma call_rank_insert calls i pc pc' : calls !! i = Some pc → (call_rank pc' < call_rank pc)%nat →
  (sum_list (call_rank <$> <[i := pc']> calls) < sum_list (call_rank <$> calls))%nat.
Proof.
  revert i. induction calls as [|c calls IH]; intros [|i]; cbn; [done|done|intros [= ->] Hlt; by apply Nat.add_lt_mono_r|]. intros Hi Hlt. by apply Nat.add_lt_mono_l, IH.
Qed.

Lemma server_step_work n ev s s' : server_inv n s → s.(sv_listener) = true → s.(sv_open) = false → ev ≠ EvShutdown → server_step ev s = Some s' → (work s' < work s)%nat.
Proof.
  intros Hi L O Hev. destruct (sv_counts _ _ Hi) as (? & ? & ?). pose proof (sv_listener_ok _ _ Hi) as Hl. unfold listener_ok in Hl. unfold server_step. destruct (sv_panic s) eqn:Ep; [done|].
  destruct ev; unfold start_step, conn_ends, uncount, wg_done, Shutdown, ctx_done; intros H'; try done; step_cases; unfold work; fields; rewrite ?Ep; try rewrite E0; try rewrite E; cbn [start_rank]; try (lia || (intuition congruence)).
  all: apply Nat.add_lt_mono_r, Nat.add_lt_mono_l; eapply call_rank_insert; [exact E|]; destruct (sv_done s); cbn; lia.
Qed.

(** A server that cannot move has finished. *)
Lemma stuck_done n s : server_inv n s → s.(sv_panic) = false → (∀ ev, ev ≠ EvShutdown → server_step ev s = None) →
  (∃ err, s.(sv_start) = StartReturned err) ∧ goroutines s = 0 ∧ ∀ pc, pc ∈ s.(sv_calls) → ∃ f e, pc = ShutdownReturned f e.
Proof.
  intros Hi Hp Hs. assert (Hs' : ∀ ev, ev ≠ EvShutdown → server_step ev s = None) by done. unfold server_step in Hs. rewrite Hp in Hs. split; [|split].
  - pose proof (Hs (EvStart false) ltac:(done)) as H. cbn in H. unfold start_step in H. repeat case_match; try done. by eexists.
  - destruct (sv_counts _ _ Hi) as (C1 & C2 & C3). pose proof (Hs EvConnEnds ltac:(done)) as H1. pose proof (Hs EvUncount ltac:(done)) as H2. pose proof (Hs EvWgDone ltac:(done)) as H3.
    cbn in H1, H2, H3. unfold conn_ends, uncount, wg_done in *. unfold goroutines. destruct (Z.ltb_spec 0 (sv_serving s)), (Z.ltb_spec 0 (sv_closed s)), (Z.ltb_spec 0 (sv_leaving s)); (done || lia).
  - intros pc [i Hi']%list_elem_of_lookup. pose proof (Hs (EvCall i) ltac:(done)) as H1. pose proof (Hs (EvCtxDone i) ltac:(done)) as H2. cbn in H1, H2. unfold Shutdown, ctx_done in *.
    rewrite Hi' in H1, H2. cbn [mbind option_bind] in H1, H2. destruct pc; try done; [by destruct (sv_done s)|by destruct (sv_listener s)|by eexists _, _].
Qed.

(** [Start] that notices the closed listener returns nil. *)
Lemma start_keeps n evs : ∀ s s', server_inv n s → s.(sv_listener) = true → s.(sv_open) = false → s.(sv_start) ≠ StartReturned true → server_run evs s = Some s' →
  s'.(sv_start) ≠ StartReturned true.
Proof.
  induction evs as [|ev evs IH]; intros s s' Hi L O Hs; cbn [server_run]; [by intros [= <-]|]. destruct (server_step ev s) as [s1|] eqn:E; [|done]. cbn [mbind option_bind].
  destruct (server_step_advances n ev s s1 Hi E) as [_ Ha]. destruct (Ha L O) as (L1 & O1 & _). apply IH; [by eapply server_step_inv|done|done|].
  pose proof (sv_closed_ok _ _ Hi L O) as Hd. pose proof (sv_listener_ok _ _ Hi) as Hl. unfold listener_ok in Hl. clear IH Hi Ha.
  unfold server_step in E. destruct (sv_panic s); [done|]. destruct ev; unfold start_step, conn_ends, uncount, wg_done, Shutdown, ctx_done in E; step_cases; fields; rewrite ?Hd; cbn [negb]; intuition congruence.
Qed.

(** C34: once [Shutdown] has closed the listener, the server comes to a stop: apart from new calls
    of [Shutdown] only [work s] operations are left, and when none is possible [Start] has
    returned - nil, unless it had failed before -, no handler runs and every call of [Shutdown]
    has returned. *)
Theorem shutdown_completes n evs s : server_run evs (NewServer n) = Some s → s.(sv_listener) = true → s.(sv_open) = false →
  ∀ evs' s', EvShutdown ∉ evs' → server_run evs' s = Some s' →
  (length evs' ≤ work s)%nat ∧
  (s'.(sv_panic) = false → (∀ ev, ev ≠ EvShutdown → server_step ev s' = None) →
   goroutines s' = 0 ∧ (∀ pc, pc ∈ s'.(sv_calls) → ∃ f e, pc = ShutdownReturned f e) ∧
   ∃ err, s'.(sv_start) = StartReturned err ∧ (s.(sv_start) ≠ StartReturned true → err = false)).
Proof.
  intros Hr%server_reachable L O evs' s' Hn Hr'. split.
  - clear evs. revert s Hr L O Hr'. induction evs' as [|ev evs' IH]; intros s Hi L O; cbn [server_run length]; [lia|]. apply not_elem_of_cons in Hn as [Hev Hn].
    destruct (server_step ev s) as [s1|] eqn:E; [|done]. cbn [mbind option_bind]. destruct (server_step_advances n ev s s1 Hi E) as [_ Ha]. destruct (Ha L O) as (L1 & O1 & _).
    pose proof (server_step_work n ev s s1 Hi L O ltac:(congruence) E). intros Hr'. specialize (IH Hn s1 (server_step_inv _ _ _ _ Hi E) L1 O1 Hr'). lia.
  - intros Hp Hs. destruct (server_run_inv n evs' s s' Hr Hr') as [Hi' _]. destruct (stuck_done n s' Hi' Hp Hs) as ([err Es] & Hh & Hc). split; [done|]. split; [done|].
    exists err. split; [done|]. intros Hne. pose proof (start_keeps n evs' s s' Hr L O Hne Hr') as H. rewrite Es in H. by destruct err.
Qed.

(** [Shutdown] called before [Start] has stored its listener returns nil although the server
    then accepts connections and serves them. *)
Theorem shutdown_misses_listener n : ∃ evs s, server_run evs (NewServer n) = Some s ∧
  s.(sv_calls) = [ShutdownReturned false false] ∧ s.(sv_start) = Accepting ∧ s.(sv_open) = true ∧ s.(sv_serving) = 1.
Proof.
  exists [EvStart true; EvShutdown; EvCall 0; EvCall 0; EvCall 0; EvCall 0; EvCall 0; EvStart true; EvStart true; EvStart true; EvStart true; EvStart true].
  unfold NewServer. generalize (int64 n). intros m. destruct m; (eexists; split; [vm_compute; reflexivity|done]).
Qed.

(** Two calls of [Shutdown] at the same time can both find [done] open; the second [close] panics. *)
Lemma shutdown_race_panics n : ∃ evs s, server_run evs (NewServer n) = Some s ∧ s.(sv_panic) = true.
Proof. exists [EvShutdown; EvShutdown; EvCall 0; EvCall 1; EvCall 0; EvCall 1]. eexists. split; reflexivity. Qed.

(** ** Instances *)

(** A server with the limit 1: a connection is served, a second one turned away, the server is
    shut down while a third one has just been accepted. *)
Definition busy_events : list server_event :=
  [EvStart true; EvStart true; EvStart true; EvStart true; EvStart true; EvStart true; EvStart true; EvStart true;
   EvConnEnds; EvUncount; EvWgDone; EvStart true; EvShutdown; EvCall 0; EvCall 0; EvCall 0; EvCall 0; EvCall 0].

Lemma connection_limit_witness : ∃ s, server_run (take 8 busy_events) (NewServer 1) = Some s ∧ s.(sv_activeConns) = 1 ∧ s.(sv_activeConns) = counted s ∧ 0 ≤ counted s ≤ int64 1.
Proof.
  eexists. split; [vm_compute; reflexivity|]. split; [reflexivity|]. apply (connection_limit 1 (take 8 busy_events)); [vm_compute; reflexivity|vm_compute; reflexivity].
Defined.

Lemma shutdown_drains_witness : ∃ s, server_run busy_events (NewServer 1) = Some s ∧ s.(sv_calls) = [ShutdownReturned true false] ∧ taken s = 1 ∧
  s.(sv_open) = false ∧ goroutines s + taken s ≤ 1.
Proof.
  eexists. assert (E : server_run busy_events (NewServer 1) = Some _) by (vm_compute; reflexivity). split; [exact E|]. split; [reflexivity|]. split; [reflexivity|].
  destruct (shutdown_drains 1 busy_events _ E) as (Ho & Hh & _); [by apply list_elem_of_singleton|]. by split.
Defined.

Lemma start_returns_nil_witness : ∃ s, server_run (busy_events ++ [EvStart true; EvStart true; EvStart true; EvStart false; EvStart false]) (NewServer 1) = Some s ∧ s.(sv_serving) = 1 ∧ s.(sv_done) = true.
Proof.
  eexists. assert (E : server_run (busy_events ++ [EvStart true; EvStart true; EvStart true; EvStart false; EvStart false]) (NewServer 1) = Some _) by (vm_compute; reflexivity).
  split; [exact E|]. split; [reflexivity|]. by apply (start_returns_nil 1 _ _ E).
Defined.

Lemma shutdown_completes_witness : ∃ s s', server_run busy_events (NewServer 1) = Some s ∧
  server_run [EvStart true; EvStart true; EvStart true; EvStart false; EvStart false; EvConnEnds; EvUncount; EvWgDone] s = Some s' ∧
  s'.(sv_start) = StartReturned false ∧ (8 ≤ work s)%nat.
Proof.
  eexists _, _. assert (E : server_run busy_events (NewServer 1) = Some _) by (vm_compute; reflexivity). split; [exact E|].
  match goal with |- context [server_run ?evs ?s] => assert (E' : server_run evs s = Some _) by (vm_compute; reflexivity) end. split; [exact E'|]. split; [reflexivity|].
  refine (proj1 (shutdown_completes 1 busy_events _ E eq_refl eq_refl _ _ _ E')). repeat (apply not_elem_of_cons; split; [done|]). apply not_elem_of_nil.
Defined.
