(* ===== verification/Assignor.v ===== *)
(** * Partition assignment (src/internal/coordinator/assignor.go)

    The range and round-robin strategies behind one interface, and the encoding of
    assignments. Both strategies hand out every partition exactly once; the proof is
    shared, through the list of (member, topic, partition) triples in the order in
    which they are handed out. *)
From Stdlib Require Import ZArith Lia Strings.Byte.
From stdpp Require Import base list strings gmap sorting.
From S2P Require Import Prelude Codec.
Open Scope Z_scope.

Record PartitionAssignment := mkPartitionAssignment {
  pa_Topic : string;
  pa_Partitions : list Z  (* int32 *)
}.
Record MemberAssignment := mkMemberAssignment {
  ma_Topics : list PartitionAssignment
}.

(** ** Encoding *)

Definition put_assignment_topic (t : PartitionAssignment) : M bytes unit :=
  PutString t.(pa_Topic) ;;
  put_array (λ p, PutInt32 p ;; mret ()) t.(pa_Partitions) ;;
  mret ().

Definition EncodeAssignment (ma : MemberAssignment) : result bytes :=
  match put_array put_assignment_topic ma.(ma_Topics) [] with
  | (Ok _, buf) => Ok buf
  | (Err e, _) => Err e
  end.

(** What [make([]int32, n)] does for a negative [n]: the panic unwinds like an error. *)
Definition panicMakeslice : error := errorString "runtime error: makeslice: len out of range".

Definition get_assignment_topic : M bytes PartitionAssignment :=
  tName ← GetString;
  pCount ← ArrayHeader;
  if pCount <? 0 then raise panicMakeslice
  else partitions ← repeat_n (Z.to_nat pCount) Int32;
       mret (mkPartitionAssignment tName partitions).

Definition DecodeAssignment (data : bytes) : result MemberAssignment :=
  match data with
  | [] => Ok (mkMemberAssignment [])
  | _ => fst ((topics ← get_array_uncapped get_assignment_topic; mret (mkMemberAssignment topics)) data)
  end.

(** ** Building assignments *)

(** [memberAssignmentsMap]: member, topic, partitions. *)
Abbreviation Assignments := (gmap string (gmap string (list Z))).

Definition parts (mm : Assignments) (member topic : string) : list Z :=
  default [] (mm !! member ≫= (.!! topic)).

(** [mm[member][topic] = append(mm[member][topic], p)] *)
Definition append_part (mm : Assignments) (member topic : string) (p : Z) : Assignments :=
  <[member := <[topic := parts mm member topic ++ [p]]> (default ∅ (mm !! member))]> mm.

Definition init_assignments (members : list string) : Assignments :=
  foldl (λ mm m, <[m := ∅]> mm) ∅ members.

(** The keys of the map, sorted. *)
Definition sorted_topics (topicPartitions : gmap string Z) : list string :=
  sort_Strings (map_to_list topicPartitions).*1.

(** The last loop: the lists of every member, topics in order, empty ones left out. *)
Definition pa_list (mm : Assignments) (topics : list string) (m : string) : list PartitionAssignment :=
  foldl (λ acc topic,
    match mm !! m ≫= (.!! topic) with
    | Some (p :: ps) => acc ++ [mkPartitionAssignment topic (p :: ps)]
    | _ => acc
    end) [] topics.

Definition collect (mm : Assignments) (topics members : list string) : gmap string MemberAssignment :=
  foldl (λ result m, <[m := mkMemberAssignment (pa_list mm topics m)]> result) ∅ members.

(** [for i, x := range l] *)
Definition enumerate {A} (l : list A) : list (Z * A) := imap (λ i x, (Z.of_nat i, x)) l.

(** ** The strategies *)

Record Assignor := mkAssignor {
  assignor_Name : string;
  Assign : list string → gmap string Z → gmap string MemberAssignment
}.

Definition range_start (q r i : Z) : Z := q * i + Z.min i r.
Definition range_length (q r i : Z) : Z := if i <? r then q + 1 else q.

(** The body of the loop over topics. *)
Definition range_topic (sortedMembers : list string) (mm : Assignments) (topic : string) (numPartitions : Z) :
    Assignments :=
  if numPartitions <=? 0 then mm
  else
    let q := numPartitions / zlen sortedMembers in
    let r := numPartitions mod zlen sortedMembers in
    foldl (λ mm '(i, member),
      foldl (λ mm p, append_part mm member topic (int32 p)) mm (seqZ (range_start q r i) (range_length q r i)))
      mm (enumerate sortedMembers).

Definition RangeAssign (members : list string) (topicPartitions : gmap string Z) :
    gmap string MemberAssignment :=
  match members with
  | [] => ∅
  | _ =>
      let sortedMembers := sort_Strings members in
      let sortedTopics := sorted_topics topicPartitions in
      let mm := foldl (λ mm topic, range_topic sortedMembers mm topic (default 0 (topicPartitions !! topic)))
        (init_assignments sortedMembers) sortedTopics in
      collect mm sortedTopics sortedMembers
  end.
Definition RangeAssignor : Assignor := mkAssignor "range" RangeAssign.

Definition all_tps (topicPartitions : gmap string Z) (sortedTopics : list string) : list (string * Z) :=
  foldl (λ acc t, acc ++ ((λ p, (t, p)) <$> seqZ 0 (default 0 (topicPartitions !! t)))) [] sortedTopics.

Definition RoundRobinAssign (members : list string) (topicPartitions : gmap string Z) :
    gmap string MemberAssignment :=
  match members with
  | [] => ∅
  | _ =>
      let sortedMembers := sort_Strings members in
      let sortedTopics := sorted_topics topicPartitions in
      let allTPs := all_tps topicPartitions sortedTopics in
      let mm := foldl (λ mm '(i, (t, p)),
          append_part mm (sortedMembers !!! Z.to_nat (i mod zlen sortedMembers)) t p)
        (init_assignments sortedMembers) (enumerate allTPs) in
      collect mm sortedTopics sortedMembers
  end.
Definition RoundRobinAssignor : Assignor := mkAssignor "roundrobin" RoundRobinAssign.

Definition GetAssignor (name : string) : result Assignor :=
  if bool_decide (name = "roundrobin") then Ok RoundRobinAssignor
  else if bool_decide (name = "range" ∨ name = EmptyString) then Ok RangeAssignor
  else Err (errorString "unknown assignor strategy").

(** ** What a result gives to a member *)

(** The partitions of [topic] that the result gives to member [m]. *)
Definition assigned (r : gmap string MemberAssignment) (m topic : string) : list Z :=
  match r !! m with
  | None => []
  | Some ma => filter (λ pa, pa.(pa_Topic) = topic) ma.(ma_Topics) ≫= pa_Partitions
  end.

(** All that it gives to [m]. *)
Definition load (r : gmap string MemberAssignment) (m : string) : nat :=
  match r !! m with
  | None => 0%nat
  | Some ma => length (ma.(ma_Topics) ≫= pa_Partitions)
  end.

(** Every partition of every topic has exactly one owner, nobody gets a partition
    that does not exist or gets one twice, and every member has an entry. *)
Definition exact_assignment (members : list string) (tp : gmap string Z)
    (r : gmap string MemberAssignment) : Prop :=
  dom r = list_to_set members ∧
  (∀ t n p, tp !! t = Some n → 0 ≤ p < n →
     ∃ m, m ∈ members ∧ p ∈ assigned r m t ∧ ∀ m', p ∈ assigned r m' t → m' = m) ∧
  (∀ m t p, p ∈ assigned r m t → ∃ n, tp !! t = Some n ∧ 0 ≤ p < n) ∧
  (∀ m t, NoDup (assigned r m t)).

(** ** Handing out *)

(** What is handed out, in order. *)
Abbreviation triple := (string * (string * Z))%type.
Definition hand_out (mm : Assignments) (T : list triple) : Assignments :=
  foldl (λ mm '(m, (t, p)), append_part mm m t p) mm T.

Lemma foldl_nested {A B C} (g : A → B → A) (h : C → list B) (a : A) l :
  foldl (λ a x, foldl g a (h x)) a l = foldl g a (l ≫= h).
Proof. revert a. induction l as [|x l IH]; intros a; simpl; [done|]. by rewrite foldl_app, IH. Qed.

Lemma foldl_ext {A B} (f g : A → B → A) a l : (∀ a x, f a x = g a x) → foldl f a l = foldl g a l.
Proof. intros H. revert a. induction l as [|x l IH]; intros a; simpl; [done|]. by rewrite H, IH. Qed.

Lemma fmap_bind {A B C} (f : B → C) (g : A → list B) l : f <$> (l ≫= g) = l ≫= λ x, f <$> g x.
Proof. induction l as [|x l IH]; [done|]. cbn. by rewrite fmap_app, <- IH. Qed.

Lemma bind_ext {A B} (f g : A → list B) l : (∀ x, x ∈ l → f x = g x) → l ≫= f = l ≫= g.
Proof.
  induction l as [|x l IH]; intros H; [done|]. cbn. rewrite (H x) by left. f_equal. apply IH.
  intros. apply H. by right.
Qed.

Lemma parts_append mm m t p m' t' :
  parts (append_part mm m t p) m' t' = parts mm m' t' ++ (if decide (m = m' ∧ t = t') then [p] else []).
Proof.
  unfold append_part. destruct (decide (m = m')) as [<-|Hm].
  - unfold parts. rewrite lookup_insert_eq. simpl. destruct (decide (t = t')) as [<-|Ht].
    + rewrite lookup_insert_eq. by rewrite decide_True by done.
    + rewrite lookup_insert_ne by done. rewrite decide_False by tauto. rewrite app_nil_r.
      by destruct (mm !! m) as [g|].
  - rewrite decide_False by tauto. rewrite app_nil_r. unfold parts. by rewrite lookup_insert_ne.
Qed.

Lemma parts_hand_out T mm m t :
  parts (hand_out mm T) m t =
    parts mm m t ++ (filter (λ x : triple, x.1 = m ∧ x.2.1 = t) T).*2.*2.
Proof.
  revert mm. induction T as [|[m' [t' p]] T IH]; intros mm; simpl; [by rewrite app_nil_r|].
  rewrite IH, parts_append, <- app_assoc, filter_cons. simpl. by destruct (decide (m' = m ∧ t' = t)).
Qed.

Lemma parts_init members m t : parts (init_assignments members) m t = [].
Proof.
  unfold init_assignments.
  assert (H : ∀ mm : Assignments, (∀ t, parts mm m t = []) → ∀ t, parts (foldl (λ mm m, <[m:=∅]> mm) mm members) m t = []).
  { induction members as [|x members IH]; intros mm Hmm; [done|]. simpl. apply IH. intros t'. unfold parts.
    destruct (decide (x = m)) as [->|]; [by rewrite lookup_insert_eq|by rewrite lookup_insert_ne; [apply Hmm|]]. }
  apply H. intros t'. unfold parts. by rewrite lookup_empty.
Qed.

(** ** Collecting *)

Definition nonempty_parts (mm : Assignments) (m : string) (topics : list string) : list PartitionAssignment :=
  topics ≫= λ t, match parts mm m t with [] => [] | l => [mkPartitionAssignment t l] end.

Lemma pa_list_eq mm topics m : pa_list mm topics m = nonempty_parts mm m topics.
Proof.
  unfold pa_list.
  assert (H : ∀ acc, foldl (λ acc topic, match mm !! m ≫= (.!! topic) with
    | Some (p :: ps) => acc ++ [mkPartitionAssignment topic (p :: ps)] | _ => acc end) acc topics =
    acc ++ nonempty_parts mm m topics); [|apply H].
  induction topics as [|t topics IH]; intros acc; simpl; [by rewrite app_nil_r|].
  rewrite IH. unfold nonempty_parts, parts. simpl.
  destruct (mm !! m ≫= _) as [[|p ps]|]; simpl; [done| |done]. by rewrite <- app_assoc.
Qed.

Lemma lookup_collect mm topics members m :
  collect mm topics members !! m =
    if decide (m ∈ members) then Some (mkMemberAssignment (nonempty_parts mm m topics)) else None.
Proof.
  unfold collect.
  assert (H : ∀ r : gmap string MemberAssignment,
    foldl (λ result m, <[m := mkMemberAssignment (pa_list mm topics m)]> result) r members !! m =
    if decide (m ∈ members) then Some (mkMemberAssignment (nonempty_parts mm m topics)) else r !! m).
  { induction members as [|x members IH]; intros r; cbn [foldl]; [by rewrite decide_False by apply not_elem_of_nil|].
    rewrite IH. destruct (decide (m ∈ members)) as [Hin|Hin].
    - rewrite decide_True by by right. done.
    - destruct (decide (x = m)) as [->|Hx].
      + rewrite lookup_insert_eq, decide_True by left. by rewrite pa_list_eq.
      + rewrite lookup_insert_ne by done. rewrite decide_False; [done|]. intros [->|?]%elem_of_cons; done. }
  rewrite H. by destruct (decide (m ∈ members)).
Qed.

Lemma nonempty_cons mm m t l : nonempty_parts mm m (t :: l) =
  match parts mm m t with [] => [] | ps => [mkPartitionAssignment t ps] end ++ nonempty_parts mm m l.
Proof. done. Qed.

Lemma nonempty_none mm m t l : t ∉ l → filter (λ pa, pa.(pa_Topic) = t) (nonempty_parts mm m l) = [].
Proof.
  induction l as [|x l IH]; intros Hx; [done|]. apply not_elem_of_cons in Hx as [Hx Hl].
  rewrite nonempty_cons, filter_app, (IH Hl), app_nil_r.
  destruct (parts mm m x); [done|]. by rewrite filter_cons_False by (simpl; congruence).
Qed.

Lemma nonempty_filter mm m t topics : NoDup topics → t ∈ topics →
  filter (λ pa, pa.(pa_Topic) = t) (nonempty_parts mm m topics) ≫= pa_Partitions = parts mm m t.
Proof.
  induction topics as [|x topics IH]; intros Hnd Hin; [by apply not_elem_of_nil in Hin|].
  apply NoDup_cons in Hnd as [Hx Hnd].
  rewrite nonempty_cons, filter_app, bind_app. apply elem_of_cons in Hin as [->|Hin].
  - rewrite (nonempty_none mm m x topics) by done. destruct (parts mm m x) as [|p ps]; [done|].
    rewrite filter_cons_True by done. cbn. by rewrite !app_nil_r.
  - rewrite (IH Hnd Hin). destruct (parts mm m x); [done|].
    rewrite filter_cons_False; [done|]. simpl. by intros ->.
Qed.

Lemma nonempty_all mm m topics : nonempty_parts mm m topics ≫= pa_Partitions = topics ≫= parts mm m.
Proof.
  induction topics as [|x topics IH]; [done|]. rewrite nonempty_cons, bind_app, IH. cbn.
  f_equal. destruct (parts mm m x); [done|]. cbn. by rewrite app_nil_r.
Qed.

(** ** The two strategies as lists of triples *)

Definition tps (tp : gmap string Z) (topics : list string) : list (string * Z) :=
  topics ≫= λ t, pair t <$> seqZ 0 (default 0 (tp !! t)).

Definition range_triples (members : list string) (topic : string) (n : Z) : list triple :=
  let q := n / zlen members in let r := n mod zlen members in
  enumerate members ≫= λ '(i, m), (λ p, (m, (topic, p))) <$> seqZ (range_start q r i) (range_length q r i).

Definition rr_triples (members : list string) (l : list (string * Z)) : list triple :=
  (λ '(i, tp), (members !!! Z.to_nat (i mod zlen members), tp)) <$> enumerate l.

Lemma all_tps_eq tp topics : all_tps tp topics = tps tp topics.
Proof.
  unfold all_tps.
  assert (H : ∀ acc, foldl (λ acc t, acc ++ ((λ p, (t, p)) <$> seqZ 0 (default 0 (tp !! t)))) acc topics =
    acc ++ tps tp topics); [|apply H].
  induction topics as [|t topics IH]; intros acc; [by rewrite app_nil_r|].
  cbn [foldl]. rewrite IH, <- app_assoc. done.
Qed.

Lemma fst_enumerate {A} (l : list A) : (enumerate l).*1 = seqZ 0 (zlen l).
Proof.
  unfold enumerate. rewrite fmap_imap. apply list_eq. intros i.
  rewrite list_lookup_imap. destruct (l !! i) as [x|] eqn:E; simpl.
  - apply lookup_lt_Some in E. symmetry. apply lookup_seqZ. lia.
  - apply lookup_ge_None in E. symmetry. apply lookup_seqZ_ge. lia.
Qed.

Lemma snd_enumerate {A} (l : list A) : (enumerate l).*2 = l.
Proof.
  unfold enumerate. rewrite fmap_imap. apply list_eq. intros i. rewrite list_lookup_imap. by destruct (l !! i).
Qed.

(** Consecutive intervals. *)
Lemma seqZ_chain (start len : Z → Z) (k : nat) :
  start 0 = 0 → (∀ i, 0 ≤ i < Z.of_nat k → 0 ≤ len i ∧ start (i + 1) = start i + len i) →
  (seqZ 0 (Z.of_nat k) ≫= λ i, seqZ (start i) (len i)) = seqZ 0 (start (Z.of_nat k)) ∧ 0 ≤ start (Z.of_nat k).
Proof.
  intros H0 Hstep. induction k as [|k IH].
  { change (Z.of_nat 0) with 0. by rewrite H0. }
  destruct IH as [IH Hpos]; [intros; apply Hstep; lia|]. destruct (Hstep (Z.of_nat k)) as [Hl Hs]; [lia|].
  replace (Z.of_nat (S k)) with (Z.of_nat k + 1) by lia. rewrite (seqZ_app 0 (Z.of_nat k) 1), bind_app, IH by lia.
  rewrite Hs, (seqZ_app 0 (start (Z.of_nat k)) (len (Z.of_nat k))), !Z.add_0_l by lia.
  split; [|lia]. assert (seqZ (Z.of_nat k) 1 = [Z.of_nat k]) as -> by done.
  cbn [mbind list_bind]. by rewrite app_nil_r.
Qed.

Lemma range_chain n (k : nat) : (0 < k)%nat → 0 ≤ n →
  let q := n / Z.of_nat k in let r := n mod Z.of_nat k in
  (seqZ 0 (Z.of_nat k) ≫= λ i, seqZ (range_start q r i) (range_length q r i)) = seqZ 0 n.
Proof.
  intros Hk Hn q r. pose proof (Z.mod_pos_bound n (Z.of_nat k) ltac:(lia)) as Hr. fold r in Hr.
  assert (Hq : 0 ≤ q) by (apply Z.div_pos; lia).
  destruct (seqZ_chain (range_start q r) (range_length q r) k) as [-> _].
  - unfold range_start. lia.
  - intros i Hi. unfold range_start, range_length. destruct (Z.ltb_spec i r); split; lia.
  - f_equal. unfold range_start. pose proof (Z.div_mod n (Z.of_nat k) ltac:(lia)) as Hdm. fold q r in Hdm. lia.
Qed.

Lemma snd_range_triples members topic n : members ≠ [] → 0 ≤ n →
  (range_triples members topic n).*2 = pair topic <$> seqZ 0 n.
Proof.
  intros Hm Hn. unfold range_triples. rewrite <- (range_chain n (length members)) by (done || (destruct members; simpl; [done|lia])).
  cbn zeta. rewrite <- fst_enumerate. rewrite list_fmap_bind, !fmap_bind.
  apply bind_ext. intros [i m] _. simpl. rewrite <- list_fmap_compose. done.
Qed.

Lemma snd_rr_triples members l : (rr_triples members l).*2 = l.
Proof.
  unfold rr_triples. rewrite <- list_fmap_compose. rewrite <- (snd_enumerate l) at 2.
  apply list_fmap_ext. by intros ? [i tp] _.
Qed.

(** Narrowing to int32 keeps the partition numbers. *)
Lemma range_topic_eq members mm topic n : members ≠ [] → inS 32 n →
  range_topic members mm topic n = hand_out mm (range_triples members topic (Z.max 0 n)).
Proof.
  intros Hm Hn. unfold range_topic. destruct (Z.leb_spec n 0) as [Hle|Hlt].
  { rewrite Z.max_l by done. pose proof (snd_range_triples members topic 0 Hm ltac:(lia)) as E.
    by rewrite (fmap_nil_inv _ _ E). }
  rewrite Z.max_r by lia. pose proof (snd_range_triples members topic n Hm ltac:(lia)) as E.
  set (g := λ mm '((m, (t, p)) : triple), append_part mm m t (int32 p)).
  transitivity (foldl g mm (range_triples members topic n)).
  - unfold range_triples. rewrite <- foldl_nested. apply foldl_ext. intros mm' [i m].
    by rewrite foldl_fmap.
  - unfold hand_out. assert (Hp : Forall (λ x : triple, inS 32 x.2.2) (range_triples members topic n)).
    { apply Forall_forall. intros x Hx. apply (list_elem_of_fmap_2 snd) in Hx. rewrite E in Hx.
      apply list_elem_of_fmap in Hx as (p & -> & Hp%elem_of_seqZ). simpl. width_lia. }
    clear E. revert mm. induction Hp as [|[m [t p]] T Hx _ IH]; intros mm; [done|]. simpl.
    rewrite IH. by rewrite wrapS_small by (done || lia).
Qed.

(** ** Exactly once *)

(** The partitions of topic [t] handed to [m]. *)
Definition handed (T : list triple) (m t : string) : list Z :=
  (filter (λ x : triple, x.1 = m ∧ x.2.1 = t) T).*2.*2.

Lemma elem_of_handed T m t p : p ∈ handed T m t ↔ (m, (t, p)) ∈ T.
Proof.
  unfold handed. rewrite <- list_fmap_compose, list_elem_of_fmap. split.
  - intros ([m' [t' p']] & -> & [[<- <-] H]%list_elem_of_filter). done.
  - intros H. exists (m, (t, p)). split; [done|]. by apply list_elem_of_filter.
Qed.

Lemma NoDup_handed T m t : NoDup T.*2 → NoDup (handed T m t).
Proof.
  induction T as [|[m' [t' p]] T IH]; intros Hnd; [constructor|]. cbn in Hnd. apply NoDup_cons in Hnd as [Hx Hnd].
  unfold handed. rewrite filter_cons. destruct (decide _) as [[E1 E2]|_]; [|by apply IH].
  cbn in *. subst. apply NoDup_cons. split; [|by apply IH]. change (p ∉ handed T m t).
  rewrite elem_of_handed. intros H. apply Hx. by apply (list_elem_of_fmap_2 snd) in H.
Qed.

Lemma elem_of_tps tp topics t p :
  (∀ t, t ∈ topics ↔ is_Some (tp !! t)) → (t, p) ∈ tps tp topics ↔ ∃ n, tp !! t = Some n ∧ 0 ≤ p < n.
Proof.
  intros Ht. unfold tps. rewrite list_elem_of_bind. split.
  - intros (t' & [p' [[= <- <-] Hp%elem_of_seqZ]]%list_elem_of_fmap & [n Hn]%Ht).
    rewrite Hn in Hp. simpl in Hp. exists n. split; [done|lia].
  - intros (n & Hn & Hp). exists t. split; [|by apply Ht; eexists].
    apply list_elem_of_fmap. exists p. split; [done|]. rewrite Hn. simpl. apply elem_of_seqZ. lia.
Qed.

Lemma NoDup_tps tp topics : NoDup topics → NoDup (tps tp topics).
Proof.
  induction topics as [|t topics IH]; intros Hnd; [constructor|]. apply NoDup_cons in Hnd as [Ht Hnd].
  cbn. apply NoDup_app. split_and!; [| |by apply IH].
  - apply NoDup_fmap_2; [by intros ? ? [= ->]|]. apply NoDup_seqZ.
  - intros [t' p] [p' [[= -> ->] _]]%list_elem_of_fmap (t2 & [? [[= <- <-] _]]%list_elem_of_fmap & H)%list_elem_of_bind.
    done.
Qed.

Lemma NoDup_snd_unique (T : list triple) m m' x : NoDup T.*2 → (m, x) ∈ T → (m', x) ∈ T → m = m'.
Proof.
  intros Hnd [i Hi]%list_elem_of_lookup [j Hj]%list_elem_of_lookup.
  assert (i = j) as ->; [|congruence].
  eapply NoDup_lookup; [exact Hnd| |]; rewrite list_lookup_fmap; [by rewrite Hi|by rewrite Hj].
Qed.

Section exact.
Context (members ms topics : list string) (tp : gmap string Z) (T : list triple).
Hypothesis (Hperm : ms ≡ₚ members) (Hnd : NoDup topics).
Hypothesis (Ht : ∀ t, t ∈ topics ↔ is_Some (tp !! t)).
Hypothesis (HT : T.*2 = tps tp topics) (Hms : Forall (λ x : triple, x.1 ∈ ms) T).

Definition given : gmap string MemberAssignment :=
  collect (hand_out (init_assignments ms) T) topics ms.

Lemma in_T m t p : (m, (t, p)) ∈ T → m ∈ ms ∧ ∃ n, tp !! t = Some n ∧ 0 ≤ p < n.
Proof.
  intros H. split; [exact (proj1 (Forall_forall _ _) Hms _ H)|]. apply (elem_of_tps tp topics); [done|].
  rewrite <- HT. by apply (list_elem_of_fmap_2 snd) in H.
Qed.

Lemma handed_nil m t : (∀ p, (m, (t, p)) ∉ T) → handed T m t = [].
Proof.
  intros H. destruct (handed T m t) as [|p l] eqn:E; [done|]. exfalso. apply (H p), elem_of_handed.
  rewrite E. left.
Qed.

Lemma assigned_given m t : assigned given m t = handed T m t.
Proof.
  unfold assigned, given. rewrite lookup_collect. destruct (decide (m ∈ ms)) as [Hm|Hm]; simpl.
  2: { symmetry. apply handed_nil. by intros p [? _]%in_T. }
  destruct (decide (t ∈ topics)) as [Hin|Hin].
  - rewrite nonempty_filter by done. by rewrite parts_hand_out, parts_init.
  - rewrite nonempty_none by done. symmetry. apply handed_nil.
    intros p (_ & n & Hn & _)%in_T. apply Hin, Ht. by eexists.
Qed.

Lemma given_exact : exact_assignment members tp given.
Proof.
  assert (HND : NoDup T.*2) by (rewrite HT; by apply NoDup_tps).
  split_and!.
  - unfold given. apply set_eq. intros m. rewrite elem_of_dom, lookup_collect, elem_of_list_to_set, <- Hperm.
    destruct (decide (m ∈ ms)); by split.
  - intros t n p Hn Hp. assert (Hin : (t, p) ∈ T.*2) by (rewrite HT; apply elem_of_tps; eauto).
    apply list_elem_of_fmap in Hin as ([m x] & [= <-] & Hin). exists m.
    rewrite assigned_given, elem_of_handed. split_and!; [rewrite <- Hperm; by apply in_T in Hin as []|done|].
    intros m'. rewrite assigned_given, elem_of_handed. intros H'. by eapply NoDup_snd_unique.
  - intros m t p. rewrite assigned_given, elem_of_handed. by intros [_ H]%in_T.
  - intros m t. rewrite assigned_given. by apply NoDup_handed.
Qed.
End exact.

(** Members and topics as the strategies sort them. *)
Lemma sort_Strings_perm l : sort_Strings l ≡ₚ l.
Proof. apply merge_sort_Permutation. Qed.

Lemma sorted_topics_spec tp :
  NoDup (sorted_topics tp) ∧ ∀ t, t ∈ sorted_topics tp ↔ is_Some (tp !! t).
Proof.
  unfold sorted_topics. split.
  - rewrite sort_Strings_perm. apply NoDup_fst_map_to_list.
  - intros t. rewrite sort_Strings_perm, list_elem_of_fmap. split.
    + intros ([t' n] & -> & H%elem_of_map_to_list). by eexists.
    + intros [n H]. exists (t, n). split; [done|]. by apply elem_of_map_to_list.
Qed.

Definition range_all (ms topics : list string) (tp : gmap string Z) : list triple :=
  topics ≫= λ t, range_triples ms t (Z.max 0 (default 0 (tp !! t))).

Lemma RangeAssign_eq members tp : members ≠ [] → (∀ t n, tp !! t = Some n → inS 32 n) →
  let ms := sort_Strings members in let topics := sorted_topics tp in
  RangeAssign members tp = given ms topics (range_all ms topics tp) ∧
  (range_all ms topics tp).*2 = tps tp topics ∧
  Forall (λ x : triple, x.1 ∈ ms) (range_all ms topics tp).
Proof.
  intros Hm Hn ms topics.
  assert (Hms : ms ≠ []).
  { intros E. apply Hm. apply Permutation_nil_r. rewrite <- (sort_Strings_perm members). fold ms. by rewrite E. }
  assert (Hn' : ∀ t, inS 32 (default 0 (tp !! t))) by (intros t; destruct (tp !! t) eqn:E; [eauto|by_decide]).
  split_and!.
  - unfold RangeAssign. destruct members as [|x l]; [done|]. fold ms topics. unfold given, hand_out, range_all.
    f_equal. rewrite <- foldl_nested. apply foldl_ext. intros mm t. by apply range_topic_eq.
  - unfold range_all, tps. rewrite fmap_bind. apply bind_ext. intros t _.
    rewrite snd_range_triples by (done || lia). f_equal.
    destruct (Z.max_spec 0 (default 0 (tp !! t))) as [[? ->]|[? ->]]; [done|].
    by rewrite !seqZ_nil by lia.
  - apply Forall_forall. intros x (t & (y & Hx & Hy)%list_elem_of_bind & _)%list_elem_of_bind.
    destruct y as [i m]. apply list_elem_of_fmap in Hx as (p & -> & _). simpl.
    apply (list_elem_of_fmap_2 snd) in Hy. by rewrite snd_enumerate in Hy.
Qed.

Lemma RoundRobinAssign_eq members tp : members ≠ [] →
  let ms := sort_Strings members in let topics := sorted_topics tp in
  RoundRobinAssign members tp = given ms topics (rr_triples ms (tps tp topics)) ∧
  Forall (λ x : triple, x.1 ∈ ms) (rr_triples ms (tps tp topics)).
Proof.
  intros Hm ms topics.
  assert (Hms : (0 < length ms)%nat).
  { unfold ms. rewrite sort_Strings_perm. destruct members; simpl; [done|lia]. }
  split.
  - unfold RoundRobinAssign. destruct members as [|x l]; [done|]. fold ms topics. unfold given, hand_out, rr_triples.
    f_equal. rewrite foldl_fmap, all_tps_eq. apply foldl_ext. by intros mm [i [t p]].
  - unfold rr_triples. apply Forall_fmap, Forall_forall. intros [i x] _. simpl.
    apply list_elem_of_lookup_total. exists (Z.to_nat (i mod zlen ms)). split; [|done].
    pose proof (Z.mod_pos_bound i (zlen ms)). lia.
Qed.

(** ** Balance *)

Lemma handed_app T1 T2 m t : handed (T1 ++ T2) m t = handed T1 m t ++ handed T2 m t.
Proof. unfold handed. by rewrite filter_app, !fmap_app. Qed.

Lemma handed_none T m t : Forall (λ x : triple, x.1 ≠ m ∨ x.2.1 ≠ t) T → handed T m t = [].
Proof.
  induction 1 as [|x T Hx _ IH]; [done|]. unfold handed in *. rewrite filter_cons_False by tauto. done.
Qed.

Lemma handed_all (m t : string) (l : list Z) : handed ((λ p, (m, (t, p))) <$> l) m t = l.
Proof.
  induction l as [|p l IH]; [done|]. unfold handed in *. rewrite fmap_cons, filter_cons_True by done.
  cbn. by rewrite IH.
Qed.

(** Of a concatenation of blocks, only the block of one key matters. *)
Lemma handed_bind {A} (h : A → list triple) (l : list A) a m t : NoDup l → a ∈ l →
  (∀ b, b ∈ l → b ≠ a → handed (h b) m t = []) → handed (l ≫= h) m t = handed (h a) m t.
Proof.
  induction l as [|b l IH]; intros Hnd Hin Hb; [by apply not_elem_of_nil in Hin|].
  apply NoDup_cons in Hnd as [Hx Hnd]. rewrite bind_cons, handed_app.
  apply elem_of_cons in Hin as [->|Hin].
  - assert (handed (l ≫= h) m t = []) as ->; [|by rewrite app_nil_r].
    assert (Hl : ∀ c, c ∈ l → handed (h c) m t = []) by (intros c Hc; apply Hb; [by right|by intros ->]).
    clear -Hl. induction l as [|c l IH]; [done|]. rewrite bind_cons, handed_app, Hl by left. apply IH. intros. apply Hl. by right.
  - rewrite Hb; [|by left|by intros ->]. apply IH; [done|done|]. intros. apply Hb; [by right|done].
Qed.

Lemma handed_range ms topics tp (i : nat) m t : NoDup ms → NoDup topics → t ∈ topics → ms !! i = Some m →
  let n := Z.max 0 (default 0 (tp !! t)) in
  handed (range_all ms topics tp) m t =
    seqZ (range_start (n / zlen ms) (n mod zlen ms) (Z.of_nat i)) (range_length (n / zlen ms) (n mod zlen ms) (Z.of_nat i)).
Proof.
  intros Hms Hts Ht Hi n. unfold range_all. rewrite (handed_bind _ topics t); [|done|done|].
  2: { intros b _ Hb. apply handed_none, Forall_forall. intros x (y & Hy & _)%list_elem_of_bind.
       destruct y as [j m']. apply list_elem_of_fmap in Hy as (p & -> & _). by right. }
  unfold range_triples. fold n. rewrite (handed_bind _ (enumerate ms) (Z.of_nat i, m)).
  - apply handed_all.
  - apply (NoDup_fmap_1 fst). rewrite fst_enumerate. apply NoDup_seqZ.
  - apply list_elem_of_lookup. exists i. unfold enumerate. by rewrite list_lookup_imap, Hi.
  - intros [j m'] [k Hk]%list_elem_of_lookup Hne. unfold enumerate in Hk. rewrite list_lookup_imap in Hk.
    destruct (ms !! k) as [y|] eqn:Ek; [|done]. simpl in Hk. simplify_eq.
    apply handed_none, Forall_forall. intros x (p & -> & _)%list_elem_of_fmap. left. simpl. intros ->.
    apply Hne. by rewrite (NoDup_lookup _ _ _ _ Hms Ek Hi).
Qed.

(** How often the round robin comes to the [j]-th member. *)
Lemma round_robin_step N k j : 0 < k → 0 ≤ j < k → 0 ≤ N →
  (N + 1) / k + (if j <? (N + 1) mod k then 1 else 0) =
    N / k + (if j <? N mod k then 1 else 0) + (if N mod k =? j then 1 else 0).
Proof.
  intros Hk Hj HN. pose proof (Z.mod_pos_bound N k Hk) as Hr. pose proof (Z.div_mod N k ltac:(lia)) as Hd.
  destruct (Z.eq_dec (N mod k) (k - 1)) as [E|E].
  - assert (N + 1 = k * (N / k + 1) + 0) as HN1 by lia.
    rewrite <- (Z.div_unique (N + 1) k (N / k + 1) 0), <- (Z.mod_unique (N + 1) k (N / k + 1) 0) by lia.
    rewrite E. destruct (Z.ltb_spec j 0), (Z.ltb_spec j (k - 1)), (Z.eqb_spec (k - 1) j); lia.
  - assert (N + 1 = k * (N / k) + (N mod k + 1)) as HN1 by lia.
    rewrite <- (Z.div_unique (N + 1) k (N / k) (N mod k + 1)),
      <- (Z.mod_unique (N + 1) k (N / k) (N mod k + 1)) by lia.
    destruct (Z.ltb_spec j (N mod k + 1)), (Z.ltb_spec j (N mod k)), (Z.eqb_spec (N mod k) j); lia.
Qed.

Lemma rr_count ms (l : list (string * Z)) (j : nat) m : NoDup ms → ms !! j = Some m →
  zlen (filter (λ x : triple, x.1 = m) (rr_triples ms l)) =
    zlen l / zlen ms + (if Z.of_nat j <? zlen l mod zlen ms then 1 else 0).
Proof.
  intros Hnd Hj. pose proof (lookup_lt_Some _ _ _ Hj) as Hlt.
  induction l as [|x l IH] using rev_ind.
  { simpl. rewrite Z.div_0_l, Z.mod_0_l by lia. by destruct (Z.ltb_spec (Z.of_nat j) 0); [lia|]. }
  unfold rr_triples, enumerate in *. rewrite imap_app, fmap_app, filter_app, length_app, Nat2Z.inj_add, IH.
  rewrite length_app, Nat2Z.inj_add. cbn [length Nat.add imap fmap list_fmap].
  change (Z.of_nat 1) with 1. rewrite round_robin_step by lia. f_equal. cbn. rewrite Nat.add_0_r.
  pose proof (Z.mod_pos_bound (zlen l) (zlen ms) ltac:(lia)) as Hr.
  destruct (Z.eqb_spec (zlen l mod zlen ms) (Z.of_nat j)) as [E|E].
  - rewrite E, Nat2Z.id, (list_lookup_total_correct _ _ _ Hj). by rewrite decide_True.
  - rewrite decide_False; [done|]. intros Em. apply E.
    destruct (lookup_lt_is_Some_2 ms (Z.to_nat (zlen l mod zlen ms)) ltac:(lia)) as [m' Hm'].
    rewrite (list_lookup_total_correct _ _ _ Hm') in Em. subst m'.
    assert (Z.to_nat (zlen l mod zlen ms) = j) by (by eapply NoDup_lookup). lia.
Qed.

(** The total of a member, from its lists per topic. *)
Lemma load_sum (T : list triple) (topics : list string) m :
  NoDup topics → Forall (λ x : triple, x.2.1 ∈ topics) T →
  length (topics ≫= handed T m) = length (filter (λ x : triple, x.1 = m) T).
Proof.
  intros Hnd. induction T as [|[m' [t p]] T IH]; intros HT.
  { assert ((topics ≫= handed [] m) = []) as ->; [|done]. clear. induction topics; [done|]. done. }
  inversion_clear HT as [|? ? Ht HT']. cbn in Ht. rewrite filter_cons. cbn [fst].
  assert (Hstep : ∀ l, NoDup l → length (l ≫= handed ((m', (t, p)) :: T) m) =
    (length (l ≫= handed T m) + if decide (m' = m ∧ t ∈ l) then 1 else 0)%nat).
  { clear -m. induction l as [|t' l IHl]; intros Hl.
    - rewrite decide_False; [done|]. by intros [_ []%not_elem_of_nil].
    - apply NoDup_cons in Hl as [Ht' Hl]. rewrite !bind_cons, !length_app, (IHl Hl).
      change ((m', (t, p)) :: T) with ([(m', (t, p))] ++ T). rewrite handed_app, length_app. unfold handed at 1.
      rewrite filter_cons. cbn [fst snd].
      destruct (decide (m' = m ∧ t = t')) as [[-> ->]|H1]; cbn [length fmap list_fmap].
      + rewrite decide_False by tauto. rewrite decide_True by (split; [done|left]). rewrite filter_nil. simpl. lia.
      + rewrite filter_nil. simpl. destruct (decide (m' = m ∧ t ∈ l)) as [[-> H2]|H2].
        * rewrite decide_True by (split; [done|by right]). lia.
        * rewrite decide_False; [lia|]. intros [-> [->|?]%elem_of_cons]; tauto. }
  rewrite Hstep by done. rewrite (IH HT').
  destruct (decide (m' = m)) as [->|]; [rewrite decide_True by done|rewrite decide_False by tauto]; simpl; lia.
Qed.

Lemma rr_load members tp (j : nat) m : NoDup members → sort_Strings members !! j = Some m →
  let N := zlen (tps tp (sorted_topics tp)) in let k := zlen members in
  Z.of_nat (load (RoundRobinAssign members tp) m) = N / k + (if Z.of_nat j <? N mod k then 1 else 0).
Proof.
  intros Hnd Hj N k. assert (Hm : members ≠ []).
  { intros ->. apply list_elem_of_lookup_2 in Hj. rewrite sort_Strings_perm in Hj. by apply not_elem_of_nil in Hj. }
  destruct (RoundRobinAssign_eq members tp Hm) as [-> HF]. unfold load, given.
  rewrite lookup_collect, decide_True by (by eapply list_elem_of_lookup_2). cbn [ma_Topics].
  rewrite nonempty_all. destruct (sorted_topics_spec tp) as [Hts Ht].
  rewrite (bind_ext _ (handed (rr_triples (sort_Strings members) (tps tp (sorted_topics tp))) m)).
  2: { intros t _. by rewrite parts_hand_out, parts_init. }
  rewrite load_sum; [|done|].
  - rewrite (rr_count _ _ j) by (done || by rewrite sort_Strings_perm). by rewrite sort_Strings_perm.
  - apply Forall_forall. intros [m' [t p]] Hx. apply (list_elem_of_fmap_2 snd) in Hx. rewrite snd_rr_triples in Hx.
    apply (elem_of_tps tp (sorted_topics tp)) in Hx as (n & Hn & _); [|done]. apply Ht. by eexists.
Qed.

(** ** The selected strategy *)

Lemma Assign_exact name a members tp : GetAssignor name = Ok a → members ≠ [] →
  (∀ t n, tp !! t = Some n → inS 32 n) → exact_assignment members tp (Assign a members tp).
Proof.
  intros Ha Hm Hn. destruct (sorted_topics_spec tp) as [Hts Ht]. revert Ha. unfold GetAssignor.
  destruct (bool_decide_reflect (name = "roundrobin")).
  - intros [= <-]. cbn [Assign RoundRobinAssignor]. destruct (RoundRobinAssign_eq members tp Hm) as [-> HF].
    apply given_exact; [apply sort_Strings_perm|done|done|apply snd_rr_triples|done].
  - destruct (bool_decide_reflect (name = "range" ∨ name = EmptyString)); [|done].
    intros [= <-]. cbn [Assign RangeAssignor]. destruct (RangeAssign_eq members tp Hm Hn) as (-> & Es & HF).
    by apply given_exact; [apply sort_Strings_perm|..].
Qed.

Lemma Assign_collect name a members tp : GetAssignor name = Ok a → members ≠ [] →
  ∃ mm, Assign a members tp = collect mm (sorted_topics tp) (sort_Strings members).
Proof.
  unfold GetAssignor. intros Ha Hm. destruct members as [|x members]; [done|].
  destruct (bool_decide (name = "roundrobin")); [injection Ha as <-; by eexists|].
  destruct (bool_decide (name = "range" ∨ name = EmptyString)); [injection Ha as <-; by eexists|done].
Qed.

(** ** Encoding *)

Definition topic_wf (t : PartitionAssignment) : Prop :=
  str_ok t.(pa_Topic) ∧ zlen t.(pa_Partitions) ≤ MaxInt32 ∧ Forall (inS 32) t.(pa_Partitions).
Definition assignment_wf (ma : MemberAssignment) : Prop :=
  zlen ma.(ma_Topics) ≤ MaxInt32 ∧ Forall topic_wf ma.(ma_Topics).
#[global] Instance topic_wf_dec t : Decision (topic_wf t).
Proof. unfold topic_wf. apply _. Defined.
#[global] Instance assignment_wf_dec ma : Decision (assignment_wf ma).
Proof. unfold assignment_wf. apply _. Defined.

Lemma assignment_topic_rt t : topic_wf t → roundtrip (W:=bytes) (put_assignment_topic t) get_assignment_topic t.
Proof.
  unfold topic_wf, put_assignment_topic, get_assignment_topic. destruct t as [name ps]; cbn.
  intros (Hs & Hn & Hp). eapply roundtrip_bind; [by apply roundtrip_String|intros _].
  apply (roundtrip_put_ret _ (λ _, ())). unfold put_array.
  eapply roundtrip_bind; [apply roundtrip_ArrayHeader; lia|intros _]. case_test. rewrite Nat2Z.id.
  eapply roundtrip_last; [|done]. rewrite <- (list_fmap_id ps) at 3. apply roundtrip_list.
  intros p Hin. cbn. apply roundtrip_elem, roundtrip_Int32. by eapply Forall_forall in Hp.
Qed.

(** ** Claims *)

(** C18: whichever strategy [GetAssignor] selects, every partition of every topic
    goes to exactly one member, members get only existing partitions, none of them
    twice, and every member has an entry in the result. *)
Theorem assignment_exact name a members tp : GetAssignor name = Ok a → members ≠ [] →
  (∀ t n, tp !! t = Some n → inS 32 n) → exact_assignment members tp (Assign a members tp).
Proof. apply Assign_exact. Qed.

(** The range strategy gives the [i]-th member in sorted order a contiguous
    block of each topic's [n] partitions, the blocks following each other in member
    order; the first [n mod k] members get one partition more, so that two members'
    shares of a topic differ by at most one. *)
Theorem range_contiguous members tp (i : nat) m t n : NoDup members →
  (∀ t n, tp !! t = Some n → inS 32 n) → tp !! t = Some n → 0 < n →
  sort_Strings members !! i = Some m →
  let k := zlen members in
  assigned (RangeAssign members tp) m t =
    seqZ (n / k * Z.of_nat i + Z.min (Z.of_nat i) (n mod k))
         (n / k + (if Z.of_nat i <? n mod k then 1 else 0)).
Proof.
  intros Hnd Hn Htn Hpos Hi k. assert (Hm : members ≠ []).
  { intros ->. apply list_elem_of_lookup_2 in Hi. rewrite sort_Strings_perm in Hi. by apply not_elem_of_nil in Hi. }
  destruct (sorted_topics_spec tp) as [Hts Ht].
  destruct (RangeAssign_eq members tp Hm Hn) as (-> & Es & HF). rewrite (assigned_given _ _ tp) by done.
  rewrite (handed_range _ _ _ i); [|by rewrite sort_Strings_perm|done|apply Ht; by eexists|done].
  cbn zeta. rewrite Htn, sort_Strings_perm. fold k. cbn [default from_option id].
  unfold id. rewrite Z.max_r by lia.
  unfold range_start, range_length. f_equal. destruct (Z.of_nat i <? n mod k); lia.
Qed.

(** Round robin balances the total load: the numbers of partitions that two
    members get, over all topics together, differ by at most one. *)
Theorem roundrobin_balanced members tp m1 m2 : NoDup members → m1 ∈ members → m2 ∈ members →
  Z.abs (Z.of_nat (load (RoundRobinAssign members tp) m1) - Z.of_nat (load (RoundRobinAssign members tp) m2)) ≤ 1.
Proof.
  intros Hnd. rewrite <- (sort_Strings_perm members) at 1 2.
  intros [j1 H1]%list_elem_of_lookup [j2 H2]%list_elem_of_lookup.
  rewrite (rr_load members tp j1 m1), (rr_load members tp j2 m2) by done. split_ifs.
Qed.

(** The assignment a leader encodes for a member is the one the member decodes. *)
Theorem assignment_roundtrip ma : assignment_wf ma →
  ∃ bs, EncodeAssignment ma = Ok bs ∧ DecodeAssignment bs = Ok ma.
Proof.
  intros [Hn HF].
  assert (Hrt : roundtrip (W:=bytes) (put_array put_assignment_topic (ma_Topics ma))
    (get_array_uncapped get_assignment_topic) (ma_Topics ma)).
  { apply roundtrip_array_uncapped; [done|]. intros t Ht. apply assignment_topic_rt. by eapply Forall_forall in HF. }
  destruct (Hrt [] ltac:(exact I)) as (u & w' & bs & E & _ & Ew & G).
  simpl in Ew. subst w'. exists bs. unfold EncodeAssignment. rewrite E. split; [done|].
  specialize (G []). rewrite app_nil_r in G. unfold DecodeAssignment.
  destruct bs as [|b bs]; [done|]. unfold mbind, M_bind. rewrite G. by destruct ma.
Qed.

Definition sample_tp : gmap string Z := {[ "orders" := 5; "logs" := 2 ]}.
Definition sample_members : list string := ["c2"; "c1"; "c3"].

Lemma sample_tp_ok t n : sample_tp !! t = Some n → inS 32 n.
Proof.
  unfold sample_tp. intros [[<- <-]|[_ [<- <-]%lookup_singleton_Some]]%lookup_insert_Some; by_decide.
Qed.

Lemma assignment_exact_witness :
  exact_assignment sample_members sample_tp (Assign RoundRobinAssignor sample_members sample_tp).
Proof.
  apply (assignment_exact "roundrobin" RoundRobinAssignor sample_members sample_tp); [done|done|].
  apply sample_tp_ok.
Defined.

Lemma range_contiguous_witness :
  assigned (RangeAssign sample_members sample_tp) "c2" "orders" = seqZ (1 * 1 + 1) (1 + 1).
Proof.
  apply (range_contiguous sample_members sample_tp 1 "c2" "orders" 5);
    [by_decide|apply sample_tp_ok|by vm_compute|lia|by vm_compute].
Defined.

Lemma roundrobin_balanced_witness :
  Z.abs (Z.of_nat (load (RoundRobinAssign sample_members sample_tp) "c1") -
         Z.of_nat (load (RoundRobinAssign sample_members sample_tp) "c3")) ≤ 1.
Proof. apply (roundrobin_balanced sample_members sample_tp "c1" "c3"); by_decide. Defined.

Lemma assignment_roundtrip_witness :
  let ma := mkMemberAssignment [mkPartitionAssignment "orders" [0; 3]; mkPartitionAssignment "logs" [1]] in
  ∃ bs, EncodeAssignment ma = Ok bs ∧ DecodeAssignment bs = Ok ma.
Proof.
  intros ma. apply (assignment_roundtrip ma). by_decide.
Defined.

(** A partition count of -1, which the codec uses for a null array, makes
    [DecodeAssignment] panic instead of returning an error or an empty list. *)
Theorem DecodeAssignment_null_panics :
  DecodeAssignment (be_encode 4 1 ++ be_encode 2 1 ++ [x74] ++ be_encode 4 (-1)) = Err panicMakeslice.
Proof. by vm_compute. Qed.
