(* ===== verification/Sizes.v ===== *)
(** * Sizes of encoded messages (src/internal/protocol)

    Upper bounds on how many bytes an encoder appends to a buffer, composed the way the
    encoders are: a bound for every message of the group protocol follows from bounds
    for its fields. *)
From Stdlib Require Import ZArith Lia Strings.Byte.
From stdpp Require Import base list strings gmap.
From S2P Require Import Prelude Record Codec Frame Requests Responses Assignor.
Open Scope Z_scope.

Definition zsum (l : list Z) : Z := foldr Z.add 0 l.

Lemma zsum_app l1 l2 : zsum (l1 ++ l2) = zsum l1 + zsum l2.
Proof. induction l1 as [|x l1 IH]; [done|]. unfold zsum in *. cbn [foldr app]. lia. Qed.

Lemma zsum_perm l1 l2 : l1 ≡ₚ l2 → zsum l1 = zsum l2.
Proof. induction 1; unfold zsum in *; cbn [foldr]; lia. Qed.

Lemma zsum_bound {A} (f : A → Z) k l : (∀ x, x ∈ l → f x ≤ k) → zsum (f <$> l) ≤ k * zlen l.
Proof.
  induction l as [|x l IH]; intros Hf; cbn; [lia|]. specialize (IH (λ y Hy, Hf y (list_elem_of_further _ _ _ Hy))).
  specialize (Hf x ltac:(left)). unfold zsum in *. rewrite Nat2Z.inj_succ, Z.mul_succ_r. lia.
Qed.

Lemma zsum_ones {A} (l : list A) : zsum ((λ _, 1) <$> l) = zlen l.
Proof. induction l as [|x l IH]; [done|]. unfold zsum in *. cbn [fmap list_fmap foldr length]. lia. Qed.

Lemma zsum_mono {A} (f g : A → Z) l : (∀ x, x ∈ l → f x ≤ g x) → zsum (f <$> l) ≤ zsum (g <$> l).
Proof.
  induction l as [|x l IH]; intros Hf; cbn; [lia|]. specialize (IH (λ y Hy, Hf y (list_elem_of_further _ _ _ Hy))).
  specialize (Hf x ltac:(left)). unfold zsum in *. lia.
Qed.

(** [m] appends at most [k] bytes when it succeeds. *)
Definition at_most {A} (m : M bytes A) (k : Z) : Prop :=
  ∀ w x w', m w = (Ok x, w') → ∃ bs, w' = w ++ bs ∧ zlen bs ≤ k.

Lemma at_most_ret {A} (x : A) : at_most (mret x) 0.
Proof. intros w y w' [= -> ->]. exists []. by rewrite app_nil_r. Qed.

Lemma at_most_raise {A} e k : at_most (raise (A:=A) e) k.
Proof. by intros w x w'. Qed.

Lemma at_most_bind {A B} (m : M bytes A) (f : A → M bytes B) k1 k2 : at_most m k1 → (∀ x, at_most (f x) k2) → at_most (m ≫= f) (k1 + k2).
Proof.
  intros H1 H2 w y w' E. unfold mbind, M_bind in E. destruct (m w) as [[x|] w1] eqn:E1; [|done].
  destruct (H1 _ _ _ E1) as (b1 & -> & L1). destruct (H2 _ _ _ _ E) as (b2 & -> & L2).
  exists (b1 ++ b2). rewrite app_assoc. split; [done|]. rewrite length_app. lia.
Qed.

Lemma at_most_le {A} (m : M bytes A) k1 k2 : at_most m k1 → k1 ≤ k2 → at_most m k2.
Proof. intros H Hk w x w' E. destruct (H _ _ _ E) as (bs & -> & L). exists bs. split; [done|lia]. Qed.

Lemma at_most_int n v : at_most (put_int n v) (Z.of_nat n).
Proof. intros w x w' [= <- <-]. exists (be_encode n v). split; [done|]. by rewrite length_be_encode. Qed.

Lemma at_most_write (b : bytes) : at_most (Write b) (zlen b).
Proof. intros w x w' [= <- <-]. by exists b. Qed.

Lemma at_most_String s : at_most (PutString s) (2 + zlen (str_bytes s)).
Proof.
  unfold PutString. cbv zeta. case_match; [apply at_most_raise|].
  apply (at_most_bind _ _ 2); [apply (at_most_int 2)|]. intros x. case_match; [apply (at_most_le _ 0); [apply at_most_ret|lia]|].
  eapply at_most_le; [eapply at_most_bind; [apply at_most_write|intros; apply at_most_ret]|lia].
Qed.

Lemma at_most_Bytes b : at_most (PutBytes b) (4 + zlen b).
Proof.
  unfold PutBytes. cbv zeta. case_match; [apply at_most_raise|].
  apply (at_most_bind _ _ 4); [apply (at_most_int 4)|]. intros x. case_match; [apply (at_most_le _ 0); [apply at_most_ret|lia]|].
  eapply at_most_le; [eapply at_most_bind; [apply at_most_write|intros; apply at_most_ret]|lia].
Qed.

Lemma at_most_array {A} (put : A → M bytes unit) (k : A → Z) l : (∀ x, x ∈ l → at_most (put x) (k x)) →
  at_most (put_array put l) (4 + zsum (k <$> l)).
Proof.
  intros Hk. apply at_most_bind; [unfold PutArrayHeader; case_match; [apply at_most_raise|apply (at_most_int 4)]|]. intros _.
  induction l as [|x l IH]; [apply at_most_ret|]. apply at_most_bind; [apply Hk; left|]. intros _. apply IH. intros y Hy. apply Hk. by right.
Qed.

Lemma marshal_size {A} `{Wire A} (a : A) k bs : at_most (wire_put a) k → marshal a = Ok bs → zlen bs ≤ k.
Proof.
  intros Ha. unfold marshal. destruct (wire_put a []) as [[x|] w] eqn:E; [|done]. intros [= <-].
  destruct (Ha _ _ _ E) as (b & -> & Hb). done.
Qed.

Create HintDb sizes.
#[export] Hint Resolve at_most_ret at_most_String at_most_Bytes : sizes.
#[export] Hint Extern 0 (at_most (PutInt16 _) _) => apply (at_most_int 2) : sizes.
#[export] Hint Extern 0 (at_most (PutInt32 _) _) => apply (at_most_int 4) : sizes.
#[export] Hint Extern 0 (at_most (PutInt64 _) _) => apply (at_most_int 8) : sizes.

(** The fields of a message, one after the other; what is left is the sum of the bounds. *)
Ltac sizes :=
  eapply at_most_le; [repeat (eapply at_most_bind; [eauto with sizes|intros _]); eauto with sizes|cbn; try lia].

(** ** Messages *)

Lemma at_most_flat {A} (put : A → M bytes unit) c l : (∀ x, at_most (put x) c) → at_most (put_array put l) (4 + c * zlen l).
Proof.
  intros Hc. eapply at_most_le; [apply (at_most_array put (λ _, c)); intros x _; apply Hc|].
  apply Z.add_le_mono_l, zsum_bound. intros x _. lia.
Qed.

Lemma at_most_ints (l : list Z) : at_most (put_array (λ x, PutInt32 x ;; mret ()) l) (4 + 4 * zlen l).
Proof. apply at_most_flat. intros x. sizes. Qed.
#[export] Hint Resolve at_most_ints : sizes.

Lemma JoinGroupRequest_size r : at_most (wire_put r)
  (14 + zlen (str_bytes r.(jgq_GroupID)) + zlen (str_bytes r.(jgq_MemberID)) + zlen (str_bytes r.(jgq_ProtocolType)) +
   zsum ((λ p, 6 + zlen (str_bytes p.(jgp_Name)) + zlen p.(jgp_Metadata)) <$> r.(jgq_Protocols))).
Proof.
  assert (Hp : ∀ p, at_most (JoinGroupProtocol_Encode p) (6 + zlen (str_bytes p.(jgp_Name)) + zlen p.(jgp_Metadata))) by (intros p; sizes).
  pose proof (at_most_array JoinGroupProtocol_Encode _ r.(jgq_Protocols) (λ x _, Hp x)). cbn [wire_put JoinGroupRequest_Wire]. sizes.
Qed.

Lemma JoinGroupResponse_size r : at_most (wire_put r)
  (16 + zlen (str_bytes r.(jgs_ProtocolName)) + zlen (str_bytes r.(jgs_LeaderID)) + zlen (str_bytes r.(jgs_MemberID)) +
   zsum ((λ m, 6 + zlen (str_bytes m.(jgm_MemberID)) + zlen m.(jgm_Metadata)) <$> r.(jgs_Members))).
Proof.
  assert (Hp : ∀ m, at_most (JoinGroupMember_Encode m) (6 + zlen (str_bytes m.(jgm_MemberID)) + zlen m.(jgm_Metadata))) by (intros m; sizes).
  pose proof (at_most_array JoinGroupMember_Encode _ r.(jgs_Members) (λ x _, Hp x)). cbn [wire_put JoinGroupResponse_Wire]. sizes.
Qed.

Lemma MetadataRequest_size topics : at_most (wire_put (mkMetadataRequest (Some topics))) (4 + zsum ((λ t, 2 + zlen (str_bytes t)) <$> topics)).
Proof. apply at_most_array. intros t _. sizes. Qed.

Lemma SyncGroupRequest_size r : at_most (wire_put r)
  (12 + zlen (str_bytes r.(sgq_GroupID)) + zlen (str_bytes r.(sgq_MemberID)) +
   zsum ((λ a, 6 + zlen (str_bytes a.(sga_MemberID)) + zlen a.(sga_Assignment)) <$> r.(sgq_Assignments))).
Proof.
  assert (Hp : ∀ a, at_most (SyncGroupAssignment_Encode a) (6 + zlen (str_bytes a.(sga_MemberID)) + zlen a.(sga_Assignment))) by (intros a; sizes).
  pose proof (at_most_array SyncGroupAssignment_Encode _ r.(sgq_Assignments) (λ x _, Hp x)). cbn [wire_put SyncGroupRequest_Wire]. sizes.
Qed.

Lemma SyncGroupResponse_size r : at_most (wire_put r) (6 + zlen r.(sgs_Assignment)).
Proof. cbn [wire_put SyncGroupResponse_Wire]. sizes. Qed.

Lemma EncodeAssignment_size ma bs : EncodeAssignment ma = Ok bs →
  zlen bs ≤ 4 + zsum ((λ t, 6 + zlen (str_bytes t.(pa_Topic)) + 4 * zlen t.(pa_Partitions)) <$> ma.(ma_Topics)).
Proof.
  assert (Hp : ∀ t, at_most (put_assignment_topic t) (6 + zlen (str_bytes t.(pa_Topic)) + 4 * zlen t.(pa_Partitions))) by (intros t; sizes).
  pose proof (at_most_array put_assignment_topic _ ma.(ma_Topics) (λ x _, Hp x)) as Ha. unfold EncodeAssignment.
  destruct (put_array put_assignment_topic (ma_Topics ma) []) as [[x|] w] eqn:E; [|done]. intros [= <-].
  by destruct (Ha _ _ _ E) as (b & -> & Hb).
Qed.

Lemma OffsetFetchRequest_size r : at_most (wire_put r)
  (6 + zlen (str_bytes r.(ofq_GroupID)) + zsum ((λ t, 6 + zlen (str_bytes t.(oft_Name)) + 4 * zlen t.(oft_Partitions)) <$> r.(ofq_Topics))).
Proof.
  assert (Hp : ∀ t, at_most (OffsetFetchRequestTopic_Encode t) (6 + zlen (str_bytes t.(oft_Name)) + 4 * zlen t.(oft_Partitions))) by (intros t; sizes).
  pose proof (at_most_array OffsetFetchRequestTopic_Encode _ r.(ofq_Topics) (λ x _, Hp x)). cbn [wire_put OffsetFetchRequest_Wire]. sizes.
Qed.

Lemma OffsetFetchResponse_size r : at_most (wire_put r)
  (4 + zsum ((λ t, 6 + zlen (str_bytes t.(oftr_Name)) + 14 * zlen t.(oftr_Partitions)) <$> r.(ofs_Topics))).
Proof.
  assert (H1 : ∀ l, at_most (put_array OffsetFetchResponsePartition_Encode l) (4 + 14 * zlen l)) by (intros l; apply at_most_flat; intros p; sizes).
  assert (Hp : ∀ t, at_most (OffsetFetchResponseTopic_Encode t) (6 + zlen (str_bytes t.(oftr_Name)) + 14 * zlen t.(oftr_Partitions))) by (intros t; sizes).
  pose proof (at_most_array OffsetFetchResponseTopic_Encode _ r.(ofs_Topics) (λ x _, Hp x)). cbn [wire_put OffsetFetchResponse_Wire]. sizes.
Qed.

Lemma ListOffsetsRequest_size r : at_most (wire_put r)
  (4 + zsum ((λ t, 6 + zlen (str_bytes t.(lot_Name)) + 12 * zlen t.(lot_Partitions)) <$> r.(loq_Topics))).
Proof.
  assert (H1 : ∀ l, at_most (put_array ListOffsetsRequestPartition_Encode l) (4 + 12 * zlen l)) by (intros l; apply at_most_flat; intros p; sizes).
  assert (Hp : ∀ t, at_most (ListOffsetsRequestTopic_Encode t) (6 + zlen (str_bytes t.(lot_Name)) + 12 * zlen t.(lot_Partitions))) by (intros t; sizes).
  pose proof (at_most_array ListOffsetsRequestTopic_Encode _ r.(loq_Topics) (λ x _, Hp x)). cbn [wire_put ListOffsetsRequest_Wire]. sizes.
Qed.

Lemma ListOffsetsResponse_size r : at_most (wire_put r)
  (4 + zsum ((λ t, 6 + zlen (str_bytes t.(lst_Name)) + 14 * zlen t.(lst_Partitions)) <$> r.(los_Topics))).
Proof.
  assert (H1 : ∀ l, at_most (put_array ListOffsetsResponsePartition_Encode l) (4 + 14 * zlen l)) by (intros l; apply at_most_flat; intros p; sizes).
  assert (Hp : ∀ t, at_most (ListOffsetsResponseTopic_Encode t) (6 + zlen (str_bytes t.(lst_Name)) + 14 * zlen t.(lst_Partitions))) by (intros t; sizes).
  pose proof (at_most_array ListOffsetsResponseTopic_Encode _ r.(los_Topics) (λ x _, Hp x)). cbn [wire_put ListOffsetsResponse_Wire]. sizes.
Qed.
