(* ===== verification/Group.v ===== *)
(** * Consumer groups (src/internal/coordinator/group.go)

    The group coordinator: membership, generations, the leader, and the channels
    through which [SyncGroup] hands assignments to waiting members. A handler body
    that runs under the group's lock is one step; the wait at the end of [SyncGroup]
    is a step of its own, so that steps of other members interleave with it. Go's map
    iteration order is an argument [iter] of the functions that iterate. *)
From Stdlib Require Import ZArith Lia Strings.Byte.
From stdpp Require Import base list strings gmap.
From S2P Require Import Prelude Codec Frame Requests Responses Server.
Open Scope Z_scope.

Inductive GroupState :=
  | StateEmpty | StatePreparingRebalance | StateCompletingRebalance | StateStable.
#[global] Instance GroupState_eq_dec : EqDecision GroupState.
Proof. solve_decision. Defined.

(** [syncRespCh] is the identity of a channel of capacity one; [joinRespCh] is never
    sent to nor read. A nil assignment is []. *)
Record Member := mkMember {
  mb_ID : string;
  mb_SessionTimeoutMs : Z;
  mb_LastHeartbeat : Z;
  mb_Metadata : bytes;
  mb_Assignment : bytes;
  mb_syncRespCh : nat
}.

Record Group := mkGroup {
  g_ID : string;
  g_State : GroupState;
  g_GenerationID : Z;  (* int32 *)
  g_LeaderID : string;
  g_ProtocolType : string;
  g_ProtocolName : string;
  g_Members : gmap string Member
}.

(** The groups, and the channels: the buffered response of each one that holds one,
    and the next fresh identity. *)
Record Coordinator := mkCoordinator {
  gc_groups : gmap string Group;
  gc_chans : gmap nat SyncGroupResponse;
  gc_nextChan : nat
}.

Definition NewGroupCoordinator : Coordinator := mkCoordinator ∅ ∅ 0.

Definition set_group (g : Group) (gc : Coordinator) : Coordinator :=
  mkCoordinator (<[g.(g_ID) := g]> gc.(gc_groups)) gc.(gc_chans) gc.(gc_nextChan).
Definition set_members (ms : gmap string Member) (g : Group) : Group :=
  mkGroup g.(g_ID) g.(g_State) g.(g_GenerationID) g.(g_LeaderID) g.(g_ProtocolType) g.(g_ProtocolName) ms.
Definition set_heartbeat (now : Z) (m : Member) : Member :=
  mkMember m.(mb_ID) m.(mb_SessionTimeoutMs) now m.(mb_Metadata) m.(mb_Assignment) m.(mb_syncRespCh).
Definition set_assignment (a : bytes) (m : Member) : Member :=
  mkMember m.(mb_ID) m.(mb_SessionTimeoutMs) m.(mb_LastHeartbeat) m.(mb_Metadata) a m.(mb_syncRespCh).

(** The order in which [range] visits the keys of a map. *)
Class MapOrder (iter : gmap string Member → list string) :=
  iter_perm : ∀ ms, iter ms ≡ₚ (map_to_list ms).*1.

(** ** Member ids *)

Definition hex_digit (n : Z) : Ascii.ascii :=
  Ascii.ascii_of_N (Z.to_N (if n <? 10 then n + 48 else n + 87)).
Fixpoint EncodeToString (b : bytes) : string :=
  match b with
  | [] => EmptyString
  | c :: b => String (hex_digit (Z_of_byte c / 16)) (String (hex_digit (Z_of_byte c mod 16)) (EncodeToString b))
  end.

(** [rnd] are the eight random bytes. *)
Definition generateMemberID (clientID : string) (rnd : bytes) : string :=
  clientID +:+ "-" +:+ EncodeToString rnd.

(** ** Rebalancing *)

Definition AssignmentCleared (ms : gmap string Member) : gmap string Member := set_assignment [] <$> ms.

Definition transitionToRebalanceLocked (iter : gmap string Member → list string) (g : Group) : Group :=
  let ms := AssignmentCleared g.(g_Members) in
  let leader := foldl (λ leader mID, if bool_decide (leader = EmptyString) then mID else leader)
    EmptyString (iter ms) in
  mkGroup g.(g_ID) StatePreparingRebalance (int32 (g.(g_GenerationID) + 1)) leader
    g.(g_ProtocolType) g.(g_ProtocolName) ms.

(** What [LeaveGroup] and the session check do after removing members. *)
Definition after_removal (iter : gmap string Member → list string) (ms : gmap string Member) (g : Group) : Group :=
  if bool_decide (ms = ∅) then
    mkGroup g.(g_ID) StateEmpty g.(g_GenerationID) EmptyString g.(g_ProtocolType) g.(g_ProtocolName) ms
  else transitionToRebalanceLocked iter (set_members ms g).

Definition session_timeout (m : Member) : Z :=
  let timeout := DurationMs m.(mb_SessionTimeoutMs) in
  if timeout <=? 0 then 45 * 1000 * Millisecond else timeout.
Definition session_expired (now : Z) (m : Member) : bool :=
  session_timeout m <? time_Sub now m.(mb_LastHeartbeat).

Definition expire_group (now : Z) (iter : gmap string Member → list string) (g : Group) : Group :=
  let expired := filter (λ '(_, m), session_expired now m = true) g.(g_Members) in
  if bool_decide (expired = ∅) then g
  else after_removal iter (filter (λ '(mID, _), expired !! mID = None) g.(g_Members)) g.

Definition checkSessionTimeouts (now : Z) (iter : gmap string Member → list string) (gc : Coordinator) :
    Coordinator :=
  mkCoordinator (expire_group now iter <$> gc.(gc_groups)) gc.(gc_chans) gc.(gc_nextChan).

(** ** JoinGroup *)

(** The group of the request, created when it does not exist. *)
Definition join_group (req : JoinGroupRequest) (gc : Coordinator) : Group :=
  match gc.(gc_groups) !! req.(jgq_GroupID) with
  | Some g => g
  | None => mkGroup req.(jgq_GroupID) StateEmpty 0 EmptyString req.(jgq_ProtocolType) EmptyString ∅
  end.

(** The member after the request: created or updated, with a fresh channel. *)
Definition join_member (now : Z) (req : JoinGroupRequest) (memberID : string) (ch : nat) (old : option Member) :
    Member :=
  let meta := match req.(jgq_Protocols) with p :: _ => p.(jgp_Metadata) | [] => [] end in
  let assignment := match old with Some m => m.(mb_Assignment) | None => [] end in
  mkMember memberID req.(jgq_SessionTimeoutMs) now meta assignment ch.

Definition JoinGroup (now : Z) (rnd : bytes) (iter1 iter2 : gmap string Member → list string)
    (req : JoinGroupRequest) (clientID : string) (gc : Coordinator) : JoinGroupResponse * Coordinator :=
  if bool_decide (req.(jgq_GroupID) = EmptyString)
  then (mkJoinGroupResponse ErrInvalidGroupID 0 EmptyString EmptyString EmptyString [], gc)
  else
    let g := join_group req gc in
    let memberID := if bool_decide (req.(jgq_MemberID) = EmptyString)
                    then generateMemberID clientID rnd else req.(jgq_MemberID) in
    let protoName := match req.(jgq_Protocols) with p :: _ => p.(jgp_Name) | [] => EmptyString end in
    let m := join_member now req memberID gc.(gc_nextChan) (g.(g_Members) !! memberID) in
    let g := mkGroup g.(g_ID) g.(g_State) g.(g_GenerationID) g.(g_LeaderID) g.(g_ProtocolType) protoName
               (<[memberID := m]> g.(g_Members)) in
    let g := if bool_decide (g.(g_State) = StateStable ∨ g.(g_State) = StateEmpty)
             then transitionToRebalanceLocked iter1 g else g in
    let g := if bool_decide (g.(g_LeaderID) = EmptyString)
             then mkGroup g.(g_ID) g.(g_State) g.(g_GenerationID) memberID g.(g_ProtocolType)
                    g.(g_ProtocolName) g.(g_Members)
             else g in
    let members := if bool_decide (memberID = g.(g_LeaderID))
                   then omap (λ k, mkJoinGroupMember k ∘ mb_Metadata <$> g.(g_Members) !! k) (iter2 g.(g_Members))
                   else [] in
    (mkJoinGroupResponse ErrNone g.(g_GenerationID) g.(g_ProtocolName) g.(g_LeaderID) memberID members,
     set_group g (mkCoordinator gc.(gc_groups) gc.(gc_chans) (S gc.(gc_nextChan)))).

(** ** SyncGroup *)

(** [select { case ch <- resp: default: }] on a channel of capacity one. *)
Definition try_send (ch : nat) (resp : SyncGroupResponse) (chans : gmap nat SyncGroupResponse) :
    gmap nat SyncGroupResponse :=
  match chans !! ch with None => <[ch := resp]> chans | Some _ => chans end.

Definition assign_members (assignments : list SyncGroupAssignment) (ms : gmap string Member) : gmap string Member :=
  foldl (λ ms a, alter (set_assignment a.(sga_Assignment)) a.(sga_MemberID) ms) ms assignments.

Definition notify_members (order : list string) (ms : gmap string Member) (chans : gmap nat SyncGroupResponse) :
    gmap nat SyncGroupResponse :=
  foldl (λ chans k,
    match ms !! k with
    | Some m => try_send m.(mb_syncRespCh) (mkSyncGroupResponse ErrNone m.(mb_Assignment)) chans
    | None => chans
    end) chans order.

(** The part under the lock: a response, or the channel to wait on. *)
Definition SyncGroup (now : Z) (iter : gmap string Member → list string) (req : SyncGroupRequest)
    (gc : Coordinator) : (SyncGroupResponse + nat) * Coordinator :=
  match gc.(gc_groups) !! req.(sgq_GroupID) with
  | None => (inl (mkSyncGroupResponse ErrUnknownMemberID []), gc)
  | Some g =>
      if negb (req.(sgq_GenerationID) =? g.(g_GenerationID))
      then (inl (mkSyncGroupResponse ErrIllegalGeneration []), gc)
      else match g.(g_Members) !! req.(sgq_MemberID) with
      | None => (inl (mkSyncGroupResponse ErrUnknownMemberID []), gc)
      | Some m =>
          let ms := <[req.(sgq_MemberID) := set_heartbeat now m]> g.(g_Members) in
          let leads := bool_decide (req.(sgq_MemberID) = g.(g_LeaderID)) && (0 <? zlen req.(sgq_Assignments)) in
          if leads then
            let ms := assign_members req.(sgq_Assignments) ms in
            let g := mkGroup g.(g_ID) StateStable g.(g_GenerationID) g.(g_LeaderID) g.(g_ProtocolType)
                       g.(g_ProtocolName) ms in
            (inr m.(mb_syncRespCh),
             set_group g (mkCoordinator gc.(gc_groups) (notify_members (iter ms) ms gc.(gc_chans)) gc.(gc_nextChan)))
          else (inr m.(mb_syncRespCh), set_group (set_members ms g) gc)
      end
  end.

(** The wait: a buffered response is taken off the channel. *)
Definition sync_receive (ch : nat) (gc : Coordinator) : option (SyncGroupResponse * Coordinator) :=
  match gc.(gc_chans) !! ch with
  | Some resp => Some (resp, mkCoordinator gc.(gc_groups) (delete ch gc.(gc_chans)) gc.(gc_nextChan))
  | None => None
  end.

(** ... or 30 seconds pass, or the request is cancelled. *)
Definition sync_timeout : SyncGroupResponse := mkSyncGroupResponse ErrRequestTimedOut [].

(** ** Heartbeat and LeaveGroup *)

Definition Heartbeat (now : Z) (req : HeartbeatRequest) (gc : Coordinator) : HeartbeatResponse * Coordinator :=
  match gc.(gc_groups) !! req.(hbq_GroupID) with
  | None => (mkHeartbeatResponse ErrUnknownMemberID, gc)
  | Some g =>
      if negb (req.(hbq_GenerationID) =? g.(g_GenerationID))
      then (mkHeartbeatResponse ErrIllegalGeneration, gc)
      else match g.(g_Members) !! req.(hbq_MemberID) with
      | None => (mkHeartbeatResponse ErrUnknownMemberID, gc)
      | Some m =>
          if bool_decide (g.(g_State) = StatePreparingRebalance)
          then (mkHeartbeatResponse ErrRebalanceInProgress, gc)
          else (mkHeartbeatResponse ErrNone,
                set_group (set_members (<[req.(hbq_MemberID) := set_heartbeat now m]> g.(g_Members)) g) gc)
      end
  end.

Definition LeaveGroup (iter : gmap string Member → list string) (req : LeaveGroupRequest) (gc : Coordinator) :
    LeaveGroupResponse * Coordinator :=
  match gc.(gc_groups) !! req.(lgq_GroupID) with
  | None => (mkLeaveGroupResponse ErrUnknownMemberID, gc)
  | Some g =>
      match g.(g_Members) !! req.(lgq_MemberID) with
      | None => (mkLeaveGroupResponse ErrUnknownMemberID, gc)
      | Some _ =>
          (mkLeaveGroupResponse ErrNone, set_group (after_removal iter (delete req.(lgq_MemberID) g.(g_Members)) g) gc)
      end
  end.

(** ** Steps *)

Inductive coord_step : Coordinator → Coordinator → Prop :=
  | step_join now rnd iter1 iter2 req clientID gc :
      MapOrder iter1 → coord_step gc (JoinGroup now rnd iter1 iter2 req clientID gc).2
  | step_sync now iter req gc : MapOrder iter → coord_step gc (SyncGroup now iter req gc).2
  | step_receive ch resp gc gc' : sync_receive ch gc = Some (resp, gc') → coord_step gc gc'
  | step_heartbeat now req gc : coord_step gc (Heartbeat now req gc).2
  | step_leave iter req gc : MapOrder iter → coord_step gc (LeaveGroup iter req gc).2
  | step_tick now iter gc : MapOrder iter → coord_step gc (checkSessionTimeouts now iter gc).

(** ** Invariant *)

(** Members are filed under their non-empty ids; a group is empty when and only when
    it has no members; otherwise its leader is one of them; nobody holds an
    assignment while the group rebalances. *)
Record group_inv (g : Group) : Prop := {
  gi_ids k m : g.(g_Members) !! k = Some m → m.(mb_ID) = k ∧ k ≠ EmptyString;
  gi_empty : g.(g_State) = StateEmpty ↔ g.(g_Members) = ∅;
  gi_leader : g.(g_Members) ≠ ∅ → is_Some (g.(g_Members) !! g.(g_LeaderID));
  gi_no_leader : g.(g_Members) = ∅ → g.(g_LeaderID) = EmptyString;
  gi_cleared k m : g.(g_State) = StatePreparingRebalance → g.(g_Members) !! k = Some m → m.(mb_Assignment) = [];
  gi_gen : inS 32 g.(g_GenerationID);
  gi_state : g.(g_State) ≠ StateCompletingRebalance
}.

(** Groups are filed under their ids, and no two members share a channel. *)
Record coord_inv (gc : Coordinator) : Prop := {
  ci_groups k g : gc.(gc_groups) !! k = Some g → g.(g_ID) = k ∧ k ≠ EmptyString ∧ group_inv g;
  ci_chans k1 g1 m1 x1 k2 g2 m2 x2 :
    gc.(gc_groups) !! k1 = Some g1 → g1.(g_Members) !! m1 = Some x1 →
    gc.(gc_groups) !! k2 = Some g2 → g2.(g_Members) !! m2 = Some x2 →
    x1.(mb_syncRespCh) = x2.(mb_syncRespCh) → k1 = k2 ∧ m1 = m2;
  ci_fresh k g m x : gc.(gc_groups) !! k = Some g → g.(g_Members) !! m = Some x →
    (x.(mb_syncRespCh) < gc.(gc_nextChan))%nat;
  ci_buffered ch : is_Some (gc.(gc_chans) !! ch) → (ch < gc.(gc_nextChan))%nat
}.

(** ** Rebalancing keeps the invariant *)

Definition ids_ok (ms : gmap string Member) : Prop :=
  ∀ k m, ms !! k = Some m → m.(mb_ID) = k ∧ k ≠ EmptyString.

(** Every member of [ms'] is one of [ms] with the same channel. *)
Definition same_chans (ms ms' : gmap string Member) : Prop :=
  ∀ k x', ms' !! k = Some x' → ∃ x, ms !! k = Some x ∧ x.(mb_syncRespCh) = x'.(mb_syncRespCh).

Lemma pick_leader l : Forall (λ x, x ≠ EmptyString) l →
  foldl (λ leader mID, if bool_decide (leader = EmptyString) then mID else leader) EmptyString l =
    default EmptyString (head l).
Proof.
  intros Hl. destruct Hl as [|x l Hx Hl]; [done|]. simpl. clear Hl. induction l as [|y l IH]; simpl; [done|].
  by rewrite bool_decide_false.
Qed.

Lemma iter_elem iter `{MapOrder iter} ms k : k ∈ iter ms ↔ is_Some (ms !! k).
Proof.
  rewrite iter_perm, list_elem_of_fmap. split.
  - intros ([k' m] & -> & Hm%elem_of_map_to_list). by eexists.
  - intros [m Hm]. exists (k, m). split; [done|]. by apply elem_of_map_to_list.
Qed.

Lemma lookup_cleared ms k : AssignmentCleared ms !! k = set_assignment [] <$> ms !! k.
Proof. apply lookup_fmap. Qed.

Lemma ids_cleared ms : ids_ok ms → ids_ok (AssignmentCleared ms).
Proof.
  intros H k m. rewrite lookup_cleared. intros (x & Hx & ->)%fmap_Some. by apply H in Hx.
Qed.

Lemma transition_inv iter `{MapOrder iter} g : ids_ok g.(g_Members) → g.(g_Members) ≠ ∅ →
  group_inv (transitionToRebalanceLocked iter g).
Proof.
  intros Hids Hne. set (ms := AssignmentCleared (g_Members g)).
  assert (Hms : ms ≠ ∅) by (unfold ms, AssignmentCleared; by rewrite fmap_empty_iff).
  split; cbn; fold ms.
  - by apply ids_cleared.
  - done.
  - intros _. rewrite pick_leader.
    + destruct (iter ms) as [|x l] eqn:E; simpl.
      * exfalso. destruct (map_choose ms Hms) as (k & m & Hm). assert (Hk : k ∈ iter ms) by (apply iter_elem; eauto).
        rewrite E in Hk. by apply not_elem_of_nil in Hk.
      * apply (iter_elem iter). rewrite E. left.
    + apply Forall_forall. intros k Hk. apply (iter_elem iter) in Hk as [m Hm]. by destruct (ids_cleared _ Hids k m Hm).
  - done.
  - intros k m _. unfold ms. rewrite lookup_cleared. by intros (x & _ & ->)%fmap_Some.
  - apply wrapS_range. lia.
  - done.
Qed.

Lemma transition_chans iter g : same_chans g.(g_Members) (transitionToRebalanceLocked iter g).(g_Members).
Proof. intros k x'. cbn. rewrite lookup_cleared. intros (x & Hx & ->)%fmap_Some. by exists x. Qed.

Lemma same_chans_trans ms1 ms2 ms3 : same_chans ms1 ms2 → same_chans ms2 ms3 → same_chans ms1 ms3.
Proof. intros H1 H2 k x3 (x2 & H & E)%H2. apply H1 in H as (x1 & H & E'). exists x1. split; [done|congruence]. Qed.

Lemma same_chans_subseteq ms ms' : ms' ⊆ ms → same_chans ms ms'.
Proof. intros Hs k x' Hx. exists x'. split; [|done]. by eapply lookup_weaken. Qed.

Lemma after_removal_inv iter `{MapOrder iter} ms g : group_inv g → ms ⊆ g.(g_Members) →
  group_inv (after_removal iter ms g) ∧ same_chans g.(g_Members) (after_removal iter ms g).(g_Members).
Proof.
  intros Hg Hs. assert (Hids : ids_ok ms) by (intros k m Hm; eapply gi_ids; [done|by eapply lookup_weaken]).
  unfold after_removal. destruct (bool_decide_reflect (ms = ∅)) as [->|Hne].
  - split; [|by apply same_chans_subseteq]. split; cbn; try done. apply Hg.
  - split; [by apply transition_inv|]. eapply same_chans_trans; [by apply same_chans_subseteq|].
    apply (transition_chans iter (set_members ms g)).
Qed.

(** ** Steps keep the invariant *)

(** Replacing one group by one with the same channels. *)
Lemma coord_inv_update gc g g' chans : coord_inv gc → gc.(gc_groups) !! g.(g_ID) = Some g →
  g'.(g_ID) = g.(g_ID) → group_inv g' → same_chans g.(g_Members) g'.(g_Members) →
  (∀ ch, is_Some (chans !! ch) → (ch < gc.(gc_nextChan))%nat) →
  coord_inv (set_group g' (mkCoordinator gc.(gc_groups) chans gc.(gc_nextChan))).
Proof.
  intros Hgc Hg Eid Hg' Hch Hb.
  assert (Hold : ∀ k h m x, <[g'.(g_ID) := g']> gc.(gc_groups) !! k = Some h → h.(g_Members) !! m = Some x →
    ∃ h0 x0, gc.(gc_groups) !! k = Some h0 ∧ h0.(g_Members) !! m = Some x0 ∧ x0.(mb_syncRespCh) = x.(mb_syncRespCh)).
  { intros k h m x. rewrite Eid. intros [[<- <-]|[_ Hk]]%lookup_insert_Some Hx.
    - apply Hch in Hx as (x0 & Hx & E). by exists g, x0.
    - by exists h, x. }
  split; cbn.
  - intros k h. rewrite Eid. intros [[<- <-]|[_ Hk]]%lookup_insert_Some; [|by apply Hgc].
    split_and!; [done|by destruct (ci_groups gc Hgc _ _ Hg) as (_ & ? & _)|done].
  - intros k1 g1 m1 x1 k2 g2 m2 x2 H1 Hx1 H2 Hx2 E.
    destruct (Hold _ _ _ _ H1 Hx1) as (h1 & y1 & ? & ? & E1). destruct (Hold _ _ _ _ H2 Hx2) as (h2 & y2 & ? & ? & E2).
    eapply (ci_chans gc Hgc); [done..|]. congruence.
  - intros k h m x Hk Hx. destruct (Hold _ _ _ _ Hk Hx) as (h0 & x0 & ? & ? & <-). by eapply (ci_fresh gc Hgc).
  - done.
Qed.

Lemma set_heartbeat_chans now ms k m : ms !! k = Some m → same_chans ms (<[k := set_heartbeat now m]> ms).
Proof.
  intros Hm k' x'. intros [[<- <-]|[_ Hx]]%lookup_insert_Some; [by exists m|by exists x'].
Qed.

(** A member's heartbeat changes nothing else. *)
Lemma heartbeat_inv now g k m : group_inv g → g.(g_Members) !! k = Some m →
  group_inv (set_members (<[k := set_heartbeat now m]> g.(g_Members)) g).
Proof.
  intros Hg Hm. assert (Hne : g.(g_Members) ≠ ∅) by (intros E; by rewrite E, lookup_empty in Hm).
  split; cbn.
  - intros k' x [[<- <-]|[_ Hx]]%lookup_insert_Some; [by eapply (gi_ids _ Hg) in Hm|by eapply (gi_ids _ Hg) in Hx].
  - rewrite (gi_empty _ Hg). split; [done|]. intros E. by apply insert_non_empty in E.
  - intros _. rewrite lookup_insert_is_Some'. right. by apply gi_leader.
  - intros E. by apply insert_non_empty in E.
  - intros k' x Hs [[<- <-]|[_ Hx]]%lookup_insert_Some; [by eapply (gi_cleared _ Hg) in Hm|by eapply (gi_cleared _ Hg) in Hx].
  - apply Hg.
  - apply Hg.
Qed.

Lemma assign_members_lookup l ms k x' : assign_members l ms !! k = Some x' →
  ∃ x, ms !! k = Some x ∧ x'.(mb_syncRespCh) = x.(mb_syncRespCh) ∧ x'.(mb_ID) = x.(mb_ID).
Proof.
  revert ms. induction l as [|a l IH]; intros ms; cbn; [by exists x'|]. intros (x & Hx & E1 & E2)%IH.
  apply lookup_alter_Some in Hx as [(_ & y & Hy & ->)|[_ Hx]]; [by exists y|by exists x].
Qed.

Lemma assign_members_is_Some l ms k : is_Some (assign_members l ms !! k) ↔ is_Some (ms !! k).
Proof.
  revert ms. induction l as [|a l IH]; intros ms; cbn; [done|]. etransitivity; [apply IH|]. apply lookup_alter_is_Some.
Qed.

Lemma notify_bound order ms chans n : (∀ k m, ms !! k = Some m → (m.(mb_syncRespCh) < n)%nat) →
  (∀ ch, is_Some (chans !! ch) → (ch < n)%nat) →
  ∀ ch, is_Some (notify_members order ms chans !! ch) → (ch < n)%nat.
Proof.
  intros Hms. revert chans. induction order as [|k order IH]; intros chans Hc; cbn; [done|]. apply IH.
  destruct (ms !! k) as [m|] eqn:Em; [|done]. intros ch. unfold try_send.
  destruct (chans !! mb_syncRespCh m) eqn:Ec; [apply Hc|].
  intros [<-|?]%lookup_insert_is_Some'; [by eapply Hms|by apply Hc].
Qed.

Lemma members_nonempty (ms : gmap string Member) k m : ms !! k = Some m → ms ≠ ∅.
Proof. intros H E. by rewrite E, lookup_empty in H. Qed.

Lemma SyncGroup_inv now iter req gc : coord_inv gc → coord_inv (SyncGroup now iter req gc).2.
Proof.
  intros Hgc. unfold SyncGroup. destruct (gc_groups gc !! sgq_GroupID req) as [g|] eqn:Eg; [|done].
  destruct (ci_groups gc Hgc _ _ Eg) as (Eid & Hid & Hg). rewrite <- Eid in Eg.
  destruct (negb _); [done|]. destruct (g_Members g !! sgq_MemberID req) as [m|] eqn:Em; [|done].
  pose proof (heartbeat_inv now g _ m Hg Em) as Hhb. pose proof (set_heartbeat_chans now _ _ _ Em) as Hc0.
  destruct (_ && _); cbn [snd].
  - set (ms0 := <[_ := _]> _) in *. set (ms := assign_members _ ms0).
    assert (Hc : same_chans (g_Members g) ms).
    { eapply same_chans_trans; [exact Hc0|]. intros k x' (x & Hx & E & _)%assign_members_lookup. by exists x. }
    apply (coord_inv_update gc g); [done|done|done| |done|].
    + assert (Hne : ms ≠ ∅).
      { assert (is_Some (ms !! sgq_MemberID req)) as [x Hx]; [|by eapply members_nonempty].
        apply assign_members_is_Some. unfold ms0. rewrite lookup_insert_eq. by eexists. }
      split; cbn; [|done| |done|done|apply Hg|done].
      * intros k x (y & Hy & _ & E)%assign_members_lookup. apply (gi_ids _ Hhb) in Hy. by rewrite E.
      * intros _. apply assign_members_is_Some. apply (gi_leader _ Hhb). cbn. apply insert_non_empty.
    + apply notify_bound; [|apply Hgc]. intros k x Hx. apply Hc in Hx as (y & Hy & <-). by eapply ci_fresh.
  - apply (coord_inv_update gc g _ (gc_chans gc)); [done|done|done|done|done|apply Hgc].
Qed.

Lemma Heartbeat_inv now req gc : coord_inv gc → coord_inv (Heartbeat now req gc).2.
Proof.
  intros Hgc. unfold Heartbeat. destruct (gc_groups gc !! hbq_GroupID req) as [g|] eqn:Eg; [|done].
  destruct (ci_groups gc Hgc _ _ Eg) as (Eid & Hid & Hg). rewrite <- Eid in Eg.
  destruct (negb _); [done|]. destruct (g_Members g !! hbq_MemberID req) as [m|] eqn:Em; [|done].
  destruct (bool_decide _); [done|]. cbn [snd].
  apply (coord_inv_update gc g _ (gc_chans gc)); [done|done|done|by apply heartbeat_inv| |apply Hgc].
  by apply set_heartbeat_chans.
Qed.

Lemma after_removal_ID iter ms g : (after_removal iter ms g).(g_ID) = g.(g_ID).
Proof. unfold after_removal. by destruct (bool_decide _). Qed.

Lemma LeaveGroup_inv iter `{MapOrder iter} req gc : coord_inv gc → coord_inv (LeaveGroup iter req gc).2.
Proof.
  intros Hgc. unfold LeaveGroup. destruct (gc_groups gc !! lgq_GroupID req) as [g|] eqn:Eg; [|done].
  destruct (ci_groups gc Hgc _ _ Eg) as (Eid & Hid & Hg). rewrite <- Eid in Eg.
  destruct (g_Members g !! lgq_MemberID req) as [m|] eqn:Em; [|done]. cbn [snd].
  destruct (after_removal_inv iter (delete (lgq_MemberID req) (g_Members g)) g Hg) as [Hg' Hc]; [apply delete_subseteq|].
  apply (coord_inv_update gc g _ (gc_chans gc)); [done|done|apply after_removal_ID|done|done|apply Hgc].
Qed.

Lemma expire_group_inv now iter `{MapOrder iter} g : group_inv g →
  group_inv (expire_group now iter g) ∧ same_chans g.(g_Members) (expire_group now iter g).(g_Members) ∧
  (expire_group now iter g).(g_ID) = g.(g_ID).
Proof.
  intros Hg. unfold expire_group. destruct (bool_decide _).
  - split_and!; [done|by apply same_chans_subseteq|done].
  - match goal with |- context [after_removal iter ?ms g] =>
      destruct (after_removal_inv iter ms g Hg) as [H1 H2]; [apply map_filter_subseteq|] end.
    split_and!; [done|done|apply after_removal_ID].
Qed.

Lemma tick_inv now iter `{MapOrder iter} gc : coord_inv gc → coord_inv (checkSessionTimeouts now iter gc).
Proof.
  intros Hgc.
  assert (Hold : ∀ k h m x, (expire_group now iter <$> gc.(gc_groups)) !! k = Some h → h.(g_Members) !! m = Some x →
    ∃ h0 x0, gc.(gc_groups) !! k = Some h0 ∧ h0.(g_Members) !! m = Some x0 ∧ x0.(mb_syncRespCh) = x.(mb_syncRespCh)).
  { intros k h m x. rewrite lookup_fmap. intros (g & Hk & ->)%fmap_Some Hx.
    destruct (ci_groups gc Hgc _ _ Hk) as (_ & _ & Hg). destruct (expire_group_inv now iter g Hg) as (_ & Hc & _).
    apply Hc in Hx as (x0 & ? & ?). by exists g, x0. }
  split; cbn.
  - intros k h. rewrite lookup_fmap. intros (g & Hk & ->)%fmap_Some.
    destruct (ci_groups gc Hgc _ _ Hk) as (Eid & Hid & Hg). destruct (expire_group_inv now iter g Hg) as (? & _ & ->). done.
  - intros k1 g1 m1 x1 k2 g2 m2 x2 H1 Hx1 H2 Hx2 E.
    destruct (Hold _ _ _ _ H1 Hx1) as (h1 & y1 & ? & ? & E1). destruct (Hold _ _ _ _ H2 Hx2) as (h2 & y2 & ? & ? & E2).
    eapply (ci_chans gc Hgc); [done..|]. congruence.
  - intros k h m x Hk Hx. destruct (Hold _ _ _ _ Hk Hx) as (h0 & x0 & ? & ? & <-). by eapply (ci_fresh gc Hgc).
  - apply Hgc.
Qed.

Lemma generateMemberID_nonempty clientID rnd : generateMemberID clientID rnd ≠ EmptyString.
Proof. unfold generateMemberID. by destruct clientID. Qed.

(** A group that gets one member with the next channel. *)
Lemma coord_inv_join gc g0 g' mID : coord_inv gc →
  (gc.(gc_groups) !! g'.(g_ID) = Some g0 ∨ gc.(gc_groups) !! g'.(g_ID) = None ∧ g0.(g_Members) = ∅) →
  g'.(g_ID) ≠ EmptyString → group_inv g' →
  (∀ k x', g'.(g_Members) !! k = Some x' → k = mID ∧ x'.(mb_syncRespCh) = gc.(gc_nextChan) ∨
     ∃ x, g0.(g_Members) !! k = Some x ∧ x.(mb_syncRespCh) = x'.(mb_syncRespCh)) →
  coord_inv (set_group g' (mkCoordinator gc.(gc_groups) gc.(gc_chans) (S gc.(gc_nextChan)))).
Proof.
  intros Hgc Hg0 Hid Hg' Hm.
  assert (Hold : ∀ k h m x, <[g'.(g_ID) := g']> gc.(gc_groups) !! k = Some h → h.(g_Members) !! m = Some x →
    (k = g'.(g_ID) ∧ m = mID ∧ x.(mb_syncRespCh) = gc.(gc_nextChan)) ∨
    ∃ h0 x0, gc.(gc_groups) !! k = Some h0 ∧ h0.(g_Members) !! m = Some x0 ∧ x0.(mb_syncRespCh) = x.(mb_syncRespCh)).
  { intros k h m x [[<- <-]|[_ Hk]]%lookup_insert_Some Hx; [|right; by exists h, x].
    apply Hm in Hx as [[-> E]|(x0 & Hx & E)]; [by left|]. right.
    destruct Hg0 as [Hg0|[_ E0]]; [by exists g0, x0|]. by rewrite E0, lookup_empty in Hx. }
  split; cbn.
  - intros k h [[<- <-]|[_ Hk]]%lookup_insert_Some; [done|by apply Hgc].
  - intros k1 g1 m1 x1 k2 g2 m2 x2 H1 Hx1 H2 Hx2 E.
    destruct (Hold _ _ _ _ H1 Hx1) as [(-> & -> & E1)|(h1 & y1 & ? & Hy1 & E1)],
      (Hold _ _ _ _ H2 Hx2) as [(-> & -> & E2)|(h2 & y2 & ? & Hy2 & E2)]; [done| | |].
    + eapply (ci_fresh gc Hgc) in Hy2; [|done]. lia.
    + eapply (ci_fresh gc Hgc) in Hy1; [|done]. lia.
    + eapply (ci_chans gc Hgc); [done..|]. congruence.
  - intros k h m x Hk Hx. destruct (Hold _ _ _ _ Hk Hx) as [(_ & _ & ->)|(h0 & x0 & ? & Hx0 & <-)]; [lia|].
    eapply (ci_fresh gc Hgc) in Hx0; [lia|done].
  - intros ch Hch. apply (ci_buffered gc Hgc) in Hch. lia.
Qed.

Lemma join_group_inv req gc : coord_inv gc → req.(jgq_GroupID) ≠ EmptyString →
  let g := join_group req gc in
  g.(g_ID) = req.(jgq_GroupID) ∧ group_inv g ∧
  (gc.(gc_groups) !! g.(g_ID) = Some g ∨ gc.(gc_groups) !! g.(g_ID) = None ∧ g.(g_Members) = ∅).
Proof.
  intros Hgc Hid. unfold join_group. destruct (gc_groups gc !! jgq_GroupID req) as [g|] eqn:E.
  - destruct (ci_groups gc Hgc _ _ E) as (Eid & _ & Hg). split_and!; [done|done|]. left. congruence.
  - split_and!; [done| |right; done]. by split.
Qed.

(** The group after [JoinGroup]: the member is in, the group prepares a rebalance. *)
Definition joined (now : Z) (iter : gmap string Member → list string) (req : JoinGroupRequest)
    (memberID : string) (ch : nat) (g : Group) : Group :=
  let protoName := match req.(jgq_Protocols) with p :: _ => p.(jgp_Name) | [] => EmptyString end in
  let m := join_member now req memberID ch (g.(g_Members) !! memberID) in
  let g := mkGroup g.(g_ID) g.(g_State) g.(g_GenerationID) g.(g_LeaderID) g.(g_ProtocolType) protoName
             (<[memberID := m]> g.(g_Members)) in
  if bool_decide (g.(g_State) = StateStable ∨ g.(g_State) = StateEmpty)
  then transitionToRebalanceLocked iter g else g.

Lemma joined_inv now iter `{MapOrder iter} req mID ch g : group_inv g → mID ≠ EmptyString →
  let g' := joined now iter req mID ch g in
  group_inv g' ∧ g'.(g_ID) = g.(g_ID) ∧ g'.(g_State) = StatePreparingRebalance ∧
  g'.(g_LeaderID) ≠ EmptyString ∧ is_Some (g'.(g_Members) !! mID) ∧
  (∀ k x', g'.(g_Members) !! k = Some x' → k = mID ∧ x'.(mb_syncRespCh) = ch ∨
     ∃ x, g.(g_Members) !! k = Some x ∧ x.(mb_syncRespCh) = x'.(mb_syncRespCh)).
Proof.
  intros Hg Hid. unfold joined. cbn [g_State].
  set (m := join_member _ _ _ _ _). set (ms := <[mID := m]> (g_Members g)). set (g1 := mkGroup _ _ _ _ _ _ ms).
  assert (Hids : ids_ok ms).
  { intros k x [[<- <-]|[_ Hx]]%lookup_insert_Some; [done|by apply (gi_ids _ Hg)]. }
  assert (Hne : ms ≠ ∅) by apply insert_non_empty.
  assert (Hch : ∀ k x', ms !! k = Some x' → k = mID ∧ x'.(mb_syncRespCh) = ch ∨
     ∃ x, g.(g_Members) !! k = Some x ∧ x.(mb_syncRespCh) = x'.(mb_syncRespCh)).
  { intros k x' [[<- <-]|[_ Hx]]%lookup_insert_Some; [by left|right; by exists x']. }
  assert (Hlead : ∀ h, group_inv h → g_Members h ≠ ∅ → g_LeaderID h ≠ EmptyString).
  { intros h Hh Hn. destruct (gi_leader _ Hh Hn) as [x Hx]. by destruct (gi_ids _ Hh _ _ Hx). }
  destruct (bool_decide_reflect (g_State g = StateStable ∨ g_State g = StateEmpty)) as [Hst|Hst].
  - pose proof (transition_inv iter g1 Hids Hne) as Ht.
    assert (is_Some (g_Members (transitionToRebalanceLocked iter g1) !! mID)) as [x Hx].
    { cbn. rewrite lookup_cleared. unfold ms. rewrite lookup_insert_eq. by eexists. }
    split_and!; [done|done|done|apply Hlead; [done|by eapply members_nonempty]|by eexists|].
    intros k x' Hk. apply (transition_chans iter g1) in Hk as (y & Hy & <-). by apply Hch in Hy.
  - assert (Hprep : g_State g = StatePreparingRebalance).
    { pose proof (gi_state _ Hg). destruct (g_State g); tauto. }
    assert (Hg1 : group_inv g1).
    { assert (Hgne : g_Members g ≠ ∅) by (intros E; apply (gi_empty _ Hg) in E; congruence).
      split; cbn; [done| | |done| |apply Hg|apply Hg].
      - rewrite Hprep. split; [done|]. intros E. by apply Hne in E.
      - intros _. apply lookup_insert_is_Some'. right. by apply gi_leader.
      - intros k x _ [[<- <-]|[_ Hx]]%lookup_insert_Some; [|by eapply (gi_cleared _ Hg)].
        cbn. destruct (g_Members g !! mID) as [y|] eqn:Ey; [by eapply (gi_cleared _ Hg)|done]. }
    split_and!; [done|done|done|by apply Hlead| |done]. cbn. unfold ms. rewrite lookup_insert_eq. by eexists.
Qed.

(** [JoinGroup] in terms of [joined]; the leader is set by then. *)
Lemma JoinGroup_eq now rnd iter1 iter2 `{MapOrder iter1} req clientID gc :
  coord_inv gc → req.(jgq_GroupID) ≠ EmptyString →
  let mID := if bool_decide (req.(jgq_MemberID) = EmptyString)
             then generateMemberID clientID rnd else req.(jgq_MemberID) in
  let g := joined now iter1 req mID gc.(gc_nextChan) (join_group req gc) in
  mID ≠ EmptyString ∧
  JoinGroup now rnd iter1 iter2 req clientID gc =
    (mkJoinGroupResponse ErrNone g.(g_GenerationID) g.(g_ProtocolName) g.(g_LeaderID) mID
       (if bool_decide (mID = g.(g_LeaderID))
        then omap (λ k, mkJoinGroupMember k ∘ mb_Metadata <$> g.(g_Members) !! k) (iter2 g.(g_Members)) else []),
     set_group g (mkCoordinator gc.(gc_groups) gc.(gc_chans) (S gc.(gc_nextChan)))).
Proof.
  intros Hgc Hid mID g.
  assert (HmID : mID ≠ EmptyString).
  { unfold mID. destruct (bool_decide_reflect (jgq_MemberID req = EmptyString)); [apply generateMemberID_nonempty|done]. }
  split; [done|]. destruct (join_group_inv req gc Hgc Hid) as (_ & Hg & _).
  destruct (joined_inv now iter1 req mID (gc_nextChan gc) _ Hg HmID) as (_ & _ & _ & Hl & _). fold g in Hl.
  unfold JoinGroup. rewrite bool_decide_false by done. fold mID. cbv zeta.
  match goal with |- context [bool_decide (g_LeaderID ?h = EmptyString)] => change h with g end.
  by rewrite (bool_decide_false (g_LeaderID g = EmptyString)).
Qed.

Lemma JoinGroup_inv now rnd iter1 iter2 `{MapOrder iter1} req clientID gc :
  coord_inv gc → coord_inv (JoinGroup now rnd iter1 iter2 req clientID gc).2.
Proof.
  intros Hgc. destruct (decide (jgq_GroupID req = EmptyString)) as [E|Hid].
  { unfold JoinGroup. by rewrite bool_decide_true. }
  destruct (JoinGroup_eq now rnd iter1 iter2 req clientID gc Hgc Hid) as [HmID ->]. cbn [snd].
  destruct (join_group_inv req gc Hgc Hid) as (Eid & Hg & Hor).
  match goal with |- coord_inv (set_group (joined ?n ?i ?r ?mID ?c ?h) _) =>
    destruct (joined_inv n i r mID c h Hg HmID) as (Hi & Ei & _ & _ & _ & Hc) end.
  eapply coord_inv_join; [done| | |done|exact Hc]; rewrite Ei; [done|congruence].
Qed.

Lemma receive_inv ch resp gc gc' : coord_inv gc → sync_receive ch gc = Some (resp, gc') → coord_inv gc'.
Proof.
  intros Hgc. unfold sync_receive. destruct (gc_chans gc !! ch) eqn:E; [|done]. intros [= <- <-].
  split; cbn; [apply Hgc|apply Hgc|apply Hgc|]. intros ch' [x [_ Hx]%lookup_delete_Some]. apply (ci_buffered _ Hgc). by eexists.
Qed.

Lemma coord_step_inv gc gc' : coord_inv gc → coord_step gc gc' → coord_inv gc'.
Proof.
  intros Hgc Hs. destruct Hs.
  - by apply JoinGroup_inv.
  - by apply SyncGroup_inv.
  - by eapply receive_inv.
  - by apply Heartbeat_inv.
  - by apply LeaveGroup_inv.
  - by apply tick_inv.
Qed.

(** ** What one step does to a group *)

Inductive group_effect (g g' : Group) : Prop :=
  | eff_same : g'.(g_GenerationID) = g.(g_GenerationID) → dom g'.(g_Members) = dom g.(g_Members) →
      (g'.(g_State) = g.(g_State) ∨ g'.(g_State) = StateStable) → group_effect g g'
  | eff_rebalance : g'.(g_State) = StatePreparingRebalance →
      g'.(g_GenerationID) = int32 (g.(g_GenerationID) + 1) → group_effect g g'
  | eff_emptied : g'.(g_State) = StateEmpty → g'.(g_Members) = ∅ → group_effect g g'
  | eff_joined : g.(g_State) = StatePreparingRebalance → g'.(g_State) = StatePreparingRebalance →
      g'.(g_GenerationID) = g.(g_GenerationID) → group_effect g g'.

Lemma group_effect_refl g : group_effect g g.
Proof. apply eff_same; [done|done|by left]. Qed.

Lemma after_removal_effect iter ms g : group_effect g (after_removal iter ms g).
Proof.
  unfold after_removal. destruct (bool_decide_reflect (ms = ∅)) as [->|]; [by apply eff_emptied|by apply eff_rebalance].
Qed.

(** Updating one group leaves the others alone. *)
Lemma set_group_effect (gc : Coordinator) g g' chans n k h h' :
  g'.(g_ID) = g.(g_ID) → gc.(gc_groups) !! g.(g_ID) = Some g → group_effect g g' →
  gc.(gc_groups) !! k = Some h →
  (set_group g' (mkCoordinator gc.(gc_groups) chans n)).(gc_groups) !! k = Some h' → group_effect h h'.
Proof.
  intros Eid Hg He Hk. cbn. rewrite Eid. intros [[<- <-]|[_ Hk']]%lookup_insert_Some.
  - by simplify_eq.
  - simplify_eq. apply group_effect_refl.
Qed.

Lemma SyncGroup_effect now iter req gc k g g' : coord_inv gc → gc.(gc_groups) !! k = Some g →
  (SyncGroup now iter req gc).2.(gc_groups) !! k = Some g' → group_effect g g'.
Proof.
  intros Hgc Hk. unfold SyncGroup.
  destruct (gc_groups gc !! sgq_GroupID req) as [h|] eqn:Eh; [|cbn; intros; simplify_eq; apply group_effect_refl].
  destruct (ci_groups gc Hgc _ _ Eh) as (Eid & _ & _). rewrite <- Eid in Eh.
  destruct (negb _); [cbn; intros; simplify_eq; apply group_effect_refl|].
  destruct (g_Members h !! sgq_MemberID req) as [m|] eqn:Em; [|cbn; intros; simplify_eq; apply group_effect_refl].
  assert (Hdom : dom (<[sgq_MemberID req := set_heartbeat now m]> (g_Members h)) = dom (g_Members h)).
  { apply dom_insert_lookup_L. by eexists. }
  destruct (_ && _); cbn [snd].
  - apply (set_group_effect gc h); [done|done| |done]. apply eff_same; cbn; [done| |by right].
    rewrite <- Hdom. apply set_eq. intros x. by rewrite !elem_of_dom, assign_members_is_Some.
  - apply (set_group_effect gc h _ (gc_chans gc)); [done|done| |done]. apply eff_same; cbn; [done|done|by left].
Qed.

Lemma Heartbeat_effect now req gc k g g' : coord_inv gc → gc.(gc_groups) !! k = Some g →
  (Heartbeat now req gc).2.(gc_groups) !! k = Some g' → group_effect g g'.
Proof.
  intros Hgc Hk. unfold Heartbeat.
  destruct (gc_groups gc !! hbq_GroupID req) as [h|] eqn:Eh; [|cbn; intros; simplify_eq; apply group_effect_refl].
  destruct (ci_groups gc Hgc _ _ Eh) as (Eid & _ & _). rewrite <- Eid in Eh.
  destruct (negb _); [cbn; intros; simplify_eq; apply group_effect_refl|].
  destruct (g_Members h !! hbq_MemberID req) as [m|] eqn:Em; [|cbn; intros; simplify_eq; apply group_effect_refl].
  destruct (bool_decide _); [cbn; intros; simplify_eq; apply group_effect_refl|]. cbn [snd].
  apply (set_group_effect gc h _ (gc_chans gc)); [done|done| |done]. apply eff_same; cbn; [done| |by left].
  apply dom_insert_lookup_L. by eexists.
Qed.

Lemma LeaveGroup_effect iter req gc k g g' : coord_inv gc → gc.(gc_groups) !! k = Some g →
  (LeaveGroup iter req gc).2.(gc_groups) !! k = Some g' → group_effect g g'.
Proof.
  intros Hgc Hk. unfold LeaveGroup.
  destruct (gc_groups gc !! lgq_GroupID req) as [h|] eqn:Eh; [|cbn; intros; simplify_eq; apply group_effect_refl].
  destruct (ci_groups gc Hgc _ _ Eh) as (Eid & _ & _). rewrite <- Eid in Eh.
  destruct (g_Members h !! lgq_MemberID req) as [m|] eqn:Em; [|cbn; intros; simplify_eq; apply group_effect_refl].
  cbn [snd]. apply (set_group_effect gc h _ (gc_chans gc)); [apply after_removal_ID|done|apply after_removal_effect|done].
Qed.

Lemma JoinGroup_effect now rnd iter1 iter2 `{MapOrder iter1} req clientID gc k g g' : coord_inv gc →
  gc.(gc_groups) !! k = Some g →
  (JoinGroup now rnd iter1 iter2 req clientID gc).2.(gc_groups) !! k = Some g' → group_effect g g'.
Proof.
  intros Hgc Hk. destruct (decide (jgq_GroupID req = EmptyString)) as [E|Hid].
  { unfold JoinGroup. rewrite bool_decide_true by done. cbn. intros. simplify_eq. apply group_effect_refl. }
  destruct (JoinGroup_eq now rnd iter1 iter2 req clientID gc Hgc Hid) as [HmID ->]. cbn [snd].
  destruct (join_group_inv req gc Hgc Hid) as (Eid & Hg & Hor).
  match goal with |- (set_group (joined ?n ?i ?r ?mID ?c ?h) _).(gc_groups) !! _ = _ → _ =>
    destruct (joined_inv n i r mID c h Hg HmID) as (_ & Ei & Hst & _); set (j := joined n i r mID c h) in * end.
  cbn. rewrite Ei. intros [[<- <-]|[_ Hk']]%lookup_insert_Some; [|simplify_eq; apply group_effect_refl].
  destruct Hor as [Hor|[Hor _]]; [|congruence]. rewrite Hk in Hor. injection Hor as ->.
  unfold j, joined in *. cbn [g_State] in *.
  destruct (bool_decide (g_State (join_group req gc) = StateStable ∨ _)); [by apply eff_rebalance|by apply eff_joined].
Qed.

Lemma tick_effect now iter gc k g g' : gc.(gc_groups) !! k = Some g →
  (checkSessionTimeouts now iter gc).(gc_groups) !! k = Some g' → group_effect g g'.
Proof.
  intros Hk. cbn. rewrite lookup_fmap, Hk. intros [= <-]. unfold expire_group.
  destruct (bool_decide _); [apply group_effect_refl|apply after_removal_effect].
Qed.

Lemma coord_step_effect gc gc' k g g' : coord_inv gc → coord_step gc gc' →
  gc.(gc_groups) !! k = Some g → gc'.(gc_groups) !! k = Some g' → group_effect g g'.
Proof.
  intros Hgc Hs Hk. destruct Hs as [| |ch resp gc gc' Hr| | |].
  - by apply JoinGroup_effect.
  - by apply SyncGroup_effect.
  - unfold sync_receive in Hr. destruct (gc_chans gc !! ch); [|done]. injection Hr as _ <-. cbn.
    rewrite Hk. intros [= <-]. apply group_effect_refl.
  - by apply Heartbeat_effect.
  - by apply LeaveGroup_effect.
  - by apply tick_effect.
Qed.

Lemma int32_succ_ne x : int32 (x + 1) ≠ x.
Proof.
  intros E. assert (H : ((int32 (x + 1)) - (x + 1)) mod 2 ^ 32 = 0).
  { unfold wrapS. rewrite <- Zminus_mod_idemp_l. replace ((x + 1 + 2 ^ (32 - 1)) mod 2 ^ 32 - 2 ^ (32 - 1)) with
      ((x + 1 + 2 ^ (32 - 1)) mod 2 ^ 32 + (- 2 ^ (32 - 1))) by lia.
    rewrite Zplus_mod_idemp_l. rewrite Zminus_mod_idemp_l.
    by replace (x + 1 + 2 ^ (32 - 1) + - 2 ^ (32 - 1) - (x + 1)) with 0 by lia. }
  rewrite E in H. replace (x - (x + 1)) with (-1) in H by lia. done.
Qed.

(** ** Sync *)

(** The last assignment listed for a member. *)
Definition last_assignment (l : list SyncGroupAssignment) (k : string) : option bytes :=
  foldl (λ acc a, if bool_decide (a.(sga_MemberID) = k) then Some a.(sga_Assignment) else acc) None l.

Lemma assign_members_assignment l ms k x : ms !! k = Some x →
  ∃ x', assign_members l ms !! k = Some x' ∧ x'.(mb_syncRespCh) = x.(mb_syncRespCh) ∧
    x'.(mb_Assignment) = default x.(mb_Assignment) (last_assignment l k).
Proof.
  unfold last_assignment. induction l as [|a l IH] using rev_ind; intros Hx; [by exists x|].
  destruct (IH Hx) as (y & Hy & Ec & Ea). unfold assign_members in *. rewrite !foldl_app. cbn [foldl].
  destruct (bool_decide_reflect (sga_MemberID a = k)) as [->|Hne].
  - exists (set_assignment (sga_Assignment a) y). by rewrite lookup_alter_eq, Hy.
  - exists y. by rewrite lookup_alter_ne.
Qed.

(** Every member in the order finds its response in its channel, if that was empty. *)
Lemma notify_delivers order ms chans k m :
  (∀ k1 x1 k2 x2, ms !! k1 = Some x1 → ms !! k2 = Some x2 → x1.(mb_syncRespCh) = x2.(mb_syncRespCh) → k1 = k2) →
  ms !! k = Some m → k ∈ order → chans !! m.(mb_syncRespCh) = None →
  notify_members order ms chans !! m.(mb_syncRespCh) = Some (mkSyncGroupResponse ErrNone m.(mb_Assignment)).
Proof.
  intros Hinj Hm.
  assert (Hkeep : ∀ order chans r, chans !! m.(mb_syncRespCh) = Some r →
    notify_members order ms chans !! m.(mb_syncRespCh) = Some r).
  { clear order chans. induction order as [|k' order IH]; intros chans r Hr; [done|]. cbn. apply IH.
    destruct (ms !! k') as [m'|]; [|done]. unfold try_send. destruct (chans !! mb_syncRespCh m') eqn:E; [done|].
    rewrite lookup_insert_ne; [done|congruence]. }
  revert chans. induction order as [|k' order IH]; intros chans Hin Hc; [by apply not_elem_of_nil in Hin|]. cbn.
  destruct (decide (k' = k)) as [->|Hne].
  - rewrite Hm. apply Hkeep. unfold try_send. rewrite Hc. apply lookup_insert_eq.
  - apply IH; [by apply elem_of_cons in Hin as [->|?]|].
    destruct (ms !! k') as [m'|] eqn:Em'; [|done]. unfold try_send. destruct (chans !! mb_syncRespCh m'); [done|].
    rewrite lookup_insert_ne; [done|]. intros E. apply Hne. by eapply Hinj.
Qed.

Lemma session_timeout_pos m : 0 < session_timeout m.
Proof. unfold session_timeout, Millisecond. destruct (Z.leb_spec (DurationMs (mb_SessionTimeoutMs m)) 0); lia. Qed.

Lemma expire_members now iter g k :
  is_Some ((expire_group now iter g).(g_Members) !! k) ↔
    ∃ m, g.(g_Members) !! k = Some m ∧ session_expired now m = false.
Proof.
  unfold expire_group. set (ex := filter _ _).
  assert (Hex : ∀ k m, g.(g_Members) !! k = Some m → ex !! k = None ↔ session_expired now m = false).
  { intros k' m Hm. unfold ex. rewrite map_lookup_filter_None. destruct (session_expired now m) eqn:E; split; try done.
    - intros [?|H]; [congruence|]. exfalso. by apply (H m).
    - intros _. right. intros x Hx. simplify_eq. congruence. }
  destruct (bool_decide_reflect (ex = ∅)) as [E|_].
  - split; [intros [m Hm]|by intros (m & Hm & _); eexists]. exists m. split; [done|]. apply (Hex k m Hm).
    by rewrite E, lookup_empty.
  - assert (Hl : ∀ ms, is_Some ((after_removal iter ms g).(g_Members) !! k) ↔ is_Some (ms !! k)).
    { intros ms. unfold after_removal. destruct (bool_decide_reflect (ms = ∅)) as [->|]; [done|]. cbn.
      rewrite lookup_cleared. apply fmap_is_Some. }
    rewrite Hl. split.
    + intros [m [Hm E]%map_lookup_filter_Some]. exists m. split; [done|]. by apply (Hex k m Hm).
    + intros (m & Hm & E). exists m. apply map_lookup_filter_Some. split; [done|]. by apply (Hex k m Hm).
Qed.

Arguments assign_members : simpl never.
Arguments notify_members : simpl never.

Lemma reachable_inv gc : rtc coord_step NewGroupCoordinator gc → coord_inv gc.
Proof.
  apply (rtc_ind_r coord_inv).
  - split; cbn; intros *; by rewrite ?lookup_empty.
  - intros gc1 gc2 _ Hs Hgc. by eapply coord_step_inv.
Qed.

(** ** Claims *)

(** C13: in every state the coordinator can reach, in any interleaving of joins,
    syncs, receives, heartbeats, leaves and session checks and whatever the map
    orders: a group is empty exactly when it has no members, otherwise its leader is
    one of its members; nobody holds an assignment while the group rebalances; and
    no two members share a response channel. *)
Theorem coordinator_invariant gc : rtc coord_step NewGroupCoordinator gc → coord_inv gc.
Proof. apply reachable_inv. Qed.

(** C29: when one step changes who is in a stable group, and the group is not left
    empty, a heartbeat or a sync that still carries the old generation is refused
    with [ErrIllegalGeneration] and changes nothing: a member that missed the
    rebalance cannot go on with its old assignment. *)
Theorem membership_change_fences gc gc' gid g g' : coord_inv gc → coord_step gc gc' →
  gc.(gc_groups) !! gid = Some g → gc'.(gc_groups) !! gid = Some g' →
  g.(g_State) = StateStable → dom g'.(g_Members) ≠ dom g.(g_Members) → g'.(g_Members) ≠ ∅ →
  (∀ now mID, Heartbeat now (mkHeartbeatRequest gid g.(g_GenerationID) mID) gc' =
     (mkHeartbeatResponse ErrIllegalGeneration, gc')) ∧
  (∀ now iter mID l, SyncGroup now iter (mkSyncGroupRequest gid g.(g_GenerationID) mID l) gc' =
     (inl (mkSyncGroupResponse ErrIllegalGeneration []), gc')).
Proof.
  intros Hgc Hs Hk Hk' Hst Hdom Hne.
  assert (Hgen : negb (g_GenerationID g =? g_GenerationID g') = true).
  { destruct (coord_step_effect _ _ _ _ _ Hgc Hs Hk Hk') as [_ E _|_ E|_ E|E _ _]; [done| |done|congruence].
    rewrite E. apply negb_true_iff, Z.eqb_neq. intros E'. symmetry in E'. by apply int32_succ_ne in E'. }
  split.
  - intros now mID. unfold Heartbeat. cbn. rewrite Hk'. by rewrite Hgen.
  - intros now iter mID l. unfold SyncGroup. cbn. rewrite Hk'. by rewrite Hgen.
Qed.

(** When the leader syncs with assignments in the current generation, the group
    becomes stable, every member holds the last assignment listed for it (or keeps
    what it had), and every member whose channel was empty receives exactly that
    assignment with [ErrNone], the leader itself included. *)
Theorem leader_sync_delivers now iter `{MapOrder iter} gc gid g l lead : coord_inv gc →
  gc.(gc_groups) !! gid = Some g → g.(g_Members) !! g.(g_LeaderID) = Some lead → l ≠ [] →
  ∃ gc' g', SyncGroup now iter (mkSyncGroupRequest gid g.(g_GenerationID) g.(g_LeaderID) l) gc =
      (inr lead.(mb_syncRespCh), gc') ∧
    gc'.(gc_groups) !! gid = Some g' ∧ g'.(g_State) = StateStable ∧
    ∀ k m, g.(g_Members) !! k = Some m →
      let a := default m.(mb_Assignment) (last_assignment l k) in
      (∃ m', g'.(g_Members) !! k = Some m' ∧ m'.(mb_Assignment) = a) ∧
      (gc.(gc_chans) !! m.(mb_syncRespCh) = None →
       ∃ gc'', sync_receive m.(mb_syncRespCh) gc' = Some (mkSyncGroupResponse ErrNone a, gc'')).
Proof.
  intros Hgc Hg Hlead Hl. destruct (ci_groups gc Hgc _ _ Hg) as (Eid & _ & _). unfold SyncGroup. cbn.
  rewrite Hg, Z.eqb_refl, Hlead. cbn [negb]. rewrite bool_decide_true by done.
  destruct (Z.ltb_spec 0 (zlen l)) as [_|Hlt]; [|destruct l; [done|simpl in Hlt; lia]]. cbn [andb].
  set (ms0 := <[_ := _]> _). set (ms := assign_members l ms0).
  eexists _, _. split; [reflexivity|]. cbn. rewrite Eid, lookup_insert_eq. split; [done|]. split; [done|].
  intros k m Hm.
  assert (∃ m0, ms0 !! k = Some m0 ∧ m0.(mb_syncRespCh) = m.(mb_syncRespCh) ∧ m0.(mb_Assignment) = m.(mb_Assignment))
    as (m0 & Hm0 & Ec0 & Ea0).
  { unfold ms0. destruct (decide (g_LeaderID g = k)) as [<-|Hne].
    - rewrite lookup_insert_eq. rewrite Hlead in Hm. injection Hm as ->. by eexists.
    - exists m. by rewrite lookup_insert_ne. }
  destruct (assign_members_assignment l ms0 k m0 Hm0) as (m' & Hm' & Ec & Ea). rewrite Ea0 in Ea. fold ms in Hm'.
  split; [by exists m'|]. intros Hc. rewrite <- Ec0, <- Ec in *. unfold sync_receive. cbn.
  rewrite (notify_delivers (iter ms) ms (gc_chans gc) k m'); [rewrite Ea; by eexists| |done| |done].
  - intros k1 x1 k2 x2 H1 H2 E. assert (Hsc : same_chans (g_Members g) ms).
    { eapply same_chans_trans; [by apply (set_heartbeat_chans now), Hlead|].
      intros k' x' (x & Hx & Ex & _)%assign_members_lookup. by exists x. }
    apply Hsc in H1 as (y1 & H1 & E1). apply Hsc in H2 as (y2 & H2 & E2).
    destruct (ci_chans gc Hgc gid g k1 y1 gid g k2 y2); [done..|congruence|done].
  - apply (iter_elem iter). by eexists.
Qed.

(** A session check removes exactly the members whose last heartbeat is older
    than their session timeout; so a member whose heartbeat was accepted at [t0]
    survives every check up to [t0] plus its timeout. *)
Theorem session_check_exact now iter gc :
  (∀ gid g, gc.(gc_groups) !! gid = Some g →
     ∃ g', (checkSessionTimeouts now iter gc).(gc_groups) !! gid = Some g' ∧
     ∀ k, is_Some (g'.(g_Members) !! k) ↔ ∃ m, g.(g_Members) !! k = Some m ∧ session_expired now m = false) ∧
  (∀ t0 req gc0, coord_inv gc0 → Heartbeat t0 req gc0 = (mkHeartbeatResponse ErrNone, gc) →
     ∃ g m g', gc.(gc_groups) !! req.(hbq_GroupID) = Some g ∧ g.(g_Members) !! req.(hbq_MemberID) = Some m ∧
       (checkSessionTimeouts now iter gc).(gc_groups) !! req.(hbq_GroupID) = Some g' ∧
       (now - t0 ≤ session_timeout m → is_Some (g'.(g_Members) !! req.(hbq_MemberID)))).
Proof.
  split.
  - intros gid g Hg. cbn. rewrite lookup_fmap, Hg. eexists. split; [reflexivity|]. apply expire_members.
  - intros t0 req gc0 Hgc. unfold Heartbeat. destruct (gc_groups gc0 !! hbq_GroupID req) as [h|] eqn:Eh; [|done].
    destruct (ci_groups gc0 Hgc _ _ Eh) as (Eid & _ & _).
    destruct (negb _); [done|]. destruct (g_Members h !! hbq_MemberID req) as [m|] eqn:Em; [|done].
    destruct (bool_decide _); [done|]. intros [= <-]. cbn. rewrite lookup_fmap, Eid, lookup_insert_eq.
    eexists _, _, _. split; [done|]. cbn. rewrite lookup_insert_eq. split; [done|]. split; [done|].
    intros Ht. apply expire_members. cbn. rewrite lookup_insert_eq. eexists. split; [done|].
    unfold session_expired. apply Z.ltb_ge. pose proof (session_timeout_pos (set_heartbeat t0 m)).
    unfold time_Sub. cbn [mb_LastHeartbeat set_heartbeat]. lia.
Qed.

(** ** Witnesses *)

(** Keys in the order of [map_to_list]. *)
Definition keys_order (ms : gmap string Member) : list string := (map_to_list ms).*1.
#[global] Instance keys_order_ok : MapOrder keys_order.
Proof. intros ms. apply Permutation_refl. Qed.

Definition sample_join (member : string) : JoinGroupRequest :=
  mkJoinGroupRequest "g" 10000 member "consumer" [mkJoinGroupProtocol "range" [x01]].

(** Two members join, the leader hands out assignments, a third one joins. *)
Definition two_joined : Coordinator :=
  (JoinGroup 6 [] keys_order keys_order (sample_join "b") "c"
    (JoinGroup 5 [] keys_order keys_order (sample_join "a") "c" NewGroupCoordinator).2).2.
Definition sample_sync : SyncGroupRequest :=
  mkSyncGroupRequest "g" 1 "a" [mkSyncGroupAssignment "b" [x02]; mkSyncGroupAssignment "a" [x03]].
Definition stable_group : Coordinator := (SyncGroup 7 keys_order sample_sync two_joined).2.
Definition third_joined : Coordinator :=
  (JoinGroup 8 [] keys_order keys_order (sample_join "d") "c" stable_group).2.

Definition sample_group (gc : Coordinator) : Group := join_group (sample_join "a") gc.

Lemma two_joined_reachable : rtc coord_step NewGroupCoordinator two_joined.
Proof. do 2 (eapply rtc_r; [|apply step_join, _]). apply rtc_refl. Qed.
Lemma stable_group_reachable : rtc coord_step NewGroupCoordinator stable_group.
Proof. eapply rtc_r; [apply two_joined_reachable|apply step_sync, _]. Qed.
Lemma coordinator_invariant_witness : coord_inv stable_group.
Proof. apply (coordinator_invariant stable_group), stable_group_reachable. Defined.

Lemma membership_change_fences_witness :
  (∀ now mID, Heartbeat now (mkHeartbeatRequest "g" (sample_group stable_group).(g_GenerationID) mID) third_joined =
     (mkHeartbeatResponse ErrIllegalGeneration, third_joined)) ∧
  (∀ now iter mID l, SyncGroup now iter (mkSyncGroupRequest "g" (sample_group stable_group).(g_GenerationID) mID l) third_joined =
     (inl (mkSyncGroupResponse ErrIllegalGeneration []), third_joined)).
Proof.
  apply (membership_change_fences stable_group third_joined "g"
    (sample_group stable_group) (sample_group third_joined)).
  - apply reachable_inv, stable_group_reachable.
  - apply step_join, _.
  - by vm_compute.
  - by vm_compute.
  - by vm_compute.
  - intros E. by vm_compute in E.
  - intros E. by vm_compute in E.
Defined.

Lemma leader_sync_delivers_witness :
  let g := sample_group two_joined in
  ∃ gc' g', SyncGroup 7 keys_order (mkSyncGroupRequest "g" g.(g_GenerationID) g.(g_LeaderID) sample_sync.(sgq_Assignments))
      two_joined = (inr 0%nat, gc') ∧
    gc'.(gc_groups) !! "g" = Some g' ∧ g'.(g_State) = StateStable ∧
    ∀ k m, g.(g_Members) !! k = Some m →
      let a := default m.(mb_Assignment) (last_assignment sample_sync.(sgq_Assignments) k) in
      (∃ m', g'.(g_Members) !! k = Some m' ∧ m'.(mb_Assignment) = a) ∧
      (two_joined.(gc_chans) !! m.(mb_syncRespCh) = None →
       ∃ gc'', sync_receive m.(mb_syncRespCh) gc' = Some (mkSyncGroupResponse ErrNone a, gc'')).
Proof.
  apply (leader_sync_delivers 7 keys_order two_joined "g" (sample_group two_joined)
    sample_sync.(sgq_Assignments) (mkMember "a" 10000 5 [x01] [] 0)).
  - apply reachable_inv, two_joined_reachable.
  - by vm_compute.
  - by vm_compute.
  - done.
Defined.
