(* ===== verification/Checkpoint.v ===== *)
(** * The high-watermark checkpoint file (src/internal/replication/isr.go)

    [loadCheckpoint] and [CheckpointHW] on the text of the file, with the functions of
    [strings] they use. The text is ASCII: topic names are validated and the rest are
    digits, so [strings.TrimSpace] and [strings.Fields] see only ASCII white space. *)
From Stdlib Require Import ZArith Lia Strings.Ascii.
From stdpp Require Import base list strings.
From S2P Require Import Prelude Decimal.
Open Scope Z_scope.

Abbreviation chars := (list ascii).

(** ** [strings] *)

Definition newline : ascii := "010"%char.
Definition is_space (c : ascii) : bool :=
  bool_decide (c ∈ ["009"; "010"; "011"; "012"; "013"; " "]%char).

(** [strings.Split] at the characters that satisfy [sep]. *)
Fixpoint split (sep : ascii → bool) (l : chars) : list chars :=
  match l with
  | [] => [[]]
  | c :: l =>
      if sep c then [] :: split sep l
      else match split sep l with
           | [] => [[c]]
           | w :: ws => (c :: w) :: ws
           end
  end.

Fixpoint drop_spaces (l : chars) : chars :=
  match l with
  | c :: l' => if is_space c then drop_spaces l' else l
  | [] => []
  end.
Definition TrimSpace (l : chars) : chars := rev (drop_spaces (rev (drop_spaces l))).

Definition Fields (l : chars) : list chars := filter (λ w, w ≠ []) (split is_space l).

Definition HasPrefix (l p : chars) : bool := bool_decide (p `prefix_of` l).

(** [strings.Join(lines, "\n")]. *)
Fixpoint join_lines (lines : list chars) : chars :=
  match lines with
  | [] => []
  | [l] => l
  | l :: lines => l ++ newline :: join_lines lines
  end.

(** ** The file *)

(** [t.topic + " " + strconv.Itoa(int(t.partition)) + " "] *)
Definition line_prefix (topic : string) (partition : Z) : chars :=
  to_chars topic ++ " "%char :: to_chars (Itoa partition) ++ [" "%char].

(** One turn of the loop of [loadCheckpoint]. *)
Definition load_line (topic : string) (partition : Z) (hw : Z) (line : chars) : Z :=
  let line := TrimSpace line in
  if HasPrefix line (line_prefix topic partition) then
    match Fields line with
    | _ :: _ :: f :: _ => match ParseInt (of_chars f) with Some v => v | None => hw end
    | _ => hw
    end
  else hw.

(** The watermark after [loadCheckpoint], [data] being the file if it can be read. *)
Definition loadCheckpoint (data : option chars) (topic : string) (partition : Z) (hw : Z) : Z :=
  match data with
  | None => hw
  | Some data => foldl (load_line topic partition) hw (split (λ c, bool_decide (c = newline)) data)
  end.

Definition keep_line (topic : string) (partition : Z) (l : chars) : bool :=
  negb (bool_decide (l = [])) && negb (HasPrefix l (line_prefix topic partition)).

(** With a data directory set: the contents that [CheckpointHW] writes to the temporary
    file and renames into place. *)
Definition CheckpointHW (data : option chars) (topic : string) (partition : Z) (hw : Z) : chars :=
  let line := line_prefix topic partition ++ to_chars (Itoa hw) ++ [newline] in
  let existing := match data with
    | None => []
    | Some data => filter (λ l, keep_line topic partition l = true)
                     (TrimSpace <$> split (λ c, bool_decide (c = newline)) data)
    end in
  join_lines (existing ++ [TrimSpace line]) ++ [newline].

(** ** Characters *)

Definition no_space (l : chars) : Prop := Forall (λ c, is_space c = false) l.

(** What [validateTopicName] lets through has no white space. *)
Definition plain_topic (topic : string) : Prop := topic ≠ EmptyString ∧ no_space (to_chars topic).

Lemma digit_no_space c : is_digit c → is_space c = false.
Proof.
  intros Hd. unfold is_space. apply bool_decide_eq_false. intros Hc. apply Hd.
  rewrite !elem_of_cons, elem_of_nil in Hc. destruct_or! Hc; by subst.
Qed.

Lemma Itoa_no_space n : no_space (to_chars (Itoa n)).
Proof.
  unfold Itoa, no_space. rewrite String.list_ascii_of_string_of_list_ascii.
  assert (Hd : ∀ k, 0 ≤ k → Forall (λ c, is_space c = false) (digits k)).
  { intros k Hk. eapply Forall_impl; [by apply digits_digit|]. apply digit_no_space. }
  destruct (Z.ltb_spec n 0); [constructor; [done|]|]; apply Hd; lia.
Qed.

Lemma Itoa_nonempty n : to_chars (Itoa n) ≠ [].
Proof.
  unfold Itoa. rewrite String.list_ascii_of_string_of_list_ascii.
  destruct (Z.ltb_spec n 0); [done|]. by apply digits_not_nil.
Qed.

(** ** Splitting *)

Lemma split_nonempty sep l : split sep l ≠ [].
Proof. destruct l as [|c l]; simpl; [done|]. destruct (sep c); [done|]. by destruct (split sep l). Qed.

Lemma split_app sep (l : chars) rest : Forall (λ c, sep c = false) l →
  split sep (l ++ rest) = match split sep rest with [] => [l] | w :: ws => (l ++ w) :: ws end.
Proof.
  induction 1 as [|c l Hc _ IH]; simpl; pose proof (split_nonempty sep rest).
  - by destruct (split sep rest).
  - rewrite Hc, IH. by destruct (split sep rest).
Qed.

Lemma split_none sep (l : chars) : Forall (λ c, sep c = false) l → split sep l = [l].
Proof. intros H. rewrite <- (app_nil_r l) at 1. rewrite split_app by done. simpl. by rewrite app_nil_r. Qed.

Lemma split_sep sep c (l : chars) rest : Forall (λ c, sep c = false) l → sep c = true →
  split sep (l ++ c :: rest) = l :: split sep rest.
Proof. intros Hl Hc. rewrite split_app by done. simpl. rewrite Hc. by rewrite app_nil_r. Qed.

Lemma split_pieces sep (l : chars) : Forall (Forall (λ c, sep c = false)) (split sep l).
Proof.
  induction l as [|c l IH]; simpl; [by repeat constructor|]. destruct (sep c) eqn:E; [by constructor|].
  destruct (split sep l) as [|w ws]; [by repeat constructor|]. inversion_clear IH. by repeat constructor.
Qed.

Lemma split_join_lines lines : lines ≠ [] → Forall (Forall (λ c, c ≠ newline)) lines →
  split (λ c, bool_decide (c = newline)) (join_lines lines ++ [newline]) = lines ++ [[]].
Proof.
  intros Hne Hl. induction Hl as [|l lines Hx Hl IH]; [done|].
  assert (Hsep : Forall (λ c, bool_decide (c = newline) = false) l).
  { eapply Forall_impl; [exact Hx|]. intros c Hc. by apply bool_decide_eq_false. }
  destruct lines as [|l2 lines].
  - simpl. by rewrite split_sep by (done || by apply bool_decide_eq_true).
  - change (join_lines (l :: l2 :: lines)) with (l ++ newline :: join_lines (l2 :: lines)).
    rewrite <- app_assoc. cbn [app].
    rewrite split_sep by (done || by apply bool_decide_eq_true). by rewrite IH.
Qed.

(** ** Trimming *)

Lemma drop_spaces_suffix l : drop_spaces l `suffix_of` l.
Proof.
  induction l as [|c l IH]; simpl; [done|]. destruct (is_space c); [by apply suffix_cons_r|done].
Qed.

(** The first character that is left is no space. *)
Definition no_leading_space (l : chars) : Prop := ∀ c l', l = c :: l' → is_space c = false.

Lemma drop_spaces_starts l : no_leading_space (drop_spaces l).
Proof.
  induction l as [|c l IH]; simpl; [by intros ?|]. destruct (is_space c) eqn:E; [done|]. by intros ? ? [= <- <-].
Qed.

Lemma drop_spaces_id l : no_leading_space l → drop_spaces l = l.
Proof. destruct l as [|c l]; [done|]. intros H. simpl. by rewrite (H c l eq_refl). Qed.

Lemma TrimSpace_id l : no_leading_space l → no_leading_space (rev l) → TrimSpace l = l.
Proof. intros H1 H2. unfold TrimSpace. by rewrite (drop_spaces_id l H1), (drop_spaces_id (rev l) H2), rev_involutive. Qed.

Lemma TrimSpace_infix l : ∃ a b, l = a ++ TrimSpace l ++ b.
Proof.
  unfold TrimSpace. destruct (drop_spaces_suffix l) as [a Ha]. exists a.
  destruct (drop_spaces_suffix (rev (drop_spaces l))) as [b Hb]. exists (rev b).
  rewrite <- rev_app_distr, <- Hb, rev_involutive. done.
Qed.

Lemma TrimSpace_ends l : no_leading_space (TrimSpace l) ∧ no_leading_space (rev (TrimSpace l)).
Proof.
  unfold TrimSpace. rewrite rev_involutive. split; [|apply drop_spaces_starts].
  destruct (drop_spaces_suffix (rev (drop_spaces l))) as [b Hb]. apply (f_equal (@rev ascii)) in Hb.
  rewrite rev_involutive, rev_app_distr in Hb. intros c l' E. rewrite E in Hb. simpl in Hb.
  by eapply drop_spaces_starts.
Qed.

Lemma TrimSpace_idem l : TrimSpace (TrimSpace l) = TrimSpace l.
Proof. destruct (TrimSpace_ends l). by apply TrimSpace_id. Qed.

(** ** Lines *)

(** A line determines the topic and partition it is for. *)
Lemma word_unique (a b r1 r2 : chars) : no_space a → no_space b →
  a ++ " "%char :: r1 = b ++ " "%char :: r2 → a = b ∧ r1 = r2.
Proof.
  revert b. induction a as [|x a IH]; intros b Ha Hb E.
  - destruct b as [|y b]; [by injection E|]. injection E as <- _. by apply Forall_cons in Hb as [].
  - apply Forall_cons in Ha as [Hx Ha]. destruct b as [|y b].
    + injection E as -> _. done.
    + injection E as <- E. apply Forall_cons in Hb as [_ Hb]. by destruct (IH b Ha Hb E) as [-> ->].
Qed.

Lemma prefix_unique t p t' p' l : plain_topic t → plain_topic t' → inS 64 p → inS 64 p' →
  line_prefix t p `prefix_of` l → line_prefix t' p' `prefix_of` l → t = t' ∧ p = p'.
Proof.
  unfold line_prefix. intros [_ Ht] [_ Ht'] Hp Hp' [r1 ->] [r2 E]. rewrite <- !app_assoc in E. cbn in E.
  apply word_unique in E as [E1 E2]; [|done|done]. rewrite <- !app_assoc in E2. cbn in E2.
  apply word_unique in E2 as [E2 _]; [|apply Itoa_no_space..].
  apply (f_equal of_chars) in E1, E2. rewrite !String.string_of_list_ascii_of_string in E1, E2.
  split; [done|]. by apply Itoa_inj.
Qed.

(** The line that is written. *)
Definition hw_line (topic : string) (partition hw : Z) : chars :=
  line_prefix topic partition ++ to_chars (Itoa hw).

Lemma hw_line_ends topic partition hw : plain_topic topic →
  no_leading_space (hw_line topic partition hw) ∧ no_leading_space (rev (hw_line topic partition hw)).
Proof.
  intros [Hne Ht]. split.
  - intros c l'. unfold hw_line, line_prefix. destruct (to_chars topic) as [|x w] eqn:E.
    + destruct topic; done.
    + intros [= <- _]. by apply Forall_cons in Ht as [].
  - intros c l'. unfold hw_line. rewrite rev_app_distr. pose proof (Itoa_no_space hw) as Hd.
    pose proof (Itoa_nonempty hw) as Hn. destruct (to_chars (Itoa hw)) as [|x w] using rev_ind; [done|].
    rewrite rev_app_distr. intros [= <- _]. by apply Forall_app in Hd as [_ [? _]%Forall_cons].
Qed.

Lemma TrimSpace_hw_line topic partition hw : plain_topic topic →
  TrimSpace (hw_line topic partition hw ++ [newline]) = hw_line topic partition hw.
Proof.
  intros Ht. destruct (hw_line_ends topic partition hw Ht) as [H1 H2]. unfold TrimSpace.
  rewrite (drop_spaces_id (_ ++ [newline])).
  - rewrite rev_app_distr. change (drop_spaces (rev [newline] ++ ?l)) with (drop_spaces l).
    by rewrite (drop_spaces_id _ H2), rev_involutive.
  - intros c l' E. destruct (hw_line topic partition hw) as [|x w] eqn:El; [|injection E as <- _; by eapply H1].
    unfold hw_line, line_prefix in El. by destruct (to_chars topic).
Qed.

Lemma Fields_hw_line topic partition hw : plain_topic topic →
  Fields (hw_line topic partition hw) = [to_chars topic; to_chars (Itoa partition); to_chars (Itoa hw)].
Proof.
  intros [Hne Ht]. unfold Fields, hw_line, line_prefix. rewrite <- app_assoc. cbn [app]. rewrite <- app_assoc. cbn [app].
  rewrite split_sep, split_sep, split_none by (done || apply Itoa_no_space || (vm_compute; done)).
  rewrite !filter_cons_True by (apply Itoa_nonempty || (by destruct topic)). done.
Qed.

(** Reading the line back. *)
Lemma load_hw_line topic partition hw hw0 : plain_topic topic → inS 64 hw →
  load_line topic partition hw0 (hw_line topic partition hw) = hw.
Proof.
  intros Ht Hhw. unfold load_line. destruct (hw_line_ends topic partition hw Ht) as [H1 H2].
  rewrite TrimSpace_id by done. unfold HasPrefix. rewrite bool_decide_true by (by eexists).
  rewrite Fields_hw_line by done. rewrite String.string_of_list_ascii_of_string. by rewrite ParseInt_Itoa.
Qed.

(** A line for another partition is passed over. *)
Lemma load_other t p t' p' l hw0 : plain_topic t → plain_topic t' → inS 64 p → inS 64 p' → (t, p) ≠ (t', p') →
  line_prefix t p `prefix_of` TrimSpace l → load_line t' p' hw0 l = hw0.
Proof.
  intros Ht Ht' Hp Hp' Hne Hl. unfold load_line, HasPrefix. rewrite bool_decide_false; [done|].
  intros Hl'. apply Hne. by destruct (prefix_unique t p t' p' _ Ht Ht' Hp Hp' Hl Hl') as [-> ->].
Qed.

(** The lines kept from the old file. *)
Definition kept_lines (data : option chars) (t : string) (p : Z) : list chars :=
  match data with
  | None => []
  | Some data => filter (λ l, keep_line t p l = true) (TrimSpace <$> split (λ c, bool_decide (c = newline)) data)
  end.

Lemma kept_lines_spec data t p : Forall (λ l, Forall (λ c, c ≠ newline) l ∧ TrimSpace l = l ∧
  ¬ line_prefix t p `prefix_of` l) (kept_lines data t p).
Proof.
  destruct data as [data|]; [|constructor]. apply Forall_forall. intros l [Hk Hl]%list_elem_of_filter.
  apply list_elem_of_fmap in Hl as (l0 & -> & Hl0).
  unfold keep_line, HasPrefix in Hk. apply andb_true_iff in Hk as [_ Hk%negb_true_iff%bool_decide_eq_false].
  split_and!; [|apply TrimSpace_idem|done].
  eapply Forall_forall in Hl0; [|apply split_pieces]. destruct (TrimSpace_infix l0) as (a & b & E). rewrite E in Hl0.
  rewrite !Forall_app in Hl0. destruct Hl0 as (_ & Hl0 & _). eapply Forall_impl; [exact Hl0|].
  intros c Hc%bool_decide_eq_false. done.
Qed.

Lemma is_space_newline : is_space newline = true.
Proof. done. Qed.

Lemma hw_line_no_newline t p hw : plain_topic t → Forall (λ c, c ≠ newline) (hw_line t p hw).
Proof.
  intros [_ Ht]. assert (Hw : ∀ w, no_space w → Forall (λ c, c ≠ newline) w).
  { intros w Hw. eapply Forall_impl; [exact Hw|]. intros c Hc ->. by rewrite is_space_newline in Hc. }
  unfold hw_line, line_prefix. rewrite !Forall_app, Forall_cons, Forall_app, Forall_singleton.
  split_and!; [by apply Hw|done|apply Hw, Itoa_no_space|done|apply Hw, Itoa_no_space].
Qed.

(** The lines of the new file. *)
Lemma checkpoint_lines data t p hw : plain_topic t →
  split (λ c, bool_decide (c = newline)) (CheckpointHW data t p hw) = kept_lines data t p ++ [hw_line t p hw; []].
Proof.
  intros Ht. unfold CheckpointHW. fold (kept_lines data t p). rewrite app_assoc. fold (hw_line t p hw).
  rewrite TrimSpace_hw_line by done. rewrite split_join_lines.
  - by rewrite <- app_assoc.
  - by destruct (kept_lines data t p).
  - apply Forall_app. split.
    + eapply Forall_impl; [apply kept_lines_spec|]. by intros l (H & _).
    + apply Forall_singleton. by apply hw_line_no_newline.
Qed.

Lemma load_nil t p hw0 : load_line t p hw0 [] = hw0.
Proof.
  unfold load_line, HasPrefix. rewrite bool_decide_false; [done|]. intros [r E].
  unfold line_prefix in E. by destruct (to_chars t).
Qed.

Lemma load_trim t p hw0 l : load_line t p hw0 (TrimSpace l) = load_line t p hw0 l.
Proof. unfold load_line. by rewrite TrimSpace_idem. Qed.

(** Dropping the lines of [(t, p)] does not change what is read for another key. *)
Lemma load_kept data t p t' p' hw0 : plain_topic t → plain_topic t' → inS 64 p → inS 64 p' → (t, p) ≠ (t', p') →
  foldl (load_line t' p') hw0 (kept_lines data t p) = loadCheckpoint data t' p' hw0.
Proof.
  intros Ht Ht' Hp Hp' Hne. destruct data as [data|]; [|done]. cbn [kept_lines loadCheckpoint]. revert hw0.
  induction (split (λ c, bool_decide (c = newline)) data) as [|l lines IH]; intros hw0; [done|]. cbn [fmap list_fmap foldl].
  rewrite filter_cons. destruct (decide (keep_line t p (TrimSpace l) = true)) as [Hk|Hk].
  - cbn [foldl]. rewrite load_trim. apply IH.
  - etransitivity; [apply IH|]. f_equal. unfold keep_line, HasPrefix in Hk.
    destruct (bool_decide_reflect (TrimSpace l = [])) as [E|_].
    + by rewrite <- load_trim, E, load_nil.
    + destruct (bool_decide_reflect (line_prefix t p `prefix_of` TrimSpace l)) as [Hl|]; [|done].
      symmetry. by apply (load_other t p).
Qed.

(** ** Claims *)

(** After [CheckpointHW] the file gives back the watermark that was written for
    the partition, and what it gives for every other partition is unchanged. *)
Theorem checkpoint_roundtrip data t p hw : plain_topic t → inS 32 p → inS 64 hw →
  (∀ hw0, loadCheckpoint (Some (CheckpointHW data t p hw)) t p hw0 = hw) ∧
  (∀ t' p' hw0, plain_topic t' → inS 32 p' → (t, p) ≠ (t', p') →
     loadCheckpoint (Some (CheckpointHW data t p hw)) t' p' hw0 = loadCheckpoint data t' p' hw0).
Proof.
  intros Ht Hp Hhw. assert (Hp64 : ∀ x, inS 32 x → inS 64 x) by (intros; width_lia).
  split; intros; cbn [loadCheckpoint]; rewrite checkpoint_lines, foldl_app by done; cbn [foldl]; rewrite load_nil.
  - by apply load_hw_line.
  - rewrite (load_kept data t p) by auto. apply (load_other t p); auto.
    destruct (hw_line_ends t p hw Ht). rewrite TrimSpace_id by done. by eexists.
Qed.

Definition sample_checkpoint : chars := to_chars "orders 0 17".

Lemma plain_topic_dec_sample : plain_topic "orders" ∧ plain_topic "logs".
Proof. split; (split; [done|]); by_decide. Qed.

Lemma checkpoint_roundtrip_witness :
  (∀ hw0, loadCheckpoint (Some (CheckpointHW (Some sample_checkpoint) "logs" 1 42)) "logs" 1 hw0 = 42) ∧
  (∀ t' p' hw0, plain_topic t' → inS 32 p' → ("logs", 1) ≠ (t', p') →
     loadCheckpoint (Some (CheckpointHW (Some sample_checkpoint) "logs" 1 42)) t' p' hw0 =
     loadCheckpoint (Some sample_checkpoint) t' p' hw0).
Proof.
  apply (checkpoint_roundtrip (Some sample_checkpoint) "logs" 1 42); [apply plain_topic_dec_sample|by_decide..].
Defined.
