(* ===== verification/Replication.v ===== *)
(** * Replication (src/internal/replication)

    In-sync replicas and the high watermark ([isr.go]), leader epochs ([epoch.go]), the
    purgatory of produce requests that wait for acknowledgements and the replica-fetch
    messages ([replication.go]). Map iteration orders are arguments. *)
From Stdlib Require Import ZArith Lia Strings.Byte.
From stdpp Require Import base list strings gmap.
From S2P Require Import Prelude Record Codec Checkpoint.
Open Scope Z_scope.

(** ** ISR tracking *)

Record ReplicaState := mkReplicaState {
  rep_BrokerID : Z;
  rep_LogEndOffset : Z;
  rep_LastCaughtUpTime : Z;
  rep_InSync : bool
}.

Record ISRTracker := mkISRTracker {
  isr_replicas : gmap Z ReplicaState;
  isr_leaderID : Z;
  isr_replicaLagTimeMaxMs : Z;
  isr_highWatermark : Z;
  isr_topic : string;
  isr_partition : Z
}.

Definition set_replicas (reps : gmap Z ReplicaState) (t : ISRTracker) : ISRTracker :=
  mkISRTracker reps t.(isr_leaderID) t.(isr_replicaLagTimeMaxMs) t.(isr_highWatermark) t.(isr_topic) t.(isr_partition).
Definition set_hw (hw : Z) (t : ISRTracker) : ISRTracker :=
  mkISRTracker t.(isr_replicas) t.(isr_leaderID) t.(isr_replicaLagTimeMaxMs) hw t.(isr_topic) t.(isr_partition).

(** [checkpoint] is the checkpoint file, [None] without a data directory or a file. *)
Definition NewISRTracker (now : Z) (checkpoint : option chars) (topic : string) (partition leaderID : Z)
    (replicaIDs : list Z) (lagTimeMaxMs : Z) : ISRTracker :=
  let lagTimeMaxMs := if lagTimeMaxMs <=? 0 then 30000 else lagTimeMaxMs in
  let replicas := foldl (λ reps id, <[id := mkReplicaState id 0 now true]> reps) ∅ replicaIDs in
  mkISRTracker replicas leaderID lagTimeMaxMs (loadCheckpoint checkpoint topic partition 0) topic partition.

Definition updateISRLocked (now : Z) (t : ISRTracker) : ISRTracker :=
  let maxLag := DurationMs t.(isr_replicaLagTimeMaxMs) in
  let update rep :=
    let inSync := bool_decide (rep.(rep_BrokerID) = t.(isr_leaderID)) ||
                  negb (maxLag <? time_Sub now rep.(rep_LastCaughtUpTime)) in
    mkReplicaState rep.(rep_BrokerID) rep.(rep_LogEndOffset) rep.(rep_LastCaughtUpTime) inSync in
  set_replicas (update <$> t.(isr_replicas)) t.

(** The order in which [range] visits the replicas. *)
Class ReplicaOrder (iter : gmap Z ReplicaState → list ReplicaState) :=
  replica_order : ∀ reps, iter reps ≡ₚ (map_to_list reps).*2.

(** The minimum over the in-sync replicas, -1 standing for none yet. *)
Definition min_leo (reps : list ReplicaState) : Z :=
  foldl (λ minLEO rep,
    if rep.(rep_InSync) && ((minLEO =? -1) || (rep.(rep_LogEndOffset) <? minLEO))
    then rep.(rep_LogEndOffset) else minLEO) (-1) reps.

Definition calculateHWLocked (iter : gmap Z ReplicaState → list ReplicaState) (t : ISRTracker) : ISRTracker :=
  let minLEO := min_leo (iter t.(isr_replicas)) in
  if t.(isr_highWatermark) <? minLEO then set_hw minLEO t else t.

(** The replica's entry after the update of its LEO. *)
Definition advance_leo (now brokerID leo : Z) (t : ISRTracker) : ReplicaState :=
  match t.(isr_replicas) !! brokerID with
  | None => mkReplicaState brokerID leo now true
  | Some rep =>
      if rep.(rep_LogEndOffset) <? leo
      then mkReplicaState rep.(rep_BrokerID) leo rep.(rep_LastCaughtUpTime) rep.(rep_InSync)
      else rep
  end.

(** [max(leaderLEO, known LEO of the leader)]. *)
Definition effective_leader_leo (leaderLEO : Z) (t : ISRTracker) : Z :=
  match t.(isr_replicas) !! t.(isr_leaderID) with
  | Some leader => if leaderLEO <? leader.(rep_LogEndOffset) then leader.(rep_LogEndOffset) else leaderLEO
  | None => leaderLEO
  end.

Definition UpdateLEO (now : Z) (iter : gmap Z ReplicaState → list ReplicaState) (brokerID leo leaderLEO : Z)
    (t : ISRTracker) : Z * ISRTracker :=
  let rep := advance_leo now brokerID leo t in
  let t := set_replicas (<[brokerID := rep]> t.(isr_replicas)) t in
  let rep := if effective_leader_leo leaderLEO t <=? rep.(rep_LogEndOffset)
             then mkReplicaState rep.(rep_BrokerID) rep.(rep_LogEndOffset) now rep.(rep_InSync) else rep in
  let t := set_replicas (<[brokerID := rep]> t.(isr_replicas)) t in
  let t := calculateHWLocked iter (updateISRLocked now t) in
  (t.(isr_highWatermark), t).

Definition GetISR (iter : gmap Z ReplicaState → list ReplicaState) (t : ISRTracker) : list Z :=
  rep_BrokerID <$> filter (λ rep, rep.(rep_InSync) = true) (iter t.(isr_replicas)).

(** ** Leader epochs *)

Record PartitionEpoch := mkPartitionEpoch {
  pe_Topic : string;
  pe_Partition : Z;
  pe_Epoch : Z;  (* int32 *)
  pe_LeaderID : Z
}.

(** Topic, partition. *)
Abbreviation EpochManager := (gmap string (gmap Z PartitionEpoch)).

Definition IncrementEpoch (topic : string) (partition newLeaderID : Z) (em : EpochManager) : Z * EpochManager :=
  let tEpochs := default ∅ (em !! topic) in
  let pe := match tEpochs !! partition with
    | None => mkPartitionEpoch topic partition 1 newLeaderID
    | Some pe => mkPartitionEpoch pe.(pe_Topic) pe.(pe_Partition) (int32 (pe.(pe_Epoch) + 1)) newLeaderID
    end in
  (pe.(pe_Epoch), <[topic := <[partition := pe]> tEpochs]> em).

(** The epoch and the leader; the error cases return [(0, -1)] with an error. *)
Definition GetEpoch (topic : string) (partition : Z) (em : EpochManager) : result (Z * Z) :=
  match em !! topic with
  | None => Err (errorString "epoch: unknown topic")
  | Some tEpochs =>
      match tEpochs !! partition with
      | None => Err (errorString "epoch: unknown partition")
      | Some pe => Ok (pe.(pe_Epoch), pe.(pe_LeaderID))
      end
  end.

Definition ValidateEpoch (topic : string) (partition epoch : Z) (em : EpochManager) : bool :=
  match GetEpoch topic partition em with
  | Err _ => true
  | Ok (currentEpoch, _) => currentEpoch <=? epoch
  end.

(** ** Purgatory *)

(** [pr_RespCh] is the identity of a channel of capacity one. *)
Record ProduceRequestItem := mkProduceRequestItem {
  pr_ID : Z;
  pr_Topic : string;
  pr_Partition : Z;
  pr_RequiredHW : Z;
  pr_RespCh : nat
}.

(** The items, the last id, and the response channels that hold a value. *)
Record Purgatory := mkPurgatory {
  pg_items : gmap Z ProduceRequestItem;
  pg_nextID : Z;
  pg_signalled : gset nat
}.

Definition NewPurgatory : Purgatory := mkPurgatory ∅ 0 ∅.

Definition Watch (topic : string) (partition requiredHW : Z) (respCh : nat) (p : Purgatory) : Z * Purgatory :=
  let id := int64 (p.(pg_nextID) + 1) in
  (id, mkPurgatory (<[id := mkProduceRequestItem id topic partition requiredHW respCh]> p.(pg_items)) id p.(pg_signalled)).

Definition satisfied (topic : string) (partition currentHW : Z) (item : ProduceRequestItem) : bool :=
  bool_decide (item.(pr_Topic) = topic) && bool_decide (item.(pr_Partition) = partition) &&
  (item.(pr_RequiredHW) <=? currentHW).

(** Deleting the entry under the cursor while ranging over the map is well defined:
    every entry is visited once. [order] is the order of the ids. *)
Definition CheckAndComplete (order : list Z) (topic : string) (partition currentHW : Z) (p : Purgatory) : Purgatory :=
  foldl (λ p id,
    match p.(pg_items) !! id with
    | Some item =>
        if satisfied topic partition currentHW item
        then mkPurgatory (delete id p.(pg_items)) p.(pg_nextID) ({[item.(pr_RespCh)]} ∪ p.(pg_signalled))
        else p
    | None => p
    end) p order.

Definition Cancel (id : Z) (p : Purgatory) : Purgatory :=
  mkPurgatory (delete id p.(pg_items)) p.(pg_nextID) p.(pg_signalled).

(** ** Replica fetch messages *)

Record ReplicaFetchRequest := mkReplicaFetchRequest {
  rfq_ReplicaID : Z;
  rfq_MaxWaitMs : Z;
  rfq_Topic : string;
  rfq_Partition : Z;
  rfq_FetchOffset : Z
}.

Definition put_replica_fetch (req : ReplicaFetchRequest) : M bytes unit :=
  PutInt32 req.(rfq_ReplicaID) ;;
  PutInt32 req.(rfq_MaxWaitMs) ;;
  PutString req.(rfq_Topic) ;;
  PutInt32 req.(rfq_Partition) ;;
  PutInt64 req.(rfq_FetchOffset) ;;
  mret ().
Definition EncodeReplicaFetchRequest (req : ReplicaFetchRequest) : result bytes :=
  match put_replica_fetch req [] with (Ok _, buf) => Ok buf | (Err e, _) => Err e end.

Definition get_replica_fetch : M bytes ReplicaFetchRequest :=
  repID ← Int32;
  maxWait ← Int32;
  topic ← GetString;
  part ← Int32;
  off ← Int64;
  mret (mkReplicaFetchRequest repID maxWait topic part off).
Definition DecodeReplicaFetchRequest (data : bytes) : result ReplicaFetchRequest := (get_replica_fetch data).1.

Definition put_replica_records (errorCode hw : Z) (records : list (option record)) : M bytes unit :=
  PutInt16 errorCode ;;
  PutInt64 hw ;;
  for_each records (λ rec, match rec with None => mret () | Some _ => Encode rec ;; mret () end).
Definition EncodeReplicaFetchResponse (errorCode hw : Z) (records : list (option record)) : result bytes :=
  match put_replica_records errorCode hw records [] with (Ok _, buf) => Ok buf | (Err e, _) => Err e end.

(** [for rd.Len() > 0]: a record takes at least one byte, so the length of the rest
    bounds the turns. *)
Fixpoint decode_records (fuel : nat) (rd : bytes) : list record :=
  match fuel, rd with
  | S fuel, _ :: _ =>
      match DecodeRecord rd with
      | ((_, Ok rec), rd) => rec :: decode_records fuel rd
      | _ => []
      end
  | _, _ => []
  end.

Definition DecodeReplicaFetchResponse (data : bytes) : result (Z * Z * list record) :=
  match (errorCode ← Int16; hw ← Int64; mret (errorCode, hw)) data with
  | (Err e, _) => Err e
  | (Ok (errorCode, hw), rd) => Ok (errorCode, hw, decode_records (length rd) rd)
  end.

(** ** Steps of a tracker *)

(** Updates for known replicas, with a clock that does not go back ([time.Now] is
    read under the lock). *)
Inductive isr_step : Z * ISRTracker → Z * ISRTracker → Prop :=
  | isr_update now now' iter id leo leaderLEO t : now ≤ now' → ReplicaOrder iter →
      is_Some (t.(isr_replicas) !! id) →
      isr_step (now, t) (now', (UpdateLEO now' iter id leo leaderLEO t).2).

Definition max_lag (t : ISRTracker) : Z := DurationMs t.(isr_replicaLagTimeMaxMs).
Definition lagging (now : Z) (t : ISRTracker) (id : Z) (rep : ReplicaState) : Prop :=
  id ≠ t.(isr_leaderID) ∧ max_lag t < time_Sub now rep.(rep_LastCaughtUpTime).

(** A replica that does not have everything below the watermark has been lagging
    for too long; those in the in-sync set have it. *)
Record isr_inv (now : Z) (t : ISRTracker) : Prop := {
  ii_leader : is_Some (t.(isr_replicas) !! t.(isr_leaderID));
  ii_ids id rep : t.(isr_replicas) !! id = Some rep → rep.(rep_BrokerID) = id ∧ 0 ≤ rep.(rep_LogEndOffset);
  ii_safe id rep : t.(isr_replicas) !! id = Some rep →
    t.(isr_highWatermark) ≤ rep.(rep_LogEndOffset) ∨ lagging now t id rep;
  ii_isr id rep : t.(isr_replicas) !! id = Some rep → rep.(rep_InSync) = true →
    t.(isr_highWatermark) ≤ rep.(rep_LogEndOffset)
}.

Lemma time_Sub_mono a b u : a ≤ b → time_Sub a u ≤ time_Sub b u.
Proof. unfold time_Sub. lia. Qed.

(** The loop computes a lower bound of the in-sync LEOs. *)
Lemma min_leo_le reps rep : Forall (λ r, 0 ≤ r.(rep_LogEndOffset)) reps →
  rep ∈ reps → rep.(rep_InSync) = true → 0 ≤ min_leo reps ≤ rep.(rep_LogEndOffset).
Proof.
  intros Hpos. revert rep.
  assert (Hm : -1 ≤ min_leo reps ∧ ∀ rep, rep ∈ reps → rep.(rep_InSync) = true →
    0 ≤ min_leo reps ≤ rep.(rep_LogEndOffset)); [|apply Hm].
  induction reps as [|x reps IH] using rev_ind; [split; [done|]; intros rep H; by apply not_elem_of_nil in H|].
  apply Forall_app in Hpos as [Hpos [Hx _]%Forall_cons]. destruct (IH Hpos) as [Hge Hle].
  unfold min_leo in *. rewrite foldl_app. cbn [foldl]. set (m := foldl _ _ _) in *.
  destruct (rep_InSync x) eqn:Ex; cbn [andb].
  - split; [destruct (Z.eqb_spec m (-1)), (Z.ltb_spec (rep_LogEndOffset x) m); simpl; lia|].
    intros rep [Hr| ->%list_elem_of_singleton]%elem_of_app Hs.
    + specialize (Hle rep Hr Hs). destruct (Z.eqb_spec m (-1)), (Z.ltb_spec (rep_LogEndOffset x) m); simpl; lia.
    + destruct (Z.eqb_spec m (-1)), (Z.ltb_spec (rep_LogEndOffset x) m); simpl; lia.
  - split; [done|]. intros rep [Hr| ->%list_elem_of_singleton]%elem_of_app Hs; [by apply Hle|congruence].
Qed.

(** [updateISRLocked] and [calculateHWLocked] establish the invariant from the old
    watermark's safety. *)
Lemma recompute_inv now iter `{ReplicaOrder iter} t :
  is_Some (t.(isr_replicas) !! t.(isr_leaderID)) →
  (∀ id rep, t.(isr_replicas) !! id = Some rep → rep.(rep_BrokerID) = id ∧ 0 ≤ rep.(rep_LogEndOffset)) →
  (∀ id rep, t.(isr_replicas) !! id = Some rep →
    t.(isr_highWatermark) ≤ rep.(rep_LogEndOffset) ∨ lagging now t id rep) →
  isr_inv now (calculateHWLocked iter (updateISRLocked now t)).
Proof.
  intros Hlead Hids Hsafe. set (t1 := updateISRLocked now t).
  assert (H1 : ∀ id rep, t1.(isr_replicas) !! id = Some rep →
    ∃ rep0, t.(isr_replicas) !! id = Some rep0 ∧ rep.(rep_BrokerID) = id ∧
      rep.(rep_LogEndOffset) = rep0.(rep_LogEndOffset) ∧ rep.(rep_LastCaughtUpTime) = rep0.(rep_LastCaughtUpTime) ∧
      (rep.(rep_InSync) = true ↔ ¬ lagging now t id rep0)).
  { intros id rep. unfold t1, updateISRLocked. cbn. rewrite lookup_fmap. intros (rep0 & H0 & ->)%fmap_Some.
    exists rep0. destruct (Hids _ _ H0) as [Eid _]. split_and!; [done|done|done|done|]. cbn. unfold lagging, max_lag.
    rewrite orb_true_iff, bool_decide_eq_true, negb_true_iff, Z.ltb_ge, Eid.
    split; [intros [?|?]; [tauto|lia]|]. intros Hn. destruct (decide (id = isr_leaderID t)); [by left|right; lia]. }
  assert (Hle : ∀ id rep, t1.(isr_replicas) !! id = Some rep → rep.(rep_InSync) = true →
    min_leo (iter t1.(isr_replicas)) ≤ rep.(rep_LogEndOffset) ∧ t.(isr_highWatermark) ≤ rep.(rep_LogEndOffset)).
  { intros id rep Hr Hs. split.
    - apply min_leo_le; [|rewrite replica_order; apply list_elem_of_fmap; exists (id, rep);
        by rewrite elem_of_map_to_list|done].
      apply Forall_forall. intros r Hin. rewrite replica_order in Hin. apply list_elem_of_fmap in Hin as ([k r'] & -> & Hk).
      cbn [snd]. apply elem_of_map_to_list, H1 in Hk as (r0 & H0 & _ & -> & _). by apply Hids in H0 as [_ ?].
    - apply H1 in Hr as (r0 & H0 & _ & -> & _ & Hin). apply Hin in Hs. by destruct (Hsafe _ _ H0). }
  assert (Hhw : (calculateHWLocked iter t1).(isr_highWatermark) =
    Z.max t.(isr_highWatermark) (min_leo (iter t1.(isr_replicas)))).
  { unfold calculateHWLocked. cbv zeta. change (isr_highWatermark t1) with (isr_highWatermark t).
    destruct (Z.ltb_spec (isr_highWatermark t) (min_leo (iter t1.(isr_replicas)))); cbn [set_hw isr_highWatermark];
      [lia|]. change (isr_highWatermark t1) with (isr_highWatermark t). lia. }
  assert (Hreps : (calculateHWLocked iter t1).(isr_replicas) = t1.(isr_replicas)).
  { unfold calculateHWLocked. by destruct (_ <? _). }
  assert (Hlag : ∀ id r, lagging now (calculateHWLocked iter t1) id r ↔ lagging now t id r).
  { intros. unfold lagging, max_lag, calculateHWLocked. by destruct (_ <? _). }
  split; rewrite ?Hreps, ?Hhw.
  - assert (isr_leaderID (calculateHWLocked iter t1) = isr_leaderID t) as ->
      by (unfold calculateHWLocked; by destruct (_ <? _)).
    unfold t1, updateISRLocked. cbn. rewrite lookup_fmap. by apply fmap_is_Some.
  - intros id rep (r0 & H0 & -> & -> & _)%H1. split; [done|]. by apply Hids in H0 as [_ ?].
  - intros id rep Hr. pose proof (H1 _ _ Hr) as (r0 & H0 & _ & _ & Elast & Hin). rewrite Hlag.
    destruct (rep_InSync rep) eqn:Es; [left; destruct (Hle _ _ Hr Es); lia|]. right.
    assert (Hl : lagging now t id r0) by (destruct Hin as [_ Hin]; unfold lagging in *;
      destruct (decide (id ≠ isr_leaderID t ∧ max_lag t < time_Sub now (rep_LastCaughtUpTime r0))); [done|by discriminate Hin]).
    unfold lagging in *. by rewrite Elast.
  - intros id rep Hr Hs. destruct (Hle _ _ Hr Hs). lia.
Qed.

(** The update before the recomputation. *)
Definition touched (now brokerID leo leaderLEO : Z) (t : ISRTracker) : ReplicaState :=
  let rep := advance_leo now brokerID leo t in
  if effective_leader_leo leaderLEO (set_replicas (<[brokerID := rep]> t.(isr_replicas)) t) <=? rep.(rep_LogEndOffset)
  then mkReplicaState rep.(rep_BrokerID) rep.(rep_LogEndOffset) now rep.(rep_InSync) else rep.

Lemma UpdateLEO_eq now iter id leo leaderLEO t :
  (UpdateLEO now iter id leo leaderLEO t).2 =
    calculateHWLocked iter (updateISRLocked now (set_replicas (<[id := touched now id leo leaderLEO t]> t.(isr_replicas)) t)).
Proof. unfold UpdateLEO. cbn. by rewrite insert_insert_eq. Qed.

Lemma advance_leo_ge now id leo t rep : t.(isr_replicas) !! id = Some rep →
  let rep' := advance_leo now id leo t in
  rep'.(rep_BrokerID) = rep.(rep_BrokerID) ∧ rep.(rep_LogEndOffset) ≤ rep'.(rep_LogEndOffset) ∧
  rep'.(rep_LastCaughtUpTime) = rep.(rep_LastCaughtUpTime).
Proof.
  intros Hr. unfold advance_leo. rewrite Hr. destruct (Z.ltb_spec (rep_LogEndOffset rep) leo); cbn; split_and!; done || lia.
Qed.

Lemma touched_spec now id leo leaderLEO t rep : t.(isr_replicas) !! id = Some rep →
  let rep' := touched now id leo leaderLEO t in
  rep'.(rep_BrokerID) = rep.(rep_BrokerID) ∧ rep.(rep_LogEndOffset) ≤ rep'.(rep_LogEndOffset) ∧
  (rep'.(rep_LastCaughtUpTime) = rep.(rep_LastCaughtUpTime) ∨
   ∀ l, t.(isr_replicas) !! t.(isr_leaderID) = Some l → l.(rep_LogEndOffset) ≤ rep'.(rep_LogEndOffset)).
Proof.
  intros Hr. destruct (advance_leo_ge now id leo t rep Hr) as (E1 & E2 & E3). unfold touched.
  set (rep1 := advance_leo now id leo t) in *.
  destruct (Z.leb_spec (effective_leader_leo leaderLEO (set_replicas (<[id:=rep1]> (isr_replicas t)) t))
    (rep_LogEndOffset rep1)) as [He|He]; [|split_and!; [done|done|by left]].
  cbn. split_and!; [done|done|]. right. intros l Hl. unfold effective_leader_leo in He. cbn in He.
  destruct (decide (id = isr_leaderID t)) as [->|Hne]; [rewrite Hr in Hl; by injection Hl as <-|].
  rewrite lookup_insert_ne, Hl in He by done. destruct (Z.ltb_spec leaderLEO (rep_LogEndOffset l)); lia.
Qed.

Lemma isr_step_inv s s' : isr_inv s.1 s.2 → isr_step s s' → isr_inv s'.1 s'.2.
Proof.
  intros Hinv Hs. destruct Hs as [now now' iter id leo leaderLEO t Hnow Hiter [rep Hr]]. cbn [fst snd] in *.
  rewrite UpdateLEO_eq. destruct (touched_spec now' id leo leaderLEO t rep Hr) as (Eid & Hleo & Hcaught).
  destruct (ii_leader _ _ Hinv) as [l Hl]. apply recompute_inv; [done|..]; cbn.
  - apply lookup_insert_is_Some'. by right; eexists.
  - intros k r [[<- <-]|[_ Hk]]%lookup_insert_Some; [|by apply (ii_ids _ _ Hinv)].
    destruct (ii_ids _ _ Hinv _ _ Hr). split; [congruence|lia].
  - assert (Hlag : ∀ k r r', rep_LastCaughtUpTime r' = rep_LastCaughtUpTime r → lagging now t k r →
      lagging now' (set_replicas (<[id:=touched now' id leo leaderLEO t]> (isr_replicas t)) t) k r').
    { intros k r r' E [Hk Hm]. split; [done|]. unfold max_lag in *. cbn. rewrite E.
      pose proof (time_Sub_mono now now' (rep_LastCaughtUpTime r) Hnow). lia. }
    intros k r [[<- <-]|[_ Hk]]%lookup_insert_Some.
    + destruct (ii_safe _ _ Hinv _ _ Hr) as [?|Hlg]; [left; lia|]. destruct Hcaught as [E|Hc]; [right; by eapply Hlag|].
      left. specialize (Hc l Hl). destruct (ii_safe _ _ Hinv _ _ Hl) as [?|[? _]]; [lia|done].
    + destruct (ii_safe _ _ Hinv _ _ Hk) as [?|Hlg]; [by left|right; by eapply Hlag].
Qed.

Lemma new_replicas now ids id rep :
  foldl (λ reps id, <[id := mkReplicaState id 0 now true]> reps) (∅ : gmap Z ReplicaState) ids !! id = Some rep →
  rep = mkReplicaState id 0 now true.
Proof.
  assert (H : ∀ reps : gmap Z ReplicaState, (∀ k r, reps !! k = Some r → r = mkReplicaState k 0 now true) →
    ∀ k r, foldl (λ reps id, <[id := mkReplicaState id 0 now true]> reps) reps ids !! k = Some r → r = mkReplicaState k 0 now true).
  { induction ids as [|x ids IH]; intros reps Hreps; [done|]. cbn. apply IH.
    intros k r [[<- <-]|[_ Hk]]%lookup_insert_Some; [done|by apply Hreps]. }
  apply H. intros k r. by rewrite lookup_empty.
Qed.

Lemma new_replicas_in now ids id : id ∈ ids →
  is_Some (foldl (λ reps id, <[id := mkReplicaState id 0 now true]> reps) (∅ : gmap Z ReplicaState) ids !! id).
Proof.
  assert (H : ∀ reps : gmap Z ReplicaState, id ∈ ids ∨ is_Some (reps !! id) →
    is_Some (foldl (λ reps id, <[id := mkReplicaState id 0 now true]> reps) reps ids !! id)).
  { induction ids as [|x ids IH]; intros reps Hor; [destruct Hor as [Hin|]; [by apply not_elem_of_nil in Hin|done]|].
    cbn. apply IH. destruct Hor as [[->|?]%elem_of_cons|Hs]; [right|by left|right; apply lookup_insert_is_Some'; by right].
    rewrite lookup_insert_eq. by eexists. }
  intros Hin. apply H. by left.
Qed.

(** ** Messages *)

Definition replica_fetch_wf (r : ReplicaFetchRequest) : Prop :=
  inS 32 r.(rfq_ReplicaID) ∧ inS 32 r.(rfq_MaxWaitMs) ∧ str_ok r.(rfq_Topic) ∧ inS 32 r.(rfq_Partition) ∧
  inS 64 r.(rfq_FetchOffset).

Lemma replica_fetch_rt r : replica_fetch_wf r → roundtrip (W:=bytes) (put_replica_fetch r) get_replica_fetch r.
Proof. unfold replica_fetch_wf, put_replica_fetch, get_replica_fetch. destruct r; cbn. rt_message. Qed.

Definition record_fits (r : record) : Prop := record_wf r ∧ EncodedSize r ≤ MaxRecordSize.

(** What is left of a record after a cut. *)
Definition torn_tail (p : bytes) : Prop :=
  p = [] ∨ ∃ r suf, record_fits r ∧ record_image r = p ++ suf ∧ suf ≠ [].

(** The records written one after the other are read back, and the loop stops at the
    end of the payload or at a cut record. *)
Lemma decode_records_images rs tail fuel : Forall record_fits rs → torn_tail tail →
  (length (concat (record_image <$> rs) ++ tail) ≤ fuel)%nat →
  decode_records fuel (concat (record_image <$> rs) ++ tail) = rs.
Proof.
  intros Hrs Htail. revert fuel. induction Hrs as [|r rs [Hwf Hsz] Hrs IH]; intros fuel Hf.
  - destruct fuel as [|fuel]; [done|]. cbn. destruct Htail as [->|(r & suf & [_ Hsz] & E & Hs)]; [done|].
    destruct tail as [|b tail]; [done|].
    destruct (DecodeRecord_prefix r (b :: tail) suf Hsz E Hs) as (n & e & -> & _). done.
  - cbn [fmap list_fmap concat] in *. rewrite <- app_assoc in *. rewrite length_app in Hf.
    pose proof (length_record_image r) as Hl. pose proof (EncodedSize_min r) as Hp.
    destruct fuel as [|fuel]; [lia|]. cbn [decode_records].
    destruct (record_image r ++ concat (record_image <$> rs) ++ tail) as [|b l] eqn:E.
    { apply (f_equal length) in E. rewrite length_app in E. simpl in E. lia. }
    rewrite <- E, decode_image by done. f_equal. apply IH. lia.
Qed.

Lemma for_each_images (rs : list record) (w : bytes) : Forall record_fits rs →
  for_each (Some <$> rs) (λ rec, match rec with None => mret () | Some _ => Encode rec ;; mret () end) w =
    (Ok tt, w ++ concat (record_image <$> rs)).
Proof.
  intros Hrs. revert w. induction Hrs as [|r rs [Hwf Hsz] Hrs IH]; intros w.
  - cbn. by rewrite app_nil_r.
  - cbn [fmap list_fmap for_each concat]. unfold mbind, M_bind.
    destruct (Encode_ok (W:=bytes) r w Hsz ltac:(exact I)) as (w' & -> & _ & Ew). cbn in Ew. subst w'.
    unfold mret, M_ret. etransitivity; [apply IH|]. by rewrite <- app_assoc.
Qed.

Lemma UpdateLEO_hw now iter brokerID leo leaderLEO t :
  (UpdateLEO now iter brokerID leo leaderLEO t).1 = (UpdateLEO now iter brokerID leo leaderLEO t).2.(isr_highWatermark) ∧
  t.(isr_highWatermark) ≤ (UpdateLEO now iter brokerID leo leaderLEO t).2.(isr_highWatermark).
Proof.
  split; [done|]. rewrite UpdateLEO_eq. set (t1 := set_replicas _ t). unfold calculateHWLocked. cbv zeta.
  destruct (Z.ltb_spec (isr_highWatermark (updateISRLocked now t1)) (min_leo (iter (isr_replicas (updateISRLocked now t1)))));
    cbn [set_hw isr_highWatermark]; [|done].
  change (isr_highWatermark (updateISRLocked now t1)) with (isr_highWatermark t) in *. lia.
Qed.

(** What a pass over the purgatory does to the items it visits. *)
Definition visited (order : list Z) (topic : string) (partition hw : Z) (p p' : Purgatory) : Prop :=
  (∀ id item, p'.(pg_items) !! id = Some item ↔
     p.(pg_items) !! id = Some item ∧ (id ∈ order → satisfied topic partition hw item = false)) ∧
  (∀ ch, ch ∈ p'.(pg_signalled) ↔ ch ∈ p.(pg_signalled) ∨
     ∃ id item, id ∈ order ∧ p.(pg_items) !! id = Some item ∧ satisfied topic partition hw item = true ∧ item.(pr_RespCh) = ch) ∧
  p'.(pg_nextID) = p.(pg_nextID).

Lemma visited_nil topic partition hw p : visited [] topic partition hw p p.
Proof.
  split_and!; [| |done].
  - intros id item. split; [intros H; split; [done|by intros ?%not_elem_of_nil]|by intros []].
  - intros ch. split; [by left|]. intros [?|(id & item & Hx & _)]; [done|by apply not_elem_of_nil in Hx].
Qed.

(** An item that stays. *)
Lemma visited_skip x order topic partition hw p p' :
  (∀ item, p.(pg_items) !! x = Some item → satisfied topic partition hw item = false) →
  visited order topic partition hw p p' → visited (x :: order) topic partition hw p p'.
Proof.
  intros Hx (Hi & Hs & Hn). split_and!; [| |done].
  - intros id item. rewrite Hi, elem_of_cons. split; intros [Hl Ho]; (split; [done|]); [|by intros; apply Ho; right].
    intros [->|?]; [by apply Hx|by apply Ho].
  - intros ch. rewrite Hs. split; (intros [?|(id & item & Ho & Hl & Hsat & Hc)]; [by left|right; exists id, item]).
    + rewrite elem_of_cons. by split_and!; [right|..].
    + apply elem_of_cons in Ho as [->|Ho]; [by rewrite (Hx _ Hl) in Hsat|done].
Qed.

(** An item that is completed. *)
Lemma visited_complete x ix order topic partition hw p p' : x ∉ order →
  p.(pg_items) !! x = Some ix → satisfied topic partition hw ix = true →
  visited order topic partition hw
    (mkPurgatory (delete x p.(pg_items)) p.(pg_nextID) ({[ix.(pr_RespCh)]} ∪ p.(pg_signalled))) p' →
  visited (x :: order) topic partition hw p p'.
Proof.
  intros Hx Ex Es (Hi & Hs & Hn). cbn in *. split_and!; [| |done].
  - intros id item. rewrite Hi, lookup_delete_Some, elem_of_cons. split.
    + intros [[Hne Hl] Ho]. split; [done|]. intros [->|?]; [done|by apply Ho].
    + intros [Hl Ho].
      assert (id ≠ x) by (intros ->; rewrite Ex in Hl; injection Hl as <-; rewrite Ho in Es; [done|by left]).
      split; [done|]. intros. apply Ho. by right.
  - intros ch. rewrite Hs, elem_of_union, elem_of_singleton. split.
    + intros [[->|?]|(id & item & Ho & [Hne Hl]%lookup_delete_Some & Hsat & Hc)]; [|by left|].
      * right. exists x, ix. rewrite elem_of_cons. by split_and!; [left|..].
      * right. exists id, item. rewrite elem_of_cons. by split_and!; [right|..].
    + intros [?|(id & item & [->|Ho]%elem_of_cons & Hl & Hsat & Hc)]; [left; by right| |].
      * left. left. rewrite Ex in Hl. injection Hl as <-. done.
      * right. exists id, item. rewrite lookup_delete_Some. split_and!; try done. by intros ->.
Qed.

Lemma CheckAndComplete_visits order topic partition hw p : NoDup order →
  visited order topic partition hw p (CheckAndComplete order topic partition hw p).
Proof.
  revert p. induction order as [|x order IH]; intros p Hnd; [apply visited_nil|].
  apply NoDup_cons in Hnd as [Hx Hnd]. unfold CheckAndComplete. cbn [foldl].
  fold (CheckAndComplete order topic partition hw).
  destruct (p.(pg_items) !! x) as [ix|] eqn:Ex; [destruct (satisfied topic partition hw ix) eqn:Es|].
  - apply (visited_complete x ix); [done|done|done|by apply IH].
  - apply visited_skip; [|by apply IH]. intros item Hi. congruence.
  - apply visited_skip; [|by apply IH]. intros item Hi. congruence.
Qed.

(** ... the order covering all of them. *)
Lemma CheckAndComplete_spec order topic partition hw p :
  NoDup order → (∀ id, is_Some (p.(pg_items) !! id) → id ∈ order) →
  let p' := CheckAndComplete order topic partition hw p in
  (∀ id item, p'.(pg_items) !! id = Some item ↔
     p.(pg_items) !! id = Some item ∧ satisfied topic partition hw item = false) ∧
  (∀ ch, ch ∈ p'.(pg_signalled) ↔ ch ∈ p.(pg_signalled) ∨
     ∃ id item, p.(pg_items) !! id = Some item ∧ satisfied topic partition hw item = true ∧ item.(pr_RespCh) = ch) ∧
  p'.(pg_nextID) = p.(pg_nextID).
Proof.
  intros Hnd Hin. destruct (CheckAndComplete_visits order topic partition hw p Hnd) as (Hi & Hs & Hn).
  split_and!; [| |done].
  - intros id item. rewrite Hi. split; intros [Hl Ho]; (split; [done|]); [apply Ho, Hin; by eexists|done].
  - intros ch. rewrite Hs. split; (intros [?|(id & item & Ho)]; [by left|right; exists id, item]); [tauto|].
    split; [|done]. apply Hin. destruct Ho as [Ho _]. by eexists.
Qed.

(** ** Claims *)


(** Whatever is reported, also stale or reordered reports, the high watermark and
    every replica's log end offset never go back. *)
Theorem UpdateLEO_monotone now iter brokerID leo leaderLEO t :
  let '(hw, t') := UpdateLEO now iter brokerID leo leaderLEO t in
  hw = t'.(isr_highWatermark) ∧ t.(isr_highWatermark) ≤ t'.(isr_highWatermark) ∧
  ∀ id rep, t.(isr_replicas) !! id = Some rep →
    ∃ rep', t'.(isr_replicas) !! id = Some rep' ∧ rep.(rep_LogEndOffset) ≤ rep'.(rep_LogEndOffset).
Proof.
  pose proof (UpdateLEO_eq now iter brokerID leo leaderLEO t) as E.
  destruct (UpdateLEO now iter brokerID leo leaderLEO t) as [hw t'] eqn:Eu. cbn [snd] in E.
  split; [unfold UpdateLEO in Eu; by injection Eu as <- <-|]. subst t'.
  set (t1 := set_replicas _ t). unfold calculateHWLocked. cbv zeta. split.
  - destruct (Z.ltb_spec (isr_highWatermark (updateISRLocked now t1)) (min_leo (iter (isr_replicas (updateISRLocked now t1)))));
      cbn [set_hw isr_highWatermark]; [|done]. change (isr_highWatermark (updateISRLocked now t1)) with (isr_highWatermark t) in *. lia.
  - intros id rep Hr.
    assert (∃ rep1, t1.(isr_replicas) !! id = Some rep1 ∧ rep.(rep_LogEndOffset) ≤ rep1.(rep_LogEndOffset)) as (r1 & H1 & Hle).
    { unfold t1. cbn. destruct (decide (brokerID = id)) as [->|Hne].
      - rewrite lookup_insert_eq. eexists. split; [done|]. by destruct (touched_spec now id leo leaderLEO t rep Hr) as (_ & ? & _).
      - rewrite lookup_insert_ne by done. by exists rep. }
    exists (mkReplicaState (rep_BrokerID r1) (rep_LogEndOffset r1) (rep_LastCaughtUpTime r1)
      (bool_decide (rep_BrokerID r1 = isr_leaderID t1) ||
        negb (DurationMs (isr_replicaLagTimeMaxMs t1) <? time_Sub now (rep_LastCaughtUpTime r1)))).
    split; [|exact Hle]. destruct (_ <? _); cbn [set_hw isr_replicas updateISRLocked set_replicas];
      by rewrite lookup_fmap, H1.
Qed.

(** A new leadership gets the next epoch; from then on requests with any older
    epoch of that partition are invalid, and other partitions keep their epochs. *)
Theorem epoch_fencing topic partition leader em :
  (∀ e l, GetEpoch topic partition em = Ok (e, l) → 1 ≤ e < MaxInt32) →
  let '(e, em') := IncrementEpoch topic partition leader em in
  GetEpoch topic partition em' = Ok (e, leader) ∧
  (∀ e0 l0, GetEpoch topic partition em = Ok (e0, l0) → e = e0 + 1) ∧
  (∀ e', e' < e → ValidateEpoch topic partition e' em' = false) ∧
  (∀ t p, (t, p) ≠ (topic, partition) → 
     ∀ x, GetEpoch t p em = Ok x → GetEpoch t p em' = Ok x).
Proof.
  intros Hr. unfold IncrementEpoch. cbv zeta. set (pe := match _ with None => _ | Some _ => _ end).
  set (em' := <[topic := _]> em).
  assert (Hget : GetEpoch topic partition em' = Ok (pe_Epoch pe, leader)).
  { unfold GetEpoch, em'. rewrite !lookup_insert_eq. unfold pe. by destruct (default ∅ (em !! topic) !! partition). }
  split; [done|]. split; [|split].
  - intros e0 l0 H0. specialize (Hr e0 l0 H0). unfold GetEpoch in H0. unfold pe.
    destruct (em !! topic) as [te|]; [|done]. cbn. unfold id. destruct (te !! partition) as [x|]; [|done].
    injection H0 as <- _. cbn. rewrite wrapS_small; [done|lia|width_lia].
  - intros e' He. unfold ValidateEpoch. rewrite Hget. by apply Z.leb_gt.
  - intros t p Hne x. unfold GetEpoch, em'. destruct (decide (t = topic)) as [->|Ht].
    + rewrite lookup_insert_eq. destruct (em !! topic) as [te|]; [|done]. cbn. unfold id.
      rewrite lookup_insert_ne; [done|congruence].
    + by rewrite lookup_insert_ne.
Qed.

Lemma encode_replica_response errorCode hw rs : Forall record_fits rs →
  EncodeReplicaFetchResponse errorCode hw (Some <$> rs) =
    Ok (be_encode 2 errorCode ++ be_encode 8 hw ++ concat (record_image <$> rs)).
Proof.
  intros Hrs. unfold EncodeReplicaFetchResponse.
  assert (put_replica_records errorCode hw (Some <$> rs) [] =
    (Ok tt, (be_encode 2 errorCode ++ be_encode 8 hw) ++ concat (record_image <$> rs))) as ->.
  { rewrite <- (for_each_images rs) by done. done. }
  by rewrite <- app_assoc.
Qed.

(** A follower's fetch request and the leader's answer survive the wire; an
    answer cut inside a record yields the whole records before the cut. *)
Theorem replica_fetch_roundtrip req errorCode hw rs tail : replica_fetch_wf req →
  inS 16 errorCode → inS 64 hw → Forall record_fits rs → torn_tail tail →
  (∃ bs, EncodeReplicaFetchRequest req = Ok bs ∧ DecodeReplicaFetchRequest bs = Ok req) ∧
  (∃ bs, EncodeReplicaFetchResponse errorCode hw (Some <$> rs) = Ok bs ∧
     DecodeReplicaFetchResponse (bs ++ tail) = Ok (errorCode, hw, rs)).
Proof.
  intros Hreq He Hhw Hrs Htail. split.
  - destruct (replica_fetch_rt req Hreq [] ltac:(exact I)) as (u & w' & bs & E & _ & Ew & G). cbn in Ew. subst w'.
    exists bs. unfold EncodeReplicaFetchRequest, DecodeReplicaFetchRequest. rewrite E. split; [done|].
    specialize (G []). rewrite app_nil_r in G. by rewrite G.
  - exists (be_encode 2 errorCode ++ be_encode 8 hw ++ concat (record_image <$> rs)). split; [by apply encode_replica_response|].
    unfold DecodeReplicaFetchResponse, Int16, Int64, get_int, mbind, M_bind. rewrite <- !app_assoc.
    rewrite ReadFull_eq by len. unfold mret, M_ret. rewrite ReadFull_eq by len.
    rewrite !be_signed_encode by (done || lia). by rewrite decode_records_images.
Qed.

(** ** Witnesses *)

Definition replicas_order (reps : gmap Z ReplicaState) : list ReplicaState := (map_to_list reps).*2.
#[global] Instance replicas_order_ok : ReplicaOrder replicas_order.
Proof. intros reps. apply Permutation_refl. Qed.

Definition sample_tracker : ISRTracker := NewISRTracker 0 None "orders" 0 1 [1; 2] 10.
Definition advanced_tracker : ISRTracker :=
  (UpdateLEO 5 replicas_order 2 4 9 (UpdateLEO 3 replicas_order 1 9 9 sample_tracker).2).2.


Lemma epoch_fencing_witness :
  let em := (IncrementEpoch "orders" 0 1 ∅).2 in
  let '(e, em') := IncrementEpoch "orders" 0 2 em in
  GetEpoch "orders" 0 em' = Ok (e, 2) ∧
  (∀ e0 l0, GetEpoch "orders" 0 em = Ok (e0, l0) → e = e0 + 1) ∧
  (∀ e', e' < e → ValidateEpoch "orders" 0 e' em' = false) ∧
  (∀ t p, (t, p) ≠ ("orders", 0) → ∀ x, GetEpoch t p em = Ok x → GetEpoch t p em' = Ok x).
Proof.
  intros em. apply (epoch_fencing "orders" 0 2 em). intros e l H. vm_compute in H. injection H as <- _. by_decide.
Defined.

Lemma replica_fetch_roundtrip_witness :
  let req := mkReplicaFetchRequest 2 500 "orders" 0 17 in
  (∃ bs, EncodeReplicaFetchRequest req = Ok bs ∧ DecodeReplicaFetchRequest bs = Ok req) ∧
  (∃ bs, EncodeReplicaFetchResponse 0 17 (Some <$> [sample_record]) = Ok bs ∧
     DecodeReplicaFetchResponse (bs ++ take 20 (record_image sample_record)) = Ok (0, 17, [sample_record])).
Proof.
  intros req. apply (replica_fetch_roundtrip req 0 17 [sample_record] (take 20 (record_image sample_record))).
  - split_and!; by_decide.
  - by_decide.
  - by_decide.
  - repeat constructor; by_decide.
  - right. exists sample_record, (drop 20 (record_image sample_record)).
    split_and!; [split; by_decide|by rewrite take_drop|]. intros E. by vm_compute in E.
Defined.
