(* ===== verification/Acks.v ===== *)
(** * Waiting for acknowledgements (src/internal/broker/broker_replication.go)

    [waitForAcksAll] beside the handlers that move the high watermark. One produce
    request waits for [requiredHW] on one partition; [handleProduce] and
    [handleReplicaFetch] update the partition's tracker and then call
    [CheckAndComplete] with the watermark they got, in separate critical sections, so
    any number of them can be between the two calls. *)
From Stdlib Require Import ZArith Lia Strings.Byte.
From stdpp Require Import base list strings gmap.
From S2P Require Import Prelude Replication.
Open Scope Z_scope.

(** Where the waiting request is. [PcComplete] is between the re-check that found
    the watermark high enough and the call of [CheckAndComplete]. *)
Inductive waitPc :=
  | PcStart
  | PcWatch
  | PcRecheck (id : Z)
  | PcComplete (id : Z)
  | PcWait (id : Z)
  | PcReturn (err : option error).

(** The tracker of the partition, the purgatory, the watermarks of the handlers that
    have not called [CheckAndComplete] yet, and the waiting request. *)
Record AckState := mkAckState {
  ak_tracker : ISRTracker;
  ak_purgatory : Purgatory;
  ak_completers : list Z;
  ak_pc : waitPc
}.

Section waiter.
Context (topic : string) (partition requiredHW : Z) (respCh : nat).

(** An order in which [range] visits the purgatory. *)
Definition item_order (order : list Z) (p : Purgatory) : Prop := order ≡ₚ (map_to_list p.(pg_items)).*1.

(** The steps of [waitForAcksAll]; [timedOut] says whether the deadline has passed
    when the request looks. *)
Definition wait_start (s : AckState) : AckState :=
  let pc := if requiredHW <=? 0 then PcReturn None
            else if requiredHW <=? s.(ak_tracker).(isr_highWatermark) then PcReturn None
            else PcWatch in
  mkAckState s.(ak_tracker) s.(ak_purgatory) s.(ak_completers) pc.

Definition wait_watch (s : AckState) : AckState :=
  let '(id, p) := Watch topic partition requiredHW respCh s.(ak_purgatory) in
  mkAckState s.(ak_tracker) p s.(ak_completers) (PcRecheck id).

Definition wait_recheck (id : Z) (s : AckState) : AckState :=
  mkAckState s.(ak_tracker) s.(ak_purgatory) s.(ak_completers)
    (if requiredHW <=? s.(ak_tracker).(isr_highWatermark) then PcComplete id else PcWait id).

Definition wait_complete (order : list Z) (id : Z) (s : AckState) : AckState :=
  mkAckState s.(ak_tracker)
    (CheckAndComplete order topic partition s.(ak_tracker).(isr_highWatermark) s.(ak_purgatory))
    s.(ak_completers) (PcWait id).

Definition wait_timeout (id : Z) (s : AckState) : AckState :=
  mkAckState s.(ak_tracker) (Cancel id s.(ak_purgatory)) s.(ak_completers) (PcReturn (Some errProduceTimeout)).

(** The receive from [respCh]. *)
Definition wait_receive (s : AckState) : AckState :=
  mkAckState s.(ak_tracker) (mkPurgatory s.(ak_purgatory).(pg_items) s.(ak_purgatory).(pg_nextID)
      (s.(ak_purgatory).(pg_signalled) ∖ {[respCh]})) s.(ak_completers) (PcReturn None).

(** The other handlers: the tracker update, [CheckAndComplete] with its result, and
    other requests that enter and leave the purgatory. *)
Definition handler_update (now : Z) (iter : gmap Z ReplicaState → list ReplicaState) (brokerID leo leaderLEO : Z)
    (s : AckState) : AckState :=
  let '(hw, t) := UpdateLEO now iter brokerID leo leaderLEO s.(ak_tracker) in
  mkAckState t s.(ak_purgatory) (hw :: s.(ak_completers)) s.(ak_pc).

Definition handler_complete (order : list Z) (hw : Z) (rest : list Z) (s : AckState) : AckState :=
  mkAckState s.(ak_tracker) (CheckAndComplete order topic partition hw s.(ak_purgatory)) rest s.(ak_pc).

Definition other_purgatory (p : Purgatory) (s : AckState) : AckState :=
  mkAckState s.(ak_tracker) p s.(ak_completers) s.(ak_pc).

Inductive ack_step : AckState → AckState → Prop :=
  | ack_start s : s.(ak_pc) = PcStart → ack_step s (wait_start s)
  | ack_watch s : s.(ak_pc) = PcWatch → inS 64 (s.(ak_purgatory).(pg_nextID) + 1) → ack_step s (wait_watch s)
  | ack_recheck id s : s.(ak_pc) = PcRecheck id → ack_step s (wait_recheck id s)
  | ack_complete order id s : s.(ak_pc) = PcComplete id → item_order order s.(ak_purgatory) →
      ack_step s (wait_complete order id s)
  | ack_receive id s : s.(ak_pc) = PcWait id → respCh ∈ s.(ak_purgatory).(pg_signalled) → ack_step s (wait_receive s)
  | ack_timeout id s : s.(ak_pc) = PcWait id → ack_step s (wait_timeout id s)
  | handler_updates now iter brokerID leo leaderLEO s :
      ack_step s (handler_update now iter brokerID leo leaderLEO s)
  | handler_completes order hw rest s : s.(ak_completers) ≡ₚ (hw :: rest) → item_order order s.(ak_purgatory) →
      ack_step s (handler_complete order hw rest s)
  | other_watches t p r ch s : ch ≠ respCh → inS 64 (s.(ak_purgatory).(pg_nextID) + 1) →
      ack_step s (other_purgatory (Watch t p r ch s.(ak_purgatory)).2 s)
  | other_completes order t p hw s : (t, p) ≠ (topic, partition) → item_order order s.(ak_purgatory) →
      ack_step s (other_purgatory (CheckAndComplete order t p hw s.(ak_purgatory)) s)
  | other_cancels id item s : s.(ak_purgatory).(pg_items) !! id = Some item → item.(pr_RespCh) ≠ respCh →
      ack_step s (other_purgatory (Cancel id s.(ak_purgatory)) s).

(** ** Invariant *)

Definition watched (id : Z) : ProduceRequestItem := mkProduceRequestItem id topic partition requiredHW respCh.

(** The request has its item in the purgatory or its answer in the channel. *)
Definition registered_in (id : Z) (p : Purgatory) : Prop :=
  p.(pg_items) !! id = Some (watched id) ∨ respCh ∈ p.(pg_signalled).

Definition pc_inv (s : AckState) : Prop :=
  match s.(ak_pc) with
  | PcStart | PcWatch => ∀ id item, s.(ak_purgatory).(pg_items) !! id = Some item → item.(pr_RespCh) ≠ respCh
  | PcRecheck id => registered_in id s.(ak_purgatory)
  | PcComplete id => registered_in id s.(ak_purgatory) ∧ requiredHW ≤ s.(ak_tracker).(isr_highWatermark)
  | PcWait id => registered_in id s.(ak_purgatory) ∧
      (requiredHW ≤ s.(ak_tracker).(isr_highWatermark) →
       respCh ∈ s.(ak_purgatory).(pg_signalled) ∨ ∃ h, h ∈ s.(ak_completers) ∧ requiredHW ≤ h)
  | PcReturn None => requiredHW ≤ 0 ∨ requiredHW ≤ s.(ak_tracker).(isr_highWatermark)
  | PcReturn (Some e) => e = errProduceTimeout
  end.

(** Items are filed under ids that were given out; only the request's own item uses
    its channel; a signal means that the watermark was reached. *)
Definition purgatory_inv (hw : Z) (p : Purgatory) : Prop :=
  (∀ id item, p.(pg_items) !! id = Some item → item.(pr_ID) = id ∧ id ≤ p.(pg_nextID)) ∧
  (∀ id item, p.(pg_items) !! id = Some item → item.(pr_RespCh) = respCh → item = watched id) ∧
  (respCh ∈ p.(pg_signalled) → requiredHW ≤ hw).

Definition ack_inv (s : AckState) : Prop :=
  purgatory_inv s.(ak_tracker).(isr_highWatermark) s.(ak_purgatory) ∧
  (∀ h, h ∈ s.(ak_completers) → h ≤ s.(ak_tracker).(isr_highWatermark)) ∧ pc_inv s.

(** ** The purgatory's part *)

Lemma item_order_covers order p : item_order order p → NoDup order ∧ ∀ id, is_Some (p.(pg_items) !! id) → id ∈ order.
Proof.
  unfold item_order. intros Ho. split.
  - rewrite Ho. apply NoDup_fst_map_to_list.
  - intros id [item Hi]. rewrite Ho. apply list_elem_of_fmap. exists (id, item). by rewrite elem_of_map_to_list.
Qed.

Lemma satisfied_watched t p h id :
  satisfied t p h (watched id) = true ↔ (t, p) = (topic, partition) ∧ requiredHW ≤ h.
Proof.
  unfold satisfied. cbn. rewrite !andb_true_iff, !bool_decide_eq_true, Z.leb_le. split.
  - by intros [[-> ->] ?].
  - by intros [[= -> ->] ?].
Qed.

(** A pass for a partition with a watermark that was reached. *)
Lemma complete_inv order t p h hw pg : item_order order pg → ((t, p) = (topic, partition) → h ≤ hw) →
  purgatory_inv hw pg →
  let pg' := CheckAndComplete order t p h pg in
  purgatory_inv hw pg' ∧ (∀ id, registered_in id pg → registered_in id pg') ∧
  ((t, p) = (topic, partition) → requiredHW ≤ h → ∀ id, registered_in id pg → respCh ∈ pg'.(pg_signalled)) ∧
  (respCh ∈ pg.(pg_signalled) → respCh ∈ pg'.(pg_signalled)).
Proof.
  intros [Hnd Hcov]%item_order_covers Hh (Hids & Hown & Hsig).
  destruct (CheckAndComplete_spec order t p h pg Hnd Hcov) as (Hi & Hs & Hn). cbn zeta in *.
  set (pg' := CheckAndComplete order t p h pg) in *.
  assert (Hsat : ∀ id, pg.(pg_items) !! id = Some (watched id) → satisfied t p h (watched id) = true →
    respCh ∈ pg'.(pg_signalled)) by (intros id Hid Hst; apply Hs; right; by exists id, (watched id)).
  split_and!.
  - split_and!.
    + intros id item [Hl _]%Hi. rewrite Hn. by apply Hids.
    + intros id item [Hl _]%Hi. by apply Hown.
    + intros [?|(id & item & Hl & Hst & Hc)]%Hs; [by apply Hsig|].
      rewrite (Hown _ _ Hl Hc) in Hst. apply satisfied_watched in Hst as [E ?]. specialize (Hh E). lia.
  - intros id [Hl|Hc]; [|right; apply Hs; by left].
    destruct (satisfied t p h (watched id)) eqn:Est; [right; by eapply Hsat|left; by apply Hi].
  - intros E Hr id [Hl|Hc]; [|apply Hs; by left]. eapply Hsat; [exact Hl|]. by apply satisfied_watched.
  - intros Hc. apply Hs. by left.
Qed.

(** Another request enters. *)
Lemma other_watch_inv t p r ch hw pg : ch ≠ respCh → inS 64 (pg.(pg_nextID) + 1) → purgatory_inv hw pg →
  let pg' := (Watch t p r ch pg).2 in
  purgatory_inv hw pg' ∧ (∀ id, registered_in id pg → registered_in id pg') ∧
  (∀ id item, pg'.(pg_items) !! id = Some item → item.(pr_RespCh) = respCh → pg.(pg_items) !! id = Some item) ∧
  pg'.(pg_signalled) = pg.(pg_signalled).
Proof.
  intros Hch Hw (Hids & Hown & Hsig). unfold Watch. cbn. rewrite wrapS_small by (done || lia). split_and!.
  - split_and!; cbn; [| |done].
    + intros id item [[<- <-]|[_ Hl]]%lookup_insert_Some; [cbn; split; [done|lia]|].
      destruct (Hids _ _ Hl). split; [done|lia].
    + intros id item [[<- <-]|[_ Hl]]%lookup_insert_Some; [done|by apply Hown].
  - intros id [Hl|Hc]; [left; cbn|by right]. rewrite lookup_insert_ne; [done|]. intros <-.
    apply Hids in Hl as [_ ?]. lia.
  - intros id item [[<- <-]|[_ Hl]]%lookup_insert_Some; done.
  - done.
Qed.

Lemma own_watch_inv hw pg : inS 64 (pg.(pg_nextID) + 1) → purgatory_inv hw pg →
  let '(id, pg') := Watch topic partition requiredHW respCh pg in purgatory_inv hw pg' ∧ registered_in id pg'.
Proof.
  intros Hw (Hids & Hown & Hsig). unfold Watch. rewrite wrapS_small by (done || lia). split.
  - split_and!; cbn; [| |done].
    + intros id item [[<- <-]|[_ Hl]]%lookup_insert_Some; [cbn; split; [done|lia]|].
      destruct (Hids _ _ Hl). split; [done|lia].
    + intros id item [[<- <-]|[_ Hl]]%lookup_insert_Some; [done|by apply Hown].
  - left. cbn. by rewrite lookup_insert_eq.
Qed.

Lemma cancel_inv i hw pg : purgatory_inv hw pg → purgatory_inv hw (Cancel i pg).
Proof.
  intros (Hids & Hown & Hsig). split_and!; cbn; [| |done].
  - intros id item [_ Hl]%lookup_delete_Some. by apply Hids.
  - intros id item [_ Hl]%lookup_delete_Some. by apply Hown.
Qed.

Lemma purgatory_inv_mono hw hw' p : hw ≤ hw' → purgatory_inv hw p → purgatory_inv hw' p.
Proof. intros Hle (H1 & H2 & H3). split_and!; [done|done|]. intros Hs. specialize (H3 Hs). lia. Qed.

(** A change of the purgatory by others that keeps the registration keeps [pc_inv]. *)
Lemma pc_inv_other s p : pc_inv s →
  (∀ id, registered_in id s.(ak_purgatory) → registered_in id p) →
  (∀ id item, p.(pg_items) !! id = Some item → item.(pr_RespCh) = respCh →
     s.(ak_purgatory).(pg_items) !! id = Some item) →
  (respCh ∈ s.(ak_purgatory).(pg_signalled) → respCh ∈ p.(pg_signalled)) →
  pc_inv (other_purgatory p s).
Proof.
  intros Hpc Hreg Hit Hsig. unfold pc_inv in *. cbn. destruct s as [t pg cs pc]; cbn in *. destruct pc as [| | | | |[]]; try done.
  - intros id item Hl Hc. by eapply Hpc, Hc; apply Hit.
  - intros id item Hl Hc. by eapply Hpc, Hc; apply Hit.
  - by apply Hreg.
  - destruct Hpc. split; [by apply Hreg|done].
  - destruct Hpc as [Hr Hw]. split; [by apply Hreg|]. intros Hq. destruct (Hw Hq); [left; by apply Hsig|by right].
Qed.

(** Items after a pass were there before. *)
Lemma complete_items order t p h pg id item : item_order order pg →
  (CheckAndComplete order t p h pg).(pg_items) !! id = Some item → pg.(pg_items) !! id = Some item.
Proof.
  intros [Hnd Hcov]%item_order_covers. destruct (CheckAndComplete_spec order t p h pg Hnd Hcov) as (Hi & _).
  by intros [? _]%Hi.
Qed.

Lemma handler_update_inv now iter brokerID leo leaderLEO s : ack_inv s →
  ack_inv (handler_update now iter brokerID leo leaderLEO s).
Proof.
  intros (Hp & Hc & Hpc). unfold handler_update.
  destruct (UpdateLEO_hw now iter brokerID leo leaderLEO s.(ak_tracker)) as [Ehw Hmono].
  destruct (UpdateLEO now iter brokerID leo leaderLEO s.(ak_tracker)) as [hw t]. cbn [fst snd] in *. subst hw.
  split_and!; cbn.
  - by eapply purgatory_inv_mono.
  - intros h [->|Hh]%elem_of_cons; [done|]. specialize (Hc h Hh). lia.
  - destruct s as [t0 pg cs pc]. unfold pc_inv in *. cbn in *. destruct pc as [| | | | |[]]; try done.
    + destruct Hpc. split; [done|lia].
    + destruct Hpc as [Hr Hw]. split; [done|]. intros Hq. right. exists (isr_highWatermark t). split; [left|done].
    + destruct Hpc; [by left|right; lia].
Qed.

Lemma handler_complete_inv order hw rest s : ack_inv s → s.(ak_completers) ≡ₚ (hw :: rest) →
  item_order order s.(ak_purgatory) → ack_inv (handler_complete order hw rest s).
Proof.
  intros (Hp & Hc & Hpc) Hperm Ho.
  assert (Hh : hw ≤ s.(ak_tracker).(isr_highWatermark)) by (apply Hc; rewrite Hperm; left).
  destruct (complete_inv order topic partition hw _ _ Ho (λ _, Hh) Hp) as (Hp' & Hreg & Hsat & Hsig).
  split_and!; cbn; [done|intros h Hin; apply Hc; rewrite Hperm; by right|].
  pose proof (pc_inv_other s _ Hpc Hreg (λ id item Hl _, complete_items _ _ _ _ _ _ _ Ho Hl) Hsig) as Hpc'.
  destruct s as [t pg cs pc]. unfold pc_inv in *. cbn in *. destruct pc as [| | | |id|[]]; try done.
  destruct Hpc as [Hr Hw]. split; [by apply Hreg|]. intros Hq. destruct (Hw Hq) as [Hs|(h & Hin & Hge)]; [left; by apply Hsig|].
  rewrite Hperm in Hin. apply elem_of_cons in Hin as [->|Hin]; [left; by eapply Hsat|right; by exists h].
Qed.

Lemma other_cancel_inv id item s : ack_inv s → s.(ak_purgatory).(pg_items) !! id = Some item →
  item.(pr_RespCh) ≠ respCh → ack_inv (other_purgatory (Cancel id s.(ak_purgatory)) s).
Proof.
  intros (Hp & Hc & Hpc) Hl Hne. split_and!; [by apply cancel_inv|done|]. apply pc_inv_other; [done| | |done].
  - intros i [Hi|Hs]; [left|by right]. cbn. rewrite lookup_delete_ne; [done|]. intros ->. rewrite Hl in Hi. by injection Hi as ->.
  - intros i it Hi _. cbn in Hi. by apply lookup_delete_Some in Hi as [_ ?].
Qed.

Lemma waiter_step_inv s s' : ack_inv s → ack_step s s' → ack_inv s'.
Proof.
  intros Hs Hst. destruct Hst as [s Epc|s Epc Hw|id s Epc|order id s Epc Ho|id s Epc Hsg|id s Epc|
    |order hw rest s Hperm Ho|t p r ch s Hch Hw|order t p hw s Hne Ho|id item s Hl Hne].
  7: by apply handler_update_inv.
  7: by apply handler_complete_inv.
  9: by eapply other_cancel_inv.
  all: destruct Hs as (Hp & Hc & Hpc); unfold pc_inv in Hpc; rewrite ?Epc in Hpc.
  - split_and!; [done|done|]. unfold pc_inv, wait_start. cbn.
    destruct (Z.leb_spec requiredHW 0); [by left|]. destruct (Z.leb_spec requiredHW (isr_highWatermark (ak_tracker s))); [by right|done].
  - pose proof (own_watch_inv _ _ Hw Hp) as H. unfold wait_watch.
    destruct (Watch topic partition requiredHW respCh (ak_purgatory s)) as [id pg]. destruct H. by split_and!.
  - split_and!; [done|done|]. unfold pc_inv, wait_recheck. cbn.
    destruct (Z.leb_spec requiredHW (isr_highWatermark (ak_tracker s))); [done|]. split; [done|]. lia.
  - destruct Hpc as [Hr Hge].
    destruct (complete_inv order topic partition _ _ _ Ho (λ _, Z.le_refl _) Hp) as (Hp' & Hreg & Hsat & _).
    split_and!; [done|done|]. split; [by apply Hreg|]. intros _. left. by eapply Hsat.
  - destruct Hp as (H1 & H2 & H3). split_and!; [split_and!; cbn|done|]; [done|done| |].
    + intros [H _]%elem_of_difference. by apply H3.
    + right. by apply H3.
  - split_and!; [by apply cancel_inv|done|done].
  - destruct (other_watch_inv t p r ch _ _ Hch Hw Hp) as (Hp' & Hreg & Hit & Esig).
    split_and!; [done|done|]. apply pc_inv_other; [done|done|done|]. by rewrite Esig.
  - destruct (complete_inv order t p hw (isr_highWatermark (ak_tracker s)) _ Ho) as (Hp' & Hreg & _ & Hsig); [done|done|].
    split_and!; [done|done|]. apply pc_inv_other; [done|done| |done]. intros id item Hl _. by eapply complete_items.
Qed.

(** A state in which the request has not started. *)
Definition fresh_request (s : AckState) : Prop :=
  s.(ak_pc) = PcStart ∧ (respCh ∉ s.(ak_purgatory).(pg_signalled)) ∧
  (∀ id item, s.(ak_purgatory).(pg_items) !! id = Some item →
     item.(pr_ID) = id ∧ id ≤ s.(ak_purgatory).(pg_nextID) ∧ item.(pr_RespCh) ≠ respCh) ∧
  (∀ h, h ∈ s.(ak_completers) → h ≤ s.(ak_tracker).(isr_highWatermark)).

Lemma fresh_request_inv s : fresh_request s → ack_inv s.
Proof.
  intros (Epc & Hsig & Hit & Hc). split_and!; [split_and!|done|].
  - intros id item H. by destruct (Hit _ _ H) as (? & ? & _).
  - intros id item H. by destruct (Hit _ _ H) as (_ & _ & ?).
  - done.
  - unfold pc_inv. rewrite Epc. intros id item H. by destruct (Hit _ _ H) as (_ & _ & ?).
Qed.

Lemma reachable_ack_inv s s' : fresh_request s → rtc ack_step s s' → ack_inv s'.
Proof.
  intros Hf. apply (rtc_ind_r ack_inv); [by apply fresh_request_inv|]. intros. by eapply waiter_step_inv.
Qed.
End waiter.

(** ** Claims *)

(** C14: an acks=all request is answered with success only when the watermark has
    reached what it required, in every interleaving with the other handlers; and no
    wakeup is lost: while it waits with the watermark high enough, its answer is in
    the channel or a handler that will put it there is on its way. *)
Theorem acks_all_no_lost_wakeup topic partition requiredHW respCh s s' :
  fresh_request respCh s → 0 < requiredHW → rtc (ack_step topic partition requiredHW respCh) s s' →
  (s'.(ak_pc) = PcReturn None → requiredHW ≤ s'.(ak_tracker).(isr_highWatermark)) ∧
  (∀ id, s'.(ak_pc) = PcWait id → requiredHW ≤ s'.(ak_tracker).(isr_highWatermark) →
     respCh ∈ s'.(ak_purgatory).(pg_signalled) ∨ ∃ hw, hw ∈ s'.(ak_completers) ∧ requiredHW ≤ hw).
Proof.
  intros Hf Hpos Hr. destruct (reachable_ack_inv _ _ _ _ _ _ Hf Hr) as (_ & _ & Hpc). unfold pc_inv in Hpc. split.
  - intros E. rewrite E in Hpc. destruct Hpc; [lia|done].
  - intros id E. rewrite E in Hpc. apply Hpc.
Qed.

(** ** Witness *)

Definition ack_sample : AckState := mkAckState sample_tracker NewPurgatory [] PcStart.
(** The request waits; the leader's append moves the watermark of a tracker with one
    replica past what it needs. *)
Definition ack_waiting : AckState :=
  handler_update 3 replicas_order 2 9 9 (handler_update 2 replicas_order 1 9 9
    (wait_recheck 9 1 (wait_watch "orders" 0 9 7 (wait_start 9 ack_sample)))).

Lemma acks_all_no_lost_wakeup_witness :
  (ack_waiting.(ak_pc) = PcReturn None → 9 ≤ ack_waiting.(ak_tracker).(isr_highWatermark)) ∧
  (∀ id, ack_waiting.(ak_pc) = PcWait id → 9 ≤ ack_waiting.(ak_tracker).(isr_highWatermark) →
     7%nat ∈ ack_waiting.(ak_purgatory).(pg_signalled) ∨ ∃ hw, hw ∈ ack_waiting.(ak_completers) ∧ 9 ≤ hw).
Proof.
  apply (acks_all_no_lost_wakeup "orders" 0 9 7 ack_sample).
  - split_and!; [done|set_solver| |]; cbn.
    + intros id item. by rewrite lookup_empty.
    + intros h Hh. by apply not_elem_of_nil in Hh.
  - lia.
  - eapply rtc_r; [eapply rtc_r; [eapply rtc_r; [eapply rtc_r; [apply rtc_once, ack_start; done|]|]|]|].
    + apply ack_watch; [by vm_compute|by_decide].
    + apply ack_recheck. by vm_compute.
    + apply handler_updates.
    + apply handler_updates.
Defined.
