(* ===== verification/Config.v ===== *)
(** * Configuration (src/internal/config/config.go)

    The configuration tree with its defaults and validation, what of it reaches the
    storage layer ([storageConfigFrom] in src/internal/broker/broker.go) and the static
    replica set (src/internal/broker/broker_replication.go). The YAML parser is a
    parameter: [Load] starts from what it returned. *)
From Stdlib Require Import ZArith Lia Strings.Byte.
From stdpp Require Import base list strings gmap.
From S2P Require Import Prelude Record Index Segment PartitionLog.
Open Scope Z_scope.

Record BrokerConfig := mkBrokerConfig {
  bc_ID : Z;
  bc_Host : string;
  bc_Port : Z;
  bc_DataDir : string;
  bc_MaxConnections : Z;
  bc_RequestTimeoutMs : Z;
  bc_LogLevel : string
}.
Record LogConfig := mkLogConfig {
  lc_SegmentBytes : Z;
  lc_SegmentMs : Z;
  lc_IndexIntervalBytes : Z;
  lc_IndexMaxBytes : Z;
  lc_RetentionMs : Z;
  lc_RetentionBytes : Z;
  lc_FlushMessages : Z;
  lc_FlushMs : Z;
  lc_MaxMessageBytes : Z
}.
Record TopicConfig := mkTopicConfig {
  tc_AutoCreate : bool;
  tc_DefaultPartitions : Z;
  tc_DefaultReplicationFactor : Z
}.
Record ReplicationConfig := mkReplicationConfig {
  rc_ReplicaLagTimeMaxMs : Z;
  rc_ReplicaFetchMaxBytes : Z;
  rc_ReplicaFetchWaitMaxMs : Z;
  rc_MinInsyncReplicas : Z
}.
Record GroupConfig := mkGroupConfig {
  gcf_SessionTimeoutMs : Z;
  gcf_HeartbeatIntervalMs : Z;
  gcf_RebalanceTimeoutMs : Z;
  gcf_OffsetsTopicPartitions : Z
}.
Record ClusterBroker := mkClusterBroker {
  cb_ID : Z;
  cb_Host : string;
  cb_Port : Z
}.
(** [Cluster.Brokers] is the field [cfg_Brokers]. *)
Record AppConfig := mkAppConfig {
  cfg_Broker : BrokerConfig;
  cfg_Log : LogConfig;
  cfg_Topic : TopicConfig;
  cfg_Replication : ReplicationConfig;
  cfg_Group : GroupConfig;
  cfg_Brokers : list ClusterBroker
}.

(** ** Defaults *)

Definition indexEntrySize : Z := 8.
Definition indexMaxBytesMin : Z := 64 * 1024.
Definition indexMaxBytesMax : Z := 10 * 1024 * 1024.

(** Go's division truncates. *)
Definition deriveIndexMaxBytes (segmentBytes indexIntervalBytes : Z) : Z :=
  if indexIntervalBytes <=? 0 then indexMaxBytesMax
  else
    let needed := int64 ((Z.quot segmentBytes indexIntervalBytes + 1) * indexEntrySize * 2) in
    let needed := if needed <? indexMaxBytesMin then indexMaxBytesMin else needed in
    if indexMaxBytesMax <? needed then indexMaxBytesMax else needed.

Definition or_default (v d : Z) : Z := if v =? 0 then d else v.
Definition or_default_string (v d : string) : string := if bool_decide (v = EmptyString) then d else v.

Definition broker_defaults (c : BrokerConfig) : BrokerConfig :=
  mkBrokerConfig (or_default c.(bc_ID) 1) (or_default_string c.(bc_Host) "0.0.0.0") (or_default c.(bc_Port) 9092)
    (or_default_string c.(bc_DataDir) "/var/lib/mini-kafka") (or_default c.(bc_MaxConnections) 1024)
    (or_default c.(bc_RequestTimeoutMs) 30000) (or_default_string c.(bc_LogLevel) "info").

Definition log_defaults (c : LogConfig) : LogConfig :=
  let segmentBytes := or_default c.(lc_SegmentBytes) (128 * 1024 * 1024) in
  let interval := or_default c.(lc_IndexIntervalBytes) 4096 in
  mkLogConfig segmentBytes (or_default c.(lc_SegmentMs) (7 * 24 * 60 * 60 * 1000)) interval
    (or_default c.(lc_IndexMaxBytes) (deriveIndexMaxBytes segmentBytes interval))
    (or_default c.(lc_RetentionMs) (7 * 24 * 60 * 60 * 1000)) (or_default c.(lc_RetentionBytes) (-1))
    c.(lc_FlushMessages) (or_default c.(lc_FlushMs) 1000) (or_default c.(lc_MaxMessageBytes) (1024 * 1024)).

Definition topic_defaults (c : TopicConfig) : TopicConfig :=
  mkTopicConfig c.(tc_AutoCreate) (or_default c.(tc_DefaultPartitions) 3) (or_default c.(tc_DefaultReplicationFactor) 1).

Definition replication_defaults (c : ReplicationConfig) : ReplicationConfig :=
  mkReplicationConfig (or_default c.(rc_ReplicaLagTimeMaxMs) 30000) (or_default c.(rc_ReplicaFetchMaxBytes) 1048576)
    (or_default c.(rc_ReplicaFetchWaitMaxMs) 500) (or_default c.(rc_MinInsyncReplicas) 1).

Definition group_defaults (c : GroupConfig) : GroupConfig :=
  mkGroupConfig (or_default c.(gcf_SessionTimeoutMs) 45000) (or_default c.(gcf_HeartbeatIntervalMs) 3000)
    (or_default c.(gcf_RebalanceTimeoutMs) 60000) (or_default c.(gcf_OffsetsTopicPartitions) 50).

Definition WithDefaults (c : AppConfig) : AppConfig :=
  mkAppConfig (broker_defaults c.(cfg_Broker)) (log_defaults c.(cfg_Log)) (topic_defaults c.(cfg_Topic))
    (replication_defaults c.(cfg_Replication)) (group_defaults c.(cfg_Group)) c.(cfg_Brokers).

(** ** Validation and loading *)

Definition Validate (c : AppConfig) : result unit :=
  if MaxUint32 <? c.(cfg_Log).(lc_SegmentBytes) then Err (errorString "segment_bytes exceeds 4 GiB")
  else if c.(cfg_Broker).(bc_RequestTimeoutMs) <=? 0 then Err (errorString "broker.request_timeout_ms must be positive")
  else Ok tt.

(** [parsed] is the result of reading and parsing the file. *)
Definition Load (parsed : result AppConfig) : result AppConfig :=
  match parsed with
  | Err e => Err (wrapError "config: parse" e)
  | Ok cfg =>
      let cfg := WithDefaults cfg in
      match Validate cfg with
      | Err e => Err (wrapError "config: validate" e)
      | Ok _ => Ok cfg
      end
  end.

(** ** Users *)

Definition storageConfigFrom (c : AppConfig) : Config :=
  let l := c.(cfg_Log) in {|
    SegmentBytes := l.(lc_SegmentBytes);
    IndexMaxBytes := l.(lc_IndexMaxBytes);
    IndexIntervalBytes := l.(lc_IndexIntervalBytes);
    RetentionMs := l.(lc_RetentionMs);
    RetentionBytes := l.(lc_RetentionBytes);
    FlushMs := l.(lc_FlushMs);
    FlushMessages := l.(lc_FlushMessages);
    SegmentMs := l.(lc_SegmentMs)
  |}.

(** The broker ids without repetition, in the order of the list. *)
Definition clusterReplicaIDs (c : AppConfig) : list Z :=
  match c.(cfg_Brokers) with
  | [] => [int32 c.(cfg_Broker).(bc_ID)]
  | brokers => foldl (λ ids br, if bool_decide (int32 br.(cb_ID) ∈ ids) then ids else ids ++ [int32 br.(cb_ID)]) [] brokers
  end.

Definition staticPartitionLeader (replicaIDs : list Z) (localID partition : Z) : Z :=
  match replicaIDs with
  | [] => localID
  | _ => replicaIDs !!! Z.to_nat (Z.abs (Z.rem partition (zlen replicaIDs)))
  end.

(** ** Lemmas *)

Lemma or_default_idem v d : or_default (or_default v d) d = or_default v d.
Proof. unfold or_default. split_ifs. Qed.

Lemma or_default_string_idem v d : or_default_string (or_default_string v d) d = or_default_string v d.
Proof. unfold or_default_string. by destruct (bool_decide_reflect (v = EmptyString)); [destruct (bool_decide (d = _))|rewrite bool_decide_false]. Qed.

Lemma deriveIndexMaxBytes_range s i : indexMaxBytesMin ≤ deriveIndexMaxBytes s i ≤ indexMaxBytesMax.
Proof. unfold deriveIndexMaxBytes, indexMaxBytesMin, indexMaxBytesMax. split_ifs. Qed.

Lemma log_defaults_idem c : log_defaults (log_defaults c) = log_defaults c.
Proof.
  unfold log_defaults. cbn. rewrite !or_default_idem. done.
Qed.

Lemma total_size_nonneg rs : 0 ≤ total_size rs.
Proof.
  unfold total_size. induction rs as [|x rs IH]; cbn [foldr]; [lia|]. pose proof (EncodedSize_min x). lia.
Qed.

Lemma total_size_snoc rs r : total_size (rs ++ [r]) = total_size rs + EncodedSize r.
Proof. unfold total_size. induction rs as [|x rs IH]; cbn [foldr app] in *; lia. Qed.

(** How many entries the index of a segment gets. *)
Lemma index_of_count base interval rs : 0 < interval →
  let '(l, pos, since) := index_of base interval rs in
  pos = total_size rs ∧ 0 ≤ since ∧ (l = [] → rs = []) ∧ (l ≠ [] → interval * (zlen l - 1) + since ≤ pos).
Proof.
  intros Hi. induction rs as [|r rs IH] using rev_ind; [cbn; split_and!; done || lia|].
  unfold index_of in *. rewrite fold_left_app. cbn [fold_left].
  destruct (fold_left (index_step base interval) rs ([], 0, 0)) as [[l pos] since]. destruct IH as (Ep & Hs & Hnil & Hle).
  pose proof (total_size_snoc rs r) as Ets. pose proof (total_size_nonneg rs).
  pose proof (EncodedSize_min r). unfold index_step.
  destruct (Z.eqb_spec (zlen l) 0) as [E|E]; [|destruct (Z.leb_spec interval (since + EncodedSize r))]; cbn [orb].
  - destruct l; [|cbn in E; lia]. split_and!; [lia|lia|done|]. intros _. cbn [length app]. lia.
  - assert (l ≠ []) by (by intros ->). split_and!; [lia|lia|by destruct l|]. intros _. rewrite length_app. cbn [length].
    specialize (Hle ltac:(done)). lia.
  - assert (l ≠ []) by (by intros ->). split_and!; [lia|lia|done|]. intros _. specialize (Hle ltac:(done)). lia.
Qed.

(** ** Claims *)

(** Whatever the file says, a configuration that [Load] accepts is complete
    (defaults change nothing any more) and gives the storage layer a configuration
    that all its theorems assume: segments that the index can address and room for
    at least one index entry, provided [index_max_bytes], if given, has that room. *)
Theorem loaded_config_good parsed cfg : Load (Ok parsed) = Ok cfg →
  parsed.(cfg_Log).(lc_IndexMaxBytes) ≤ 0 ∨ indexEntrySize ≤ parsed.(cfg_Log).(lc_IndexMaxBytes) →
  WithDefaults cfg = cfg ∧ 0 < cfg.(cfg_Broker).(bc_RequestTimeoutMs) ∧
  config_ok (withDefaults (storageConfigFrom cfg)).
Proof.
  unfold Load, Validate. destruct (Z.ltb_spec MaxUint32 (lc_SegmentBytes (cfg_Log (WithDefaults parsed)))) as [|Hseg]; [done|].
  destruct (Z.leb_spec (bc_RequestTimeoutMs (cfg_Broker (WithDefaults parsed))) 0) as [|Ht]; [done|].
  intros [= <-] Hidx. split_and!.
  - unfold WithDefaults. cbn. rewrite log_defaults_idem.
    unfold broker_defaults, topic_defaults, replication_defaults, group_defaults. cbn.
    by rewrite !or_default_idem, !or_default_string_idem.
  - done.
  - unfold config_ok, withDefaults, storageConfigFrom. cbn. cbn in Hseg. set (sb := or_default (lc_SegmentBytes _) _) in *.
    set (iv := or_default (lc_IndexIntervalBytes _) _). pose proof (deriveIndexMaxBytes_range sb iv) as Hr.
    set (im := or_default (lc_IndexMaxBytes _) _).
    assert (Him : im ≤ 0 ∨ entrySize ≤ im).
    { unfold im, or_default, entrySize, indexEntrySize, indexMaxBytesMin in *. split_ifs. }
    split; [f_equal|split].
    all: unfold defaultSegmentBytes, defaultIndexMaxBytes, defaultIndexIntervalBytes, defaultRetentionMs,
      defaultRetentionBytes, defaultFlushMs, defaultFlushMessages, defaultSegmentMs, entrySize in *; widths; split_ifs.
Qed.

(** The index size derived for a segment policy is enough: unless the upper clamp
    cuts it, the index of a segment with up to twice the configured bytes, whatever
    the sizes of its records, needs no more room than that. *)
Theorem derived_index_fits segmentBytes interval base rs :
  0 ≤ segmentBytes → 0 < interval → (segmentBytes / interval + 1) * 16 ≤ indexMaxBytesMax →
  total_size rs ≤ 2 * segmentBytes →
  zlen (entries_of base interval rs) * entrySize ≤ deriveIndexMaxBytes segmentBytes interval.
Proof.
  intros Hs Hi Hclamp Hsz. unfold deriveIndexMaxBytes, indexEntrySize, entrySize, indexMaxBytesMin, indexMaxBytesMax in *.
  rewrite Z.quot_div_nonneg by lia. case_bool (Z.leb_spec interval 0).
  pose proof (index_of_count base interval rs Hi) as Hc. unfold entries_of.
  destruct (index_of base interval rs) as [[l pos] since]. destruct Hc as (-> & Hsince & _ & Hle). cbn [fst].
  assert (Hn : zlen l ≤ 2 * (segmentBytes / interval + 1)).
  { pose proof (Z.div_mod segmentBytes interval ltac:(lia)). pose proof (Z.mod_pos_bound segmentBytes interval Hi).
    pose proof (Z.div_pos segmentBytes interval ltac:(lia) Hi).
    destruct (decide (l = [])) as [->|Hne]; [cbn; lia|]. specialize (Hle Hne). nia. }
  pose proof (Z.div_pos segmentBytes interval ltac:(lia) Hi).
  rewrite wrapS_small by (lia || width_lia). split_ifs.
Qed.

Definition sample_yaml : AppConfig :=
  mkAppConfig (mkBrokerConfig 0 EmptyString 9093 EmptyString 0 0 EmptyString)
    (mkLogConfig 1048576 0 0 0 0 0 0 0 0) (mkTopicConfig true 0 0) (mkReplicationConfig 0 0 0 0)
    (mkGroupConfig 0 0 0 0) [].

Lemma loaded_config_good_witness :
  let cfg := WithDefaults sample_yaml in
  WithDefaults cfg = cfg ∧ 0 < cfg.(cfg_Broker).(bc_RequestTimeoutMs) ∧
  config_ok (withDefaults (storageConfigFrom cfg)).
Proof. intros cfg. apply (loaded_config_good sample_yaml cfg); [by vm_compute|left; by vm_compute]. Defined.

Lemma derived_index_fits_witness :
  zlen (entries_of 0 16 [sample_record; sample_record]) * entrySize ≤ deriveIndexMaxBytes 1024 16.
Proof. apply (derived_index_fits 1024 16 0 [sample_record; sample_record]); by_decide. Defined.
