(* ===== verification/Json.v ===== *)
(** * JSON text (the uses of encoding/json in src/internal/broker/metadata.go)

    The part of [encoding/json] that the metadata file goes through: a parser for JSON
    texts and the printer of [json.MarshalIndent] with no prefix and an indentation of
    two blanks. Texts are sequences of characters, taken to be valid UTF-8; the strings
    that are printed are topic names, none of whose characters is escaped. *)
From Stdlib Require Import ZArith Lia Strings.Ascii.
From stdpp Require Import base list strings.
From S2P Require Import Prelude Decimal Checkpoint.
Open Scope Z_scope.

(** ** Values *)

(** A number is kept as its literal, as [json.Unmarshal] does until it knows the type
    of the target; the members of an object stay in the order of the text. *)
#[warnings="-register-all"]
Inductive json :=
  | JNull
  | JBool (b : bool)
  | JNum (literal : chars)
  | JStr (s : chars)
  | JArr (elems : list json)
  | JObj (members : list (chars * json)).

(** ** Scanning *)

Abbreviation quote := "034"%char.
Abbreviation backslash := "092"%char.

Definition json_space (c : ascii) : bool := bool_decide (c ∈ ["009"; "010"; "013"; " "]%char).

Fixpoint skip_ws (l : chars) : chars :=
  match l with
  | c :: l' => if json_space c then skip_ws l' else l
  | [] => []
  end.

Definition code (c : ascii) : Z := Z.of_N (N_of_ascii c).
Definition chr (n : Z) : ascii := ascii_of_N (Z.to_N n).

Definition hex_val (c : ascii) : option Z :=
  let n := code c in
  if (48 <=? n) && (n <=? 57) then Some (n - 48)
  else if (97 <=? n) && (n <=? 102) then Some (n - 87)
  else if (65 <=? n) && (n <=? 70) then Some (n - 55)
  else None.
Definition hex4 (a b c d : ascii) : option Z :=
  x ← hex_val a; y ← hex_val b; z ← hex_val c; w ← hex_val d;
  Some (((x * 16 + y) * 16 + z) * 16 + w).

(** [utf8.EncodeRune]. *)
Definition utf8_encode (r : Z) : chars :=
  if r <? 0x80 then [chr r]
  else if r <? 0x800 then [chr (0xc0 + r / 64); chr (0x80 + r mod 64)]
  else if r <? 0x10000 then [chr (0xe0 + r / 4096); chr (0x80 + (r / 64) mod 64); chr (0x80 + r mod 64)]
  else [chr (0xf0 + r / 262144); chr (0x80 + (r / 4096) mod 64); chr (0x80 + (r / 64) mod 64); chr (0x80 + r mod 64)].

Definition simple_escape (c : ascii) : option ascii :=
  match c with
  | "b"%char => Some "008"%char
  | "f"%char => Some "012"%char
  | "n"%char => Some "010"%char
  | "r"%char => Some "013"%char
  | "t"%char => Some "009"%char
  | "/"%char => Some "/"%char
  | backslash => Some backslash
  | quote => Some quote
  | _ => None
  end.

Definition surrogate (r : Z) : bool := (0xd800 <=? r) && (r <? 0xe000).
Definition pair_surrogates (r1 r2 : Z) : option Z :=
  if (0xd800 <=? r1) && (r1 <? 0xdc00) && (0xdc00 <=? r2) && (r2 <? 0xe000)
  then Some ((r1 - 0xd800) * 1024 + (r2 - 0xdc00) + 0x10000) else None.

(** The characters of a string up to its closing quote, and what follows. *)
Fixpoint parse_string (l : chars) : option (chars * chars) :=
  match l with
  | quote :: l => Some ([], l)
  | backslash :: "u"%char :: a :: b :: c :: d :: l =>
      r ← hex4 a b c d;
      if surrogate r then
        match l with
        | backslash :: "u"%char :: a' :: b' :: c' :: d' :: l' =>
            match hex4 a' b' c' d' ≫= pair_surrogates r with
            | Some r => '(s, rest) ← parse_string l'; Some (utf8_encode r ++ s, rest)
            | None => '(s, rest) ← parse_string l; Some (utf8_encode 0xfffd ++ s, rest)
            end
        | _ => '(s, rest) ← parse_string l; Some (utf8_encode 0xfffd ++ s, rest)
        end
      else '(s, rest) ← parse_string l; Some (utf8_encode r ++ s, rest)
  | backslash :: e :: l => c ← simple_escape e; '(s, rest) ← parse_string l; Some (c :: s, rest)
  | c :: l => if code c <? 32 then None else '(s, rest) ← parse_string l; Some (c :: s, rest)
  | [] => None
  end.

Fixpoint take_digits (l : chars) : chars * chars :=
  match l with
  | c :: l' => match digit_val c with
               | Some _ => let '(ds, rest) := take_digits l' in (c :: ds, rest)
               | None => ([], l)
               end
  | [] => ([], [])
  end.

(** The integer part, the fraction and the exponent of a number. *)
Definition parse_int (l : chars) : option (chars * chars) :=
  match l with
  | "0"%char :: l => Some (["0"%char], l)
  | _ => match take_digits l with ([], _) => None | p => Some p end
  end.
Definition parse_frac (l : chars) : option (chars * chars) :=
  match l with
  | "."%char :: l => match take_digits l with ([], _) => None | (ds, rest) => Some ("."%char :: ds, rest) end
  | _ => Some ([], l)
  end.
Definition parse_exp (l : chars) : option (chars * chars) :=
  match l with
  | (("e"%char | "E"%char) as e) :: l =>
      let '(sign, l) := match l with (("+"%char | "-"%char) as c) :: l => ([c], l) | _ => ([], l) end in
      match take_digits l with ([], _) => None | (ds, rest) => Some (e :: sign ++ ds, rest) end
  | _ => Some ([], l)
  end.
Definition parse_number (l : chars) : option (chars * chars) :=
  let '(sign, l) := match l with "-"%char :: l => (["-"%char], l) | _ => ([], l) end in
  '(i, l) ← parse_int l; '(f, l) ← parse_frac l; '(e, l) ← parse_exp l;
  Some (sign ++ i ++ f ++ e, l).

(** ** Parsing *)

(** A value, the members of an object after its opening brace and the elements of an
    array. Every call takes at least one character off the text, so its length is
    fuel enough. *)
Fixpoint parse_value (fuel : nat) (l : chars) : option (json * chars) :=
  match fuel with
  | O => None
  | S fuel =>
      match skip_ws l with
      | "{"%char :: l =>
          match skip_ws l with
          | "}"%char :: l => Some (JObj [], l)
          | _ => '(ms, l) ← parse_members fuel l; Some (JObj ms, l)
          end
      | "["%char :: l =>
          match skip_ws l with
          | "]"%char :: l => Some (JArr [], l)
          | _ => '(vs, l) ← parse_elems fuel l; Some (JArr vs, l)
          end
      | quote :: l => '(s, l) ← parse_string l; Some (JStr s, l)
      | "n"%char :: "u"%char :: "l"%char :: "l"%char :: l => Some (JNull, l)
      | "t"%char :: "r"%char :: "u"%char :: "e"%char :: l => Some (JBool true, l)
      | "f"%char :: "a"%char :: "l"%char :: "s"%char :: "e"%char :: l => Some (JBool false, l)
      | l => '(n, l) ← parse_number l; Some (JNum n, l)
      end
  end
with parse_members (fuel : nat) (l : chars) : option (list (chars * json) * chars) :=
  match fuel with
  | O => None
  | S fuel =>
      match skip_ws l with
      | quote :: l =>
          '(k, l) ← parse_string l;
          match skip_ws l with
          | ":"%char :: l =>
              '(v, l) ← parse_value fuel l;
              match skip_ws l with
              | ","%char :: l => '(ms, l) ← parse_members fuel l; Some ((k, v) :: ms, l)
              | "}"%char :: l => Some ([(k, v)], l)
              | _ => None
              end
          | _ => None
          end
      | _ => None
      end
  end
with parse_elems (fuel : nat) (l : chars) : option (list json * chars) :=
  match fuel with
  | O => None
  | S fuel =>
      '(v, l) ← parse_value fuel l;
      match skip_ws l with
      | ","%char :: l => '(vs, l) ← parse_elems fuel l; Some (v :: vs, l)
      | "]"%char :: l => Some ([v], l)
      | _ => None
      end
  end.

(** The whole text: one value, then white space only. *)
Definition json_parse (text : chars) : option json :=
  '(v, rest) ← parse_value (length text) text;
  match skip_ws rest with [] => Some v | _ => None end.

(** ** Printing *)

Definition indent (n : nat) : chars := newline :: replicate (2 * n) " "%char.
Definition print_string (s : chars) : chars := quote :: s ++ [quote].

(** [json.MarshalIndent(v, "", "  ")]. *)
Fixpoint print_value (n : nat) (v : json) : chars :=
  match v with
  | JNull => to_chars "null"
  | JBool b => to_chars (if b then "true" else "false")
  | JNum lit => lit
  | JStr s => print_string s
  | JArr [] => to_chars "[]"
  | JArr vs =>
      "["%char :: (fix go vs := match vs with
        | [] => []
        | [v] => indent (S n) ++ print_value (S n) v
        | v :: vs => indent (S n) ++ print_value (S n) v ++ ","%char :: go vs
        end) vs ++ indent n ++ ["]"%char]
  | JObj [] => to_chars "{}"
  | JObj ms =>
      "{"%char :: (fix go ms := match ms with
        | [] => []
        | [(k, v)] => indent (S n) ++ print_string k ++ to_chars ": " ++ print_value (S n) v
        | (k, v) :: ms => indent (S n) ++ print_string k ++ to_chars ": " ++ print_value (S n) v ++ ","%char :: go ms
        end) ms ++ indent n ++ ["}"%char]
  end.

(** ** Printed strings and numbers are read back *)

(** Characters that stand for themselves in a string. *)
Definition plain_char (c : ascii) : bool :=
  (32 <=? code c) && negb (bool_decide (c = quote)) && negb (bool_decide (c = backslash)).

Lemma parse_string_char c l : plain_char c = true →
  parse_string (c :: l) = '(s, rest) ← parse_string l; Some (c :: s, rest).
Proof. destruct c as [[] [] [] [] [] [] [] []]; (discriminate || reflexivity). Qed.

Lemma parse_string_plain s rest : Forall (λ c, plain_char c = true) s →
  parse_string (s ++ quote :: rest) = Some (s, rest).
Proof.
  induction 1 as [|c s Hc _ IH]; [reflexivity|]. cbn [app]. rewrite parse_string_char by done.
  rewrite IH. reflexivity.
Qed.

(** What can follow a number. *)
Definition number_end (rest : chars) : Prop :=
  match rest with
  | c :: _ => digit_val c = None ∧ c ≠ "."%char ∧ c ≠ "e"%char ∧ c ≠ "E"%char
  | [] => True
  end.

Lemma take_digits_app ds rest : Forall is_digit ds → number_end rest → take_digits (ds ++ rest) = (ds, rest).
Proof.
  intros Hd Hr. induction Hd as [|c ds Hc _ IH]; cbn.
  - destruct rest as [|c rest]; [done|]. cbn. by destruct Hr as [-> _].
  - unfold is_digit in Hc. destruct (digit_val c); [|done]. by rewrite IH.
Qed.

Lemma number_end_tail rest : number_end rest → parse_frac rest = Some ([], rest) ∧ parse_exp rest = Some ([], rest).
Proof.
  destruct rest as [|c rest]; [done|]. intros (_ & H1 & H2 & H3).
  destruct c as [[] [] [] [] [] [] [] []]; done.
Qed.

(** The first digit of a positive number is not zero. *)
Lemma render_head fuel n : 0 < n < 10 ^ Z.of_nat fuel → ∃ c l, render fuel n = c :: l ∧ c ≠ "0"%char.
Proof.
  revert n. induction fuel as [|fuel IH]; intros n Hn; [simpl in Hn; lia|]. cbn [render].
  destruct (Z.ltb_spec n 10).
  - exists (digit n), []. split; [done|]. intros E. pose proof (digit_val_digit n ltac:(lia)) as Hv.
    rewrite E in Hv. cbn in Hv. injection Hv as Hv. lia.
  - destruct (IH (n / 10)) as (c & l & -> & Hc).
    { rewrite Nat2Z.inj_succ, Z.pow_succ_r in Hn by lia. split; [apply Z.div_str_pos; lia|].
      apply Z.div_lt_upper_bound; lia. }
    by exists c, (l ++ [digit (n mod 10)]).
Qed.

Lemma digits_head n : 0 < n → ∃ c l, digits n = c :: l ∧ c ≠ "0"%char.
Proof.
  intros Hn. apply render_head. split; [done|]. pose proof (Z.log2_nonneg n). rewrite Z2Nat.id by lia.
  pose proof (Z.log2_spec n Hn) as [_ Hlt]. rewrite <- Z.add_1_r in Hlt.
  apply Z.lt_le_trans with (1 := Hlt). apply Z.pow_le_mono_l. lia.
Qed.

Lemma parse_int_digits n rest : 0 ≤ n → number_end rest → parse_int (digits n ++ rest) = Some (digits n, rest).
Proof.
  intros Hn Hr. destruct (decide (n = 0)) as [->|Hz]; [reflexivity|].
  pose proof (take_digits_app (digits n) rest (digits_digit n Hn) Hr) as Ht.
  destruct (digits_head n ltac:(lia)) as (c & l & E & Hc). rewrite E in Ht |- *. cbn [app] in *.
  unfold parse_int. rewrite Ht. destruct c as [[] [] [] [] [] [] [] []]; done.
Qed.

Lemma parse_number_Itoa n rest : number_end rest →
  parse_number (to_chars (Itoa n) ++ rest) = Some (to_chars (Itoa n), rest).
Proof.
  intros Hr. destruct (number_end_tail rest Hr) as [Hf He]. unfold Itoa.
  rewrite String.list_ascii_of_string_of_list_ascii. destruct (Z.ltb_spec n 0).
  - cbn [app]. unfold parse_number. rewrite parse_int_digits by (done || lia). cbn.
    rewrite Hf. cbn. rewrite He. cbn. by rewrite app_nil_r.
  - unfold parse_number. replace (match digits n ++ rest with "-"%char :: l => (["-"%char], l) | _ => ([], digits n ++ rest) end)
      with ([] : chars, digits n ++ rest).
    + rewrite parse_int_digits by (done || lia). cbn. rewrite Hf. cbn. rewrite He. cbn. by rewrite app_nil_r.
    + pose proof (digits_digit n ltac:(lia)) as Hd. pose proof (digits_not_nil n ltac:(lia)).
      destruct (digits n) as [|c l]; [done|]. apply Forall_cons in Hd as [Hd _]. unfold is_digit in Hd.
      destruct c as [[] [] [] [] [] [] [] []]; done.
Qed.

(** ** Printed values are read back *)

Definition print_members (n : nat) : list (chars * json) → chars :=
  fix go ms := match ms with
  | [] => []
  | [(k, v)] => indent (S n) ++ print_string k ++ to_chars ": " ++ print_value (S n) v
  | (k, v) :: ms => indent (S n) ++ print_string k ++ to_chars ": " ++ print_value (S n) v ++ ","%char :: go ms
  end.

Lemma print_obj n m ms : print_value n (JObj (m :: ms)) = "{"%char :: print_members n (m :: ms) ++ indent n ++ ["}"%char].
Proof. reflexivity. Qed.

Definition parses (v : json) : Prop := ∀ n fuel rest, number_end rest → (length (print_value n v) ≤ fuel)%nat →
  parse_value fuel (print_value n v ++ rest) = Some (v, rest).

Lemma skip_blanks n rest : skip_ws (replicate n " "%char ++ rest) = skip_ws rest.
Proof. by induction n. Qed.
Lemma skip_indent n rest : skip_ws (indent n ++ rest) = skip_ws rest.
Proof. apply (skip_blanks (2 * n)). Qed.

Lemma parse_value_quote fuel l :
  parse_value (S fuel) (quote :: l) = '(s, l) ← parse_string l; Some (JStr s, l).
Proof. reflexivity. Qed.

Lemma parses_str s : Forall (λ c, plain_char c = true) s → parses (JStr s).
Proof.
  intros Hs n fuel rest _ Hf. destruct fuel as [|fuel]; [simpl in Hf; lia|].
  cbn [print_value]. unfold print_string. rewrite <- app_comm_cons, <- app_assoc.
  rewrite parse_value_quote. cbn [app]. by rewrite parse_string_plain.
Qed.

Lemma parse_value_first fuel c l : is_digit c ∨ c = "-"%char →
  parse_value (S fuel) (c :: l) = '(n, l) ← parse_number (c :: l); Some (JNum n, l).
Proof.
  intros [Hc| ->]; [|reflexivity]. unfold is_digit in Hc.
  destruct c as [[] [] [] [] [] [] [] []]; first [by destruct Hc|reflexivity].
Qed.

Lemma parses_num n : parses (JNum (to_chars (Itoa n))).
Proof.
  intros k fuel rest Hr Hf. pose proof (Itoa_chars n) as Hc. pose proof (Itoa_nonempty n).
  cbn [print_value] in *. pose proof (parse_number_Itoa n rest Hr) as Hp.
  destruct (to_chars (Itoa n)) as [|c l]; [done|]. apply Forall_cons in Hc as [Hc _].
  destruct fuel as [|fuel]; [simpl in Hf; lia|].
  rewrite <- app_comm_cons in *. rewrite parse_value_first by done. by rewrite Hp.
Qed.

(** The value after a colon and a blank. *)
Lemma parses_after_blank v n fuel rest : parses v → number_end rest → (length (print_value n v) ≤ fuel)%nat →
  parse_value fuel (" "%char :: print_value n v ++ rest) = Some (v, rest).
Proof.
  intros Hv Hr Hf. specialize (Hv n fuel rest Hr Hf). destruct fuel as [|fuel]; [discriminate Hv|]. exact Hv.
Qed.

Lemma parse_members_key fuel l : parse_members (S fuel) (quote :: l) =
  '(k, l) ← parse_string l;
  match skip_ws l with
  | ":"%char :: l =>
      '(v, l) ← parse_value fuel l;
      match skip_ws l with
      | ","%char :: l => '(ms, l) ← parse_members fuel l; Some ((k, v) :: ms, l)
      | "}"%char :: l => Some ([(k, v)], l)
      | _ => None
      end
  | _ => None
  end.
Proof. reflexivity. Qed.

Lemma parse_members_indent n fuel l : parse_members fuel (indent n ++ l) = parse_members fuel l.
Proof. destruct fuel as [|fuel]; [done|]. cbn [parse_members]. by rewrite skip_indent. Qed.

(** One member, with what decides whether more follow. *)
Lemma parse_member n fuel k v rest : parses v → Forall (λ c, plain_char c = true) k → number_end rest →
  (length (print_value (S n) v) ≤ fuel)%nat →
  parse_members (S fuel) (indent (S n) ++ print_string k ++ to_chars ": " ++ print_value (S n) v ++ rest) =
  match skip_ws rest with
  | ","%char :: l => '(ms, l) ← parse_members fuel l; Some ((k, v) :: ms, l)
  | "}"%char :: l => Some ([(k, v)], l)
  | _ => None
  end.
Proof.
  intros Hv Hk Hr Hf. rewrite parse_members_indent. unfold print_string.
  rewrite <- app_comm_cons, <- app_assoc, parse_members_key. cbn [app]. rewrite parse_string_plain by done.
  cbn [mbind option_bind]. change (skip_ws (to_chars ": " ++ ?l)) with (to_chars ": " ++ l).
  change (to_chars ": " ++ ?l) with (":"%char :: " "%char :: l). cbn match.
  by rewrite (parses_after_blank v (S n) fuel rest).
Qed.

Lemma parse_members_print n rest ms : ∀ fuel m, Forall (parses ∘ snd) (m :: ms) →
  Forall (λ '(k, _), Forall (λ c, plain_char c = true) k) (m :: ms) →
  (length (print_members n (m :: ms)) ≤ fuel)%nat →
  parse_members fuel (print_members n (m :: ms) ++ indent n ++ "}"%char :: rest) = Some (m :: ms, rest).
Proof.
  induction ms as [|m2 ms IH]; intros fuel [k v] Hv Hk Hf.
  - apply Forall_cons in Hv as [Hv _], Hk as [Hk _]. cbn [print_members] in *. 
    rewrite !length_app in Hf. destruct fuel as [|fuel]; [simpl in Hf; lia|]. rewrite <- !app_assoc.
    rewrite parse_member; [by rewrite skip_indent|done|done|done|simpl in Hf; lia].
  - apply Forall_cons in Hv as [Hv Hvs], Hk as [Hk Hks].
    change (print_members n ((k, v) :: m2 :: ms)) with
      (indent (S n) ++ print_string k ++ to_chars ": " ++ print_value (S n) v ++ ","%char :: print_members n (m2 :: ms)) in *.
    rewrite !length_app in Hf. cbn [length] in Hf. destruct fuel as [|fuel]; [simpl in Hf; lia|].
    rewrite <- !app_assoc, <- app_comm_cons. rewrite parse_member; [|done|done|done|lia].
    change (skip_ws (","%char :: ?l)) with (","%char :: l). cbn match. by rewrite IH by (done || lia).
Qed.

Lemma parse_value_brace fuel l : parse_value (S fuel) ("{"%char :: l) =
  match skip_ws l with
  | "}"%char :: l => Some (JObj [], l)
  | _ => '(ms, l) ← parse_members fuel l; Some (JObj ms, l)
  end.
Proof. reflexivity. Qed.

Lemma print_members_first n m ms : ∃ l, print_members n (m :: ms) = indent (S n) ++ quote :: l.
Proof. destruct m as [k v]. destruct ms as [|m2 ms]; by eexists. Qed.

Lemma parses_obj ms : Forall (parses ∘ snd) ms → Forall (λ '(k, _), Forall (λ c, plain_char c = true) k) ms →
  parses (JObj ms).
Proof.
  intros Hv Hk n fuel rest Hr Hf. destruct fuel as [|fuel]; [by destruct ms as [|m ms]; simpl in Hf; lia|].
  destruct ms as [|m ms]; [reflexivity|]. rewrite print_obj in *. cbn [length] in Hf. rewrite !length_app in Hf.
  rewrite <- app_comm_cons, parse_value_brace, <- app_assoc, <- app_assoc. cbn [app].
  rewrite parse_members_print by (done || lia). destruct (print_members_first n m ms) as [l ->].
  rewrite <- app_assoc, skip_indent. reflexivity.
Qed.

(** Reading a printed value yields the value. *)
Lemma json_parse_print v : parses v → json_parse (print_value 0 v) = Some v.
Proof.
  intros Hv. unfold json_parse. specialize (Hv 0%nat (length (print_value 0 v)) [] I (le_n _)).
  rewrite app_nil_r in Hv. by rewrite Hv.
Qed.
