(* ===== verification/Topic.v ===== *)
(** * Topics and partitions (src/internal/broker/topic.go, partition.go)

    Topic names and the directories they lead to, the choice of a partition for a key
    with the murmur2 hash or round robin. *)
From Stdlib Require Import ZArith Lia Strings.Byte Strings.Ascii.
From stdpp Require Import base list strings gmap.
From S2P Require Import Prelude Decimal Checkpoint.
Open Scope Z_scope.

(** ** Topic names *)

Definition maxTopicNameLen : Z := 249.

(** [^[a-zA-Z0-9._-]+$] *)
Definition topic_char (c : ascii) : bool :=
  let n := Z.of_N (N_of_ascii c) in
  ((97 <=? n) && (n <=? 122)) || ((65 <=? n) && (n <=? 90)) || ((48 <=? n) && (n <=? 57)) ||
  (n =? 46) || (n =? 95) || (n =? 45).
Definition topicNamePattern (name : string) : bool :=
  negb (bool_decide (to_chars name = [])) && forallb topic_char (to_chars name).

(** Cleaned absolute paths are the lists of their components; the separator is '/'.
    [filepath.Clean(filepath.Join(dir, rel))]. *)
Definition path_push (dir : list string) (c : string) : list string :=
  if bool_decide (c = EmptyString ∨ c = ".") then dir
  else if bool_decide (c = "..") then removelast dir
  else dir ++ [c].
Definition slash : ascii := "/"%char.
Definition path_Join (dir : list string) (rel : string) : list string :=
  foldl path_push dir (of_chars <$> split (λ c, bool_decide (c = slash)) (to_chars rel)).

(** [filepath.Rel(base, target)] of cleaned absolute paths. *)
Fixpoint path_Rel (base target : list string) : list string :=
  match base, target with
  | b :: base', t :: target' => if bool_decide (b = t) then path_Rel base' target' else replicate (length base) ".." ++ target
  | [], _ => target
  | _, [] => replicate (length base) ".."
  end.

(** [rel == ".." || strings.HasPrefix(rel, "../")] *)
Definition escapes (rel : list string) : bool :=
  match rel with c :: _ => bool_decide (c = "..") | [] => false end.

Definition validateTopicName (cleanData : list string) (name : string) : result unit :=
  if bool_decide (name = EmptyString ∨ name = "." ∨ name = "..") then Err (wrapError "name" ErrInvalidTopicName)
  else if maxTopicNameLen <? zlen (to_chars name) then Err (wrapError "length" ErrInvalidTopicName)
  else if negb (topicNamePattern name) then Err (wrapError "pattern" ErrInvalidTopicName)
  else if escapes (path_Rel cleanData (path_Join cleanData name)) then Err (wrapError "escape" ErrInvalidTopicName)
  else Ok tt.

(** The directory that [NewPartition] opens. *)
Definition partition_dir (cleanBase : list string) (topic : string) (partitionID : Z) : result (list string) :=
  match validateTopicName cleanBase topic with
  | Err e => Err (wrapError "partition" e)
  | Ok _ =>
      let dir := path_Join (path_Join cleanBase topic) (Itoa partitionID) in
      if escapes (path_Rel cleanBase dir) then Err (wrapError "partition" ErrInvalidTopicName) else Ok dir
  end.

(** ** Hashing *)

Definition murmur_m : Z := 0x5bd1e995.

(** One turn of the loop over 4-byte words. *)
Definition murmur_word (h : Z) (w : bytes) : Z :=
  match w with
  | [a; b; c; d] =>
      let k := Z.lor (Z.lor (Z.lor (Z_of_byte a) (Z.shiftl (Z_of_byte b) 8)) (Z.shiftl (Z_of_byte c) 16))
                     (Z.shiftl (Z_of_byte d) 24) in
      let k := uint32 (k * murmur_m) in
      let k := Z.lxor k (Z.shiftr k 24) in
      let k := uint32 (k * murmur_m) in
      Z.lxor (uint32 (h * murmur_m)) k
  | _ => h
  end.

Fixpoint murmur_words (h : Z) (data : bytes) : Z * bytes :=
  match data with
  | a :: b :: c :: d :: rest => murmur_words (murmur_word h [a; b; c; d]) rest
  | rest => (h, rest)
  end.

(** The [switch length % 4] with its fallthroughs. *)
Definition murmur_tail (h : Z) (rest : bytes) : Z :=
  match rest with
  | [a; b; c] =>
      let h := Z.lxor h (Z.shiftl (Z_of_byte c) 16) in
      let h := Z.lxor h (Z.shiftl (Z_of_byte b) 8) in
      uint32 (Z.lxor h (Z_of_byte a) * murmur_m)
  | [a; b] =>
      let h := Z.lxor h (Z.shiftl (Z_of_byte b) 8) in
      uint32 (Z.lxor h (Z_of_byte a) * murmur_m)
  | [a] => uint32 (Z.lxor h (Z_of_byte a) * murmur_m)
  | _ => h
  end.

(** [len(data)] below 2^32. *)
Definition Murmur2 (data : bytes) : Z :=
  let h := Z.lxor 0x973afb51 (uint32 (zlen data)) in
  let '(h, rest) := murmur_words h data in
  let h := murmur_tail h rest in
  let h := Z.lxor h (Z.shiftr h 13) in
  let h := uint32 (h * murmur_m) in
  let h := Z.lxor h (Z.shiftr h 15) in
  Z.land h 0x7fffffff.

(** The partition for a key, with the round-robin counter (uint32). *)
Definition PartitionFor (numPartitions : Z) (key : bytes) (counter : Z) : Z * Z :=
  if numPartitions <=? 0 then (0, counter)
  else match key with
  | [] =>
      let counter := uint32 (counter + 1) in
      (int32 (uint32 (counter - 1) mod uint32 numPartitions), counter)
  | _ => (int32 (Murmur2 key mod uint32 numPartitions), counter)
  end.

(** ** Names and directories *)

Lemma topic_char_not_slash c : topic_char c = true → c ≠ slash ∧ is_space c = false.
Proof.
  intros H. split; [by intros ->|]. unfold is_space. apply bool_decide_eq_false. intros Hc.
  rewrite !elem_of_cons, elem_of_nil in Hc. destruct_or! Hc; by subst.
Qed.

Lemma path_Join_single dir c : c ≠ EmptyString → c ≠ "." → c ≠ ".." → Forall (λ x, x ≠ slash) (to_chars c) →
  path_Join dir c = dir ++ [c].
Proof.
  intros H1 H2 H3 Hs. unfold path_Join. rewrite split_none.
  - cbn. rewrite String.string_of_list_ascii_of_string. unfold path_push.
    by rewrite !bool_decide_false by tauto.
  - eapply Forall_impl; [exact Hs|]. intros x Hx. by apply bool_decide_eq_false.
Qed.

Lemma path_Rel_app base rest : path_Rel base (base ++ rest) = rest.
Proof. induction base as [|b base IH]; [by destruct rest|]. cbn. by rewrite bool_decide_true. Qed.

(** What the pattern and the reserved names leave. *)
Lemma validateTopicName_Ok base name : validateTopicName base name = Ok tt ↔
  name ≠ EmptyString ∧ name ≠ "." ∧ name ≠ ".." ∧ zlen (to_chars name) ≤ maxTopicNameLen ∧
  Forall (λ c, topic_char c = true) (to_chars name).
Proof.
  unfold validateTopicName, topicNamePattern.
  destruct (bool_decide_reflect (name = EmptyString ∨ name = "." ∨ name = "..")); [split; [done|tauto]|].
  destruct (Z.ltb_spec maxTopicNameLen (zlen (to_chars name))); [split; [done|lia]|].
  rewrite (bool_decide_false (to_chars name = [])) by (destruct name; [tauto|done]). cbn [negb andb].
  destruct (forallb topic_char (to_chars name)) eqn:E; cbn [negb].
  - assert (HF : Forall (λ c, topic_char c = true) (to_chars name)).
    { apply Forall_forall. intros c Hc. rewrite forallb_forall in E. apply E. by apply list_elem_of_In. }
    rewrite path_Join_single, path_Rel_app; [|tauto..|].
    + cbn. rewrite bool_decide_false by tauto. tauto.
    + eapply Forall_impl; [exact HF|]. by intros c [? _]%topic_char_not_slash.
  - split; [done|]. intros (_ & _ & _ & _ & HF). exfalso.
    assert (forallb topic_char (to_chars name) = true); [|congruence].
    apply forallb_forall. intros c Hc%list_elem_of_In. by eapply Forall_forall in HF.
Qed.

Lemma Itoa_dir id : inS 32 id → Itoa id ≠ EmptyString ∧ Itoa id ≠ "." ∧ Itoa id ≠ ".." ∧
  Forall (λ c, c ≠ slash) (to_chars (Itoa id)).
Proof.
  intros H. pose proof (ParseInt_Itoa id ltac:(width_lia)) as E.
  split_and!; [intros H0; by rewrite H0 in E..|].
  eapply Forall_impl; [apply Itoa_chars|]. intros c [Hc|Hc] ->; [by apply Hc|done].
Qed.

Lemma partition_dir_Ok base topic id dir : inS 32 id → partition_dir base topic id = Ok dir →
  validateTopicName base topic = Ok tt ∧ dir = base ++ [topic; Itoa id].
Proof.
  intros Hid. unfold partition_dir. destruct (validateTopicName base topic) as [[]|e] eqn:E; [|done].
  pose proof E as (H1 & H2 & H3 & _ & HF)%validateTopicName_Ok. pose proof (Itoa_dir id Hid) as (I1 & I2 & I3 & I4).
  rewrite (path_Join_single base), (path_Join_single (base ++ [topic])), <- app_assoc; [|done..|].
  - simpl. destruct (escapes _); [done|]. intros [= <-]. done.
  - eapply Forall_impl; [exact HF|]. by intros c [? _]%topic_char_not_slash.
Qed.

Lemma partition_dir_valid base topic id : inS 32 id → validateTopicName base topic = Ok tt →
  partition_dir base topic id = Ok (base ++ [topic; Itoa id]).
Proof.
  intros Hid E. unfold partition_dir. rewrite E.
  apply validateTopicName_Ok in E as (H1 & H2 & H3 & _ & HF). pose proof (Itoa_dir id Hid) as (I1 & I2 & I3 & I4).
  rewrite (path_Join_single base), (path_Join_single (base ++ [topic])), <- app_assoc; [|done..|].
  - simpl. rewrite path_Rel_app. simpl. by rewrite bool_decide_false.
  - eapply Forall_impl; [exact HF|]. by intros c [? _]%topic_char_not_slash.
Qed.

(** ** Hashing *)

Lemma Murmur2_range key : 0 ≤ Murmur2 key < 2 ^ 31.
Proof.
  unfold Murmur2. destruct (murmur_words _ _) as [h rest]. cbn zeta.
  change 0x7fffffff with (Z.ones 31). rewrite Z.land_ones by lia. by apply Z.mod_pos_bound.
Qed.

(** The values the tests of the package expect. *)
Lemma Murmur2_vectors :
  Murmur2 [] = 590343075 ∧ Murmur2 [x61] = 242020996 ∧ Murmur2 [x74; x65; x73; x74] = 146065218 ∧
  Murmur2 [x6b; x61; x66; x6b; x61] = 1519210584 ∧
  Murmur2 [x6d; x69; x6e; x69; x2d; x6b; x61; x66; x6b; x61] = 1423008314.
Proof. by vm_compute. Qed.

(** The partitions that [k] calls without a key choose. *)
Fixpoint round_robin (n : Z) (k : nat) (counter : Z) : list Z :=
  match k with
  | O => []
  | S k => let '(p, counter) := PartitionFor n [] counter in p :: round_robin n k counter
  end.

Lemma PartitionFor_unkeyed n c : 0 < n < 2 ^ 31 → 0 ≤ c < 2 ^ 32 →
  PartitionFor n [] c = (c mod n, uint32 (c + 1)).
Proof.
  intros Hn Hc. unfold PartitionFor. case_test. f_equal. unfold wrapU.
  rewrite Zminus_mod_idemp_l, Z.add_simpl_r, (Z.mod_small c), (Z.mod_small n) by lia.
  pose proof (Z.mod_pos_bound c n). apply wrapS_small; width_lia.
Qed.

Lemma round_robin_eq n k c : 0 < n < 2 ^ 31 → 0 ≤ c → c + Z.of_nat k ≤ 2 ^ 32 →
  round_robin n k c = (λ i, (c + Z.of_nat i) mod n) <$> seq 0 k.
Proof.
  intros Hn. revert c. induction k as [|k IH]; intros c Hc Hk; [done|]. cbn [round_robin].
  rewrite PartitionFor_unkeyed by lia. cbn [seq fmap list_fmap]. rewrite Z.add_0_r. f_equal.
  destruct k as [|k]; [done|]. unfold wrapU. rewrite Z.mod_small by lia. rewrite IH by lia.
  rewrite <- fmap_S_seq, <- list_fmap_compose. apply list_fmap_ext. intros i x _. simpl. f_equal. lia.
Qed.

(** Consecutive counters go round: a window of [n] of them meets every residue. *)
Lemma window_covers n c p : 0 < n → 0 ≤ p < n → ∃ i, 0 ≤ i < n ∧ (c + i) mod n = p ∧
  ∀ j, 0 ≤ j < n → (c + j) mod n = p → j = i.
Proof.
  intros Hn Hp. exists ((p - c) mod n). pose proof (Z.mod_pos_bound (p - c) n Hn) as Hi.
  split; [done|]. split.
  - rewrite Zplus_mod_idemp_r. replace (c + (p - c)) with p by lia. by apply Z.mod_small.
  - intros j Hj <-. rewrite Zminus_mod_idemp_l. replace (c + j - c) with j by lia. by rewrite Z.mod_small.
Qed.

(** ** Claims *)

(** A topic name that [validateTopicName] accepts cannot lead out of the data
    directory: the partition is stored two levels below it, under the topic's name and
    the partition's number, so that no two partitions share a directory; and the name
    has no blanks, as the lines of the checkpoint file need. *)
Theorem partition_dirs_separate base topic1 id1 dir1 topic2 id2 dir2 : inS 32 id1 → inS 32 id2 →
  partition_dir base topic1 id1 = Ok dir1 → partition_dir base topic2 id2 = Ok dir2 →
  path_Rel base dir1 = [topic1; Itoa id1] ∧ plain_topic topic1 ∧
  (dir1 = dir2 → topic1 = topic2 ∧ id1 = id2).
Proof.
  intros H1 H2 (V1 & ->)%partition_dir_Ok (V2 & ->)%partition_dir_Ok; [|done..].
  apply validateTopicName_Ok in V1 as (N1 & _ & _ & _ & HF). split_and!.
  - apply path_Rel_app.
  - split; [by destruct topic1|]. eapply Forall_impl; [exact HF|]. by intros c [_ ?]%topic_char_not_slash.
  - intros E%(inj (app base)). injection E as -> E. split; [done|]. apply Itoa_inj in E; width_lia.
Qed.

Lemma partition_dirs_separate_witness :
  partition_dir ["var"; "lib"] "orders" 3 = Ok ["var"; "lib"; "orders"; "3"] ∧
  (path_Rel ["var"; "lib"] ["var"; "lib"; "orders"; "3"] = ["orders"; "3"] ∧ plain_topic "orders" ∧
   (["var"; "lib"; "orders"; "3"] = ["var"; "lib"; "orders"; "12"] → "orders" = "orders" ∧ 3 = 12)).
Proof.
  split; [reflexivity|].
  apply (partition_dirs_separate ["var"; "lib"] "orders" 3 _ "orders" 12); [width_lia|width_lia|reflexivity..].
Defined.

(** A name that would lead out of the data directory, or has a separator in it,
    is refused, and the name of the internal offsets topic is not: its partitions get
    the directories in which the offset store keeps its logs. *)
Theorem reserved_topic_accepted base id : inS 32 id →
  validateTopicName base "../etc" = Err (wrapError "pattern" ErrInvalidTopicName) ∧
  partition_dir base "__consumer_offsets" id = Ok (base ++ ["__consumer_offsets"; Itoa id]).
Proof.
  intros Hid. split; [reflexivity|]. apply partition_dir_valid; [done|].
  apply validateTopicName_Ok. split_and!; [done..|by vm_compute|by repeat constructor].
Qed.

(** [PartitionFor] always names an existing partition; a key fixes the partition
    whatever the round-robin counter is; and without keys, as many calls in a row as
    there are partitions choose every partition exactly once. *)
Theorem PartitionFor_correct n key c : 0 < n < 2 ^ 31 → 0 ≤ c < 2 ^ 32 →
  0 ≤ (PartitionFor n key c).1 < n ∧ 0 ≤ (PartitionFor n key c).2 < 2 ^ 32 ∧
  (key ≠ [] → PartitionFor n key c = (Murmur2 key mod n, c)) ∧
  (c + n ≤ 2 ^ 32 → ∀ p, 0 ≤ p < n →
     ∃ i, round_robin n (Z.to_nat n) c !! i = Some p ∧
       ∀ j, round_robin n (Z.to_nat n) c !! j = Some p → j = i).
Proof.
  intros Hn Hc.
  assert (Hk : key ≠ [] → PartitionFor n key c = (Murmur2 key mod n, c)).
  { intros Hk. unfold PartitionFor. case_test. destruct key as [|x key]; [done|]. f_equal.
    unfold wrapU. rewrite (Z.mod_small n) by lia.
    pose proof (Z.mod_pos_bound (Murmur2 (x :: key)) n). apply wrapS_small; width_lia. }
  split; [|split]; [destruct key..|split; [exact Hk|]].
  - rewrite PartitionFor_unkeyed by lia. apply Z.mod_pos_bound; lia.
  - rewrite Hk by done. apply Z.mod_pos_bound; lia.
  - rewrite PartitionFor_unkeyed by lia. apply Z.mod_pos_bound; lia.
  - by rewrite Hk.
  - intros Hw p Hp. rewrite round_robin_eq by lia.
    destruct (window_covers n c p ltac:(lia) Hp) as (i & Hi & Ei & Hu). exists (Z.to_nat i). split.
    + rewrite list_lookup_fmap, lookup_seq_lt by lia. simpl. by rewrite Z2Nat.id, Ei by lia.
    + intros j Hj. rewrite list_lookup_fmap in Hj. destruct (seq 0 _ !! j) as [x|] eqn:Ej; [|done].
      apply lookup_seq in Ej as [-> Hlt]. injection Hj as Hj. specialize (Hu (Z.of_nat j)).
      simpl in Hj. lia.
Qed.

Lemma PartitionFor_correct_witness :
  let c := 4294967290 in
  0 ≤ (PartitionFor 3 [] c).1 < 3 ∧ 0 ≤ (PartitionFor 3 [] c).2 < 2 ^ 32 ∧
  (([] : bytes) ≠ [] → PartitionFor 3 [] c = (Murmur2 [] mod 3, c)) ∧
  (c + 3 ≤ 2 ^ 32 → ∀ p, 0 ≤ p < 3 →
     ∃ i, round_robin 3 (Z.to_nat 3) c !! i = Some p ∧
       ∀ j, round_robin 3 (Z.to_nat 3) c !! j = Some p → j = i).
Proof. apply (PartitionFor_correct 3 [] 4294967290); lia. Defined.

Lemma reserved_topic_accepted_witness :
  validateTopicName ["data"] "../etc" = Err (wrapError "pattern" ErrInvalidTopicName) ∧
  partition_dir ["data"] "__consumer_offsets" 0 = Ok (["data"] ++ ["__consumer_offsets"; Itoa 0]).
Proof. apply (reserved_topic_accepted ["data"] 0). width_lia. Defined.
