(* ===== verification/Metadata.v ===== *)
(** * Topic metadata (src/internal/broker/metadata.go)

    The metadata manager: the topics of the broker in memory and the JSON file
    [meta/topics.json] they are kept in. *)
From Stdlib Require Import ZArith Lia Strings.Ascii.
From stdpp Require Import base list strings gmap sorting.
From S2P Require Import Prelude Decimal Checkpoint Json Topic.
Open Scope Z_scope.

Record TopicMeta := mkTopicMeta {
  tmt_Name : string;
  tmt_NumPartitions : Z;  (* int32 *)
  tmt_ReplicationFactor : Z  (* int16 *)
}.
#[global] Instance TopicMeta_eq_dec : EqDecision TopicMeta.
Proof. solve_decision. Defined.

(** [mm_file] is the content of the file, if it exists. *)
Record MetadataManager := mkMetadataManager {
  mm_file : option chars;
  mm_topics : gmap string TopicMeta
}.

(** ** Decoding *)

(** [json.Unmarshal] into a string and into a signed integer of [w] bits; a null
    leaves the target as it is. *)
Definition decode_string (v : json) (cur : string) : option string :=
  match v with JNull => Some cur | JStr s => Some (of_chars s) | _ => None end.
Definition decode_int (w : Z) (v : json) (cur : Z) : option Z :=
  match v with
  | JNull => Some cur
  | JNum lit => n ← ParseInt (of_chars lit); if bool_decide (inS w n) then Some n else None
  | _ => None
  end.

(** Field names match without regard to case. *)
Definition lower (c : ascii) : ascii :=
  let n := code c in if (65 <=? n) && (n <=? 90) then chr (n + 32) else c.
Definition is_field (name : string) (key : chars) : bool := bool_decide (lower <$> key = to_chars name).

(** One member of the object of a topic; unknown members are skipped. *)
Definition decode_meta_member (t : TopicMeta) (m : chars * json) : option TopicMeta :=
  let '(k, v) := m in
  if is_field "name" k then
    s ← decode_string v t.(tmt_Name); Some (mkTopicMeta s t.(tmt_NumPartitions) t.(tmt_ReplicationFactor))
  else if is_field "num_partitions" k then
    n ← decode_int 32 v t.(tmt_NumPartitions); Some (mkTopicMeta t.(tmt_Name) n t.(tmt_ReplicationFactor))
  else if is_field "replication_factor" k then
    n ← decode_int 16 v t.(tmt_ReplicationFactor); Some (mkTopicMeta t.(tmt_Name) t.(tmt_NumPartitions) n)
  else Some t.

Fixpoint fold_option {A B} (f : A → B → option A) (a : A) (l : list B) : option A :=
  match l with
  | [] => Some a
  | b :: l => a ← f a b; fold_option f a l
  end.

Definition decode_TopicMeta (v : json) : option TopicMeta :=
  let zero := mkTopicMeta EmptyString 0 0 in
  match v with
  | JNull => Some zero
  | JObj ms => fold_option decode_meta_member zero ms
  | _ => None
  end.

Definition decode_topic (topics : gmap string TopicMeta) (m : chars * json) : option (gmap string TopicMeta) :=
  let '(k, v) := m in t ← decode_TopicMeta v; Some (<[of_chars k := t]> topics).

(** [metadataState]: its only field is a map, nil when absent. *)
Definition decode_state_member (topics : option (gmap string TopicMeta)) (m : chars * json) :
    option (option (gmap string TopicMeta)) :=
  let '(k, v) := m in
  if is_field "topics" k then
    match v with
    | JNull => Some None
    | JObj ms => Some <$> fold_option decode_topic (default ∅ topics) ms
    | _ => None
    end
  else Some topics.

Definition decode_state (v : json) : option (option (gmap string TopicMeta)) :=
  match v with
  | JNull => Some None
  | JObj ms => fold_option decode_state_member None ms
  | _ => None
  end.

(** ** Encoding *)

Definition encode_TopicMeta (t : TopicMeta) : json :=
  JObj [(to_chars "name", JStr (to_chars t.(tmt_Name)));
        (to_chars "num_partitions", JNum (to_chars (Itoa t.(tmt_NumPartitions))));
        (to_chars "replication_factor", JNum (to_chars (Itoa t.(tmt_ReplicationFactor))))].

(** The keys of a map come out sorted. *)
Definition encode_state (topics : gmap string TopicMeta) : json :=
  JObj [(to_chars "topics", JObj (omap (λ k, (λ t, (to_chars k, encode_TopicMeta t)) <$> topics !! k)
                                   (sort_Strings (map_to_list topics).*1)))].

(** ** Operations *)

(** [load]. *)
Definition load_metadata (mm : MetadataManager) : result MetadataManager :=
  match mm.(mm_file) with
  | None => Ok mm
  | Some data =>
      match json_parse data ≫= decode_state with
      | None => Err (errorString "metadata: unmarshal")
      | Some None => Ok mm
      | Some (Some topics) => Ok (mkMetadataManager mm.(mm_file) topics)
      end
  end.

Definition NewMetadataManager (file : option chars) : result MetadataManager :=
  load_metadata (mkMetadataManager file ∅).

(** [saveLocked]; [writeOk] says whether the temporary file could be written and
    renamed. The rename replaces the file in one step. *)
Definition saveLocked (writeOk : bool) : M MetadataManager unit := λ mm,
  if writeOk then (Ok tt, mkMetadataManager (Some (print_value 0 (encode_state mm.(mm_topics)))) mm.(mm_topics))
  else (Err (errorString "metadata: write tmp"), mm).

(** [CreateTopic]: the entry and whether it is new. *)
Definition CreateTopic (writeOk : bool) (name : string) (numPartitions replicationFactor : Z) :
    M MetadataManager (TopicMeta * bool) := λ mm,
  match mm.(mm_topics) !! name with
  | Some meta => (Ok (meta, false), mm)
  | None =>
      let meta := mkTopicMeta name numPartitions replicationFactor in
      match saveLocked writeOk (mkMetadataManager mm.(mm_file) (<[name := meta]> mm.(mm_topics))) with
      | (Err e, mm) => (Err e, mkMetadataManager mm.(mm_file) (delete name mm.(mm_topics)))
      | (Ok _, mm) => (Ok (meta, true), mm)
      end
  end.

Definition GetTopic (name : string) (mm : MetadataManager) : option TopicMeta := mm.(mm_topics) !! name.

(** [ListTopics]; [iter] is the order of the range over the map. *)
Definition ListTopics (iter : gmap string TopicMeta → list string) (mm : MetadataManager) : list TopicMeta :=
  omap (mm.(mm_topics) !!.) (iter mm.(mm_topics)).

(** ** Reading back what was written *)

(** The entries a manager has: filed under their names, which are topic names, with
    numbers of their width. *)
Definition good_meta (name : string) (t : TopicMeta) : Prop :=
  t.(tmt_Name) = name ∧ Forall (λ c, topic_char c = true) (to_chars name) ∧
  inS 32 t.(tmt_NumPartitions) ∧ inS 16 t.(tmt_ReplicationFactor).
Definition good_topics (topics : gmap string TopicMeta) : Prop := map_Forall good_meta topics.

Lemma topic_char_plain c : topic_char c = true → plain_char c = true.
Proof. by destruct c as [[] [] [] [] [] [] [] []]. Qed.

Lemma topic_chars_plain name : Forall (λ c, topic_char c = true) (to_chars name) →
  Forall (λ c, plain_char c = true) (to_chars name).
Proof. intros H. eapply Forall_impl; [exact H|apply topic_char_plain]. Qed.

Lemma parses_meta name t : good_meta name t → parses (encode_TopicMeta t).
Proof.
  intros (<- & Hc & _). apply parses_obj.
  - repeat (apply Forall_cons; split); try apply Forall_nil; cbn;
      [by apply parses_str, topic_chars_plain|apply parses_num..|done].
  - repeat (apply Forall_cons; split); [by repeat constructor..|by apply Forall_nil].
Qed.

Lemma decode_int_Itoa w n cur : inS 64 n → inS w n → decode_int w (JNum (to_chars (Itoa n))) cur = Some n.
Proof.
  intros H64 Hw. unfold decode_int. rewrite String.string_of_list_ascii_of_string, ParseInt_Itoa by done.
  cbn. by rewrite bool_decide_true.
Qed.

Lemma decode_meta name t : good_meta name t → decode_TopicMeta (encode_TopicMeta t) = Some t.
Proof.
  intros (_ & _ & Hn & Hr). destruct t as [nm n r]. cbn in Hn, Hr.
  assert (E1 : ∀ t, decode_meta_member t (to_chars "name", JStr (to_chars nm)) =
    Some (mkTopicMeta nm (tmt_NumPartitions t) (tmt_ReplicationFactor t))).
  { intros t. unfold decode_meta_member. change (is_field "name" _) with true. cbn.
    by rewrite String.string_of_list_ascii_of_string. }
  assert (E2 : ∀ t, decode_meta_member t (to_chars "num_partitions", JNum (to_chars (Itoa n))) =
    Some (mkTopicMeta (tmt_Name t) n (tmt_ReplicationFactor t))).
  { intros t. unfold decode_meta_member. change (is_field "name" _) with false.
    change (is_field "num_partitions" _) with true. cbv iota. rewrite decode_int_Itoa by width_lia. done. }
  assert (E3 : ∀ t, decode_meta_member t (to_chars "replication_factor", JNum (to_chars (Itoa r))) =
    Some (mkTopicMeta (tmt_Name t) (tmt_NumPartitions t) r)).
  { intros t. unfold decode_meta_member. change (is_field "name" _) with false.
    change (is_field "num_partitions" _) with false. change (is_field "replication_factor" _) with true.
    cbv iota. rewrite decode_int_Itoa by width_lia. done. }
  unfold encode_TopicMeta, decode_TopicMeta. cbn [tmt_Name tmt_NumPartitions tmt_ReplicationFactor fold_option].
  rewrite E1. cbn [mbind option_bind]. rewrite E2. cbn [mbind option_bind]. rewrite E3. reflexivity.
Qed.

Lemma decode_topic_meta m k t : good_meta k t → decode_topic m (to_chars k, encode_TopicMeta t) = Some (<[k := t]> m).
Proof.
  intros Ht. unfold decode_topic. rewrite (decode_meta k t Ht). cbn [mbind option_bind].
  by rewrite String.string_of_list_ascii_of_string.
Qed.

(** The members of the printed object are read in order. *)
Definition read_keys (topics : gmap string TopicMeta) (m : gmap string TopicMeta) (keys : list string) :
    gmap string TopicMeta :=
  foldl (λ m k, match topics !! k with Some t => <[k := t]> m | None => m end) m keys.

Lemma fold_decode_topic topics keys : good_topics topics → ∀ m,
  fold_option decode_topic m (omap (λ k, (λ t, (to_chars k, encode_TopicMeta t)) <$> topics !! k) keys) =
  Some (read_keys topics m keys).
Proof.
  intros Hg. induction keys as [|k keys IH]; intros m; [done|]. unfold read_keys. cbn [omap list_omap foldl].
  destruct (topics !! k) as [t|] eqn:Ek; cbn [fmap option_fmap option_map]; [|apply IH].
  cbn [fold_option]. rewrite decode_topic_meta by by apply Hg. apply IH.
Qed.

Lemma read_keys_lookup topics keys k : ∀ m,
  read_keys topics m keys !! k = if bool_decide (k ∈ keys ∧ is_Some (topics !! k)) then topics !! k else m !! k.
Proof.
  induction keys as [|k0 keys IH]; intros m.
  { rewrite bool_decide_false; [done|]. intros [H%not_elem_of_nil _]. done. }
  unfold read_keys. cbn [foldl]. fold (read_keys topics).
  change (foldl _ ?a keys) with (read_keys topics a keys). rewrite IH.
  destruct (decide (k ∈ keys ∧ is_Some (topics !! k))) as [[H1 H2]|Hn].
  { rewrite !bool_decide_true; [done| |done]. split; [by right|done]. }
  rewrite (bool_decide_false (k ∈ keys ∧ _)) by done. destruct (topics !! k0) as [t|] eqn:E0.
  - destruct (decide (k0 = k)) as [->|Hne].
    + rewrite lookup_insert_eq, bool_decide_true; [done|]. split; [left|by rewrite E0].
    + rewrite lookup_insert_ne by done. rewrite bool_decide_false; [done|].
      intros [[->|H]%elem_of_cons ?]; [done|]. tauto.
  - rewrite bool_decide_false; [done|]. intros [[->|H]%elem_of_cons [? ?]]; [congruence|]. apply Hn. eauto.
Qed.

Lemma read_keys_all topics keys : (∀ k, is_Some (topics !! k) → k ∈ keys) → read_keys topics ∅ keys = topics.
Proof.
  intros Hk. apply map_eq. intros k. rewrite read_keys_lookup, lookup_empty.
  destruct (topics !! k) as [t|] eqn:E.
  - rewrite bool_decide_true; [done|]. split; [apply Hk; by rewrite E|done].
  - by destruct (bool_decide _).
Qed.

Lemma decode_encode_state topics : good_topics topics → decode_state (encode_state topics) = Some (Some topics).
Proof.
  intros Hg. unfold encode_state, decode_state. cbn [fold_option]. unfold decode_state_member.
  change (is_field "topics" (to_chars "topics")) with true. cbn match. rewrite fold_decode_topic by done.
  cbn [default fmap option_fmap option_map mbind option_bind]. do 2 f_equal. apply read_keys_all.
  intros k [t Ht]. unfold sort_Strings. rewrite merge_sort_Permutation, list_elem_of_fmap.
  exists (k, t). by rewrite elem_of_map_to_list.
Qed.

Lemma parses_state topics : good_topics topics → parses (encode_state topics).
Proof.
  intros Hg. apply parses_obj; (apply Forall_cons; split; [|by apply Forall_nil]); [|by repeat constructor].
  cbn. apply parses_obj; apply Forall_forall; intros [k' v] Hm; apply list_elem_of_omap in Hm as (k & _ & Hk);
    destruct (topics !! k) as [t|] eqn:E; simplify_eq/=.
  - by eapply parses_meta, Hg.
  - apply topic_chars_plain. by destruct (Hg k t E) as (_ & ? & _).
Qed.

Lemma load_saved topics : good_topics topics → ∀ m,
  load_metadata (mkMetadataManager (Some (print_value 0 (encode_state topics))) m) =
  Ok (mkMetadataManager (Some (print_value 0 (encode_state topics))) topics).
Proof.
  intros Hg m. unfold load_metadata. cbn [mm_file]. rewrite json_parse_print by by apply parses_state.
  cbn [mbind option_bind]. by rewrite decode_encode_state.
Qed.

(** ** Claims *)

(** A call of [CreateTopic] after the checks of the name and of the numbers. *)
Record create_call := mkCreateCall {
  cc_writeOk : bool; cc_name : string; cc_partitions : Z; cc_replication : Z
}.
Definition create_ok (c : create_call) : Prop :=
  Forall (λ ch, topic_char ch = true) (to_chars c.(cc_name)) ∧ inS 32 c.(cc_partitions) ∧ inS 16 c.(cc_replication).
Definition do_create (mm : MetadataManager) (c : create_call) : MetadataManager :=
  (CreateTopic c.(cc_writeOk) c.(cc_name) c.(cc_partitions) c.(cc_replication) mm).2.

(** What a manager and its file have in common: reading the file gives the topics. *)
Definition persisted (mm : MetadataManager) : Prop :=
  good_topics mm.(mm_topics) ∧ NewMetadataManager mm.(mm_file) = Ok mm.

Lemma do_create_persisted mm c : persisted mm → create_ok c → persisted (do_create mm c).
Proof.
  intros [Hg Hf] (Hc & Hn & Hr). unfold do_create, CreateTopic.
  destruct (mm_topics mm !! cc_name c) eqn:E; [done|].
  destruct (cc_writeOk c); cbn [saveLocked snd mm_file mm_topics].
  - assert (Hg' : good_topics (<[cc_name c := mkTopicMeta (cc_name c) (cc_partitions c) (cc_replication c)]> (mm_topics mm))).
    { by apply map_Forall_insert_2. }
    split; [done|]. unfold NewMetadataManager. cbn [mm_file]. by apply load_saved.
  - rewrite delete_insert_id by done. destruct mm. by split.
Qed.

(** C23: the topics survive a restart: after any sequence of topic creations, some of
    whose writes may fail, a manager opened on the file has exactly the topics of the
    one that wrote it; and a creation whose write fails leaves topics and file as they
    were. *)
Theorem metadata_survives_restart mm cs : persisted mm → Forall create_ok cs →
  NewMetadataManager (foldl do_create mm cs).(mm_file) = Ok (foldl do_create mm cs) ∧
  ∀ name n r e mm', CreateTopic false name n r (foldl do_create mm cs) = (Err e, mm') → mm' = foldl do_create mm cs.
Proof.
  intros Hm Hcs. assert (Hp : persisted (foldl do_create mm cs)).
  { revert mm Hm. induction Hcs as [|c cs Hc _ IH]; intros mm Hm; [done|]. apply IH. by apply do_create_persisted. }
  split; [apply Hp|]. intros name n r e mm'. unfold CreateTopic.
  destruct (mm_topics _ !! name) eqn:E; [done|]. intros [= _ <-]. cbn [mm_file mm_topics].
  rewrite delete_insert_id by done. by destruct (foldl do_create mm cs).
Qed.

Lemma metadata_survives_restart_witness :
  let cs := [mkCreateCall true "orders" 3 1; mkCreateCall false "lost" 1 1; mkCreateCall true "audit-log" 12 2] in
  let mm := foldl do_create (mkMetadataManager None ∅) cs in
  size mm.(mm_topics) = 2%nat ∧
  (NewMetadataManager mm.(mm_file) = Ok mm ∧
   ∀ name n r e mm', CreateTopic false name n r mm = (Err e, mm') → mm' = mm).
Proof.
  intros cs mm. split; [by vm_compute|]. apply (metadata_survives_restart (mkMetadataManager None ∅) cs).
  - split; [by apply map_Forall_empty|reflexivity].
  - repeat (constructor; [split_and!; [by repeat constructor|by_decide..]|]). constructor.
Defined.
