(* ===== verification/Partition.v ===== *)
(** * Partitions (src/internal/broker/partition.go)

    A partition owns a log and one writer goroutine that serves the append queue.
    Callers of [AppendBatch], [Close] and [SetHighWatermark] and the writer run side by
    side; each event below is one channel operation or one critical section. *)
From Stdlib Require Import ZArith Lia Strings.Byte.
From stdpp Require Import base list strings gmap.
From S2P Require Import Prelude Files Decimal Record Index Segment PartitionLog Checkpoint Topic.
Open Scope Z_scope.

(** ** State *)

(** [appendResponse]: base offset and error. *)
Abbreviation appendResponse := (Z * option error)%type.

(** [appendRequest]; the response channel is a number. *)
Record appendRequest := mkAppendRequest {
  ar_records : list (option record);
  ar_respCh : nat
}.

(** Where [writerLoop] is: in the outer loop, in the loop that drains the queue after
    [closeCh] was closed, or returned. *)
Inductive writerPc := Serving | Draining | Done.

Record Partition := mkPartition {
  pt_Topic : string;
  pt_ID : Z;
  pt_log : Log;
  pt_highWatermark : Z;
  pt_appendCh : list appendRequest;
  pt_closeCh : bool;  (* closed *)
  pt_writer : writerPc;
  pt_responses : gmap nat appendResponse  (* what the calls returned or can receive *)
}.

Definition appendCh_capacity : nat := 256.

(** The partition directories that no log has open, by their path. *)
Abbreviation Disk := (gmap (list string) Dir).

(** [NewPartition]: the checks of the name and the path, then the log found in the
    directory. *)
Definition NewPartition (ModTime : list string → string → Z) (now : Z) (cleanBase : list string) (topic : string)
    (partitionID : Z) (cfg : Config) : M Disk Partition := λ disk,
  match partition_dir cleanBase topic partitionID with
  | Err e => (Err e, disk)
  | Ok dir =>
      match NewLog (ModTime dir) now cfg (default ∅ (disk !! dir)) with
      | (Err e, log) => (Err (wrapError "partition" e), <[dir := log.(log_dir)]> disk)
      | (Ok _, log) =>
          (Ok (mkPartition topic partitionID log (HighestOffset log) [] false Serving ∅), delete dir disk)
      end
  end.

Definition SetHighWatermark (hw : Z) (p : Partition) : Partition :=
  mkPartition p.(pt_Topic) p.(pt_ID) p.(pt_log)
    (if p.(pt_highWatermark) <? hw then hw else p.(pt_highWatermark))
    p.(pt_appendCh) p.(pt_closeCh) p.(pt_writer) p.(pt_responses).

(** The two branches of [AppendBatch]'s select: the send into the queue, and the
    error return when [closeCh] is closed. *)
Definition append_send (req : appendRequest) (p : Partition) : Partition :=
  mkPartition p.(pt_Topic) p.(pt_ID) p.(pt_log) p.(pt_highWatermark)
    (p.(pt_appendCh) ++ [req]) p.(pt_closeCh) p.(pt_writer) p.(pt_responses).
Definition append_closed (respCh : nat) (p : Partition) : Partition :=
  mkPartition p.(pt_Topic) p.(pt_ID) p.(pt_log) p.(pt_highWatermark)
    p.(pt_appendCh) p.(pt_closeCh) p.(pt_writer)
    (<[respCh := (-1, Some (errorString "partition is closed"))]> p.(pt_responses)).

(** The writer serves the request [req] it received; [queue] is what stays behind. *)
Definition writer_serve (ModTime : string → Z) (now : Z) (req : appendRequest) (queue : list appendRequest)
    (p : Partition) : Partition :=
  let '(res, log) := AppendBatch ModTime now req.(ar_records) p.(pt_log) in
  mkPartition p.(pt_Topic) p.(pt_ID) log p.(pt_highWatermark)
    queue p.(pt_closeCh) p.(pt_writer) (<[req.(ar_respCh) := res]> p.(pt_responses)).

Definition set_writer_pc (pc : writerPc) (p : Partition) : Partition :=
  mkPartition p.(pt_Topic) p.(pt_ID) p.(pt_log) p.(pt_highWatermark)
    p.(pt_appendCh) p.(pt_closeCh) pc p.(pt_responses).

(** [Close]: closing the channel, and, after the writer has returned, the log. *)
Definition Partition_Close (p : Partition) : Partition :=
  mkPartition p.(pt_Topic) p.(pt_ID) p.(pt_log) p.(pt_highWatermark)
    p.(pt_appendCh) true p.(pt_writer) p.(pt_responses).
Definition Partition_Close_log (p : Partition) : Partition :=
  mkPartition p.(pt_Topic) p.(pt_ID) (Log_Close p.(pt_log)).2 p.(pt_highWatermark)
    p.(pt_appendCh) p.(pt_closeCh) p.(pt_writer) p.(pt_responses).

(** ** Events *)

Inductive part_event :=
  | EvSend (req : appendRequest)
  | EvClosed (respCh : nat)
  | EvServe (ModTime : string → Z) (now : Z)
  | EvDrain
  | EvExit
  | EvClose
  | EvCloseLog
  | EvSetHW (hw : Z).

(** A call of [AppendBatch] makes a response channel of its own. *)
Definition unused (respCh : nat) (p : Partition) : bool :=
  bool_decide (p.(pt_responses) !! respCh = None) && bool_decide (respCh ∉ ar_respCh <$> p.(pt_appendCh)).

(** An event, when it can happen. A send is possible whenever the channel has room,
    also after [closeCh] was closed: a select with several ready cases takes any. *)
Definition part_exec (ev : part_event) (p : Partition) : option Partition :=
  match ev with
  | EvSend req =>
      if (length p.(pt_appendCh) <? appendCh_capacity)%nat && unused req.(ar_respCh) p
      then Some (append_send req p) else None
  | EvClosed respCh => if p.(pt_closeCh) && unused respCh p then Some (append_closed respCh p) else None
  | EvServe ModTime now =>
      match p.(pt_writer), p.(pt_appendCh) with
      | (Serving | Draining), req :: queue => Some (writer_serve ModTime now req queue p)
      | _, _ => None
      end
  | EvDrain =>
      match p.(pt_writer) with
      | Serving => if p.(pt_closeCh) then Some (set_writer_pc Draining p) else None
      | _ => None
      end
  | EvExit =>
      match p.(pt_writer), p.(pt_appendCh) with
      | Draining, [] => Some (set_writer_pc Done p)
      | _, _ => None
      end
  | EvClose => Some (Partition_Close p)
  | EvCloseLog =>
      match p.(pt_writer) with
      | Done => Some (Partition_Close_log p)
      | _ => None
      end
  | EvSetHW hw => Some (SetHighWatermark hw p)
  end.

Fixpoint part_run (evs : list part_event) (p : Partition) : option Partition :=
  match evs with
  | [] => Some p
  | ev :: evs => p' ← part_exec ev p; part_run evs p'
  end.

(** The requests sent, in order. *)
Definition sends (evs : list part_event) : list appendRequest :=
  omap (λ ev, match ev with EvSend req => Some req | _ => None end) evs.

(** ** Invariant *)

(** The records of a request without nil entries, and the requests that the log can
    store wherever they land. *)
Definition batch (req : appendRequest) : list record := omap id req.(ar_records).
Definition req_ok (req : appendRequest) : Prop :=
  req.(ar_records) = Some <$> batch req ∧ batch req ≠ [] ∧
  ∀ o, 0 ≤ o → inS 64 (o + zlen (batch req)) → Forall storable (number_from o (batch req)).

(** The offset at which the requests [reqs] end when they start at [o]. *)
Definition end_after (o : Z) (reqs : list appendRequest) : Z := o + zlen (reqs ≫= batch).

Lemma number_from_app o l1 l2 : number_from o (l1 ++ l2) = number_from o l1 ++ number_from (o + zlen l1) l2.
Proof.
  revert o. induction l1 as [|r l1 IH]; intros o; simpl; [by rewrite Z.add_0_r|].
  rewrite IH. do 3 f_equal. lia.
Qed.

Lemma length_number_from o l : length (number_from o l) = length l.
Proof. revert o. induction l as [|r l IH]; intros o; simpl; [done|]. by rewrite IH. Qed.

Record serving (f : bool) (b : Z) (rs : list record) (served : list appendRequest) (p : Partition) : Prop := {
  sv_view : p.(pt_log).(log_closed) = false →
    log_view f p.(pt_log) b (rs ++ number_from (b + zlen rs) (served ≫= batch));
  sv_open : p.(pt_writer) ≠ Done → p.(pt_log).(log_closed) = false;
  sv_answers i req : served !! i = Some req →
    p.(pt_responses) !! req.(ar_respCh) = Some (end_after (b + zlen rs) (take i served), None);
  sv_pending req : req ∈ p.(pt_appendCh) → p.(pt_responses) !! req.(ar_respCh) = None;
  sv_channels : NoDup (ar_respCh <$> p.(pt_appendCh))
}.

(** What an event adds to the requests sent. *)
Definition sent_by (ev : part_event) : list appendRequest := sends [ev].

Lemma writer_serve_ok f b rs served mt now req queue p : serving f b rs served p →
  p.(pt_writer) ≠ Done → p.(pt_appendCh) = req :: queue → req_ok req → 0 ≤ b →
  inS 64 (end_after (b + zlen rs) (served ++ [req])) →
  serving f b rs (served ++ [req]) (writer_serve mt now req queue p).
Proof.
  intros [Hv Ho Ha Hp Hc] Hw Eq (Er & Hne & Hst) Hb H64. specialize (Ho Hw). specialize (Hv Ho).
  assert (El : zlen (rs ++ number_from (b + zlen rs) (served ≫= batch)) = zlen rs + zlen (served ≫= batch))
    by (rewrite length_app, length_number_from; lia).
  unfold end_after in H64. rewrite bind_app, length_app in H64. cbn in H64. rewrite app_nil_r in H64.
  destruct (append_loop_ok mt now (batch req) (pt_log p) f b _ None Hv) as (l' & E & Hv').
  { rewrite El. split; [apply Hst; [lia|]|]; widths; lia. }
  assert (Eb : AppendBatch mt now (ar_records req) (pt_log p) =
    ((b + (zlen rs + zlen (served ≫= batch)), None), l')).
  { unfold AppendBatch. rewrite Ho, Er, <- El. destruct (batch req); [done|exact E]. }
  unfold writer_serve. rewrite Eb. rewrite Eq in Hp, Hc. simpl in Hc. apply NoDup_cons in Hc as [Hn Hc].
  constructor; simpl.
  - intros _. rewrite bind_app, number_from_app, app_assoc. cbn. rewrite app_nil_r.
    rewrite El in Hv'. by replace (b + zlen rs + zlen (served ≫= batch)) with (b + (zlen rs + zlen (served ≫= batch))) by lia.
  - intros _. destruct Hv' as (? & ? & ? & ? & ? & Hr & _). apply Hr.
  - intros i r Hi. destruct (decide (i < length served)%nat) as [Hlt|Hge].
    + rewrite lookup_app_l in Hi by done. specialize (Ha i r Hi).
      rewrite lookup_insert_ne by (intros E'; rewrite <- E', (Hp req) in Ha; [done|by left]).
      by rewrite take_app_le by lia.
    + rewrite lookup_app_r in Hi by lia. apply list_lookup_singleton_Some in Hi as [Hi <-].
      assert (i = length served) as -> by lia. rewrite take_app_length, lookup_insert_eq.
      unfold end_after. by rewrite Z.add_assoc.
  - intros r Hr. rewrite lookup_insert_ne; [apply Hp; by right|]. intros E'. apply Hn.
    rewrite E'. by apply list_elem_of_fmap_2.
  - done.
Qed.

Lemma unused_spec ch p : unused ch p = true ↔
  p.(pt_responses) !! ch = None ∧ ch ∉ ar_respCh <$> p.(pt_appendCh).
Proof. unfold unused. by rewrite andb_true_iff, !bool_decide_eq_true. Qed.

Lemma Log_Close_closed l : (Log_Close l).2.(log_closed) = true.
Proof.
  unfold Log_Close. destruct (log_closed l) eqn:E; [done|]. unfold closeSegments.
  by destruct (close_loop _ _) as [[e|] d].
Qed.

(** Changes outside the log and the queue. *)
Lemma serving_same f b rs served p p' : serving f b rs served p →
  p'.(pt_log) = p.(pt_log) → p'.(pt_appendCh) = p.(pt_appendCh) → p'.(pt_responses) = p.(pt_responses) →
  (p'.(pt_writer) ≠ Done → p.(pt_writer) ≠ Done) → serving f b rs served p'.
Proof. intros [Hv Ho Ha Hp Hc] El Eq Er Hw. constructor; rewrite ?El, ?Eq, ?Er; auto. Qed.

Lemma append_send_ok f b rs served req p : serving f b rs served p → unused req.(ar_respCh) p = true →
  serving f b rs served (append_send req p).
Proof.
  intros [Hv Ho Ha Hp Hc] [Hn Hq]%unused_spec. constructor; simpl; try done.
  - intros r [Hr| ->%list_elem_of_singleton]%elem_of_app; [by apply Hp|done].
  - rewrite fmap_app. apply NoDup_app. split_and!; [done| |by apply NoDup_singleton].
    intros c Hc' ->%list_elem_of_singleton. done.
Qed.

Lemma append_closed_ok f b rs served ch p : serving f b rs served p → unused ch p = true →
  serving f b rs served (append_closed ch p).
Proof.
  intros [Hv Ho Ha Hp Hc] [Hn Hq]%unused_spec. constructor; simpl; try done.
  - intros i r Hi. rewrite lookup_insert_ne; [by apply Ha|]. intros ->. by rewrite (Ha i r Hi) in Hn.
  - intros r Hr. rewrite lookup_insert_ne; [by apply Hp|]. intros ->. apply Hq. by apply list_elem_of_fmap_2.
Qed.

Lemma close_log_ok f b rs served p : serving f b rs served p → p.(pt_writer) = Done →
  serving f b rs served (Partition_Close_log p).
Proof.
  intros [Hv Ho Ha Hp Hc] Hw. constructor; simpl; try done. by rewrite Log_Close_closed.
Qed.

Lemma writer_serve_frame mt now req queue p :
  (writer_serve mt now req queue p).(pt_highWatermark) = p.(pt_highWatermark) ∧
  (writer_serve mt now req queue p).(pt_appendCh) = queue.
Proof. unfold writer_serve. by destruct (AppendBatch _ _ _ _). Qed.

(** An event keeps the invariant; the requests sent are those served and those
    waiting, in order. *)
Lemma part_exec_serving f b rs served ev p p' : part_exec ev p = Some p' → serving f b rs served p →
  0 ≤ b → Forall req_ok p.(pt_appendCh) →
  inS 64 (end_after (b + zlen rs) (served ++ p.(pt_appendCh))) →
  p.(pt_highWatermark) ≤ p'.(pt_highWatermark) ∧
  ∃ served', serving f b rs served' p' ∧
    served' ++ p'.(pt_appendCh) = (served ++ p.(pt_appendCh)) ++ sends [ev].
Proof.
  intros E Hs Hb Hok H64.
  assert (Hserve : ∀ mt now req queue, p.(pt_writer) ≠ Done → p.(pt_appendCh) = req :: queue →
    p' = writer_serve mt now req queue p →
    p.(pt_highWatermark) ≤ p'.(pt_highWatermark) ∧ ∃ served', serving f b rs served' p' ∧
    served' ++ p'.(pt_appendCh) = (served ++ p.(pt_appendCh)) ++ []).
  { intros mt now req queue Hw Eq ->. rewrite Eq in Hok, H64 |- *.
    apply Forall_cons in Hok as [Hr _]. destruct (writer_serve_frame mt now req queue p) as [Eh Ec].
    rewrite Eh, Ec. split; [done|]. exists (served ++ [req]). rewrite app_nil_r, <- app_assoc. split; [|done].
    apply writer_serve_ok; try done. clear -H64 Hb. unfold end_after in *.
    rewrite cons_middle, app_assoc, (bind_app _ (served ++ [req])), length_app in H64. widths. lia. }
  destruct ev as [req|ch|mt now| | | | |hw]; simpl in E; [repeat case_match; simplify_eq..|].
  - apply andb_true_iff in H as [_ H]. split; [done|]. exists served. rewrite <- app_assoc.
    split; [by apply append_send_ok|done].
  - apply andb_true_iff in H as [_ H]. split; [done|]. exists served. rewrite app_nil_r.
    split; [by apply append_closed_ok|done].
  - by eapply Hserve.
  - by eapply Hserve.
  - split; [done|]. exists served. split; [|by cbn; rewrite app_nil_r].
    eapply serving_same; [done..|by simpl; intros; simplify_eq; congruence].
  - split; [done|]. exists served. split; [|by cbn; rewrite H0, !app_nil_r].
    eapply serving_same; [done..|by simpl; intros; simplify_eq; congruence].
  - split; [done|]. exists served. split; [|by cbn; rewrite app_nil_r].
    eapply serving_same; [done..|by simpl; intros; simplify_eq; congruence].
  - split; [done|]. exists served. rewrite app_nil_r. split; [|done]. by apply close_log_ok.
  - injection E as <-. simpl. split; [destruct (Z.ltb_spec (pt_highWatermark p) hw); lia|].
    exists served. split; [|by cbn; rewrite app_nil_r].
    eapply serving_same; [done..|by simpl; intros; simplify_eq; congruence].
Qed.

Lemma part_run_serving f b rs evs : ∀ served p p', part_run evs p = Some p' → serving f b rs served p →
  0 ≤ b → Forall req_ok ((served ++ p.(pt_appendCh)) ++ sends evs) →
  inS 64 (end_after (b + zlen rs) ((served ++ p.(pt_appendCh)) ++ sends evs)) →
  p.(pt_highWatermark) ≤ p'.(pt_highWatermark) ∧
  ∃ served', serving f b rs served' p' ∧
    served' ++ p'.(pt_appendCh) = (served ++ p.(pt_appendCh)) ++ sends evs.
Proof.
  induction evs as [|ev evs IH]; intros served p p' E Hs Hb Hok H64; cbn [part_run] in E.
  { simplify_eq. split; [done|]. exists served. cbn. by rewrite app_nil_r. }
  apply bind_Some in E as (p1 & E1 & E). change (ev :: evs) with ([ev] ++ evs) in *.
  assert (Esd : sends ([ev] ++ evs) = sends [ev] ++ sends evs) by apply omap_app. rewrite Esd in *.
  destruct (part_exec_serving f b rs served ev p p1 E1 Hs Hb) as (Hh & sv1 & Hs1 & Eq1).
  - by apply Forall_app in Hok as [[_ ?]%Forall_app _].
  - unfold end_after in *. rewrite bind_app, length_app in H64. widths. lia.
  - destruct (IH sv1 p1 p' E Hs1 Hb) as (Hh' & sv' & Hs' & Eq').
    + by rewrite Eq1, <- app_assoc.
    + by rewrite Eq1, <- app_assoc.
    + split; [lia|]. exists sv'. split; [done|]. by rewrite Eq', Eq1, <- app_assoc.
Qed.

(** ** Claims *)

(** C19: the writer serialises the appends: however sends, serving, closing and
    watermark updates interleave, the requests are served in the order they were sent
    and none is served twice, the log holds exactly the records of the requests served
    so far, each response is the offset at which the request's records start, and the
    high watermark never goes back. *)
Theorem writer_serialises f b rs p0 evs p : log_view f p0.(pt_log) b rs → 0 ≤ b →
  p0.(pt_appendCh) = [] → p0.(pt_responses) = ∅ → p0.(pt_writer) = Serving →
  part_run evs p0 = Some p → Forall req_ok (sends evs) → inS 64 (end_after (b + zlen rs) (sends evs)) →
  p0.(pt_highWatermark) ≤ p.(pt_highWatermark) ∧
  ∃ served, sends evs = served ++ p.(pt_appendCh) ∧
    (p.(pt_log).(log_closed) = false →
     log_view f p.(pt_log) b (rs ++ number_from (b + zlen rs) (served ≫= batch))) ∧
    (p.(pt_writer) ≠ Done → p.(pt_log).(log_closed) = false) ∧
    ∀ i req, served !! i = Some req →
      p.(pt_responses) !! req.(ar_respCh) = Some (end_after (b + zlen rs) (take i served), None).
Proof.
  intros Hv Hb Eq Er Ew E Hok H64.
  destruct (part_run_serving f b rs evs [] p0 p E) as (Hh & served & [Sv So Sa _ _] & Es);
    rewrite ?Eq; [|done..|split; [done|exists served; split_and!; try done]].
  - constructor; rewrite ?Eq, ?Er; simpl; [by rewrite app_nil_r|..].
    + intros _. destruct Hv as (? & ? & ? & ? & ? & Hr & _). apply Hr.
    + done.
    + done.
    + constructor.
  - by rewrite Es, Eq.
Qed.

(** A call of [AppendBatch] that sends its request after the writer has returned
    waits for ever: [closeCh] is closed by then, but the select may still take the send,
    and no later event answers the request. *)
Theorem append_after_exit_hangs p req : p.(pt_writer) = Serving → p.(pt_appendCh) = [] →
  p.(pt_responses) = ∅ → ∃ p', part_run [EvClose; EvDrain; EvExit; EvSend req] p = Some p' ∧
  ∀ evs p'', part_run evs p' = Some p'' → p''.(pt_responses) !! req.(ar_respCh) = None.
Proof.
  intros Ew Eq Er. destruct p as [tp id l hw q cl w rs]. simpl in *. subst.
  eexists. split; [reflexivity|].
  assert (Hstuck : ∀ evs p1 p2, p1.(pt_writer) = Done → req ∈ p1.(pt_appendCh) →
    p1.(pt_responses) !! ar_respCh req = None → part_run evs p1 = Some p2 →
    p2.(pt_responses) !! ar_respCh req = None).
  { induction evs as [|ev evs IH]; intros p1 p2 Hw Hq Hn E; cbn [part_run] in E; [by simplify_eq|].
    apply bind_Some in E as (p3 & E3 & E). revert E.
    apply IH; destruct ev; simpl in E3; repeat case_match; simplify_eq; simpl; try done;
      [apply elem_of_app; by left|].
    apply andb_true_iff in H as [_ [_ Hn']%unused_spec]. rewrite lookup_insert_ne; [done|].
    intros ->. apply Hn'. by apply list_elem_of_fmap_2. }
  intros evs p''. apply Hstuck; [done|by apply list_elem_of_singleton|apply lookup_empty].
Qed.

(** A partition on the sample log, with two appends, one of them served while the
    partition is being closed. *)
Definition sample_partition : Partition := mkPartition "orders" 0 sample_log 5 [] false Serving ∅.
Definition sample_request (ch : nat) : appendRequest := mkAppendRequest [Some sample_record; Some sample_record] ch.
Definition sample_events : list part_event :=
  [EvSend (sample_request 1); EvSend (sample_request 2); EvServe (λ _, 0) 9; EvSetHW 7; EvClose; EvDrain;
   EvServe (λ _, 0) 9; EvExit].

Lemma sample_request_ok ch : req_ok (sample_request ch).
Proof.
  split_and!; [done|done|]. intros o Ho H64. cbn in *.
  assert (Hs : ∀ k, inS 64 k → storable (set_Offset k sample_record)).
  { intros k Hk. split; [split_and!; [exact Hk|by_decide|by_decide]|by_decide]. }
  constructor; [apply Hs; widths; lia|]. constructor; [apply Hs; widths; lia|constructor].
Qed.

Definition sample_end : Partition := default sample_partition (part_run sample_events sample_partition).
Lemma sample_run : part_run sample_events sample_partition = Some sample_end.
Proof.
  unfold sample_end. destruct (part_run sample_events sample_partition) eqn:E; [done|].
  assert (H : match part_run sample_events sample_partition with Some _ => true | None => false end = true)
    by (vm_compute; reflexivity). by rewrite E in H.
Qed.

Lemma writer_serialises_witness : ∃ p, part_run sample_events sample_partition = Some p ∧
  (5 ≤ p.(pt_highWatermark) ∧
   ∃ served, sends sample_events = served ++ p.(pt_appendCh) ∧
    (p.(pt_log).(log_closed) = false →
     log_view true p.(pt_log) 0 (number_from 0 sample_batch ++
       number_from (0 + zlen (number_from 0 sample_batch)) (served ≫= batch))) ∧
    (p.(pt_writer) ≠ Done → p.(pt_log).(log_closed) = false) ∧
    ∀ i req, served !! i = Some req → p.(pt_responses) !! req.(ar_respCh) =
      Some (end_after (0 + zlen (number_from 0 sample_batch)) (take i served), None)).
Proof.
  exists sample_end. split; [exact sample_run|].
  apply (writer_serialises true 0 (number_from 0 sample_batch) sample_partition sample_events);
    [apply sample_log_view|done|reflexivity..|exact sample_run| |by_decide].
  repeat (constructor; [apply sample_request_ok|]). constructor.
Defined.

Lemma append_after_exit_hangs_witness :
  ∃ p', part_run [EvClose; EvDrain; EvExit; EvSend (sample_request 1)] sample_partition = Some p' ∧
  ∀ evs p'', part_run evs p' = Some p'' → p''.(pt_responses) !! (sample_request 1).(ar_respCh) = None.
Proof. apply (append_after_exit_hangs sample_partition (sample_request 1)); reflexivity. Defined.
