(* ===== verification/Offsets.v ===== *)
(** * Committed consumer offsets (src/internal/coordinator/offsets.go)

    The offset store: a cache in memory and the logs of the internal topic
    [__consumer_offsets], from which [Start] rebuilds the cache. *)
From Stdlib Require Import ZArith Lia Strings.Byte Strings.Ascii.
From stdpp Require Import base list strings gmap.
From S2P Require Import Prelude Files Decimal Record Index Segment PartitionLog Recovery Codec Checkpoint.
Open Scope Z_scope.

(** ** State *)

(** [os_dirs] are the partition directories on disk while the store is not started. *)
Record OffsetStore := mkOffsetStore {
  os_cache : gmap string Z;
  os_numParts : Z;
  os_dirs : list Dir;
  os_logs : list Log;
  os_started : bool
}.

Definition NewOffsetStore (dirs : list Dir) (numPartitions : Z) : OffsetStore :=
  mkOffsetStore ∅ (if numPartitions <=? 0 then 50 else numPartitions) dirs [] false.

(** [fmt.Sprintf("%s:%s:%d", groupID, topic, partition)] *)
Definition offset_key (groupID topic : string) (partition : Z) : string :=
  groupID +:+ ":" +:+ topic +:+ ":" +:+ Itoa partition.

(** [hash/fnv], 32-bit FNV-1a. *)
Definition fnv32a (data : bytes) : Z :=
  foldl (λ h b, uint32 (Z.lxor h (Z_of_byte b) * 16777619)) 2166136261 data.

(** [int(h.Sum32() % uint32(s.numParts))] *)
Definition part_index (numParts : Z) (groupID : string) : Z :=
  fnv32a (str_bytes groupID) mod uint32 numParts.

Definition offsets_config : Config := {|
  SegmentBytes := 10 * 1024 * 1024;
  IndexMaxBytes := 1024 * 1024;
  IndexIntervalBytes := 4096;
  RetentionMs := -1;
  RetentionBytes := -1;
  FlushMs := 1000;
  FlushMessages := 0;
  SegmentMs := 0
|}.

(** ** Starting *)

(** One record of the replay, last write wins; the value is
    [int64(binary.BigEndian.Uint64(rec.Value))]. *)
Definition replay_record (cache : gmap string Z) (rec : record) : gmap string Z :=
  match rec.(rec_Key), rec.(rec_Value) with
  | Some (k0 :: k), Some v =>
      if zlen v <? 8 then cache
      else <[bytes_str (k0 :: k) := be_signed (take 8 v)]> cache
  | _, _ => cache
  end.

(** The read loop of one partition. Every turn moves the offset on, so the log end
    offset bounds the turns. *)
Fixpoint replay_loop (fuel : nat) (offset : Z) (l : Log) (cache : gmap string Z) : gmap string Z * Log :=
  match fuel with
  | O => (cache, l)
  | S fuel =>
      match Log_ReadFrom offset (Z.shiftl 1 30) l with
      | ((_, Some _), l) => (cache, l)
      | ((records, None), l) =>
          match last records with
          | None => (cache, l)
          | Some r => replay_loop fuel (r.(rec_Offset) + 1) l (foldl replay_record cache records)
          end
      end
  end.
Definition replay (l : Log) (cache : gmap string Z) : gmap string Z * Log :=
  replay_loop (S (Z.to_nat (HighestOffset l))) 0 l cache.

(** The loop over the partitions from [i] on, [n] of them left. When a log cannot be
    opened those already open are closed. *)
Fixpoint start_loop (ModTime : nat → string → Z) (now : Z) (n i : nat) (dirs : list Dir) (logs : list Log)
    (cache : gmap string Z) : (result (list Log) * list Dir) * gmap string Z :=
  match n with
  | O => ((Ok logs, dirs), cache)
  | S n =>
      match NewLog (ModTime i) now offsets_config (default ∅ (dirs !! i)) with
      | (Err e, l) =>
          ((Err (wrapError "offset store: open log" e),
            ((λ l, (Log_Close l).2.(log_dir)) <$> logs) ++ l.(log_dir) :: drop (S i) dirs), cache)
      | (Ok _, l) =>
          let '(cache, l) := replay l cache in
          start_loop ModTime now n (S i) dirs (logs ++ [l]) cache
      end
  end.

Definition Start (ModTime : nat → string → Z) (now : Z) : M OffsetStore unit := λ s,
  if s.(os_started) then (Ok tt, s)
  else match start_loop ModTime now (Z.to_nat s.(os_numParts)) 0 s.(os_dirs) [] s.(os_cache) with
  | ((Err e, dirs), cache) => (Err e, mkOffsetStore cache s.(os_numParts) dirs [] false)
  | ((Ok logs, _), cache) => (Ok tt, mkOffsetStore cache s.(os_numParts) [] logs true)
  end.

(** ** Committing and fetching *)

Definition set_cache (c : gmap string Z) (s : OffsetStore) : OffsetStore :=
  mkOffsetStore c s.(os_numParts) s.(os_dirs) s.(os_logs) s.(os_started).
Definition set_log (i : nat) (l : Log) (s : OffsetStore) : OffsetStore :=
  mkOffsetStore s.(os_cache) s.(os_numParts) s.(os_dirs) (<[i := l]> s.(os_logs)) s.(os_started).

(** The first critical section of [Commit]: the cache entry is replaced, and the old
    entry and the log's position are kept for the second part. *)
Definition commit_cache (groupID topic : string) (partition offset : Z) (s : OffsetStore)
    : (option Z * option nat) * OffsetStore :=
  let key := offset_key groupID topic partition in
  let partIdx := part_index s.(os_numParts) groupID in
  let log := if s.(os_started) && (0 <=? partIdx) && (partIdx <? zlen s.(os_logs))
             then Some (Z.to_nat partIdx) else None in
  ((s.(os_cache) !! key, log), set_cache (<[key := offset]> s.(os_cache)) s).

Definition commit_record (groupID topic : string) (partition offset nowMs : Z) : record :=
  mkRecord 0 nowMs 0 (Some (str_bytes (offset_key groupID topic partition))) (Some (be_encode 8 offset)).

(** The rest: the append, and the rollback of the cache when it fails. *)
Definition commit_append (ModTime : string → Z) (now nowMs : Z) (groupID topic : string) (partition offset : Z)
    (oldVal : option Z) (log : option nat) (s : OffsetStore) : OffsetStore :=
  match log with
  | None => s
  | Some i =>
      match s.(os_logs) !! i with
      | None => s
      | Some l =>
          let '(r, l) := Log_Append ModTime now (Some (commit_record groupID topic partition offset nowMs)) l in
          let s := set_log i l s in
          match r with
          | Ok _ => s
          | Err _ =>
              let key := offset_key groupID topic partition in
              set_cache (match oldVal with
                         | Some v => <[key := v]> s.(os_cache)
                         | None => delete key s.(os_cache)
                         end) s
          end
      end
  end.

Definition Commit (ModTime : string → Z) (now nowMs : Z) (groupID topic : string) (partition offset : Z)
    (s : OffsetStore) : OffsetStore :=
  let '((oldVal, log), s) := commit_cache groupID topic partition offset s in
  commit_append ModTime now nowMs groupID topic partition offset oldVal log s.

Definition Fetch (groupID topic : string) (partition : Z) (s : OffsetStore) : Z :=
  default (-1) (s.(os_cache) !! offset_key groupID topic partition).

(** [Close]. *)
Fixpoint close_logs (logs : list Log) : option error * list Dir :=
  match logs with
  | [] => (None, [])
  | l :: logs =>
      let '(r, l) := Log_Close l in
      let '(e, dirs) := close_logs logs in
      (match r with Err e => Some (wrapError "offset store: close log" e) | Ok _ => e end, l.(log_dir) :: dirs)
  end.
Definition OffsetStore_Close : M OffsetStore unit := λ s,
  if negb s.(os_started) then (Ok tt, s)
  else let '(e, dirs) := close_logs s.(os_logs) in
    (match e with Some e => Err e | None => Ok tt end,
     mkOffsetStore s.(os_cache) s.(os_numParts) dirs [] false).

(** ** Keys *)

Lemma last_sep_unique {A} (c : A) l1 r1 l2 r2 : l1 ++ c :: r1 = l2 ++ c :: r2 → c ∉ r1 → c ∉ r2 →
  l1 = l2 ∧ r1 = r2.
Proof.
  intros E H1 H2. apply app_eq_inv in E as [([|x k] & -> & E)|([|x k] & -> & E)]; simplify_eq/=;
    rewrite ?app_nil_r; try done; exfalso; [apply H2|apply H1]; rewrite elem_of_app; right; left.
Qed.

Definition colon : ascii := ":"%char.
(** Names without the separator, as all names of topics are that the broker has. *)
Definition colon_free (topic : string) : Prop := colon ∉ to_chars topic.

Lemma offset_key_chars g t p :
  to_chars (offset_key g t p) = (to_chars g ++ colon :: to_chars t) ++ colon :: to_chars (Itoa p).
Proof. unfold offset_key. rewrite !to_chars_app, <- !app_assoc. done. Qed.

Lemma Itoa_colon p : colon ∉ to_chars (Itoa p).
Proof.
  intros Hc. pose proof (Itoa_chars p) as H. rewrite Forall_forall in H.
  destruct (H _ Hc) as [Hd|]; [|done]. by apply (not_digit colon) in Hd; [|by_decide].
Qed.

Lemma offset_key_inj g t p g' t' p' : colon_free t → colon_free t' → inS 32 p → inS 32 p' →
  offset_key g t p = offset_key g' t' p' → g = g' ∧ t = t' ∧ p = p'.
Proof.
  intros Ht Ht' Hp Hp' E%(f_equal to_chars). rewrite !offset_key_chars in E.
  apply last_sep_unique in E as [E Ep]; [|apply Itoa_colon..].
  apply last_sep_unique in E as [Eg Et]; [|done..].
  apply (f_equal of_chars) in Eg, Et, Ep. rewrite !of_to_chars in Eg, Et, Ep.
  split_and!; [done|done|]. apply Itoa_inj in Ep; width_lia.
Qed.

Lemma offset_key_bytes g t p : ∃ k0 k, str_bytes (offset_key g t p) = k0 :: k ∧
  bytes_str (k0 :: k) = offset_key g t p.
Proof.
  destruct (str_bytes (offset_key g t p)) as [|k0 k] eqn:E.
  - exfalso. apply (f_equal bytes_str) in E. rewrite String.string_of_list_byte_of_string in E.
    apply (f_equal to_chars) in E. rewrite offset_key_chars in E. by destruct (to_chars g).
  - exists k0, k. split; [done|]. by rewrite <- E, String.string_of_list_byte_of_string.
Qed.

(** ** Replaying *)

Lemma replay_commit c g t p v ms o : inS 64 v →
  replay_record c (set_Offset o (commit_record g t p v ms)) = <[offset_key g t p := v]> c.
Proof.
  intros Hv. destruct (offset_key_bytes g t p) as (k0 & k & Ek & Es).
  unfold replay_record, commit_record, set_Offset. cbn [rec_Key rec_Value]. rewrite Ek, length_be_encode.
  case_bool (Z.ltb_spec (Z.of_nat 8) 8). rewrite take_ge by (by rewrite length_be_encode).
  by rewrite Es, be_signed_encode by (done || lia).
Qed.

Lemma replay_loop_ok rs fuel : ∀ l offset cache, reopened_view l 0 rs → l.(log_dir) = ∅ →
  0 ≤ offset ≤ zlen rs → (Z.to_nat (zlen rs - offset) < fuel)%nat → ∃ l',
  replay_loop fuel offset l cache = (foldl replay_record cache (drop (Z.to_nat offset) rs), l') ∧
  reopened_view l' 0 rs ∧ l'.(log_dir) = ∅ ∧ l'.(log_config) = l.(log_config).
Proof.
  induction fuel as [|fuel IH]; intros l offset cache Hv Hd Ho Hf; [lia|]. cbn [replay_loop].
  destruct (ReadFrom_reopened l 0 rs offset (Z.shiftl 1 30) Hv) as (l1 & recs & rest & E & Hv1 & D1 & C1 & Ed & Hs);
    [lia|by unfold MaxRecordSize|]. rewrite E. rewrite Z.sub_0_r in Ed.
  pose proof (consecutive_drop _ _ (Z.to_nat offset) (log_view_consecutive _ _ _ _ (reopened_log_view _ _ _ Hv))) as Hc.
  rewrite Ed in Hc. destruct recs as [|r recs _] using rev_ind.
  { exists l1. rewrite Ed, (Hs eq_refl). split_and!; [done|done|by rewrite D1|done]. }
  rewrite last_snoc. assert (Er : r.(rec_Offset) + 1 = offset + zlen (recs ++ [r])).
  { rewrite <- app_assoc in Hc. rewrite (Hc (length recs) r) by (by rewrite lookup_app_r, Nat.sub_diag by lia).
    rewrite length_app. simpl. lia. }
  assert (El : zlen (drop (Z.to_nat offset) rs) = zlen (recs ++ [r]) + zlen rest) by (rewrite Ed, length_app; lia).
  rewrite length_drop in El. rewrite Er.
  assert (0 < zlen (recs ++ [r])) by (rewrite length_app; simpl; lia).
  destruct (IH l1 (offset + zlen (recs ++ [r])) (foldl replay_record cache (recs ++ [r])) Hv1)
    as (l2 & E2 & Hv2 & D2 & C2); [by rewrite D1|lia|lia|].
  exists l2. split_and!; [|done|done|by rewrite C2].
  assert (Et : drop (Z.to_nat (offset + zlen (recs ++ [r]))) rs = rest).
  { rewrite Z2Nat.inj_add, <- drop_drop, Ed, Nat2Z.id by lia. apply drop_app_length. }
  by rewrite E2, Et, Ed, <- foldl_app.
Qed.

(** ** Invariant *)

Definition offsets_cfg : Config := withDefaults offsets_config.

(** A log of the store and the records in it. *)
Definition offset_log (l : Log) (rs : list record) : Prop :=
  (∃ f, log_view f l 0 rs) ∧ l.(log_dir) = ∅ ∧ l.(log_config) = offsets_cfg.

(** The records of a key are in the log of the group that wrote them. *)
Definition key_home (n : Z) (i : nat) (r : record) : Prop := ∃ g t p,
  colon_free t ∧ inS 32 p ∧ r.(rec_Key) = Some (str_bytes (offset_key g t p)) ∧ part_index n g = Z.of_nat i.

Record store_inv (s : OffsetStore) (rss : list (list record)) : Prop := {
  si_started : s.(os_started) = true;
  si_parts : 0 < s.(os_numParts) < 2 ^ 32;
  si_length : zlen s.(os_logs) = s.(os_numParts);
  si_logs : Forall2 offset_log s.(os_logs) rss;
  si_home i rs : rss !! i = Some rs → Forall (key_home s.(os_numParts) i) rs;
  si_cache : s.(os_cache) = foldl replay_record ∅ (mjoin rss)
}.

(** A directory from which a log with records [rs] can be opened. *)
Definition opens (d : Dir) (rs : list record) : Prop := ∀ mt now, ∃ l,
  NewLog mt now offsets_config d = (Ok tt, l) ∧ reopened_view l 0 rs ∧ l.(log_dir) = ∅ ∧ l.(log_config) = offsets_cfg.

Lemma offsets_cfg_ok : config_ok offsets_cfg.
Proof. split_and!; [reflexivity|by_decide..]. Qed.

Lemma opens_empty : opens ∅ [].
Proof.
  intros mt now. destruct (NewLog_empty mt now offsets_config offsets_cfg_ok) as (l & E & Hv).
  exists l. split; [done|]. split.
  - destruct Hv as (e & sealed & rss & a & ra & Hr & En & _). exists e, sealed, rss, a, ra. split_and!; [done..|].
    symmetry in En. apply app_nil in En as [Ej _]. pose proof (lr_sealed _ _ _ _ _ _ _ Hr) as Hc.
    inversion Hc as [|? ? s segs rs rss' ? ? ? Hne]; subst; [constructor|]. by destruct rs.
  - by apply NewLog_empty_frame in E.
Qed.

(** Closing the logs leaves directories from which they can be opened again. *)
Lemma close_logs_opens logs rss : Forall2 offset_log logs rss → ∃ dirs,
  close_logs logs = (None, dirs) ∧ Forall2 opens dirs rss.
Proof.
  induction 1 as [|l rs logs rss ([f Hv] & Hd & Hc) _ (dirs & E & IH)]; [by exists []|].
  destruct (close_reopen_rep (λ _, 0) 0 f l 0 rs Hv Hd) as (l1 & _ & E1 & _).
  exists (l1.(log_dir) :: dirs). cbn [close_logs]. rewrite E1, E. split; [done|]. constructor; [|done].
  intros mt now. destruct (close_reopen_rep mt now f l 0 rs Hv Hd) as (l1' & l2 & E1' & _ & E2 & Hv2 & D2 & C2).
  rewrite E1 in E1'. injection E1' as <-. exists l2. rewrite Hc in E2, C2. done.
Qed.

(** Opening every log and replaying it. *)
Lemma start_loop_ok mt now dirs rss n : ∀ i logs cache,
  (∀ j rs, rss !! j = Some rs → opens (default ∅ (dirs !! j)) rs) → length rss = (i + n)%nat → ∃ logs',
  start_loop mt now n i dirs logs cache =
    ((Ok (logs ++ logs'), dirs), foldl replay_record cache (mjoin (drop i rss))) ∧
  Forall2 offset_log logs' (drop i rss).
Proof.
  induction n as [|n IH]; intros i logs cache Hop Hlen; cbn [start_loop].
  { exists []. rewrite app_nil_r, drop_ge by lia. split; [done|constructor]. }
  destruct (lookup_lt_is_Some_2 rss i) as [rs Hrs]; [lia|].
  destruct (Hop i rs Hrs (mt i) now) as (l & E & Hv & Hd & Hc). rewrite E.
  unfold replay. rewrite (log_view_highest _ _ _ _ (reopened_log_view _ _ _ Hv)).
  destruct (replay_loop_ok rs (S (Z.to_nat (0 + zlen rs))) l 0 cache Hv Hd) as (l' & E' & Hv' & D' & C'); [lia|lia|].
  rewrite E'. destruct (IH (S i) (logs ++ [l']) (foldl replay_record cache rs) Hop) as (logs' & E2 & HF); [lia|].
  exists (l' :: logs'). rewrite (drop_S rss rs i Hrs).
  split; [|constructor; [split_and!; [exists false; by apply reopened_log_view|done|congruence]|done]].
  change (drop (Z.to_nat 0) rs) with rs. rewrite E2, <- app_assoc. cbn [mjoin list_join]. by rewrite foldl_app.
Qed.

(** ** Commits *)

Lemma replay_other k v r c : r.(rec_Key) ≠ Some (str_bytes k) →
  replay_record (<[k := v]> c) r = <[k := v]> (replay_record c r).
Proof.
  intros Hk. unfold replay_record. destruct (rec_Key r) as [[|k0 kr]|]; [done| |done].
  destruct (rec_Value r) as [w|]; [|done]. destruct (_ <? _); [done|]. apply insert_insert_ne.
  intros E. apply Hk. by rewrite <- E, String.list_byte_of_string_of_list_byte.
Qed.

Lemma replay_others k v rs : ∀ c, Forall (λ r, r.(rec_Key) ≠ Some (str_bytes k)) rs →
  foldl replay_record (<[k := v]> c) rs = <[k := v]> (foldl replay_record c rs).
Proof.
  induction rs as [|r rs IH]; intros c Hrs; [done|]. apply Forall_cons in Hrs as [Hr Hrs].
  cbn [foldl]. rewrite replay_other by done. by apply IH.
Qed.

(** The records that other logs hold have other keys. *)
Lemma home_other n rss i g t p : (∀ j rs, rss !! j = Some rs → Forall (key_home n j) rs) →
  colon_free t → inS 32 p → part_index n g = Z.of_nat i →
  Forall (λ r, r.(rec_Key) ≠ Some (str_bytes (offset_key g t p))) (mjoin (drop (S i) rss)).
Proof.
  intros Hh Ht Hp Hi. apply Forall_join, Forall_forall. intros rs [j Hj]%list_elem_of_lookup.
  rewrite lookup_drop in Hj. eapply Forall_impl; [by eapply Hh|].
  intros r (g' & t' & p' & Ht' & Hp' & Ek & Hi') E. rewrite Ek in E. injection E as E.
  apply (f_equal bytes_str) in E. rewrite !String.string_of_list_byte_of_string in E.
  apply offset_key_inj in E as (-> & _); [|done..]. rewrite Hi in Hi'. lia.
Qed.

Lemma part_index_range n g : 0 < n < 2 ^ 32 → 0 ≤ part_index n g < n.
Proof.
  intros Hn. unfold part_index, wrapU. rewrite (Z.mod_small n) by lia. apply Z.mod_pos_bound. lia.
Qed.

(** The cache and the logs after one more record in log [i]. *)
Lemma replay_append (rss : list (list record)) i rs r k v c : rss !! i = Some rs → replay_record (foldl replay_record c (mjoin (take i rss) ++ rs)) r =
    <[k := v]> (foldl replay_record c (mjoin (take i rss) ++ rs)) →
  Forall (λ r, r.(rec_Key) ≠ Some (str_bytes k)) (mjoin (drop (S i) rss)) →
  foldl replay_record c (mjoin (<[i := rs ++ [r]]> rss)) = <[k := v]> (foldl replay_record c (mjoin rss)).
Proof.
  intros Hi Hr Ho. pose proof (lookup_lt_Some _ _ _ Hi).
  rewrite insert_take_drop by done. rewrite <- (take_drop_middle rss i rs Hi) at 3.
  rewrite !join_app. cbn [mjoin list_join]. rewrite <- !app_assoc, (app_assoc _ rs), (app_assoc _ rs (mjoin _)).
  rewrite !foldl_app in *. cbn [foldl]. rewrite Hr. by apply replay_others.
Qed.

Lemma home_append n (rss : list (list record)) i rs r : (∀ j rs, rss !! j = Some rs → Forall (key_home n j) rs) → rss !! i = Some rs →
  key_home n i r → ∀ j rs', <[i := rs ++ [r]]> rss !! j = Some rs' → Forall (key_home n j) rs'.
Proof.
  intros Hh Hi Hr j rs' Hj. destruct (decide (i = j)) as [<-|Hne].
  - rewrite list_lookup_insert_eq in Hj by (by eapply lookup_lt_Some). simplify_eq.
    apply Forall_app. split; [by apply Hh|]. by apply Forall_singleton.
  - rewrite list_lookup_insert_ne in Hj by done. by apply Hh.
Qed.

Lemma length_append (rss : list (list record)) i rs (r : record) m : rss !! i = Some rs → (∀ rs, rs ∈ rss → zlen rs ≤ m) →
  ∀ rs', rs' ∈ <[i := rs ++ [r]]> rss → zlen rs' ≤ m + 1.
Proof.
  intros Hi Hm x [j Hj]%list_elem_of_lookup. destruct (decide (i = j)) as [<-|Hne].
  - rewrite list_lookup_insert_eq in Hj by (by eapply lookup_lt_Some). simplify_eq.
    rewrite length_app. simpl. specialize (Hm rs ltac:(by eapply list_elem_of_lookup_2)). lia.
  - rewrite list_lookup_insert_ne in Hj by done. specialize (Hm x ltac:(by eapply list_elem_of_lookup_2)). lia.
Qed.

(** The rollback restores the cache. *)
Lemma rollback (c : gmap string Z) k v :
  match c !! k with Some v0 => <[k := v0]> (<[k := v]> c) | None => delete k (<[k := v]> c) end = c.
Proof.
  destruct (c !! k) as [v0|] eqn:E; [by rewrite insert_insert_eq, insert_id|]. by rewrite delete_insert_id.
Qed.

(** Whether the record of a commit exceeds the size limit of the log. *)
Definition commit_too_large (groupID topic : string) (partition : Z) : bool :=
  MaxRecordSize <? EncodedSize (commit_record groupID topic partition 0 0).

Lemma Commit_ok mt now ms g t p v s rss : store_inv s rss → colon_free t → inS 32 p → inS 64 v → inS 64 ms →
  (∀ rs, rs ∈ rss → inS 64 (zlen rs + 1)) → ∃ rss',
  store_inv (Commit mt now ms g t p v s) rss' ∧
  (Commit mt now ms g t p v s).(os_cache) =
    (if commit_too_large g t p then s.(os_cache) else <[offset_key g t p := v]> s.(os_cache)) ∧
  (Commit mt now ms g t p v s).(os_numParts) = s.(os_numParts) ∧
  ∀ m, (∀ rs, rs ∈ rss → zlen rs ≤ m) → ∀ rs, rs ∈ rss' → zlen rs ≤ m + 1.
Proof.
  intros [Hst Hn Hlen HF Hh Hc] Ht Hp Hv Hms H64.
  pose proof (part_index_range _ g Hn) as Hi. set (i := Z.to_nat (part_index (os_numParts s) g)).
  assert (Ei : part_index (os_numParts s) g = Z.of_nat i) by lia.
  destruct (lookup_lt_is_Some_2 (os_logs s) i) as [l El]; [lia|].
  destruct (Forall2_lookup_l _ _ _ _ _ HF El) as (rs & Ers & ([f Hview] & Hd & Hcf)).
  unfold Commit, commit_cache, commit_append. rewrite Hst, Ei. cbn [andb].
  case_bool (Z.leb_spec 0 (Z.of_nat i)). case_bool (Z.ltb_spec (Z.of_nat i) (zlen (os_logs s))).
  cbn [andb]. rewrite Nat2Z.id. cbn [os_logs set_cache]. rewrite El.
  set (r := commit_record g t p v ms).
  assert (Esz : EncodedSize r = EncodedSize (commit_record g t p 0 0)) by (cbn; by rewrite !length_be_encode).
  pose proof (H64 rs ltac:(by eapply list_elem_of_lookup_2)) as Hb.
  pose proof (Log_Append_rep mt now f l 0 rs r Hview) as Ha. simpl in Ha.
  pose proof (Log_Append_frame mt now (Some r) f l 0 rs Hview Hd) as [D' C'].
  unfold commit_too_large. rewrite <- Esz.
  assert (Hwf : record_wf (set_Offset (zlen rs) r)) by (split_and!; [simpl; widths; lia|exact Hms|by_decide]).
  destruct (MaxRecordSize <? EncodedSize r); destruct (Ha Hwf Hb) as (l' & E & Hv'); clear Ha;
    rewrite E in D', C' |- *; simpl in D', C'.
  - exists rss. cbn [set_cache set_log os_cache os_numParts]. rewrite rollback. split_and!; [|done|done|].
    + constructor; simpl; try done; [by rewrite length_insert|].
      rewrite <- (list_insert_id rss i rs Ers). apply Forall2_insert; [done|]. split_and!; [by eexists|done|congruence].
    + intros m Hm x Hx. specialize (Hm x Hx). lia.
  - exists (<[i := rs ++ [set_Offset (zlen rs) r]]> rss).
    cbn [set_cache set_log os_cache os_numParts]. split_and!; [|done|done|].
    + constructor; simpl; try done; [by rewrite length_insert| | |].
      * apply Forall2_insert; [done|]. split_and!; [by eexists|done|congruence].
      * apply home_append; [done..|]. by exists g, t, p.
      * rewrite (replay_append rss i rs _ (offset_key g t p) v); [by rewrite Hc|done|by apply replay_commit|].
        by eapply home_other.
    + intros m Hm. by apply length_append.
Qed.

(** A commit request with the clock readings it sees. *)
Record commit := mkCommit {
  cm_group : string; cm_topic : string; cm_partition : Z; cm_offset : Z;
  cm_ModTime : string → Z; cm_now : Z; cm_nowMs : Z
}.
Definition do_commit (s : OffsetStore) (c : commit) : OffsetStore :=
  Commit c.(cm_ModTime) c.(cm_now) c.(cm_nowMs) c.(cm_group) c.(cm_topic) c.(cm_partition) c.(cm_offset) s.
Definition commit_ok (c : commit) : Prop :=
  colon_free c.(cm_topic) ∧ inS 32 c.(cm_partition) ∧ inS 64 c.(cm_offset) ∧ inS 64 c.(cm_nowMs).

(** The specification of the store: the last offset committed, a commit whose record
    is over the size limit not counting. *)
Definition last_committed (g t : string) (p : Z) (cs : list commit) : option Z :=
  foldl (λ o c, if bool_decide (c.(cm_group) = g ∧ c.(cm_topic) = t ∧ c.(cm_partition) = p) &&
                   negb (commit_too_large g t p) then Some c.(cm_offset) else o) None cs.

Definition cache_spec (cs : list commit) (cache : gmap string Z) : Prop :=
  ∀ g t p, colon_free t → inS 32 p → cache !! offset_key g t p = last_committed g t p cs.

Lemma commits_ok n s0 cs : store_inv s0 (replicate (Z.to_nat n) []) → s0.(os_cache) = ∅ → s0.(os_numParts) = n →
  Forall commit_ok cs → inS 64 (zlen cs) → ∃ rss,
  store_inv (foldl do_commit s0 cs) rss ∧ (foldl do_commit s0 cs).(os_numParts) = n ∧
  cache_spec cs (foldl do_commit s0 cs).(os_cache) ∧ ∀ rs, rs ∈ rss → zlen rs ≤ zlen cs.
Proof.
  intros Hs H0 Hn. induction cs as [|c cs IH] using rev_ind; intros Hok H64.
  { eexists. split_and!; [done|done| |].
    - intros g t p _ _. cbn. by rewrite H0, lookup_empty.
    - by intros rs [-> _]%elem_of_replicate. }
  apply Forall_app in Hok as [Hok [(Ht & Hp & Hv & Hms) _]%Forall_cons].
  rewrite length_app in H64 |- *. simpl in H64 |- *.
  destruct (IH Hok ltac:(widths; lia)) as (rss & Hi & En & Hc & Hb).
  rewrite foldl_app. cbn [foldl]. set (s := foldl do_commit s0 cs) in *.
  destruct (Commit_ok (cm_ModTime c) (cm_now c) (cm_nowMs c) (cm_group c) (cm_topic c) (cm_partition c)
    (cm_offset c) s rss) as (rss' & Hi' & Ec & En' & Hb'); [done..| |].
  { intros rs Hrs. specialize (Hb rs Hrs). widths. lia. }
  exists rss'. unfold do_commit. split_and!; [done|by rewrite En'| |].
  - intros g t p Ht' Hp'. rewrite Ec. unfold last_committed. rewrite foldl_app. cbn [foldl].
    change (foldl _ None cs) with (last_committed g t p cs). rewrite <- (Hc g t p Ht' Hp').
    destruct (bool_decide_reflect (cm_group c = g ∧ cm_topic c = t ∧ cm_partition c = p)) as [(-> & -> & ->)|Hne];
      cbn [andb].
    + destruct (commit_too_large g t p); cbn [negb]; [done|]. by rewrite lookup_insert_eq.
    + destruct (commit_too_large _ _ _); [done|]. rewrite lookup_insert_ne; [done|].
      intros E. apply Hne. by apply offset_key_inj.
  - intros rs Hrs. specialize (Hb' (zlen cs) Hb rs Hrs). lia.
Qed.

(** A store started on no directories. *)
Lemma fresh_store mt now n : 0 < n < 2 ^ 32 → ∃ s0, Start mt now (NewOffsetStore [] n) = (Ok tt, s0) ∧
  store_inv s0 (replicate (Z.to_nat n) []) ∧ s0.(os_cache) = ∅ ∧ s0.(os_numParts) = n.
Proof.
  intros Hn. set (rss0 := replicate (Z.to_nat n) ([] : list record)).
  assert (Ej : mjoin rss0 = []) by (unfold rss0; induction (Z.to_nat n); done).
  destruct (start_loop_ok mt now [] rss0 (Z.to_nat n) 0 [] ∅) as (logs & E0 & HF).
  { intros j rs [-> _]%lookup_replicate. rewrite lookup_nil. apply opens_empty. }
  { apply length_replicate. }
  exists (mkOffsetStore ∅ n [] logs true). split; [unfold Start, NewOffsetStore; simpl; case_test; by rewrite E0, drop_0, Ej|].
  split; [|done]. constructor; [done|exact Hn| |exact HF| |].
  - apply Forall2_length in HF. unfold rss0 in HF. rewrite drop_0, length_replicate in HF. simpl. lia.
  - intros j rs [-> _]%lookup_replicate. by apply Forall_nil.
  - change (replicate _ _) with rss0. by rewrite Ej.
Qed.

(** [Close] leaves directories from which a new store gets the same cache. *)
Lemma close_restart mt now s rss : store_inv s rss → ∃ dirs logs,
  OffsetStore_Close s = (Ok tt, mkOffsetStore s.(os_cache) s.(os_numParts) dirs [] false) ∧
  Start mt now (NewOffsetStore dirs s.(os_numParts)) = (Ok tt, mkOffsetStore s.(os_cache) s.(os_numParts) [] logs true).
Proof.
  intros [Ist In Il IF Ih Ic]. destruct (close_logs_opens _ _ IF) as (dirs & Ecl & Hop).
  destruct (start_loop_ok mt now dirs rss (Z.to_nat s.(os_numParts)) 0 [] ∅) as (logs & E & _).
  { intros j rs Hj. destruct (Forall2_lookup_r _ _ _ _ _ Hop Hj) as (d & -> & Hd). done. }
  { rewrite <- (Forall2_length _ _ _ IF). lia. }
  exists dirs, logs. split; [unfold OffsetStore_Close; rewrite Ist, Ecl; done|].
  unfold Start, NewOffsetStore. simpl. case_test. by rewrite E, drop_0, Ic.
Qed.

(** ** Claims *)

(** Committed offsets survive a restart. On a fresh store, after any sequence of
    commits, [Fetch] returns the last offset committed for the group, topic and
    partition, or -1; and a new store started on the directories that [Close] leaves
    returns the same, for any number of partitions and commits, whatever segments the
    logs have rolled. *)
Theorem offsets_survive_restart mt1 now1 mt2 now2 n cs : 0 < n < 2 ^ 32 → Forall commit_ok cs → inS 64 (zlen cs) →
  ∃ s0 s2 s3, Start mt1 now1 (NewOffsetStore [] n) = (Ok tt, s0) ∧
  OffsetStore_Close (foldl do_commit s0 cs) = (Ok tt, s2) ∧
  Start mt2 now2 (NewOffsetStore s2.(os_dirs) n) = (Ok tt, s3) ∧
  ∀ g t p, colon_free t → inS 32 p →
    Fetch g t p (foldl do_commit s0 cs) = default (-1) (last_committed g t p cs) ∧
    Fetch g t p s3 = default (-1) (last_committed g t p cs).
Proof.
  intros Hn Hok H64. destruct (fresh_store mt1 now1 n Hn) as (s0 & E0 & Hs0 & Hc0 & Hn0).
  destruct (commits_ok n s0 cs Hs0 Hc0 Hn0 Hok H64) as (rss & Hs & En & Hc & _).
  destruct (close_restart mt2 now2 _ _ Hs) as (dirs & logs & E2 & E3). rewrite En in E2, E3.
  eexists s0, _, _. split; [exact E0|]. split; [exact E2|]. split; [exact E3|].
  intros g t p Ht Hp. unfold Fetch. simpl. by rewrite (Hc g t p Ht Hp).
Qed.

(** Two groups, one of them commits twice. *)
Definition sample_commits : list commit :=
  [mkCommit "billing" "orders" 0 41 (λ _, 0) 5 1700000000000;
   mkCommit "audit" "orders" 0 7 (λ _, 0) 5 1700000000001;
   mkCommit "billing" "orders" 0 42 (λ _, 0) 6 1700000000002].

Lemma offsets_survive_restart_witness :
  ∃ s0 s2 s3, Start (λ _ _, 0) 5 (NewOffsetStore [] 50) = (Ok tt, s0) ∧
  OffsetStore_Close (foldl do_commit s0 sample_commits) = (Ok tt, s2) ∧
  Start (λ _ _, 0) 9 (NewOffsetStore s2.(os_dirs) 50) = (Ok tt, s3) ∧
  ∀ g t p, colon_free t → inS 32 p →
    Fetch g t p (foldl do_commit s0 sample_commits) = default (-1) (last_committed g t p sample_commits) ∧
    Fetch g t p s3 = default (-1) (last_committed g t p sample_commits).
Proof.
  apply (offsets_survive_restart (λ _ _, 0) 5 (λ _ _, 0) 9 50 sample_commits); [lia| |by_decide].
  repeat (constructor; [split_and!; [intros H; revert H; by_decide|by_decide..]|]). constructor.
Defined.

(** The keys of the store tell groups, topics and partitions apart as long as no
    topic has a colon in its name; commits are not checked for that, and with a colon
    two groups share one entry. *)
Theorem offset_keys_distinct :
  (∀ g t p g' t' p', colon_free t → colon_free t' → inS 32 p → inS 32 p' →
     offset_key g t p = offset_key g' t' p' → g = g' ∧ t = t' ∧ p = p') ∧
  (∀ mt now ms v s, s.(os_started) = false →
     Fetch "team:a" "orders" 0 (Commit mt now ms "team" "a:orders" 0 v s) = v).
Proof.
  split; [apply offset_key_inj|]. intros mt now ms v s Hs. unfold Commit, commit_cache. rewrite Hs. simpl.
  unfold Fetch. simpl. by rewrite lookup_insert_eq.
Qed.
