(* ===== verification/CoordinatorLife.v ===== *)
(** * The life of the group coordinator (src/internal/coordinator/group.go)

    The goroutine of the session checks, concurrent calls of [Close] and the requests that reach
    the coordinator and its offset store meanwhile, also after [Close]. A request to a group, a
    session check and a commit are one step each; [Close] is a step per operation. *)
From Stdlib Require Import ZArith Lia Strings.Byte.
From stdpp Require Import base list strings gmap.
From S2P Require Import Prelude Requests Responses Server Group Offsets.
Open Scope Z_scope.

(** ** State *)

Inductive loop_pc :=
  | Looping
  | LoopReturned.

(** Where a call of [Close] is. [CloseClosing] has found [closeCh] open; [first] tells the call
    that closed it from one that found it closed. *)
Inductive close_pc :=
  | CloseEntering
  | CloseClosing
  | CloseWaiting
  | CloseStoring
  | CloseReturned (first : bool).

Record GroupCoordinator := mkGroupCoordinator {
  cl_groups : Coordinator;
  cl_offsetStore : OffsetStore;
  cl_closeCh : bool;
  cl_wg : Z;
  cl_loop : loop_pc;
  cl_calls : list close_pc;
  cl_panic : bool
}.

(** The coordinator with its goroutine started. *)
Definition start_coordinator (store : OffsetStore) : GroupCoordinator :=
  mkGroupCoordinator NewGroupCoordinator store false 1 Looping [] false.

Definition set_cl_groups (x : Coordinator) (s : GroupCoordinator) : GroupCoordinator :=
  mkGroupCoordinator x s.(cl_offsetStore) s.(cl_closeCh) s.(cl_wg) s.(cl_loop) s.(cl_calls) s.(cl_panic).
Definition set_cl_store (x : OffsetStore) (s : GroupCoordinator) : GroupCoordinator :=
  mkGroupCoordinator s.(cl_groups) x s.(cl_closeCh) s.(cl_wg) s.(cl_loop) s.(cl_calls) s.(cl_panic).
Definition set_cl_calls (x : list close_pc) (s : GroupCoordinator) : GroupCoordinator :=
  mkGroupCoordinator s.(cl_groups) s.(cl_offsetStore) s.(cl_closeCh) s.(cl_wg) s.(cl_loop) x s.(cl_panic).
Definition close_closeCh (s : GroupCoordinator) : GroupCoordinator :=
  mkGroupCoordinator s.(cl_groups) s.(cl_offsetStore) true s.(cl_wg) s.(cl_loop) s.(cl_calls)
    (s.(cl_panic) || s.(cl_closeCh)).

(** ** Steps *)

(** The requests of clients to their groups. *)
Inductive group_call :=
  | CallJoin (now : Z) (rnd : bytes) (iter1 iter2 : gmap string Member → list string) (req : JoinGroupRequest) (clientID : string)
  | CallSync (now : Z) (iter : gmap string Member → list string) (req : SyncGroupRequest)
  | CallReceive (ch : nat)
  | CallHeartbeat (now : Z) (req : HeartbeatRequest)
  | CallLeave (iter : gmap string Member → list string) (req : LeaveGroupRequest).

Definition do_call (c : group_call) (gc : Coordinator) : option Coordinator :=
  match c with
  | CallJoin now rnd iter1 iter2 req clientID => Some (JoinGroup now rnd iter1 iter2 req clientID gc).2
  | CallSync now iter req => Some (SyncGroup now iter req gc).2
  | CallReceive ch => snd <$> sync_receive ch gc
  | CallHeartbeat now req => Some (Heartbeat now req gc).2
  | CallLeave iter req => Some (LeaveGroup iter req gc).2
  end.

Definition coordinator_CommitOffset (c : commit) (s : GroupCoordinator) : GroupCoordinator :=
  set_cl_store (do_commit s.(cl_offsetStore) c) s.
Definition coordinator_FetchOffset (groupID topic : string) (partition : Z) (s : GroupCoordinator) : Z :=
  Fetch groupID topic partition s.(cl_offsetStore).

(** A turn of [sessionTimeoutLoop] for a tick, and the one that ends it. Once [closeCh] is closed
    the [select] may still take a tick that is due. *)
Definition loop_tick (now : Z) (iter : gmap string Member → list string) (s : GroupCoordinator) : option GroupCoordinator :=
  match s.(cl_loop) with
  | Looping => Some (set_cl_groups (checkSessionTimeouts now iter s.(cl_groups)) s)
  | LoopReturned => None
  end.
Definition loop_close (s : GroupCoordinator) : option GroupCoordinator :=
  match s.(cl_loop), s.(cl_closeCh) with
  | Looping, true =>
      Some (mkGroupCoordinator s.(cl_groups) s.(cl_offsetStore) s.(cl_closeCh) (s.(cl_wg) - 1) LoopReturned s.(cl_calls) s.(cl_panic))
  | _, _ => None
  end.

(** The next operation of a call of [Close]. *)
Definition coordinator_Close (i : nat) (s : GroupCoordinator) : option GroupCoordinator :=
  pc ← s.(cl_calls) !! i;
  match pc with
  | CloseEntering =>
      if s.(cl_closeCh) then Some (set_cl_calls (<[i := CloseReturned false]> s.(cl_calls)) s)
      else Some (set_cl_calls (<[i := CloseClosing]> s.(cl_calls)) s)
  | CloseClosing => Some (close_closeCh (set_cl_calls (<[i := CloseWaiting]> s.(cl_calls)) s))
  | CloseWaiting => if s.(cl_wg) =? 0 then Some (set_cl_calls (<[i := CloseStoring]> s.(cl_calls)) s) else None
  | CloseStoring =>
      Some (set_cl_store (OffsetStore_Close s.(cl_offsetStore)).2 (set_cl_calls (<[i := CloseReturned true]> s.(cl_calls)) s))
  | CloseReturned _ => None
  end.

Inductive coord_event :=
  | EvTick (now : Z) (iter : gmap string Member → list string)
  | EvLoopClose
  | EvCloseCall
  | EvClose (i : nat)
  | EvGroup (c : group_call)
  | EvCommit (c : commit).

Definition life_step (ev : coord_event) (s : GroupCoordinator) : option GroupCoordinator :=
  if s.(cl_panic) then None
  else match ev with
       | EvTick now iter => loop_tick now iter s
       | EvLoopClose => loop_close s
       | EvCloseCall => Some (set_cl_calls (s.(cl_calls) ++ [CloseEntering]) s)
       | EvClose i => coordinator_Close i s
       | EvGroup c => gc ← do_call c s.(cl_groups); Some (set_cl_groups gc s)
       | EvCommit c => Some (coordinator_CommitOffset c s)
       end.
Fixpoint life_run (evs : list coord_event) (s : GroupCoordinator) : option GroupCoordinator :=
  match evs with
  | [] => Some s
  | ev :: evs => s' ← life_step ev s; life_run evs s'
  end.

(** The commits of a run that reach the store before it is closed. *)
Definition reaches_log (ev : coord_event) (s : GroupCoordinator) : list commit :=
  match ev with
  | EvCommit c => if s.(cl_offsetStore).(os_started) then [c] else []
  | _ => []
  end.
Fixpoint durable (evs : list coord_event) (s : GroupCoordinator) : list commit :=
  match evs with
  | [] => []
  | ev :: evs => reaches_log ev s ++ match life_step ev s with Some s' => durable evs s' | None => [] end
  end.

(** Map orders are orders of the keys; commits are of topics without colons. *)
Definition call_orders (c : group_call) : Prop :=
  match c with
  | CallJoin _ _ iter1 _ _ _ => MapOrder iter1
  | CallSync _ iter _ | CallLeave iter _ => MapOrder iter
  | CallReceive _ | CallHeartbeat _ _ => True
  end.
Definition event_ok (ev : coord_event) : Prop :=
  match ev with
  | EvTick _ iter => MapOrder iter
  | EvGroup c => call_orders c
  | EvCommit c => commit_ok c
  | _ => True
  end.

(** ** The invariant *)

(** [cs] are the commits that reached the store [store0]. *)
Definition close_call_ok (s : GroupCoordinator) (pc : close_pc) : Prop :=
  match pc with
  | CloseEntering | CloseClosing => True
  | CloseWaiting | CloseReturned false => s.(cl_closeCh) = true
  | CloseStoring => s.(cl_closeCh) = true ∧ s.(cl_loop) = LoopReturned
  | CloseReturned true => s.(cl_closeCh) = true ∧ s.(cl_loop) = LoopReturned ∧ s.(cl_offsetStore).(os_started) = false
  end.

Record life_inv (store0 : OffsetStore) (cs : list commit) (s : GroupCoordinator) : Prop := {
  li_groups : coord_inv s.(cl_groups);
  li_wg : s.(cl_wg) = match s.(cl_loop) with Looping => 1 | LoopReturned => 0 end;
  li_commits : Forall commit_ok cs;
  li_calls : Forall (close_call_ok s) s.(cl_calls);
  li_store : if s.(cl_offsetStore).(os_started) then s.(cl_offsetStore) = foldl do_commit store0 cs
             else s.(cl_offsetStore).(os_dirs) = (OffsetStore_Close (foldl do_commit store0 cs)).2.(os_dirs)
}.

(** ** It is kept *)

Lemma commit_frame c s : (do_commit s c).(os_started) = s.(os_started) ∧ (do_commit s c).(os_dirs) = s.(os_dirs).
Proof.
  unfold do_commit, Commit, commit_cache, commit_append. cbn. repeat case_match; done.
Qed.

Lemma Close_started s : (OffsetStore_Close s).2.(os_started) = false.
Proof. unfold OffsetStore_Close. destruct (os_started s) eqn:E; [|done]. cbn. by destruct (close_logs _). Qed.

Lemma call_inv c gc gc' : call_orders c → coord_inv gc → do_call c gc = Some gc' → coord_inv gc'.
Proof.
  intros Ho Hi. destruct c; cbn in Ho |- *; try (intros [= <-]; eapply coord_step_inv; [exact Hi|by constructor]).
  destruct (sync_receive ch gc) as [[resp gc1]|] eqn:E; [|done]. cbn. intros [= <-]. by eapply receive_inv.
Qed.

(** What closing has done is not undone. *)
Definition coordinator_closing (s s' : GroupCoordinator) : Prop :=
  (s.(cl_closeCh) = true → s'.(cl_closeCh) = true) ∧ (s.(cl_loop) = LoopReturned → s'.(cl_loop) = LoopReturned) ∧
  (s.(cl_offsetStore).(os_started) = false → s'.(cl_offsetStore).(os_started) = false).

Lemma close_call_kept s s' pc : coordinator_closing s s' → close_call_ok s pc → close_call_ok s' pc.
Proof. intros (H1 & H2 & H3). destruct pc as [| | | |[]]; cbn; tauto. Qed.

Lemma life_step_closing ev s s' : life_step ev s = Some s' → coordinator_closing s s'.
Proof.
  unfold life_step. destruct (cl_panic s); [done|]. destruct ev as [now iter| | |i|c|c]; unfold loop_tick, loop_close, coordinator_Close.
  - destruct (cl_loop s) eqn:E; [|done]. intros [= <-]. by unfold coordinator_closing.
  - destruct (cl_loop s) eqn:E, (cl_closeCh s) eqn:E'; try done. intros [= <-]. by unfold coordinator_closing; cbn.
  - intros [= <-]. by unfold coordinator_closing.
  - destruct (cl_calls s !! i) as [pc|]; [|done]. cbn [mbind option_bind]. destruct pc; try done.
    + destruct (cl_closeCh s); intros [= <-]; by unfold coordinator_closing.
    + intros [= <-]. by unfold coordinator_closing; cbn.
    + destruct (cl_wg s =? 0); [|done]. intros [= <-]. by unfold coordinator_closing.
    + intros [= <-]. unfold coordinator_closing. cbn. rewrite Close_started. done.
  - destruct (do_call c _); [|done]. intros [= <-]. by unfold coordinator_closing.
  - intros [= <-]. unfold coordinator_closing, coordinator_CommitOffset, set_cl_store. cbn [cl_offsetStore cl_closeCh cl_loop]. by rewrite (proj1 (commit_frame c _)).
Qed.

Lemma life_step_calls store0 cs ev s s' : life_inv store0 cs s → life_step ev s = Some s' → Forall (close_call_ok s') s'.(cl_calls).
Proof.
  intros Hi H. pose proof (life_step_closing _ _ _ H) as Hc. pose proof (li_calls _ _ _ Hi) as Hcalls. pose proof (li_wg _ _ _ Hi) as Hw.
  assert (Hk : Forall (close_call_ok s') s.(cl_calls)) by (eapply Forall_impl; [exact Hcalls|]; intros pc; by apply close_call_kept).
  revert H. unfold life_step. destruct (cl_panic s); [done|]. destruct ev as [now iter| | |i|c|c]; unfold loop_tick, loop_close, coordinator_Close.
  - destruct (cl_loop s); [|done]. by intros [= <-].
  - destruct (cl_loop s), (cl_closeCh s); try done. by intros [= <-].
  - intros [= <-]. apply Forall_app. split; [exact Hk|]. by constructor.
  - destruct (cl_calls s !! i) as [pc|] eqn:E; [|done]. cbn [mbind option_bind]. pose proof (Forall_lookup_1 _ _ _ _ Hcalls E) as Hpc.
    destruct pc; try done; cbn in Hpc.
    + destruct (cl_closeCh s) eqn:Ec; intros [= <-]; by apply Forall_insert.
    + intros [= <-]. by apply Forall_insert.
    + destruct (Z.eqb_spec (cl_wg s) 0) as [E0|]; [|done]. intros [= <-]. apply Forall_insert; [exact Hk|]. split; [exact Hpc|].
      cbn. rewrite Hw in E0. by destruct (cl_loop s).
    + intros [= <-]. destruct Hpc. apply Forall_insert; [exact Hk|]. cbn. by rewrite Close_started.
  - destruct (do_call c _); [|done]. by intros [= <-].
  - by intros [= <-].
Qed.

Lemma life_step_inv store0 cs ev s s' : event_ok ev → life_inv store0 cs s → life_step ev s = Some s' → life_inv store0 (cs ++ reaches_log ev s) s'.
Proof.
  intros Hev Hi H. pose proof (life_step_calls _ _ _ _ _ Hi H) as Hcalls. destruct Hi as [Hg Hw Hcs _ Hs].
  revert H Hcalls. unfold life_step. destruct (cl_panic s); [done|]. destruct ev as [now iter| | |i|c|c]; unfold loop_tick, loop_close, coordinator_Close; cbn [reaches_log]; rewrite ?app_nil_r.
  - destruct (cl_loop s) eqn:E; [|done]. intros [= <-] ?. constructor; cbn; rewrite ?E; try done. by apply tick_inv.
  - destruct (cl_loop s) eqn:E, (cl_closeCh s) eqn:Ec; try done. intros [= <-] ?. constructor; cbn; try done. lia.
  - intros [= <-] ?. by constructor.
  - destruct (cl_calls s !! i) as [pc|] eqn:E; [|done]. cbn [mbind option_bind]. destruct pc; try done.
    + destruct (cl_closeCh s); intros [= <-] ?; by constructor.
    + intros [= <-] ?. by constructor.
    + destruct (cl_wg s =? 0); [|done]. intros [= <-] ?. by constructor.
    + intros [= <-] ?. constructor; try done. cbn. rewrite Close_started. destruct (os_started (cl_offsetStore s)) eqn:Es; [by rewrite Hs|].
      unfold OffsetStore_Close. by rewrite Es.
  - destruct (do_call c (cl_groups s)) as [gc|] eqn:E; [|done]. intros [= <-] ?. constructor; try done. by eapply call_inv.
  - intros [= <-] ?. destruct (commit_frame c (cl_offsetStore s)) as [F1 F2]. constructor; try done.
    + destruct (os_started _); [|by rewrite app_nil_r]. apply Forall_app. split; [done|]. constructor; [exact Hev|constructor].
    + unfold coordinator_CommitOffset, set_cl_store. cbn [cl_offsetStore]. rewrite F1, F2. destruct (os_started _); [|by rewrite app_nil_r]. by rewrite foldl_app, <- Hs.
Qed.

Lemma life_run_inv store0 evs : ∀ cs s s', Forall event_ok evs → life_inv store0 cs s → life_run evs s = Some s' → life_inv store0 (cs ++ durable evs s) s'.
Proof.
  induction evs as [|ev evs IH]; intros cs s s' Hok Hi; cbn [life_run durable]; [intros [= <-]; by rewrite app_nil_r|].
  apply Forall_cons in Hok as [Hev Hok]. destruct (life_step ev s) as [s1|] eqn:E; [|done]. cbn [mbind option_bind]. intros Hr.
  rewrite app_assoc. eapply IH; [done| |done]. by eapply life_step_inv.
Qed.

Lemma start_inv store : store.(os_started) = true → life_inv store [] (start_coordinator store).
Proof. intros Hs. constructor; try done; cbn; [by apply reachable_inv, rtc_refl|by rewrite Hs]. Qed.

Lemma durable_length evs : ∀ s, (length (durable evs s) ≤ length evs)%nat.
Proof.
  induction evs as [|ev evs IH]; intros s; cbn [durable length]; [lia|]. rewrite length_app.
  assert (H : (length (reaches_log ev s) ≤ 1)%nat) by (destruct ev; cbn; try lia; case_match; cbn; lia).
  destruct (life_step ev s) as [s'|]; [specialize (IH s'); lia|cbn; lia].
Qed.

(** ** What [Close] promises *)


(** Two calls of [Close] at the same time can both find [closeCh] open; the second [close] panics. *)
Lemma close_race_panics store : ∃ evs s, life_run evs (start_coordinator store) = Some s ∧ s.(cl_panic) = true.
Proof. exists [EvCloseCall; EvCloseCall; EvClose 0; EvClose 1; EvClose 0; EvClose 1]. eexists. split; reflexivity. Qed.

(** ** An instance *)

Definition sample_commit (offset nowMs : Z) : commit := mkCommit "billing" "orders" 0 offset (λ _, 0) 5 nowMs.
(** Two commits, [Close], and a commit that comes too late. *)
Definition closing_events : list coord_event :=
  [EvCommit (sample_commit 41 1700000000000); EvTick 5 keys_order; EvCloseCall; EvClose 0; EvClose 0;
   EvCommit (sample_commit 42 1700000000001); EvLoopClose; EvClose 0; EvClose 0; EvCommit (sample_commit 43 1700000000002)].

(** On a closed store a commit changes the cache only. *)
Lemma commit_closed c s : s.(os_started) = false → do_commit s c = set_cache (<[offset_key c.(cm_group) c.(cm_topic) c.(cm_partition) := c.(cm_offset)]> s.(os_cache)) s.
Proof. intros Hs. unfold do_commit, Commit, commit_cache. by rewrite Hs. Qed.

Lemma sample_commit_ok offset nowMs : inS 64 offset → inS 64 nowMs → commit_ok (sample_commit offset nowMs).
Proof. intros Ho Hm. split; [intros H; revert H; by_decide|]. split; [by_decide|]. by split. Qed.

