(* ===== verification/Broker.v ===== *)
(** * The broker's state (src/internal/broker/broker.go, broker_replication.go, topic.go)

    The broker ties the components together: topics and their partitions, metadata,
    replication state, the group coordinator, the offset store and the listeners of
    long-polling fetches. This file has the state, topic creation, leadership and the
    tracker updates; the request handlers are in [Handlers]. An operation runs on its
    own here: concurrency is the subject of [Partition], [Acks], [Group] and
    [Listeners]. *)
From Stdlib Require Import ZArith Lia Strings.Byte.
From stdpp Require Import base list strings gmap.
From S2P Require Import Prelude Files Decimal Record Index Segment PartitionLog Server Group Checkpoint Replication Config Topic Metadata Partition Offsets.
Open Scope Z_scope.

(** ** Environment *)

(** What one turn of a handler's loop reads from the outside: the clock as the log, the
    tracker and the response see it (the last in Unix milliseconds), modification times
    of files, whether the metadata file can be written, random bytes, and the orders in
    which ranges over maps go. *)
Record Env := mkEnv {
  e_now : Z;
  e_trackerNow : Z;
  e_nowMs : Z;
  e_ModTime : list string → string → Z;
  e_writeOk : bool;
  e_rnd : bytes;
  e_replicas : gmap Z ReplicaState → list ReplicaState;
  e_items : gmap Z ProduceRequestItem → list Z;
  e_metas : gmap string TopicMeta → list string;
  e_members : gmap string Member → list string;
  e_members2 : gmap string Member → list string
}.

(** The orders visit everything once. *)
Class EnvOk (e : Env) : Prop := {
  env_replicas : ReplicaOrder e.(e_replicas);
  env_items items : e.(e_items) items ≡ₚ (map_to_list items).*1;
  env_metas topics : e.(e_metas) topics ≡ₚ (map_to_list topics).*1;
  env_members : MapOrder e.(e_members);
  env_members2 : MapOrder e.(e_members2);
  env_nowMs : inS 64 e.(e_nowMs)
}.
#[export] Existing Instance env_replicas.
#[export] Existing Instance env_members.
#[export] Existing Instance env_members2.

(** ** State *)

Record Topic := mkTopic {
  tp_Name : string;
  tp_Partitions : gmap Z Partition;
  tp_roundRobinCounter : Z  (* uint32 *)
}.

(** [b_dataDir] is the cleaned absolute data directory, [b_checkpoint] the content of
    the checkpoint file in it, and [b_signals] the notify channels that hold a signal. *)
Record Broker := mkBroker {
  b_config : AppConfig;
  b_dataDir : list string;
  b_checkpoint : option chars;
  b_localID : Z;
  b_replicaIDs : list Z;
  b_metaManager : MetadataManager;
  b_coordinator : Coordinator;
  b_offsetStore : OffsetStore;
  b_purgatory : Purgatory;
  b_epochMgr : EpochManager;
  b_isrTrackers : gmap string (gmap Z ISRTracker);
  b_topics : gmap string Topic;
  b_listeners : gmap string (gmap Z (list nat));
  b_signals : gset nat;
  b_disk : Disk
}.

Definition set_metaManager (x : MetadataManager) (b : Broker) : Broker :=
  mkBroker b.(b_config) b.(b_dataDir) b.(b_checkpoint) b.(b_localID) b.(b_replicaIDs) x b.(b_coordinator)
    b.(b_offsetStore) b.(b_purgatory) b.(b_epochMgr) b.(b_isrTrackers) b.(b_topics) b.(b_listeners) b.(b_signals) b.(b_disk).
Definition set_coordinator (x : Coordinator) (b : Broker) : Broker :=
  mkBroker b.(b_config) b.(b_dataDir) b.(b_checkpoint) b.(b_localID) b.(b_replicaIDs) b.(b_metaManager) x
    b.(b_offsetStore) b.(b_purgatory) b.(b_epochMgr) b.(b_isrTrackers) b.(b_topics) b.(b_listeners) b.(b_signals) b.(b_disk).
Definition set_offsetStore (x : OffsetStore) (b : Broker) : Broker :=
  mkBroker b.(b_config) b.(b_dataDir) b.(b_checkpoint) b.(b_localID) b.(b_replicaIDs) b.(b_metaManager) b.(b_coordinator)
    x b.(b_purgatory) b.(b_epochMgr) b.(b_isrTrackers) b.(b_topics) b.(b_listeners) b.(b_signals) b.(b_disk).
Definition set_purgatory (x : Purgatory) (b : Broker) : Broker :=
  mkBroker b.(b_config) b.(b_dataDir) b.(b_checkpoint) b.(b_localID) b.(b_replicaIDs) b.(b_metaManager) b.(b_coordinator)
    b.(b_offsetStore) x b.(b_epochMgr) b.(b_isrTrackers) b.(b_topics) b.(b_listeners) b.(b_signals) b.(b_disk).
Definition set_epochMgr (x : EpochManager) (b : Broker) : Broker :=
  mkBroker b.(b_config) b.(b_dataDir) b.(b_checkpoint) b.(b_localID) b.(b_replicaIDs) b.(b_metaManager) b.(b_coordinator)
    b.(b_offsetStore) b.(b_purgatory) x b.(b_isrTrackers) b.(b_topics) b.(b_listeners) b.(b_signals) b.(b_disk).
Definition set_isrTrackers (x : gmap string (gmap Z ISRTracker)) (b : Broker) : Broker :=
  mkBroker b.(b_config) b.(b_dataDir) b.(b_checkpoint) b.(b_localID) b.(b_replicaIDs) b.(b_metaManager) b.(b_coordinator)
    b.(b_offsetStore) b.(b_purgatory) b.(b_epochMgr) x b.(b_topics) b.(b_listeners) b.(b_signals) b.(b_disk).
Definition set_topics (x : gmap string Topic) (b : Broker) : Broker :=
  mkBroker b.(b_config) b.(b_dataDir) b.(b_checkpoint) b.(b_localID) b.(b_replicaIDs) b.(b_metaManager) b.(b_coordinator)
    b.(b_offsetStore) b.(b_purgatory) b.(b_epochMgr) b.(b_isrTrackers) x b.(b_listeners) b.(b_signals) b.(b_disk).
Definition set_listeners (x : gmap string (gmap Z (list nat))) (b : Broker) : Broker :=
  mkBroker b.(b_config) b.(b_dataDir) b.(b_checkpoint) b.(b_localID) b.(b_replicaIDs) b.(b_metaManager) b.(b_coordinator)
    b.(b_offsetStore) b.(b_purgatory) b.(b_epochMgr) b.(b_isrTrackers) b.(b_topics) x b.(b_signals) b.(b_disk).
Definition set_signals (x : gset nat) (b : Broker) : Broker :=
  mkBroker b.(b_config) b.(b_dataDir) b.(b_checkpoint) b.(b_localID) b.(b_replicaIDs) b.(b_metaManager) b.(b_coordinator)
    b.(b_offsetStore) b.(b_purgatory) b.(b_epochMgr) b.(b_isrTrackers) b.(b_topics) b.(b_listeners) x b.(b_disk).
Definition set_disk (x : Disk) (b : Broker) : Broker :=
  mkBroker b.(b_config) b.(b_dataDir) b.(b_checkpoint) b.(b_localID) b.(b_replicaIDs) b.(b_metaManager) b.(b_coordinator)
    b.(b_offsetStore) b.(b_purgatory) b.(b_epochMgr) b.(b_isrTrackers) b.(b_topics) b.(b_listeners) b.(b_signals) x.

(** ** Partitions *)

(** [AppendBatch] as its caller sees it when the writer is idle: the request goes
    through the queue and is answered at once. *)
Definition Partition_AppendBatch (ModTime : string → Z) (now : Z) (records : list (option record)) (p : Partition) :
    appendResponse * Partition :=
  if p.(pt_closeCh) then ((-1, Some (errorString "partition is closed")), p)
  else
    let '(res, log) := AppendBatch ModTime now records p.(pt_log) in
    (res, mkPartition p.(pt_Topic) p.(pt_ID) log p.(pt_highWatermark) p.(pt_appendCh) p.(pt_closeCh) p.(pt_writer)
            p.(pt_responses)).

Definition Partition_ReadFrom (offset maxBytes : Z) (p : Partition) : (list record * option error) * Partition :=
  let '(res, log) := Log_ReadFrom offset maxBytes p.(pt_log) in
  (res, mkPartition p.(pt_Topic) p.(pt_ID) log p.(pt_highWatermark) p.(pt_appendCh) p.(pt_closeCh) p.(pt_writer)
          p.(pt_responses)).

Definition LogStartOffset (p : Partition) : Z := LowestOffset p.(pt_log).
Definition LogEndOffset (p : Partition) : Z := HighestOffset p.(pt_log).

(** ** Topics *)

(** [Partition.Close] of an idle partition, as far as the disk is concerned. *)
Definition close_partition (cleanBase : list string) (name : string) (id : Z) (p : Partition) (disk : Disk) : Disk :=
  match partition_dir cleanBase name id with
  | Ok dir => <[dir := (Log_Close p.(pt_log)).2.(log_dir)]> disk
  | Err _ => disk
  end.

(** The loop of [NewTopic] from partition [i] on; [n] counts the partitions left. On an
    error those already open are closed. *)
Fixpoint open_partitions (ModTime : list string → string → Z) (now : Z) (cleanBase : list string) (name : string)
    (cfg : Config) (n : nat) (i : Z) (ps : gmap Z Partition) : M Disk (gmap Z Partition) := λ disk,
  match n with
  | O => (Ok ps, disk)
  | S n =>
      match NewPartition ModTime now cleanBase name i cfg disk with
      | (Err e, disk) => (Err e, map_fold (close_partition cleanBase name) disk ps)
      | (Ok p, disk) => open_partitions ModTime now cleanBase name cfg n (i + 1) (<[i := p]> ps) disk
      end
  end.
Definition NewTopic (ModTime : list string → string → Z) (now : Z) (cleanBase : list string) (name : string)
    (numPartitions : Z) (cfg : Config) : M Disk Topic := λ disk,
  match open_partitions ModTime now cleanBase name cfg (Z.to_nat numPartitions) 0 ∅ disk with
  | (Err e, disk) => (Err e, disk)
  | (Ok ps, disk) => (Ok (mkTopic name ps 0), disk)
  end.

Definition getTopic (name : string) (b : Broker) : option Topic := b.(b_topics) !! name.
Definition GetPartition (id : Z) (t : Topic) : option Partition := t.(tp_Partitions) !! id.

(** The partition object behind a topic name and an id, and its update in place. *)
Definition get_partition (name : string) (id : Z) (b : Broker) : option Partition :=
  t ← b.(b_topics) !! name; GetPartition id t.
Definition set_partition (name : string) (id : Z) (p : Partition) (b : Broker) : Broker :=
  match b.(b_topics) !! name with
  | Some t => set_topics (<[name := mkTopic t.(tp_Name) (<[id := p]> t.(tp_Partitions)) t.(tp_roundRobinCounter)]> b.(b_topics)) b
  | None => b
  end.

(** ** Leadership and in-sync replicas *)

Definition minInsyncReplicas (b : Broker) : Z :=
  let n := b.(b_config).(cfg_Replication).(rc_MinInsyncReplicas) in if n <=? 0 then 1 else n.
Definition lagTimeMaxMs (b : Broker) : Z :=
  let ms := b.(b_config).(cfg_Replication).(rc_ReplicaLagTimeMaxMs) in if ms <=? 0 then 30000 else ms.

Definition partitionLeader (topic : string) (partition : Z) (b : Broker) : Z :=
  match GetEpoch topic partition b.(b_epochMgr) with
  | Err _ => staticPartitionLeader b.(b_replicaIDs) b.(b_localID) partition
  | Ok (_, leaderID) => leaderID
  end.

(** An untracked partition gets its first epoch from the static assignment. *)
Definition isLeader (topic : string) (partition : Z) (b : Broker) : bool * Broker :=
  match GetEpoch topic partition b.(b_epochMgr) with
  | Err _ =>
      let static := staticPartitionLeader b.(b_replicaIDs) b.(b_localID) partition in
      (static =? b.(b_localID), set_epochMgr (IncrementEpoch topic partition static b.(b_epochMgr)).2 b)
  | Ok (_, leaderID) => (leaderID =? b.(b_localID), b)
  end.

Definition getISRTracker (topic : string) (partition : Z) (b : Broker) : option ISRTracker :=
  m ← b.(b_isrTrackers) !! topic; m !! partition.
Definition set_tracker (topic : string) (partition : Z) (t : ISRTracker) (b : Broker) : Broker :=
  set_isrTrackers (<[topic := <[partition := t]> (default ∅ (b.(b_isrTrackers) !! topic))]> b.(b_isrTrackers)) b.

Definition getOrCreateISRTracker (e : Env) (topic : string) (partition : Z) (b : Broker) : ISRTracker * Broker :=
  match getISRTracker topic partition b with
  | Some t => (t, b)
  | None =>
      let t := NewISRTracker e.(e_trackerNow) b.(b_checkpoint) topic partition (partitionLeader topic partition b)
                 b.(b_replicaIDs) (lagTimeMaxMs b) in
      (t, set_tracker topic partition t b)
  end.

Definition init_partition_replication (e : Env) (topic : string) (p : Z) (b : Broker) : Broker :=
  let b := match GetEpoch topic p b.(b_epochMgr) with
           | Err _ => set_epochMgr (IncrementEpoch topic p (staticPartitionLeader b.(b_replicaIDs) b.(b_localID) p)
                                      b.(b_epochMgr)).2 b
           | Ok _ => b
           end in
  (getOrCreateISRTracker e topic p b).2.
Definition initTopicReplication (e : Env) (topic : string) (numPartitions : Z) (b : Broker) : Broker :=
  foldl (λ b p, init_partition_replication e topic p b) b (seqZ 0 numPartitions).

Definition updateReplicaLEO (e : Env) (topic : string) (partition replicaID leo leaderLEO : Z) (b : Broker) : Z * Broker :=
  let '(t, b) := getOrCreateISRTracker e topic partition b in
  let '(hw, t) := UpdateLEO e.(e_trackerNow) e.(e_replicas) replicaID leo leaderLEO t in
  (hw, set_tracker topic partition t b).
Definition updateLeaderLEO (e : Env) (topic : string) (partition leaderLEO : Z) (b : Broker) : Z * Broker :=
  updateReplicaLEO e topic partition b.(b_localID) leaderLEO leaderLEO b.

Definition PromoteLeader (e : Env) (topic : string) (partition newLeaderID : Z) (b : Broker) : Z * Broker :=
  let '(epoch, em) := IncrementEpoch topic partition newLeaderID b.(b_epochMgr) in
  let t := NewISRTracker e.(e_trackerNow) b.(b_checkpoint) topic partition newLeaderID b.(b_replicaIDs) (lagTimeMaxMs b) in
  (epoch, set_tracker topic partition t (set_epochMgr em b)).

(** ** Creating topics *)

Definition storageConfig (b : Broker) : Config := storageConfigFrom b.(b_config).

(** The creation of the partitions of a topic whose metadata is in place. *)
Definition open_topic (e : Env) (name : string) (numPartitions : Z) (b : Broker) : result unit * Broker :=
  match NewTopic e.(e_ModTime) e.(e_now) b.(b_dataDir) name numPartitions (storageConfig b) b.(b_disk) with
  | (Err err, disk) => (Err err, set_disk disk b)
  | (Ok t, disk) =>
      (Ok tt, initTopicReplication e name numPartitions (set_topics (<[name := t]> b.(b_topics)) (set_disk disk b)))
  end.

Definition getOrCreateTopic (e : Env) (name : string) (requestedPartitions : Z) (b : Broker) : result unit * Broker :=
  match validateTopicName b.(b_dataDir) name with
  | Err err => (Err err, b)
  | Ok _ =>
      match b.(b_topics) !! name with
      | Some _ => (Ok tt, b)
      | None =>
          let tc := b.(b_config).(cfg_Topic) in
          if (requestedPartitions <=? 0) && negb tc.(tc_AutoCreate)
          then (Err (errorString "topic not found and auto creation disabled"), b)
          else
            let def := int32 tc.(tc_DefaultPartitions) in
            let numPartitions := if requestedPartitions <=? 0 then if def <=? 0 then 1 else def
                                 else requestedPartitions in
            let rf := int16 tc.(tc_DefaultReplicationFactor) in
            let rf := if rf <=? 0 then 1 else rf in
            match CreateTopic e.(e_writeOk) name numPartitions rf b.(b_metaManager) with
            | (Err err, mm) => (Err err, set_metaManager mm b)
            | (Ok (meta, _), mm) => open_topic e name meta.(tmt_NumPartitions) (set_metaManager mm b)
            end
      end
  end.

(** ** Listeners *)

(** The slices are values here; what sharing their arrays does is in [Listeners]. *)
Definition listeners_on (topic : string) (partition : Z) (ls : gmap string (gmap Z (list nat))) : list nat :=
  default [] (ls !! topic ≫= (.!! partition)).

Definition registerListenerOn (topic : string) (partition : Z) (ch : nat) (b : Broker) : Broker :=
  let pMap := default ∅ (b.(b_listeners) !! topic) in
  set_listeners (<[topic := <[partition := default [] (pMap !! partition) ++ [ch]]> pMap]> b.(b_listeners)) b.

Definition notifyAppended (topic : string) (partition : Z) (b : Broker) : Broker :=
  set_signals (list_to_set (listeners_on topic partition b.(b_listeners)) ∪ b.(b_signals)) b.

(** [list[i] = list[n-1]; list = list[:n-1]] at the first [i] with [list[i] == ch]. *)
Definition swap_remove (ch : nat) (l : list nat) : option (list nat) :=
  match list_find (ch =.) l with
  | None => None
  | Some (i, _) => Some (take (length l - 1) (match last l with Some c => <[i := c]> l | None => l end))
  end.

Definition unregisterListener (topic : string) (partition : Z) (ch : nat) (b : Broker) : Broker :=
  match b.(b_listeners) !! topic with
  | None => b
  | Some pMap =>
      match swap_remove ch (default [] (pMap !! partition)) with
      | None => b
      | Some [] =>
          let pMap := delete partition pMap in
          set_listeners (if bool_decide (pMap = ∅) then delete topic b.(b_listeners)
                         else <[topic := pMap]> b.(b_listeners)) b
      | Some list => set_listeners (<[topic := <[partition := list]> pMap]> b.(b_listeners)) b
      end
  end.

Record fetchTarget := mkFetchTarget {
  ft_topic : string;
  ft_partitionID : Z;
  ft_targetOffset : Z
}.

Definition fetchTargetHasNewData (t : fetchTarget) (b : Broker) : bool :=
  match get_partition t.(ft_topic) t.(ft_partitionID) b with
  | None => false
  | Some p => t.(ft_targetOffset) <? LogEndOffset p
  end.

(** ** Waiting for replicas *)

(** What happens around the wait of one request: [w_expired] when the deadline has
    passed before it starts, [w_meanwhile] what the other handlers do during it, and
    [w_timer] when the select takes the timer although there is an answer. *)
Record Wait := mkWait {
  w_expired : bool;
  w_meanwhile : Broker → Broker;
  w_timer : bool
}.

(** A channel that nothing refers to. *)
Definition fresh_channel (p : Purgatory) : nat :=
  fresh (map_fold (λ _ item, ({[item.(pr_RespCh)]} ∪.)) p.(pg_signalled) p.(pg_items)).

Definition Receive (ch : nat) (p : Purgatory) : Purgatory :=
  mkPurgatory p.(pg_items) p.(pg_nextID) (p.(pg_signalled) ∖ {[ch]}).

(** [waitForAcksAll] of a request on its own; every interleaving of its steps with
    the other handlers is in [Acks]. *)
Definition waitForAcksAll (e : Env) (w : Wait) (topic : string) (partition requiredHW : Z) (b : Broker) :
    option error * Broker :=
  if requiredHW <=? 0 then (None, b)
  else
    let '(tracker, b) := getOrCreateISRTracker e topic partition b in
    if requiredHW <=? tracker.(isr_highWatermark) then (None, b)
    else
      let respCh := fresh_channel b.(b_purgatory) in
      let '(id, p) := Watch topic partition requiredHW respCh b.(b_purgatory) in
      let b := set_purgatory p b in
      let '(tracker, b) := getOrCreateISRTracker e topic partition b in
      let b := if requiredHW <=? tracker.(isr_highWatermark)
               then set_purgatory (CheckAndComplete (e.(e_items) b.(b_purgatory).(pg_items)) topic partition
                                     tracker.(isr_highWatermark) b.(b_purgatory)) b
               else b in
      if w.(w_expired) then (Some errProduceTimeout, set_purgatory (Cancel id b.(b_purgatory)) b)
      else
        let b := w.(w_meanwhile) b in
        if bool_decide (respCh ∈ b.(b_purgatory).(pg_signalled)) && negb w.(w_timer)
        then (None, set_purgatory (Receive respCh b.(b_purgatory)) b)
        else (Some errProduceTimeout, set_purgatory (Cancel id b.(b_purgatory)) b).

(** ** Starting and stopping *)

(** What survives the process: the metadata file, the checkpoint file, the
    directories of the offset store and those of the partitions. *)
Record Storage := mkStorage {
  st_meta : option chars;
  st_checkpoint : option chars;
  st_offsets : list Dir;
  st_disk : Disk
}.

(** The loop of [New] over the topics in the metadata. *)
Fixpoint load_topics (env : nat → Env) (i : nat) (metas : list TopicMeta) (b : Broker) : result Broker :=
  match metas with
  | [] => Ok b
  | meta :: metas =>
      match validateTopicName b.(b_dataDir) meta.(tmt_Name) with
      | Err err => Err (wrapError "broker: load topic" err)
      | Ok _ =>
          match open_topic (env i) meta.(tmt_Name) meta.(tmt_NumPartitions) b with
          | (Err err, _) => Err (wrapError "broker: load topic" err)
          | (Ok _, b) => load_topics env (S i) metas b
          end
      end
  end.

(** [New] up to the registration of the handlers; [e] and [offsetTimes] are what
    opening the metadata and the offset store reads, [env i] what loading the [i]-th
    topic reads. *)
Definition New (e : Env) (offsetTimes : nat → string → Z) (env : nat → Env) (cfg : AppConfig)
    (dataDir : list string) (st : Storage) : result Broker :=
  match NewMetadataManager st.(st_meta) with
  | Err err => Err (wrapError "broker: metadata manager" err)
  | Ok metaMgr =>
      match Start offsetTimes e.(e_now) (NewOffsetStore st.(st_offsets) cfg.(cfg_Group).(gcf_OffsetsTopicPartitions)) with
      | (Err err, _) => Err (wrapError "broker: offset store" err)
      | (Ok _, offsetStore) =>
          load_topics env 0 (ListTopics e.(e_metas) metaMgr)
            (mkBroker cfg dataDir st.(st_checkpoint) (int32 cfg.(cfg_Broker).(bc_ID)) (clusterReplicaIDs cfg) metaMgr
               NewGroupCoordinator offsetStore NewPurgatory ∅ ∅ ∅ ∅ ∅ st.(st_disk))
      end
  end.

(** [Topic.Close] and [Broker.Shutdown]: the files the broker leaves behind. *)
Definition close_topic (dataDir : list string) (name : string) (t : Topic) (disk : Disk) : Disk :=
  map_fold (close_partition dataDir name) disk t.(tp_Partitions).
Definition Broker_Shutdown (b : Broker) : Storage :=
  mkStorage b.(b_metaManager).(mm_file) b.(b_checkpoint) (OffsetStore_Close b.(b_offsetStore)).2.(os_dirs)
    (map_fold (close_topic b.(b_dataDir)) b.(b_disk) b.(b_topics)).
