(* ===== verification/Listeners.v ===== *)
(** * The slices of listeners (src/internal/broker/broker.go)

    [Broker] has the listeners of a partition as a value. In the code they are a slice:
    [registerListenerOn] appends in place when there is room, [unregisterListener]
    moves the last channel into the gap in the same array, and [notifyAppended] goes
    over a slice that it read earlier, without the lock. Here the arrays are in a heap.
    Registering and unregistering implement the operations on values; a notification
    that overlaps with an unregistration can miss a listener. *)
From Stdlib Require Import ZArith Lia Strings.Byte.
From stdpp Require Import base list strings gmap.
From S2P Require Import Prelude Files Decimal Record Index Segment PartitionLog Server Group Checkpoint Replication Config Topic Metadata Partition Offsets Broker.
Open Scope Z_scope.

(** ** Arrays and slices *)

(** An array of channels; [None] is the nil channel. Its length is the capacity of the
    slices into it. *)
Abbreviation Array := (list (option nat)).
Record Slice := mkSlice {
  sl_array : nat;
  sl_len : nat
}.
#[global] Instance Slice_eq_dec : EqDecision Slice.
Proof. solve_decision. Defined.

Abbreviation Heap := (gmap nat Array).
Record Listeners := mkListeners {
  ls_heap : Heap;
  ls_map : gmap string (gmap Z Slice)
}.

Definition elements (h : Heap) (s : Slice) : Array := take s.(sl_len) (default [] (h !! s.(sl_array))).

(** [append(list, ch)]; [spare] is the room that a new array gets beyond that. *)
Definition slice_append (spare : nat) (ch : nat) (h : Heap) (s : option Slice) : Heap * Slice :=
  let grow l := let a := fresh (dom h) in (<[a := l ++ Some ch :: replicate spare None]> h, mkSlice a (S (length l))) in
  match s with
  | None => grow []
  | Some s =>
      let arr := default [] (h !! s.(sl_array)) in
      if (s.(sl_len) <? length arr)%nat
      then (<[s.(sl_array) := <[s.(sl_len) := Some ch]> arr]> h, mkSlice s.(sl_array) (S s.(sl_len)))
      else grow (elements h s)
  end.

Definition register (spare : nat) (topic : string) (partition : Z) (ch : nat) (ls : Listeners) : Listeners :=
  let pMap := default ∅ (ls.(ls_map) !! topic) in
  let '(h, s) := slice_append spare ch ls.(ls_heap) (pMap !! partition) in
  mkListeners h (<[topic := <[partition := s]> pMap]> ls.(ls_map)).

(** [list[i] = list[n-1]; list[n-1] = nil; list = list[:n-1]], all in the array. *)
Definition unregister (topic : string) (partition : Z) (ch : nat) (ls : Listeners) : Listeners :=
  match ls.(ls_map) !! topic with
  | None => ls
  | Some pMap =>
      match pMap !! partition with
      | None => ls
      | Some s =>
          let list := elements ls.(ls_heap) s in
          match list_find (Some ch =.) list with
          | None => ls
          | Some (i, _) =>
              let n := (s.(sl_len) - 1)%nat in
              let arr := default [] (ls.(ls_heap) !! s.(sl_array)) in
              let h := <[s.(sl_array) := <[n := None]> (<[i := default None (list !! n)]> arr)]> ls.(ls_heap) in
              let pMap' := if (n =? 0)%nat then delete partition pMap else <[partition := mkSlice s.(sl_array) n]> pMap in
              mkListeners h (if bool_decide (pMap' = ∅) then delete topic ls.(ls_map) else <[topic := pMap']> ls.(ls_map))
          end
      end
  end.

(** ** Notifications *)

(** A notification that is under way: the slice it read and how far it has come. *)
Record Notifying := mkNotifying {
  nt_slice : option Slice;
  nt_next : nat
}.

Definition notify_begin (topic : string) (partition : Z) (ls : Listeners) : Notifying :=
  mkNotifying (ls.(ls_map) !! topic ≫= (.!! partition)) 0.

(** One turn of the loop; a send to a channel that holds a signal, or to the nil
    channel, does nothing. [None] when the loop is over. *)
Definition notify_turn (nt : Notifying) (h : Heap) (signals : gset nat) : option (Notifying * gset nat) :=
  match nt.(nt_slice) with
  | None => None
  | Some s =>
      if (nt.(nt_next) <? s.(sl_len))%nat then
        Some (mkNotifying (Some s) (S nt.(nt_next)),
          match default [] (h !! s.(sl_array)) !! nt.(nt_next) with Some (Some ch) => {[ch]} ∪ signals | _ => signals end)
      else None
  end.

(** The loop with nothing in between. *)
Fixpoint notify_run (fuel : nat) (nt : Notifying) (h : Heap) (signals : gset nat) : gset nat :=
  match fuel with
  | O => signals
  | S fuel => match notify_turn nt h signals with Some (nt, signals) => notify_run fuel nt h signals | None => signals end
  end.

(** ** Sequences of operations *)

Inductive listener_op :=
  | OpRegister (spare : nat) (topic : string) (partition : Z) (ch : nat)
  | OpUnregister (topic : string) (partition : Z) (ch : nat)
  | OpNotify (topic : string) (partition : Z).

Definition notify_all (topic : string) (partition : Z) (ls : Listeners) (signals : gset nat) : gset nat :=
  let nt := notify_begin topic partition ls in notify_run (default 0%nat (sl_len <$> nt.(nt_slice))) nt ls.(ls_heap) signals.

Definition slice_op (st : Listeners * gset nat) (op : listener_op) : Listeners * gset nat :=
  match op with
  | OpRegister spare t p ch => (register spare t p ch st.1, st.2)
  | OpUnregister t p ch => (unregister t p ch st.1, st.2)
  | OpNotify t p => (st.1, notify_all t p st.1 st.2)
  end.

(** The same on the values that [Broker] has. *)
Definition value_op (b : Broker) (op : listener_op) : Broker :=
  match op with
  | OpRegister _ t p ch => registerListenerOn t p ch b
  | OpUnregister t p ch => unregisterListener t p ch b
  | OpNotify t p => notifyAppended t p b
  end.

(** A notification of which the turns are interleaved with whole operations of others:
    [None] is a turn. *)
Record Overlap := mkOverlap {
  ov_state : Listeners * gset nat;
  ov_notifying : Notifying
}.

Definition overlap_begin (topic : string) (partition : Z) (st : Listeners * gset nat) : Overlap :=
  mkOverlap st (notify_begin topic partition st.1).

Definition overlap_step (ov : Overlap) (event : option listener_op) : Overlap :=
  match event with
  | Some op => mkOverlap (slice_op ov.(ov_state) op) ov.(ov_notifying)
  | None =>
      match notify_turn ov.(ov_notifying) ov.(ov_state).1.(ls_heap) ov.(ov_state).2 with
      | Some (nt, signals) => mkOverlap (ov.(ov_state).1, signals) nt
      | None => ov
      end
  end.

(** ** The values *)

Definition channels (h : Heap) (s : Slice) : list nat := omap id (elements h s).
Definition values (ls : Listeners) : gmap string (gmap Z (list nat)) :=
  (λ pMap : gmap Z Slice, channels ls.(ls_heap) <$> pMap) <$> ls.(ls_map).
Definition slice_at (ls : Listeners) (topic : string) (partition : Z) : option Slice := ls.(ls_map) !! topic ≫= (.!! partition).

(** Every slice is a non-empty part of an array of its own, without nil channels, and
    no topic has an empty map. *)
Record listeners_ok (ls : Listeners) : Prop := {
  lo_slice t p s : slice_at ls t p = Some s → ∃ arr l, ls.(ls_heap) !! s.(sl_array) = Some arr ∧ (0 < s.(sl_len) ≤ length arr)%nat ∧
    take s.(sl_len) arr = Some <$> l;
  lo_own t p s t' p' s' : slice_at ls t p = Some s → slice_at ls t' p' = Some s' → s.(sl_array) = s'.(sl_array) → t = t' ∧ p = p';
  lo_topic t : ls.(ls_map) !! t ≠ Some ∅
}.

Lemma channels_Some h s l : elements h s = Some <$> l → channels h s = l.
Proof. intros E. unfold channels. rewrite E. clear. induction l as [|x l IH]; [done|]. cbn. by rewrite IH. Qed.

(** ** Maps of maps *)

(** Setting or removing an entry; a topic goes with its last partition. *)
Definition put {A} (t : string) (p : Z) (x : option A) (m : gmap string (gmap Z A)) : gmap string (gmap Z A) :=
  let pMap := partial_alter (λ _, x) p (default ∅ (m !! t)) in
  if decide (pMap = ∅) then delete t m else <[t := pMap]> m.

Lemma put_lookup {A} t p (x : option A) m t' p' : put t p x m !! t' ≫= (.!! p') = if decide (t' = t ∧ p' = p) then x else m !! t' ≫= (.!! p').
Proof.
  unfold put. set (pMap := partial_alter _ _ _).
  assert (Hin : ∀ p0, pMap !! p0 = if decide (p0 = p) then x else m !! t ≫= (.!! p0)).
  { intros p0. unfold pMap. destruct (decide (p0 = p)) as [->|Hne]; [by rewrite lookup_partial_alter_eq|].
    rewrite lookup_partial_alter_ne by done. destruct (m !! t); cbn; [done|]. by rewrite lookup_empty. }
  destruct (decide (t' = t)) as [->|Hne].
  - transitivity (pMap !! p').
    + case_decide as He; [rewrite lookup_delete_eq, He; by rewrite lookup_empty|by rewrite lookup_insert_eq].
    + rewrite Hin. destruct (decide (p' = p)), (decide (t = t ∧ p' = p)); tauto.
  - rewrite (decide_False (P := t' = t ∧ p' = p)) by tauto. case_decide; [by rewrite lookup_delete_ne|by rewrite lookup_insert_ne].
Qed.

Lemma put_topic {A} t p (x : option A) m t' : (∀ t, m !! t ≠ Some ∅) → put t p x m !! t' ≠ Some ∅.
Proof.
  intros Hm. unfold put. case_decide as He.
  - destruct (decide (t' = t)) as [->|]; [by rewrite lookup_delete_eq|by rewrite lookup_delete_ne].
  - destruct (decide (t' = t)) as [->|]; [rewrite lookup_insert_eq; congruence|by rewrite lookup_insert_ne].
Qed.

Lemma put_Some {A} t p (x : A) m : put t p (Some x) m = <[t := <[p := x]> (default ∅ (m !! t))]> m.
Proof. unfold put. change (partial_alter (λ _, Some x) p (default ∅ (m !! t))) with (<[p := x]> (default ∅ (m !! t))). by rewrite decide_False by apply insert_non_empty. Qed.

(** Two such maps without empty topics are equal when their entries are. *)
Lemma nested_eq {A} (m1 m2 : gmap string (gmap Z A)) : (∀ t, m1 !! t ≠ Some ∅) → (∀ t, m2 !! t ≠ Some ∅) →
  (∀ t p, m1 !! t ≫= (.!! p) = m2 !! t ≫= (.!! p)) → m1 = m2.
Proof.
  intros H1 H2 He. apply map_eq. intros t. specialize (He t).
  destruct (m1 !! t) as [x|] eqn:E1, (m2 !! t) as [y|] eqn:E2; cbn in He; [|exfalso..|done].
  - f_equal. by apply map_eq.
  - apply (H1 t). rewrite E1. f_equal. by apply map_eq.
  - apply (H2 t). rewrite E2. f_equal. apply map_eq. intros p. by rewrite <- He.
Qed.

Lemma values_lookup ls t p : values ls !! t ≫= (.!! p) = channels ls.(ls_heap) <$> slice_at ls t p.
Proof. unfold values, slice_at. rewrite lookup_fmap. destruct (ls_map ls !! t); cbn; [|done]. by rewrite lookup_fmap. Qed.

Lemma values_topic ls t : (∀ t, ls.(ls_map) !! t ≠ Some ∅) → values ls !! t ≠ Some ∅.
Proof.
  intros H. unfold values. rewrite lookup_fmap. destruct (ls_map ls !! t) as [x|] eqn:E; cbn; [|done].
  intros [= Hx%fmap_empty_inv]. by apply (H t); rewrite E, Hx.
Qed.

(** Changing one entry and only its array changes one value. *)
Lemma values_put ls h t p x : listeners_ok ls →
  (∀ t' p' s', (t', p') ≠ (t, p) → slice_at ls t' p' = Some s' → h !! s'.(sl_array) = ls.(ls_heap) !! s'.(sl_array)) →
  values (mkListeners h (put t p x ls.(ls_map))) = put t p (channels h <$> x) (values ls).
Proof.
  intros Hok Hsame. apply nested_eq.
  - intros t'. apply values_topic. intros t0. apply put_topic, Hok.
  - intros t'. apply put_topic. intros t0. apply values_topic, Hok.
  - intros t' p'. rewrite values_lookup, put_lookup. unfold slice_at at 1. cbn [ls_heap ls_map]. rewrite put_lookup.
    destruct (decide (t' = t ∧ p' = p)) as [|Hne]; [done|]. rewrite values_lookup. fold (slice_at ls t' p').
    destruct (slice_at ls t' p') as [s'|] eqn:Es; [|done]. cbn. f_equal. unfold channels, elements.
    rewrite (Hsame t' p' s'); [done| |done]. intros [= -> ->]. tauto.
Qed.

(** ** The operations *)

Lemma slice_at_default ls t p : default ∅ (ls.(ls_map) !! t) !! p = slice_at ls t p.
Proof. unfold slice_at. destruct (ls_map ls !! t); cbn; [done|]. apply lookup_empty. Qed.

(** A slice that can take the place of the one of a partition. *)
Record replaces (ls : Listeners) (h : Heap) (t : string) (p : Z) (s : Slice) (l : list nat) : Prop := {
  rp_array : ∃ arr, h !! s.(sl_array) = Some arr ∧ (0 < s.(sl_len) ≤ length arr)%nat;
  rp_elements : elements h s = Some <$> l;
  rp_own t' p' s' : (t', p') ≠ (t, p) → slice_at ls t' p' = Some s' → s'.(sl_array) ≠ s.(sl_array)
}.

Lemma ok_put ls h t p x : listeners_ok ls →
  (∀ t' p' s', (t', p') ≠ (t, p) → slice_at ls t' p' = Some s' → h !! s'.(sl_array) = ls.(ls_heap) !! s'.(sl_array)) →
  (∀ s, x = Some s → ∃ l, replaces ls h t p s l) → listeners_ok (mkListeners h (put t p x ls.(ls_map))).
Proof.
  intros [Hs Ho Ht] Hsame Hx.
  assert (Hat : ∀ t' p' s', slice_at (mkListeners h (put t p x ls.(ls_map))) t' p' = Some s' →
    ((t', p') = (t, p) ∧ x = Some s') ∨ ((t', p') ≠ (t, p) ∧ slice_at ls t' p' = Some s')).
  { intros t' p' s'. unfold slice_at at 1. cbn [ls_map]. rewrite put_lookup.
    case_decide as Hd; [destruct Hd as [-> ->]; by left|]. right. split; [|done]. intros [= -> ->]. tauto. }
  constructor; cbn [ls_heap ls_map].
  - intros t' p' s' [[_ Es]|[Hne Es]]%Hat.
    + destruct (Hx s' Es) as (l & [(arr & Ha & Hlen) He _]). exists arr, l. unfold elements in He. rewrite Ha in He. done.
    + rewrite (Hsame _ _ _ Hne Es). by eapply Hs.
  - intros t1 p1 s1 t2 p2 s2 [[[= -> ->] E1]|[N1 E1]]%Hat [[[= -> ->] E2]|[N2 E2]]%Hat Ea; [done| | |by eapply Ho].
    + destruct (Hx s1 E1) as (l & [_ _ Hown]). by destruct (Hown _ _ _ N2 E2).
    + destruct (Hx s2 E2) as (l & [_ _ Hown]). by destruct (Hown _ _ _ N1 E1).
  - intros t'. by apply put_topic.
Qed.

Lemma slice_append_ok spare ch ls t p : listeners_ok ls → let '(h, s) := slice_append spare ch ls.(ls_heap) (slice_at ls t p) in
  replaces ls h t p s (default [] (channels ls.(ls_heap) <$> slice_at ls t p) ++ [ch]) ∧
  ∀ t' p' s', (t', p') ≠ (t, p) → slice_at ls t' p' = Some s' → h !! s'.(sl_array) = ls.(ls_heap) !! s'.(sl_array).
Proof.
  intros [Hs Ho Ht]. set (a := fresh (dom (ls_heap ls))).
  assert (Hfr : ∀ t' p' s', slice_at ls t' p' = Some s' → s'.(sl_array) ≠ a).
  { intros t' p' s' Es Ea. destruct (Hs _ _ _ Es) as (arr & l & Hl & _). apply (is_fresh (dom (ls_heap ls))).
    fold a. rewrite <- Ea. apply elem_of_dom. by eexists. }
  assert (Hgrow : ∀ l, let h := <[a := (Some <$> l) ++ Some ch :: replicate spare None]> (ls_heap ls) in
    replaces ls h t p (mkSlice a (S (length (Some <$> l)))) (l ++ [ch]) ∧
    ∀ t' p' s', (t', p') ≠ (t, p) → slice_at ls t' p' = Some s' → h !! s'.(sl_array) = ls.(ls_heap) !! s'.(sl_array)).
  { intros l h. split.
    - constructor; [|unfold elements; cbn; unfold h; rewrite lookup_insert_eq; cbn|intros ? ? ? _; apply Hfr].
      + exists ((Some <$> l) ++ Some ch :: replicate spare None). unfold h. cbn. rewrite lookup_insert_eq. split; [done|].
        rewrite length_app. cbn. lia.
      + rewrite fmap_app. change ((Some <$> l) ++ Some ch :: replicate spare None) with ((Some <$> l) ++ [Some ch] ++ replicate spare None).
        rewrite app_assoc. apply take_app_length'. rewrite length_app. cbn. lia.
    - intros t' p' s' _ Es. unfold h. rewrite lookup_insert_ne; [done|]. symmetry. by eapply Hfr. }
  unfold slice_append. fold a. destruct (slice_at ls t p) as [s|] eqn:Es; [|exact (Hgrow [])].
  destruct (Hs _ _ _ Es) as (arr & l & Ha & Hlen & Htk). cbn [fmap option_fmap option_map default from_option]. rewrite Ha. cbn [default from_option id].
  assert (Hel : elements (ls_heap ls) s = Some <$> l) by (unfold elements; by rewrite Ha). rewrite (channels_Some _ _ _ Hel).
  destruct (Nat.ltb_spec (sl_len s) (length arr)) as [Hlt|_]; [|rewrite Hel; exact (Hgrow l)]. split.
  - constructor; cbn.
    + exists (<[sl_len s := Some ch]> arr). rewrite lookup_insert_eq, length_insert. split; [done|lia].
    + unfold elements. cbn. rewrite lookup_insert_eq. cbn. rewrite (take_S_r _ _ (Some ch)) by (apply list_lookup_insert_eq; lia).
      rewrite take_insert, decide_False by lia. by rewrite Htk, fmap_app.
    + intros t' p' s' Hne Es' Ea. destruct (Ho _ _ _ _ _ _ Es' Es Ea) as [-> ->]. done.
  - intros t' p' s' Hne Es'. rewrite lookup_insert_ne; [done|]. intros Ea. destruct (Ho _ _ _ _ _ _ Es Es' Ea) as [-> ->]. done.
Qed.

Lemma register_ok spare t p ch ls : listeners_ok ls → listeners_ok (register spare t p ch ls) ∧
  values (register spare t p ch ls) = <[t := <[p := default [] (default ∅ (values ls !! t) !! p) ++ [ch]]> (default ∅ (values ls !! t))]> (values ls).
Proof.
  intros Hok. pose proof (slice_append_ok spare ch ls t p Hok) as Ha. unfold register. rewrite slice_at_default.
  destruct (slice_append _ _ _ _) as [h s]. destruct Ha as [Hr Hsame]. rewrite <- put_Some. split.
  - apply ok_put; [done|done|]. intros s' [= <-]. by eexists.
  - rewrite (values_put ls h t p (Some s) Hok Hsame). cbn [fmap option_fmap option_map]. rewrite (channels_Some _ _ _ (rp_elements _ _ _ _ _ _ Hr)).
    rewrite put_Some. do 3 f_equal. f_equal. f_equal. rewrite <- values_lookup. destruct (values ls !! t); cbn; [done|]. by rewrite lookup_empty.
Qed.

(** Removing an entry, or setting it, in a topic that is there. *)
Lemma put_in {A} t p (x : option A) m pMap pMap' `{!Decision (pMap' = ∅)} : m !! t = Some pMap →
  pMap' = match x with Some y => <[p := y]> pMap | None => delete p pMap end →
  (if bool_decide (pMap' = ∅) then delete t m else <[t := pMap']> m) = put t p x m.
Proof. intros E ->. unfold put. rewrite E. cbn. destruct x; case_bool_decide as Hd; by case_decide. Qed.

Lemma find_Some (ch : nat) l : list_find (Some ch =.) (Some <$> l) = prod_map id Some <$> list_find (ch =.) l.
Proof. rewrite list_find_fmap. f_equal. apply list_find_ext. intros x. cbn. split; congruence. Qed.

(** The removal in the array and the removal in the list. *)
Lemma remove_in_array ch arr n i l : take (S n) arr = Some <$> l → (S n ≤ length arr)%nat → list_find (ch =.) l = Some (i, ch) →
  ∃ l', swap_remove ch l = Some l' ∧ length l' = n ∧
    take n (<[n := None]> (<[i := default None ((Some <$> l) !! n)]> arr)) = Some <$> l'.
Proof.
  intros Htk Hlen Hf. assert (Hl : length l = S n) by (erewrite <- (length_fmap Some), <- Htk, length_take; lia).
  pose proof Hf as (Hi & _)%list_find_Some. apply lookup_lt_Some in Hi.
  destruct (lookup_lt_is_Some_2 l n) as [c Hc]; [lia|].
  unfold swap_remove. rewrite Hf, last_lookup, Hl. cbn [Nat.pred]. rewrite Hc. eexists. split; [done|]. split.
  - rewrite length_take, length_insert. lia.
  - rewrite Nat.sub_1_r. cbn [Nat.pred]. rewrite take_insert, decide_False by lia. rewrite list_lookup_fmap, Hc. cbn [fmap option_fmap option_map default from_option id].
    rewrite fmap_take, list_fmap_insert, <- Htk, !take_insert, take_take, Nat.min_l by lia. done.
Qed.

Lemma unregister_ok t p ch ls : listeners_ok ls → listeners_ok (unregister t p ch ls) ∧
  values (unregister t p ch ls) = match swap_remove ch (default [] (values ls !! t ≫= (.!! p))) with
    | None => values ls
    | Some l => put t p (if (length l =? 0)%nat then None else Some l) (values ls)
    end.
Proof.
  intros Hok. pose proof Hok as [Hs Ho Ht]. rewrite values_lookup. unfold unregister, slice_at.
  destruct (ls_map ls !! t) as [pMap|] eqn:Et; cbn [mbind option_bind]; [|done].
  destruct (pMap !! p) as [s|] eqn:Ep; cbn [fmap option_fmap option_map default from_option]; [|done].
  assert (Es : slice_at ls t p = Some s) by (unfold slice_at; by rewrite Et).
  destruct (Hs _ _ _ Es) as (arr & l & Ha & Hlen & Htk).
  assert (Hel : elements (ls_heap ls) s = Some <$> l) by (unfold elements; by rewrite Ha). rewrite (channels_Some _ _ _ Hel), Hel, Ha, find_Some.
  destruct (list_find (ch =.) l) as [[i c]|] eqn:Ef; cbn [fmap option_fmap option_map prod_map id default from_option]; [|by unfold swap_remove; rewrite Ef].
  pose proof Ef as (_ & <- & _)%list_find_Some. destruct (sl_len s) as [|n] eqn:En; [lia|]. rewrite Nat.sub_1_r. cbn [Nat.pred].
  destruct (remove_in_array ch arr n i l Htk ltac:(lia) Ef) as (l' & -> & Hl' & Htk').
  set (arr' := <[n := None]> _) in *. set (h := <[sl_array s := arr']> (ls_heap ls)).
  assert (Hsame : ∀ t' p' s', (t', p') ≠ (t, p) → slice_at ls t' p' = Some s' → h !! s'.(sl_array) = ls.(ls_heap) !! s'.(sl_array)).
  { intros t' p' s' Hne Es'. unfold h. rewrite lookup_insert_ne; [done|]. intros Ea. destruct (Ho _ _ _ _ _ _ Es Es' Ea) as [-> ->]. done. }
  assert (Hel' : elements h (mkSlice (sl_array s) n) = Some <$> l') by (unfold elements, h; cbn; by rewrite lookup_insert_eq).
  set (x := if (n =? 0)%nat then None else Some (mkSlice (sl_array s) n)).
  rewrite (put_in t p x (ls_map ls) pMap _ Et) by (unfold x; by destruct (n =? 0)%nat). split.
  - apply ok_put; [done|done|]. unfold x. intros s'. destruct (Nat.eqb_spec n 0) as [|Hn]; [done|]. intros [= <-]. exists l'.
    constructor; [|done|].
    + exists arr'. unfold h. cbn. rewrite lookup_insert_eq. split; [done|]. unfold arr'. rewrite !length_insert. lia.
    + intros t' p' s' Hne Es' Ea. destruct (Ho _ _ _ _ _ _ Es Es' (eq_sym Ea)) as [-> ->]. done.
  - rewrite (values_put ls h t p x Hok Hsame). f_equal. unfold x. rewrite Hl'. destruct (n =? 0)%nat; [done|]. apply (f_equal Some), channels_Some, Hel'.
Qed.

(** ** Notifications *)

(** The loop signals the elements from where it is. *)
Lemma notify_run_signals h s l : elements h s = Some <$> l → length l = s.(sl_len) → ∀ k i sg, (k + i)%nat = length l →
  notify_run k (mkNotifying (Some s) i) h sg = list_to_set (drop i l) ∪ sg.
Proof.
  intros He Hl. induction k as [|k IH]; intros i sg Hk; cbn [notify_run].
  - rewrite drop_ge by lia. set_solver.
  - unfold notify_turn. cbn [nt_slice nt_next]. rewrite (proj2 (Nat.ltb_lt _ _)) by lia.
    destruct (lookup_lt_is_Some_2 l i) as [c Hc]; [lia|].
    assert (Ha : default [] (h !! sl_array s) !! i = Some (Some c)).
    { unfold elements in He. rewrite <- (lookup_take_lt _ (sl_len s)) by lia. rewrite He, list_lookup_fmap, Hc. done. }
    rewrite Ha, IH by lia. rewrite (drop_S l c i Hc). set_solver.
Qed.

Lemma elements_length ls t p s l : listeners_ok ls → slice_at ls t p = Some s → elements ls.(ls_heap) s = Some <$> l → length l = s.(sl_len).
Proof.
  intros Hok Es He. destruct (lo_slice _ Hok _ _ _ Es) as (arr & l' & Ha & Hlen & _). rewrite <- (length_fmap Some), <- He. unfold elements.
  rewrite Ha. cbn. rewrite length_take. lia.
Qed.

Lemma elements_Some ls t p s : listeners_ok ls → slice_at ls t p = Some s →
  elements ls.(ls_heap) s = Some <$> channels ls.(ls_heap) s ∧ length (channels ls.(ls_heap) s) = s.(sl_len).
Proof.
  intros Hok Es. destruct (lo_slice _ Hok _ _ _ Es) as (arr & l & Ha & _ & Htk).
  assert (He : elements ls.(ls_heap) s = Some <$> l) by (unfold elements; by rewrite Ha).
  rewrite (channels_Some _ _ _ He). split; [done|]. by eapply elements_length.
Qed.

Lemma notify_all_signals t p ls sg : listeners_ok ls → notify_all t p ls sg = list_to_set (listeners_on t p (values ls)) ∪ sg.
Proof.
  intros Hok. unfold notify_all, notify_begin, listeners_on. rewrite values_lookup. fold (slice_at ls t p). cbn [nt_slice].
  destruct (slice_at ls t p) as [s|] eqn:Es; cbn [fmap option_fmap option_map default from_option id]; [|cbn; set_solver].
  destruct (elements_Some _ _ _ _ Hok Es) as [He Hl]. rewrite (notify_run_signals _ _ _ He Hl); [done|lia].
Qed.

(** ** Refinement *)

Lemma unregisterListener_put t p ch b : unregisterListener t p ch b =
  match swap_remove ch (listeners_on t p b.(b_listeners)) with
  | None => b
  | Some l => set_listeners (put t p (if (length l =? 0)%nat then None else Some l) b.(b_listeners)) b
  end.
Proof.
  unfold unregisterListener, listeners_on. destruct (b_listeners b !! t) as [pMap|] eqn:Et; cbn [mbind option_bind]; [|done].
  destruct (swap_remove ch (default [] (pMap !! p))) as [[|c l]|]; cbn [length Nat.eqb]; [| |done].
  - by rewrite (put_in t p None (b_listeners b) pMap _ Et).
  - by rewrite put_Some, Et.
Qed.

(** The broker has the values of the slices and the signals. *)
Definition represents (b : Broker) (st : Listeners * gset nat) : Prop :=
  listeners_ok st.1 ∧ b.(b_listeners) = values st.1 ∧ b.(b_signals) = st.2.

Lemma slice_op_represents b st op : represents b st → represents (value_op b op) (slice_op st op).
Proof.
  destruct st as [ls sg]. intros (Hok & Hl & Hs). cbn [fst snd] in *. destruct op as [spare t p ch|t p ch|t p]; cbn [slice_op value_op fst snd].
  - destruct (register_ok spare t p ch ls Hok) as [Hok' Hv]. split; [done|]. split; [|done]. cbn [fst]. rewrite Hv. unfold registerListenerOn. by rewrite Hl.
  - destruct (unregister_ok t p ch ls Hok) as [Hok' Hv]. split; [done|]. cbn [fst snd]. rewrite Hv, unregisterListener_put, Hl. unfold listeners_on.
    by destruct (swap_remove _ _).
  - split; [done|]. split; [done|]. unfold represents. cbn [fst snd]. rewrite notify_all_signals by done. unfold notifyAppended. by rewrite Hl, Hs.
Qed.

(** The listeners as slices implement the listeners as values. Whatever sequence of
    registrations, unregistrations and (undisturbed) notifications is carried out on the
    arrays, in place, the broker that carries it out on lists of channels ends with the
    same channels registered for each partition, in the same order, and the same
    channels signalled; and every slice still has an array of its own without nil
    channels in it. *)
Theorem listener_slices_refine b st ops : represents b st → represents (foldl value_op b ops) (foldl slice_op st ops).
Proof. revert b st. induction ops as [|op ops IH]; intros b st Hr; [done|]. cbn. by apply IH, slice_op_represents. Qed.

(** ** A notification that overlaps with other operations *)

(** What a notification of partition [p] of [t] relies on: the array that it reads is
    still there with the channels [l] at its front, and is used by nothing but that
    partition, which keeps at least those. *)
Record reading (t : string) (p : Z) (s : Slice) (l : list nat) (ls : Listeners) : Prop := {
  rd_elements : elements ls.(ls_heap) s = Some <$> l;
  rd_array : is_Some (ls.(ls_heap) !! s.(sl_array));
  rd_own t' p' s' : slice_at ls t' p' = Some s' → s'.(sl_array) = s.(sl_array) → t' = t ∧ p' = p ∧ (s.(sl_len) ≤ s'.(sl_len))%nat
}.

Lemma reading_begin t p ls s : listeners_ok ls → slice_at ls t p = Some s → reading t p s (channels ls.(ls_heap) s) ls.
Proof.
  intros Hok Es. constructor.
  - by eapply elements_Some.
  - destruct (lo_slice _ Hok _ _ _ Es) as (arr & l & -> & _). done.
  - intros t' p' s' Es' Ea. destruct (lo_own _ Hok _ _ _ _ _ _ Es' Es Ea) as [-> ->]. rewrite Es in Es'. injection Es' as ->. done.
Qed.

Lemma reading_put t p s l ls h t0 p0 x : reading t p s l ls →
  elements h s = Some <$> l → is_Some (h !! s.(sl_array)) →
  (∀ s', x = Some s' → s'.(sl_array) = s.(sl_array) → t0 = t ∧ p0 = p ∧ (s.(sl_len) ≤ s'.(sl_len))%nat) →
  reading t p s l (mkListeners h (put t0 p0 x ls.(ls_map))).
Proof.
  intros [_ _ Ho] He Ha Hx. constructor; [done|done|]. intros t' p' s'. unfold slice_at. cbn [ls_map]. rewrite put_lookup.
  case_decide as Hd; [destruct Hd as [-> ->]; by apply Hx|]. by apply Ho.
Qed.

Lemma reading_register t p s l ls spare t0 p0 ch : reading t p s l ls → reading t p s l (register spare t0 p0 ch ls).
Proof.
  intros Hr. pose proof Hr as [He Ha Ho]. unfold register. rewrite slice_at_default.
  destruct (slice_append _ _ _ _) as [h s1] eqn:Eh. rewrite <- put_Some. revert Eh. unfold slice_append.
  assert (Hne : fresh (dom (ls_heap ls)) ≠ sl_array s).
  { intros Ef. apply (is_fresh (dom (ls_heap ls))). rewrite Ef. by apply elem_of_dom. }
  assert (Hgrow : ∀ a' n, reading t p s l (mkListeners (<[fresh (dom (ls_heap ls)) := a']> (ls_heap ls)) (put t0 p0 (Some (mkSlice (fresh (dom (ls_heap ls))) n)) (ls_map ls)))).
  { intros a' n. apply reading_put; [done| | |by intros s' [= <-]].
    - unfold elements. by rewrite lookup_insert_ne.
    - by rewrite lookup_insert_ne. }
  destruct (slice_at ls t0 p0) as [s0|] eqn:Es0; [|intros [= <- <-]; apply Hgrow].
  case_match; [|intros [= <- <-]; apply Hgrow]. intros [= <- <-]. apply reading_put; [done| | |].
  - unfold elements. destruct (decide (sl_array s0 = sl_array s)) as [Ea|Ea]; [|by rewrite lookup_insert_ne].
    destruct (Ho _ _ _ Es0 Ea) as (_ & _ & Hle). rewrite Ea, lookup_insert_eq. cbn. by rewrite take_insert, decide_False by lia.
  - by apply lookup_insert_is_Some'; right.
  - intros s' [= <-] Ea. cbn in *. destruct (Ho _ _ _ Es0 Ea) as (-> & -> & Hle). split; [done|]. split; [done|lia].
Qed.

Lemma reading_unregister t p s l ls t0 p0 ch : listeners_ok ls → (t0, p0) ≠ (t, p) → reading t p s l ls → reading t p s l (unregister t0 p0 ch ls).
Proof.
  intros Hok Hne Hr. pose proof Hr as [He Ha Ho]. unfold unregister. destruct (ls_map ls !! t0) as [pMap|] eqn:Et; [|done].
  destruct (pMap !! p0) as [s0|] eqn:Ep; [|done]. destruct (list_find _ _) as [[i c]|]; [|done]. cbv zeta.
  assert (Es0 : slice_at ls t0 p0 = Some s0) by (unfold slice_at; by rewrite Et).
  assert (Ea : sl_array s0 ≠ sl_array s) by (intros Ea; by destruct (Ho _ _ _ Es0 Ea) as (-> & -> & _)).
  set (n := (sl_len s0 - 1)%nat). rewrite (put_in t0 p0 (if (n =? 0)%nat then None else Some (mkSlice (sl_array s0) n)) (ls_map ls) pMap _ Et)
    by (by destruct (n =? 0)%nat).
  apply reading_put; [done| | |].
  - unfold elements. by rewrite lookup_insert_ne.
  - by rewrite lookup_insert_ne.
  - intros s'. destruct (n =? 0)%nat; [done|]. by intros [= <-].
Qed.

(** What other goroutines may do meanwhile: everything but unregistering from the
    partition. *)
Definition keeps (t : string) (p : Z) (event : option listener_op) : Prop :=
  match event with Some (OpUnregister t' p' _) => (t', p') ≠ (t, p) | _ => True end.

Lemma reading_op t p s l st op : listeners_ok st.1 → keeps t p (Some op) → reading t p s l st.1 → reading t p s l (slice_op st op).1.
Proof. intros Hok Hk Hr. destruct op; cbn [slice_op fst]; [by apply reading_register|by apply reading_unregister|done]. Qed.

Lemma slice_op_ok st op : listeners_ok st.1 → listeners_ok (slice_op st op).1 ∧ st.2 ⊆ (slice_op st op).2.
Proof.
  intros Hok. destruct op as [spare t p ch|t p ch|t p]; cbn [slice_op fst snd].
  - split; [by apply register_ok|done].
  - split; [by apply unregister_ok|done].
  - split; [done|]. rewrite notify_all_signals by done. set_solver.
Qed.

(** A notification under way that has signalled the first channels of [l]. *)
Record underway (t : string) (p : Z) (s : Slice) (l : list nat) (i : nat) (ov : Overlap) : Prop := {
  uw_ok : listeners_ok ov.(ov_state).1;
  uw_reading : reading t p s l ov.(ov_state).1;
  uw_length : length l = s.(sl_len);
  uw_notifying : ov.(ov_notifying) = mkNotifying (Some s) i;
  uw_signals c : c ∈ take i l → c ∈ ov.(ov_state).2
}.

Lemma underway_turn t p s l i ov : underway t p s l i ov → underway t p s l (if (i <? s.(sl_len))%nat then S i else i) (overlap_step ov None).
Proof.
  intros [Hok Hr Hl En Hs]. unfold overlap_step, notify_turn. rewrite En. cbn [nt_slice nt_next].
  destruct (Nat.ltb_spec i (sl_len s)) as [Hi|]; [|done]. pose proof Hr as [He _ _].
  destruct (lookup_lt_is_Some_2 l i) as [c Hc]; [lia|].
  assert (Ha : default [] (ls_heap ov.(ov_state).1 !! sl_array s) !! i = Some (Some c)).
  { unfold elements in He. rewrite <- (lookup_take_lt _ (sl_len s)) by lia. rewrite He, list_lookup_fmap, Hc. done. }
  rewrite Ha. constructor; [done..|]. cbn. intros c'. rewrite (take_S_r _ _ _ Hc), elem_of_app, list_elem_of_singleton. set_solver.
Qed.

Lemma underway_op t p s l i ov op : keeps t p (Some op) → underway t p s l i ov → underway t p s l i (overlap_step ov (Some op)).
Proof.
  intros Hk [Hok Hr Hl En Hs]. destruct (slice_op_ok ov.(ov_state) op Hok) as [Hok' Hsub].
  constructor; [done|by apply reading_op|done|done|]. cbn. set_solver.
Qed.

(** The turns among the events. *)
Definition turns (events : list (option listener_op)) : nat := length (filter (λ e, e = None) events).

Lemma underway_run t p s l events : Forall (keeps t p) events → ∀ i ov, underway t p s l i ov → (i ≤ s.(sl_len))%nat →
  underway t p s l (s.(sl_len) `min` (i + turns events)) (foldl overlap_step ov events).
Proof.
  induction 1 as [|[op|] events Hk _ IH]; intros i ov Hu Hi; cbn [foldl].
  - by rewrite Nat.min_r by (cbn; lia); rewrite Nat.add_0_r.
  - apply IH; [by apply underway_op|done].
  - replace (sl_len s `min` (i + turns (None :: events)))%nat with (sl_len s `min` ((if (i <? sl_len s)%nat then S i else i) + turns events))%nat.
    + apply IH; [by apply underway_turn|]. case_match eqn:E; [apply Nat.ltb_lt in E|]; lia.
    + unfold turns. rewrite filter_cons_True by done. cbn [length]. case_match eqn:E; [|apply Nat.ltb_ge in E]; lia.
Qed.

Lemma nothing_to_notify events : ∀ ov, nt_slice ov.(ov_notifying) = None → nt_slice (foldl overlap_step ov events).(ov_notifying) = None.
Proof. induction events as [|[op|] events IH]; intros ov Hn; cbn [foldl]; [done|by apply IH|]. apply IH. unfold overlap_step, notify_turn. by rewrite Hn. Qed.

(** A notification reaches every listener that is there when it begins, although it
    goes over the slice without the lock: other goroutines may register channels,
    unregister channels from other partitions and notify in between its turns. After as
    many turns as there are listeners the loop is over and each of them is signalled. *)
Theorem notification_reaches_listeners t p st events : listeners_ok st.1 → Forall (keeps t p) events →
  (length (listeners_on t p (values st.1)) ≤ turns events)%nat →
  let ov := foldl overlap_step (overlap_begin t p st) events in
  notify_turn ov.(ov_notifying) ov.(ov_state).1.(ls_heap) ov.(ov_state).2 = None ∧
  ∀ c, c ∈ listeners_on t p (values st.1) → c ∈ ov.(ov_state).2.
Proof.
  intros Hok Hk Ht ov. revert Ht. unfold listeners_on. rewrite values_lookup. unfold overlap_begin, notify_begin in ov. fold (slice_at st.1 t p) in ov.
  destruct (slice_at st.1 t p) as [s|] eqn:Es; cbn [fmap option_fmap option_map default from_option id]; intros Ht.
  - pose proof (reading_begin t p st.1 s Hok Es) as Hr. destruct (elements_Some _ _ _ _ Hok Es) as [_ Hl]. rewrite Hl in Ht.
    assert (Hu : underway t p s (channels (ls_heap st.1) s) (sl_len s) ov).
    { rewrite <- (Nat.min_l (sl_len s) (0 + turns events)) by lia. apply underway_run; [done| |lia]. constructor; [done..|]. intros c Hc. by apply elem_of_nil in Hc. }
    destruct Hu as [_ _ _ En Hs]. unfold notify_turn. rewrite En. cbn [nt_slice nt_next]. rewrite Nat.ltb_irrefl. split; [done|].
    intros c Hc. apply Hs. by rewrite <- Hl, take_ge by lia.
  - split; [|by intros c Hc%elem_of_nil]. unfold notify_turn, ov. by rewrite (nothing_to_notify events).
Qed.

(** Turns with nothing in between. *)
Lemma turns_run ls s k : ∀ i sg, (i + k ≤ s.(sl_len))%nat →
  let ov := foldl overlap_step (mkOverlap (ls, sg) (mkNotifying (Some s) i)) (replicate k None) in
  ov.(ov_state).1 = ls ∧ ov.(ov_notifying) = mkNotifying (Some s) (i + k) ∧
  ∀ c, c ∈ ov.(ov_state).2 → c ∈ sg ∨ ∃ j, (i ≤ j < i + k)%nat ∧ default [] (ls.(ls_heap) !! s.(sl_array)) !! j = Some (Some c).
Proof.
  induction k as [|k IH]; intros i sg Hi; cbn [replicate foldl].
  - rewrite Nat.add_0_r. cbn. split; [done|]. split; [done|]. by left.
  - unfold overlap_step at 2 4 6, notify_turn. cbn [ov_notifying ov_state nt_slice nt_next fst snd]. rewrite (proj2 (Nat.ltb_lt _ _)) by lia.
    match goal with |- context [mkOverlap (_, ?x) _] => set (sg' := x) end.
    destruct (IH (S i) sg' ltac:(lia)) as (E1 & E2 & E3). split; [done|]. split; [by rewrite E2, Nat.add_succ_r|].
    intros c [Hc|(j & Hj & Hc)]%E3; [|right; exists j; split; [lia|done]]. subst sg'.
    destruct (default [] (ls_heap ls !! sl_array s) !! i) as [[c'|]|] eqn:Ei; [|by left|by left].
    apply elem_of_union in Hc as [->%elem_of_singleton|]; [|by left]. right. exists i. split; [lia|done].
Qed.

(** The array after the first of several channels is removed. *)
Lemma unregister_head ls t p s c1 m c2 : slice_at ls t p = Some s → elements ls.(ls_heap) s = Some <$> c1 :: m ++ [c2] → s.(sl_len) = S (S (length m)) →
  ∀ j c, (1 ≤ j < s.(sl_len))%nat → default [] ((unregister t p c1 ls).(ls_heap) !! s.(sl_array)) !! j = Some (Some c) → c ∈ m.
Proof.
  intros Es He Hl j c Hj. unfold slice_at in Es. unfold unregister. destruct (ls_map ls !! t) as [pMap|]; [|done]. cbn in Es. rewrite Es, He, find_Some, Hl.
  cbn [list_find fmap list_fmap]. rewrite decide_True by done. cbn [fmap option_fmap option_map prod_map ls_heap Nat.sub].
  rewrite lookup_insert_eq. cbn [default from_option id]. rewrite Hl in Hj.
  destruct (decide (j = S (length m))) as [->|Hne].
  - intros Hj'. apply list_lookup_insert_Some in Hj' as [(_ & [=] & _)|[]]. done.
  - rewrite list_lookup_insert_ne, list_lookup_insert_ne by (cbn; lia). unfold elements in He. intros Hc.
    assert (Hc' : (Some <$> c1 :: m ++ [c2]) !! j = Some (Some c)) by (rewrite <- He, lookup_take_lt by lia; done).
    rewrite list_lookup_fmap in Hc'. destruct j as [|j]; [lia|]. change (Some <$> (m ++ [c2]) !! j = Some (Some c)) in Hc'. rewrite lookup_app_l in Hc' by lia.
    destruct (m !! j) as [c'|] eqn:Em; [|done]. injection Hc' as ->. by apply list_elem_of_lookup_2 in Em.
Qed.

Lemma swap_remove_head c1 m c2 : swap_remove c1 (c1 :: m ++ [c2]) = Some (c2 :: m).
Proof.
  unfold swap_remove. cbn [list_find]. rewrite decide_True by done. rewrite app_comm_cons, last_snoc. cbn. f_equal.
  rewrite length_app. cbn. rewrite Nat.sub_0_r, Nat.add_1_r. cbn. f_equal. by apply take_app_length.
Qed.

(** A notification can miss a listener. When, between the first turn of the loop and
    the second, the first of two or more listeners is unregistered, the last one is moved
    to the place that the loop has passed. The loop goes on to the end of its slice, and
    the last listener, which was registered all the time, is not signalled. *)
Theorem notification_missed t p ls sg c1 m c2 : listeners_ok ls → listeners_on t p (values ls) = c1 :: m ++ [c2] → c2 ∉ c1 :: m → c2 ∉ sg →
  let ov := foldl overlap_step (overlap_begin t p (ls, sg)) (None :: Some (OpUnregister t p c1) :: replicate (S (length m)) None) in
  notify_turn ov.(ov_notifying) ov.(ov_state).1.(ls_heap) ov.(ov_state).2 = None ∧
  c2 ∈ listeners_on t p (values ov.(ov_state).1) ∧ c2 ∉ ov.(ov_state).2.
Proof.
  intros Hok Hon Hc Hsg ov. destruct (unregister_ok t p c1 ls Hok) as [_ Hv]. unfold listeners_on in *. rewrite Hon, swap_remove_head in Hv. rewrite values_lookup in Hon.
  destruct (slice_at ls t p) as [s|] eqn:Es; [|done]. cbn in Hon. destruct (elements_Some _ _ _ _ Hok Es) as [He Hl]. rewrite Hon in He, Hl.
  cbn in Hl. rewrite length_app, Nat.add_1_r in Hl.
  assert (E : foldl overlap_step (overlap_begin t p (ls, sg)) [None; Some (OpUnregister t p c1)] =
    mkOverlap (unregister t p c1 ls, {[c1]} ∪ sg) (mkNotifying (Some s) 1)).
  { unfold overlap_begin, notify_begin. cbn [fst]. fold (slice_at ls t p). rewrite Es. cbn [foldl]. unfold overlap_step at 2, notify_turn. cbn [ov_notifying ov_state nt_slice nt_next fst snd].
    rewrite (proj2 (Nat.ltb_lt _ _)) by lia.
    assert (Ha : default [] (ls_heap ls !! sl_array s) !! 0%nat = Some (Some c1)).
    { unfold elements in He. rewrite <- (lookup_take_lt _ (sl_len s)) by lia. by rewrite He. }
    by rewrite Ha. }
  subst ov. rewrite (foldl_app overlap_step [None; Some (OpUnregister t p c1)] (replicate (S (length m)) None)), E.
  destruct (turns_run (unregister t p c1 ls) s (S (length m)) 1 ({[c1]} ∪ sg) ltac:(lia)) as (E1 & E2 & E3). rewrite E1, E2. split_and!.
  - unfold notify_turn. cbn [nt_slice nt_next]. by rewrite (proj2 (Nat.ltb_ge _ _)) by lia.
  - rewrite Hv, put_lookup, decide_True by done. left.
  - intros [Hin|(j & Hj & Hin)]%E3; [set_solver|]. apply (unregister_head ls t p s c1 m c2 Es He ltac:(lia)) in Hin; [set_solver|lia].
Qed.

(** ** Instances *)

(** A broker as [New] builds it before any topic is there. *)
Definition idle_broker : Broker :=
  mkBroker sample_yaml [] None 0 [] (mkMetadataManager None ∅) NewGroupCoordinator (NewOffsetStore [] 1) NewPurgatory ∅ ∅ ∅ ∅ ∅ ∅.
Definition no_listeners : Listeners := mkListeners ∅ ∅.

Lemma no_listeners_ok : listeners_ok no_listeners.
Proof. constructor; by cbn. Qed.

(** Three channels of one partition; the array has room for two. *)
Definition sample_listeners : list listener_op :=
  [OpRegister 1 "orders" 0 7; OpRegister 1 "orders" 0 8; OpRegister 1 "orders" 0 9; OpRegister 0 "orders" 1 7].

Lemma sample_listeners_ok : listeners_ok (foldl slice_op (no_listeners, ∅) sample_listeners).1.
Proof. unfold sample_listeners. cbn [foldl]. repeat apply slice_op_ok. exact no_listeners_ok. Qed.

Lemma listener_slices_refine_witness : let ops := sample_listeners ++ [OpNotify "orders" 1; OpUnregister "orders" 0 7] in
  represents (foldl value_op idle_broker ops) (foldl slice_op (no_listeners, ∅) ops) ∧
  listeners_on "orders" 0 (b_listeners (foldl value_op idle_broker ops)) = [9%nat; 8%nat] ∧
  base.elements (b_signals (foldl value_op idle_broker ops)) = [7%nat].
Proof.
  split; [|by vm_compute]. apply (listener_slices_refine idle_broker (no_listeners, ∅)).
  split; [exact no_listeners_ok|by vm_compute].
Defined.

Lemma notification_reaches_listeners_witness :
  let st := foldl slice_op (no_listeners, ∅) sample_listeners in
  let events := [None; Some (OpRegister 5 "orders" 0 10); None; Some (OpUnregister "orders" 1 7); None] in
  let ov := foldl overlap_step (overlap_begin "orders" 0 st) events in
  listeners_on "orders" 0 (values st.1) = [7%nat; 8%nat; 9%nat] ∧
  notify_turn ov.(ov_notifying) ov.(ov_state).1.(ls_heap) ov.(ov_state).2 = None ∧
  ∀ c, c ∈ listeners_on "orders" 0 (values st.1) → c ∈ ov.(ov_state).2.
Proof.
  intros st events ov. split; [by vm_compute|]. apply (notification_reaches_listeners "orders" 0 st events).
  - exact sample_listeners_ok.
  - repeat constructor. discriminate.
  - vm_compute. lia.
Defined.

Lemma notification_missed_witness :
  let st := foldl slice_op (no_listeners, ∅) sample_listeners in
  let ov := foldl overlap_step (overlap_begin "orders" 0 st) [None; Some (OpUnregister "orders" 0 7); None; None] in
  notify_turn ov.(ov_notifying) ov.(ov_state).1.(ls_heap) ov.(ov_state).2 = None ∧
  9%nat ∈ listeners_on "orders" 0 (values ov.(ov_state).1) ∧ 9%nat ∉ ov.(ov_state).2.
Proof.
  apply (notification_missed "orders" 0 (foldl slice_op (no_listeners, ∅) sample_listeners).1 ∅ 7 [8%nat] 9).
  - exact sample_listeners_ok.
  - by vm_compute.
  - by_decide.
  - set_solver.
Defined.
