(* ===== verification/Handlers.v ===== *)
(** * The request handlers (src/internal/broker/broker.go)

    One definition per handler, from the decoded request to the response, and the mux
    they are registered in. A handler runs on its own except where it blocks: there the
    other handlers act in between, as arbitrary changes of the broker. *)
From Stdlib Require Import ZArith Lia Strings.Byte.
From stdpp Require Import base list strings gmap.
From S2P Require Import Prelude Files Decimal Record Index Segment PartitionLog Codec Frame Requests Responses Server Group Checkpoint Replication Config Topic Metadata Partition Offsets Broker.
Open Scope Z_scope.

Definition apiKeyProduce : Z := 0.
Definition apiKeyFetch : Z := 1.
Definition apiKeyMetadata : Z := 2.
Definition apiKeyCreateTopics : Z := 3.
Definition apiKeyJoinGroup : Z := 4.
Definition apiKeySyncGroup : Z := 5.
Definition apiKeyHeartbeat : Z := 6.
Definition apiKeyLeaveGroup : Z := 7.
Definition apiKeyOffsetCommit : Z := 8.
Definition apiKeyOffsetFetch : Z := 9.
Definition apiKeyListOffsets : Z := 10.
Definition apiKeyReplicaFetch : Z := 11.
Definition apiKeyApiVersions : Z := 12.

(** What one request gets from outside: readings per topic and partition of the
    request (partition [j] of topic [i] at [io_env i (S j)], the topic itself at
    [io_env i 0]), the waits for replicas, what happens during each round of a long
    poll, and during the wait of a group sync. *)
Record IO := mkIO {
  io_env : nat → nat → Env;
  io_wait : nat → nat → Wait;
  io_rounds : list (Broker → Broker);
  io_sync : Wait
}.

(** ** ApiVersions *)

Definition supported_versions : list ApiVersion :=
  ((λ k, mkApiVersion k 1 1) <$>
    [apiKeyProduce; apiKeyFetch; apiKeyMetadata; apiKeyCreateTopics; apiKeyJoinGroup; apiKeySyncGroup;
     apiKeyHeartbeat; apiKeyLeaveGroup; apiKeyOffsetCommit; apiKeyOffsetFetch; apiKeyListOffsets; apiKeyReplicaFetch])
  ++ [mkApiVersion apiKeyApiVersions 0 0].

(** ** Produce *)

(** [for buf.Len() > 0]: the records, and whether one was corrupt. Every turn takes
    bytes off the buffer. *)
Fixpoint decode_record_set (fuel : nat) (buf : bytes) : list record * bool :=
  match fuel, buf with
  | S fuel, _ :: _ =>
      match DecodeRecord buf with
      | ((_, Err err), _) => ([], negb (errors_Is err EOF))
      | ((_, Ok rec), buf) => let '(records, corrupt) := decode_record_set fuel buf in (rec :: records, corrupt)
      end
  | _, _ => ([], false)
  end.

Definition mod_time (e : Env) (b : Broker) (name : string) (id : Z) : string → Z :=
  e.(e_ModTime) (match partition_dir b.(b_dataDir) name id with Ok dir => dir | Err _ => [] end).

(** The part after an accepted batch: the watermark, the waiting producers, the
    listeners. The result is the log end offset. *)
Definition after_append (e : Env) (name : string) (id : Z) (pObj : Partition) (b : Broker) : Z * Broker :=
  let leaderLEO := LogEndOffset pObj in
  let '(hw, b) := updateLeaderLEO e name id leaderLEO b in
  let b := set_partition name id (SetHighWatermark hw pObj) b in
  let b := set_purgatory (CheckAndComplete (e.(e_items) b.(b_purgatory).(pg_items)) name id hw b.(b_purgatory)) b in
  (leaderLEO, notifyAppended name id b).

(** A partition of the request: its response and, when it has to wait for replicas,
    the watermark it needs. *)
Definition produce_partition (e : Env) (acks : Z) (name : string) (topicErr : option error)
    (pReq : ProduceRequestPartition) (b : Broker) : (ProduceResponsePartition * option Z) * Broker :=
  let id := pReq.(prp_PartitionID) in
  let fail code := (mkProduceResponsePartition id code 0 0, None) in
  match topicErr with
  | Some err =>
      (fail (if errors_Is err ErrInvalidTopicName then ErrInvalidTopicException else ErrUnknownTopicOrPartition), b)
  | None =>
      match get_partition name id b with
      | None => (fail ErrUnknownTopicOrPartition, b)
      | Some pObj =>
          let '(leads, b) := isLeader name id b in
          if negb leads then (fail ErrNotLeaderForPartition, b)
          else
            let '(enough, b) :=
              if acks =? -1 then
                let '(tracker, b) := getOrCreateISRTracker e name id b in
                (negb (zlen (GetISR e.(e_replicas) tracker) <? minInsyncReplicas b), b)
              else (true, b) in
            let maxBytes := b.(b_config).(cfg_Log).(lc_MaxMessageBytes) in
            if negb enough then (fail ErrNotEnoughReplicas, b)
            else if (0 <? maxBytes) && (maxBytes <? zlen pReq.(prp_RecordSet)) then (fail ErrMessageTooLarge, b)
            else
              let '(records, corrupt) := decode_record_set (length pReq.(prp_RecordSet)) pReq.(prp_RecordSet) in
              if corrupt then (fail ErrCorruptMessage, b)
              else match records with
              | [] => (fail ErrNone, b)
              | _ =>
                  let '((baseOffset, appendErr), pObj) :=
                    Partition_AppendBatch (mod_time e b name id) e.(e_now) (Some <$> records) pObj in
                  let b := set_partition name id pObj b in
                  match appendErr with
                  | Some _ => (fail ErrUnknown, b)
                  | None =>
                      let '(leaderLEO, b) := after_append e name id pObj b in
                      ((mkProduceResponsePartition id ErrNone baseOffset e.(e_nowMs),
                        if acks =? -1 then Some leaderLEO else None), b)
                  end
              end
      end
  end.

Definition produce_topic (env : nat → Env) (acks : Z) (tReq : ProduceRequestTopic) (b : Broker) :
    list (ProduceResponsePartition * option Z) * Broker :=
  let '(r, b) := getOrCreateTopic (env 0%nat) tReq.(prt_Name) 0 b in
  imap_state (λ j, produce_partition (env (S j)) acks tReq.(prt_Name) (match r with Err err => Some err | Ok _ => None end))
    0 tReq.(prt_Partitions) b.

(** Phase 2: the waits of the pending partitions and the codes of those that failed. *)
Definition produce_wait (e : Env) (w : Wait) (name : string) (p : ProduceResponsePartition * option Z) (b : Broker) :
    ProduceResponsePartition * Broker :=
  let '(resp, pending) := p in
  match pending with
  | None => (resp, b)
  | Some requiredHW =>
      match waitForAcksAll e w name resp.(psp_PartitionID) requiredHW b with
      | (None, b) => (resp, b)
      | (Some waitErr, b) =>
          let code := if errors_Is waitErr errProduceTimeout then ErrRequestTimedOut else ErrNotEnoughReplicas in
          (mkProduceResponsePartition resp.(psp_PartitionID) code resp.(psp_BaseOffset) resp.(psp_LogAppendTime), b)
      end
  end.

Definition handleProduce (io : IO) (req : ProduceRequest) (b : Broker) : ProduceResponse * Broker :=
  let '(parts, b) := imap_state (λ i, produce_topic (io.(io_env) i) req.(prq_Acks)) 0 req.(prq_Topics) b in
  let '(topics, b) :=
    imap_state (λ i '(tReq, ps) b,
        let '(ps, b) := imap_state (λ j, produce_wait (io.(io_env) i (S j)) (io.(io_wait) i j) tReq.(prt_Name)) 0 ps b in
        (mkProduceResponseTopic tReq.(prt_Name) ps, b))
      0 (zip req.(prq_Topics) parts) b in
  (mkProduceResponse topics, b).

(** ** Fetch *)

Definition fetch_targets (req : FetchRequest) : list fetchTarget :=
  tReq ← req.(frq_Topics);
  pReq ← tReq.(frt_Partitions);
  [mkFetchTarget tReq.(frt_Name) pReq.(frp_PartitionID) pReq.(frp_FetchOffset)].

(** A channel that is not registered anywhere. *)
Definition fresh_listener (b : Broker) : nat :=
  fresh (map_fold (λ _ pMap acc, map_fold (λ _ l, (list_to_set l ∪.)) acc pMap) b.(b_signals) b.(b_listeners)).

(** The loop: each element of [rounds] is a select that another handler or the timer
    ended; after the last one the deadline has passed. *)
Fixpoint poll_loop (targets : list fetchTarget) (notifyCh : nat) (rounds : list (Broker → Broker)) (b : Broker) :
    Broker :=
  if existsb (λ t, fetchTargetHasNewData t b) targets then b
  else match rounds with
  | [] => b
  | meanwhile :: rounds =>
      let b := meanwhile b in
      poll_loop targets notifyCh rounds (set_signals (b.(b_signals) ∖ {[notifyCh]}) b)
  end.

Definition long_poll (rounds : list (Broker → Broker)) (req : FetchRequest) (b : Broker) : Broker :=
  let targets := fetch_targets req in
  if (0 <? req.(frq_MaxWaitMs)) && negb (bool_decide (targets = [])) then
    let notifyCh := fresh_listener b in
    let b := foldl (λ b t, registerListenerOn t.(ft_topic) t.(ft_partitionID) notifyCh b) b targets in
    let b := poll_loop targets notifyCh rounds b in
    foldl (λ b t, unregisterListener t.(ft_topic) t.(ft_partitionID) notifyCh b) b targets
  else b.

(** The records up to the watermark, encoded one after the other. *)
Fixpoint encode_below (hw : Z) (records : list record) (recordBuf : bytes) : result bytes :=
  match records with
  | [] => Ok recordBuf
  | r :: records =>
      if hw <=? r.(rec_Offset) then Ok recordBuf
      else match Encode (Some r) recordBuf with
      | (Err err, _) => Err err
      | (Ok _, recordBuf) => encode_below hw records recordBuf
      end
  end.

Definition fetch_partition (name : string) (pReq : FetchRequestPartition) (b : Broker) :
    FetchResponsePartition * Broker :=
  let id := pReq.(frp_PartitionID) in
  match get_partition name id b with
  | None => (mkFetchResponsePartition id ErrUnknownTopicOrPartition 0 0 [], b)
  | Some pObj =>
      let hw := pObj.(pt_highWatermark) in
      let resp code set := mkFetchResponsePartition id code hw (LogStartOffset pObj) set in
      if hw <=? pReq.(frp_FetchOffset) then (resp ErrNone [], b)
      else
        let '((records, err), pObj) := Partition_ReadFrom pReq.(frp_FetchOffset) pReq.(frp_MaxBytes) pObj in
        let b := set_partition name id pObj b in
        if match err with Some err => negb (errors_Is err EOF) | None => false end then (resp ErrUnknown [], b)
        else match encode_below hw records [] with
        | Err _ => (resp ErrUnknown [], b)
        | Ok set => (resp ErrNone set, b)
        end
  end.

Definition fetch_topic (tReq : FetchRequestTopic) (b : Broker) : FetchResponseTopic * Broker :=
  let '(ps, b) := map_state (fetch_partition tReq.(frt_Name)) 0 tReq.(frt_Partitions) b in
  (mkFetchResponseTopic tReq.(frt_Name) ps, b).

Definition handleFetch (io : IO) (req : FetchRequest) (b : Broker) : FetchResponse * Broker :=
  let b := long_poll io.(io_rounds) req b in
  let '(topics, b) := map_state fetch_topic 0 req.(frq_Topics) b in
  (mkFetchResponse topics, b).

(** ** Metadata *)

Definition clusterBrokerMetadata (b : Broker) : list BrokerMetadata :=
  match b.(b_config).(cfg_Brokers) with
  | [] => [mkBrokerMetadata b.(b_localID) b.(b_config).(cfg_Broker).(bc_Host) (int32 b.(b_config).(cfg_Broker).(bc_Port))]
  | brokers => (λ br, mkBrokerMetadata (int32 br.(cb_ID)) br.(cb_Host) (int32 br.(cb_Port))) <$> brokers
  end.

Definition partition_metadata (e : Env) (b : Broker) (name : string) (pID : Z) : PartitionMetadata :=
  mkPartitionMetadata pID (partitionLeader name pID b) b.(b_replicaIDs)
    (match getISRTracker name pID b with
     | Some tracker => GetISR e.(e_replicas) tracker
     | None => b.(b_replicaIDs)
     end).

(** The result is [None] when [make] panics on a negative number of partitions. *)
Definition metadata_topic (e : Env) (topicName : string) (b : Broker) : option TopicMetadata * Broker :=
  let '(tm, b) :=
    match GetTopic topicName b.(b_metaManager) with
    | Some tm => (Some tm, b)
    | None =>
        if b.(b_config).(cfg_Topic).(tc_AutoCreate) then
          match getOrCreateTopic e topicName 0 b with
          | (Ok _, b) => (GetTopic topicName b.(b_metaManager), b)
          | (Err _, b) => (None, b)
          end
        else (None, b)
    end in
  match tm with
  | None => (Some (mkTopicMetadata topicName ErrUnknownTopicOrPartition []), b)
  | Some tm =>
      if tm.(tmt_NumPartitions) <? 0 then (None, b)
      else (Some (mkTopicMetadata topicName ErrNone
                   (partition_metadata e b topicName <$> seqZ 0 tm.(tmt_NumPartitions))), b)
  end.

(** The loop over the topics stops at a panic. *)
Fixpoint metadata_topics (env : nat → Env) (i : nat) (names : list string) (b : Broker) :
    option (list TopicMetadata) * Broker :=
  match names with
  | [] => (Some [], b)
  | name :: names =>
      match metadata_topic (env i) name b with
      | (None, b) => (None, b)
      | (Some tm, b) => let '(tms, b) := metadata_topics env (S i) names b in (cons tm <$> tms, b)
      end
  end.

Definition handleMetadata (io : IO) (req : MetadataRequest) (b : Broker) : option MetadataResponse * Broker :=
  let brokersMeta := clusterBrokerMetadata b in
  let targetTopics :=
    match req.(mdq_Topics) with
    | None => tmt_Name <$> ListTopics (io.(io_env) 0%nat 0%nat).(e_metas) b.(b_metaManager)
    | Some topics => topics
    end in
  let '(topicMetas, b) := metadata_topics (λ i, io.(io_env) i 1%nat) 0 targetTopics b in
  (mkMetadataResponse brokersMeta <$> topicMetas, b).

(** ** CreateTopics *)

Definition create_topic (e : Env) (tReq : CreateTopicsRequestTopic) (b : Broker) : CreateTopicResponseTopic * Broker :=
  let name := tReq.(ctt_Name) in
  let resp code := mkCreateTopicResponseTopic name code in
  match validateTopicName b.(b_dataDir) name with
  | Err _ => (resp ErrInvalidTopicException, b)
  | Ok _ =>
      if tReq.(ctt_NumPartitions) <=? 0 then (resp ErrInvalidPartitionCount, b)
      else match CreateTopic e.(e_writeOk) name tReq.(ctt_NumPartitions) tReq.(ctt_ReplicationFactor) b.(b_metaManager) with
      | (Err _, mm) => (resp ErrUnknown, set_metaManager mm b)
      | (Ok (_, false), mm) => (resp ErrTopicAlreadyExists, set_metaManager mm b)
      | (Ok (_, true), mm) =>
          match open_topic e name tReq.(ctt_NumPartitions) (set_metaManager mm b) with
          | (Err err, b) =>
              (resp (if errors_Is err ErrInvalidTopicName then ErrInvalidTopicException else ErrUnknown), b)
          | (Ok _, b) => (resp ErrNone, b)
          end
      end
  end.

Definition handleCreateTopics (io : IO) (req : CreateTopicsRequest) (b : Broker) : CreateTopicsResponse * Broker :=
  let '(topics, b) := imap_state (λ i, create_topic (io.(io_env) i 0%nat)) 0 req.(ctq_Topics) b in
  (mkCreateTopicsResponse topics, b).

(** ** Groups and offsets *)

Definition handleJoinGroup (io : IO) (clientID : string) (req : JoinGroupRequest) (b : Broker) :
    JoinGroupResponse * Broker :=
  let e := io.(io_env) 0%nat 0%nat in
  let '(resp, gc) := JoinGroup e.(e_now) e.(e_rnd) e.(e_members) e.(e_members2) req clientID b.(b_coordinator) in
  (resp, set_coordinator gc b).

(** A member that has to wait gets its assignment from the leader's sync or times out. *)
Definition handleSyncGroup (io : IO) (req : SyncGroupRequest) (b : Broker) : SyncGroupResponse * Broker :=
  let e := io.(io_env) 0%nat 0%nat in
  match SyncGroup e.(e_now) e.(e_members) req b.(b_coordinator) with
  | (inl resp, gc) => (resp, set_coordinator gc b)
  | (inr ch, gc) =>
      let b := io.(io_sync).(w_meanwhile) (set_coordinator gc b) in
      match sync_receive ch b.(b_coordinator) with
      | Some (resp, gc) => if io.(io_sync).(w_timer) then (sync_timeout, b) else (resp, set_coordinator gc b)
      | None => (sync_timeout, b)
      end
  end.

Definition handleHeartbeat (io : IO) (req : HeartbeatRequest) (b : Broker) : HeartbeatResponse * Broker :=
  let '(resp, gc) := Heartbeat (io.(io_env) 0%nat 0%nat).(e_now) req b.(b_coordinator) in (resp, set_coordinator gc b).

Definition handleLeaveGroup (io : IO) (req : LeaveGroupRequest) (b : Broker) : LeaveGroupResponse * Broker :=
  let '(resp, gc) := LeaveGroup (io.(io_env) 0%nat 0%nat).(e_members) req b.(b_coordinator) in (resp, set_coordinator gc b).

Definition commit_partition (e : Env) (groupID name : string) (p : OffsetCommitRequestPartition) (b : Broker) :
    OffsetCommitResponsePartition * Broker :=
  (mkOffsetCommitResponsePartition p.(ocp_PartitionID) ErrNone,
   set_offsetStore (Commit (e.(e_ModTime) []) e.(e_now) e.(e_nowMs) groupID name p.(ocp_PartitionID) p.(ocp_Offset)
                      b.(b_offsetStore)) b).
Definition commit_topic (env : nat → Env) (groupID : string) (t : OffsetCommitRequestTopic) (b : Broker) :
    OffsetCommitResponseTopic * Broker :=
  let '(ps, b) := imap_state (λ j, commit_partition (env j) groupID t.(oct_Name)) 0 t.(oct_Partitions) b in
  (mkOffsetCommitResponseTopic t.(oct_Name) ps, b).
Definition handleOffsetCommit (io : IO) (req : OffsetCommitRequest) (b : Broker) : OffsetCommitResponse * Broker :=
  let '(topics, b) := imap_state (λ i, commit_topic (io.(io_env) i) req.(ocq_GroupID)) 0 req.(ocq_Topics) b in
  (mkOffsetCommitResponse topics, b).

Definition handleOffsetFetch (req : OffsetFetchRequest) (b : Broker) : OffsetFetchResponse * Broker :=
  (mkOffsetFetchResponse
     ((λ t, mkOffsetFetchResponseTopic t.(oft_Name)
              ((λ pID, mkOffsetFetchResponsePartition pID (Fetch req.(ofq_GroupID) t.(oft_Name) pID b.(b_offsetStore)) ErrNone)
                 <$> t.(oft_Partitions)))
        <$> req.(ofq_Topics)), b).

(** ** ListOffsets *)

Definition list_offset (b : Broker) (name : string) (p : ListOffsetsRequestPartition) : ListOffsetsResponsePartition :=
  match get_partition name p.(lop_PartitionID) b with
  | None => mkListOffsetsResponsePartition p.(lop_PartitionID) ErrUnknownTopicOrPartition (-1)
  | Some part =>
      let offset := if p.(lop_Timestamp) =? -1 then LogEndOffset part
                    else if p.(lop_Timestamp) =? -2 then LogStartOffset part
                    else LogEndOffset part in
      mkListOffsetsResponsePartition p.(lop_PartitionID) ErrNone offset
  end.
Definition handleListOffsets (req : ListOffsetsRequest) (b : Broker) : ListOffsetsResponse * Broker :=
  (mkListOffsetsResponse
     ((λ t, mkListOffsetsResponseTopic t.(lot_Name) (list_offset b t.(lot_Name) <$> t.(lot_Partitions))) <$> req.(loq_Topics)), b).

(** ** ReplicaFetch *)

Definition replicaMaxBytes (b : Broker) : Z :=
  let m := b.(b_config).(cfg_Replication).(rc_ReplicaFetchMaxBytes) in if m <=? 0 then 1024 * 1024 else m.

(** The high watermark and the records, or the code of the error frame. *)
Definition replica_fetch (e1 e2 : Env) (req : ReplicaFetchRequest) (b : Broker) : (Z + Z * list record) * Broker :=
  let name := req.(rfq_Topic) in
  let id := req.(rfq_Partition) in
  match get_partition name id b with
  | None => (inl ErrUnknownTopicOrPartition, b)
  | Some p =>
      let '(leads, b) := isLeader name id b in
      if negb leads then (inl ErrNotLeaderForPartition, b)
      else
        let '((records, err), p) := Partition_ReadFrom req.(rfq_FetchOffset) (replicaMaxBytes b) p in
        let b := set_partition name id p b in
        if match err with Some err => negb (errors_Is err EOF) | None => false end then (inl ErrUnknown, b)
        else
          let leaderLEO := LogEndOffset p in
          let followerLEO := match last records with Some r => int64 (r.(rec_Offset) + 1) | None => req.(rfq_FetchOffset) end in
          let '(_, b) := updateLeaderLEO e1 name id leaderLEO b in
          let '(hw, b) := updateReplicaLEO e2 name id req.(rfq_ReplicaID) followerLEO leaderLEO b in
          let b := set_partition name id (SetHighWatermark hw p) b in
          (inr (hw, records),
           set_purgatory (CheckAndComplete (e2.(e_items) b.(b_purgatory).(pg_items)) name id hw b.(b_purgatory)) b)
  end.

(** ** Frames *)

Definition frame (code : Z) (payload : bytes) : outcome := Returned (Some (mkResponseFrame 0 0 code payload)).

(** A handler that decodes its request and encodes its response: an undecodable
    request is answered with [ErrUnknown], a response that cannot be encoded is an
    error. [None] stands for a panic. *)
Definition handle_panics {A B} `{Wire A, Wire B} (f : A → Broker → option B * Broker) (req : RequestFrame) (b : Broker) :
    outcome * Broker :=
  match unmarshal req.(rqf_Payload) with
  | Err _ => (frame ErrUnknown [], b)
  | Ok a =>
      match f a b with
      | (None, b) => (Panicked, b)
      | (Some resp, b) => (match marshal resp with Ok body => frame 0 body | Err _ => Failed None end, b)
      end
  end.
Definition handle_with {A B} `{Wire A, Wire B} (f : A → Broker → B * Broker) : RequestFrame → Broker → outcome * Broker :=
  handle_panics (λ a b, let '(resp, b) := f a b in (Some resp, b)).

Definition handleApiVersions (req : RequestFrame) (b : Broker) : outcome * Broker :=
  (match marshal (mkApiVersionsResponse supported_versions) with Ok body => frame 0 body | Err _ => Failed None end, b).

Definition handleReplicaFetch (io : IO) (req : RequestFrame) (b : Broker) : outcome * Broker :=
  match DecodeReplicaFetchRequest req.(rqf_Payload) with
  | Err _ => (frame ErrUnknown [], b)
  | Ok replicaReq =>
      match replica_fetch (io.(io_env) 0%nat 0%nat) (io.(io_env) 0%nat 1%nat) replicaReq b with
      | (inl code, b) => (frame code [], b)
      | (inr (hw, records), b) =>
          (match EncodeReplicaFetchResponse 0 hw (Some <$> records) with
           | Ok payload => frame 0 payload
           | Err _ => Failed None
           end, b)
      end
  end.

(** The handlers by api key. *)
Definition broker_handler (io : IO) (apiKey : Z) : option (RequestFrame → Broker → outcome * Broker) :=
  if apiKey =? apiKeyApiVersions then Some handleApiVersions
  else if apiKey =? apiKeyProduce then Some (handle_with (handleProduce io))
  else if apiKey =? apiKeyFetch then Some (handle_with (handleFetch io))
  else if apiKey =? apiKeyMetadata then Some (handle_panics (handleMetadata io))
  else if apiKey =? apiKeyCreateTopics then Some (handle_with (handleCreateTopics io))
  else if apiKey =? apiKeyJoinGroup then Some (λ req, handle_with (handleJoinGroup io req.(rqf_ClientID)) req)
  else if apiKey =? apiKeySyncGroup then Some (handle_with (handleSyncGroup io))
  else if apiKey =? apiKeyHeartbeat then Some (handle_with (handleHeartbeat io))
  else if apiKey =? apiKeyLeaveGroup then Some (handle_with (handleLeaveGroup io))
  else if apiKey =? apiKeyOffsetCommit then Some (handle_with (handleOffsetCommit io))
  else if apiKey =? apiKeyOffsetFetch then Some (handle_with handleOffsetFetch)
  else if apiKey =? apiKeyListOffsets then Some (handle_with handleListOffsets)
  else if apiKey =? apiKeyReplicaFetch then Some (handleReplicaFetch io)
  else None.

(** The mux of [New]: the state counts the requests, each with its own inputs. *)
Definition registered (io : nat → IO) (apiKey : Z) : @HandlerFunc (nat * Broker) := λ req '(n, b),
  match broker_handler (io n) apiKey with
  | Some h => let '(out, b) := h req b in (out, (S n, b))
  | None => (Panicked, (S n, b))
  end.
Definition broker_mux (io : nat → IO) : @Mux (nat * Broker) :=
  foldr (λ apiKey, Handle apiKey (registered io apiKey)) (NewMux true)
    [apiKeyApiVersions; apiKeyProduce; apiKeyFetch; apiKeyMetadata; apiKeyCreateTopics; apiKeyJoinGroup;
     apiKeySyncGroup; apiKeyHeartbeat; apiKeyLeaveGroup; apiKeyOffsetCommit; apiKeyOffsetFetch; apiKeyListOffsets;
     apiKeyReplicaFetch].
