(* ===== verification/BrokerInv.v ===== *)
(** * The broker's invariant (src/internal/broker)

    What holds of a broker between any two actions of its handlers, whichever clients
    and followers are talking to it. *)
From Stdlib Require Import ZArith Lia Strings.Byte.
From stdpp Require Import base list strings gmap.
From S2P Require Import Prelude Files Decimal Record Index Segment PartitionLog Retention LogFacts Codec Frame Requests Responses Server Group Checkpoint Replication Config Json Topic Metadata Partition Offsets Broker Handlers.
Open Scope Z_scope.

(** ** Trackers *)

(** [loc] is this broker, [L] the log end offset of the partition. *)
Record tracker_ok (L loc leader : Z) (t : ISRTracker) : Prop := {
  tk_leader : t.(isr_leaderID) = leader;
  tk_hw : 0 ≤ t.(isr_highWatermark) ≤ L;
  tk_reps id rep : t.(isr_replicas) !! id = Some rep → rep.(rep_BrokerID) = id ∧ 0 ≤ rep.(rep_LogEndOffset);
  tk_own rep : t.(isr_replicas) !! loc = Some rep → rep.(rep_LogEndOffset) ≤ L
}.

Lemma tracker_ok_mono L L' loc leader t : L ≤ L' → tracker_ok L loc leader t → tracker_ok L' loc leader t.
Proof. intros HL [H1 H2 H3 H4]. constructor; [done|lia|done|]. intros rep Hr. specialize (H4 rep Hr). lia. Qed.

Lemma tracker_new_replicas ids now : ∀ (reps : gmap Z ReplicaState) id rep,
  foldl (λ reps id, <[id := mkReplicaState id 0 now true]> reps) reps ids !! id = Some rep →
  reps !! id = Some rep ∨ rep = mkReplicaState id 0 now true.
Proof.
  induction ids as [|i ids IH]; intros reps id rep H; simpl in *; [by left|].
  destruct (IH _ _ _ H) as [H'|]; [|by right].
  apply lookup_insert_Some in H' as [[-> <-]|[_ ?]]; auto.
Qed.

Lemma NewISRTracker_ok now topic p leader ids lag L loc : 0 ≤ L →
  tracker_ok L loc leader (NewISRTracker now None topic p leader ids lag).
Proof.
  intros HL. constructor; simpl; [done|lia| |]; [intros id rep H|intros rep H];
    apply tracker_new_replicas in H as [H| ->]; simpl; rewrite ?lookup_empty in *; done.
Qed.

Lemma advance_leo_ok now id leo t : (∀ k rep, t.(isr_replicas) !! k = Some rep → rep.(rep_BrokerID) = k ∧ 0 ≤ rep.(rep_LogEndOffset)) →
  0 ≤ leo → (advance_leo now id leo t).(rep_BrokerID) = id ∧ 0 ≤ (advance_leo now id leo t).(rep_LogEndOffset) ∧
  ((advance_leo now id leo t).(rep_LogEndOffset) = leo ∨
   ∃ rep, t.(isr_replicas) !! id = Some rep ∧ (advance_leo now id leo t).(rep_LogEndOffset) = rep.(rep_LogEndOffset)).
Proof.
  intros Hr Hl. unfold advance_leo. destruct (_ !! id) as [rep|] eqn:E; [|simpl; auto].
  destruct (Hr id rep E). destruct (_ <? leo); simpl; eauto 6.
Qed.

Lemma touched_ok now id leo leaderLEO t :
  (touched now id leo leaderLEO t).(rep_BrokerID) = (advance_leo now id leo t).(rep_BrokerID) ∧
  (touched now id leo leaderLEO t).(rep_LogEndOffset) = (advance_leo now id leo t).(rep_LogEndOffset).
Proof. unfold touched. cbv zeta. by destruct (_ <=? _). Qed.

(** The leader is in sync, so the watermark does not pass its log end. *)
Lemma UpdateLEO_ok now iter `{ReplicaOrder iter} id leo leaderLEO L loc t : tracker_ok L loc loc t →
  0 ≤ leo → (id = loc → leo ≤ L) → (id = loc ∨ is_Some (t.(isr_replicas) !! loc)) →
  tracker_ok L loc loc (UpdateLEO now iter id leo leaderLEO t).2 ∧
  is_Some ((UpdateLEO now iter id leo leaderLEO t).2.(isr_replicas) !! loc).
Proof.
  intros [Hl Hh Hr Ho] H0 Hid Hsome.
  destruct (advance_leo_ok now id leo t Hr H0) as (A1 & A2 & A3).
  destruct (touched_ok now id leo leaderLEO t) as [T1 T2].
  rewrite UpdateLEO_eq. set (reps := <[id := touched now id leo leaderLEO t]> (isr_replicas t)).
  assert (Hr1 : ∀ k rep, reps !! k = Some rep → rep.(rep_BrokerID) = k ∧ 0 ≤ rep.(rep_LogEndOffset)).
  { intros k rep [[<- <-]|[_ ?]]%lookup_insert_Some; [by rewrite T1, T2|by apply Hr]. }
  assert (Ho1 : ∃ rep, reps !! loc = Some rep ∧ rep.(rep_LogEndOffset) ≤ L).
  { unfold reps. destruct (decide (id = loc)) as [->|Hne].
    - rewrite lookup_insert_eq. eexists. split; [done|]. rewrite T2.
      destruct A3 as [->|(rep & Hrep & ->)]; [by apply Hid|by apply Ho].
    - rewrite lookup_insert_ne by done. destruct Hsome as [?|[rep Hrep]]; [done|]. eauto. }
  destruct Ho1 as (own & Hown & HownL).
  set (t1 := updateISRLocked now (set_replicas reps t)).
  assert (E1 : isr_replicas t1 = (λ rep, mkReplicaState rep.(rep_BrokerID) rep.(rep_LogEndOffset) rep.(rep_LastCaughtUpTime)
      (bool_decide (rep.(rep_BrokerID) = t.(isr_leaderID)) ||
       negb (DurationMs t.(isr_replicaLagTimeMaxMs) <? time_Sub now rep.(rep_LastCaughtUpTime)))) <$> reps) by done.
  assert (Hr2 : ∀ k rep, isr_replicas t1 !! k = Some rep → rep.(rep_BrokerID) = k ∧ 0 ≤ rep.(rep_LogEndOffset) ∧
    (k = loc → rep.(rep_LogEndOffset) ≤ L ∧ rep.(rep_InSync) = true)).
  { intros k rep Hk. rewrite E1, lookup_fmap_Some in Hk. destruct Hk as (rep0 & <- & Hk).
    destruct (Hr1 k rep0 Hk). simpl. split_and!; [done|done|]. intros ->. rewrite Hk in Hown. injection Hown as ->.
    split; [done|]. by rewrite bool_decide_true by congruence. }
  assert (Hown2 : is_Some (isr_replicas t1 !! loc)) by (rewrite E1, lookup_fmap, Hown; by eexists).
  assert (Hmin : min_leo (iter (isr_replicas t1)) ≤ L).
  { destruct Hown2 as [rep Hrep]. destruct (Hr2 loc rep Hrep) as (_ & _ & Hx). destruct (Hx eq_refl) as [HL Hs].
    etrans; [|exact HL]. apply min_leo_le; [| |done].
    - apply Forall_forall. intros r. rewrite (replica_order (isr_replicas t1)), list_elem_of_fmap.
      intros ([k r'] & -> & Hk%elem_of_map_to_list). by apply (Hr2 k).
    - rewrite (replica_order (isr_replicas t1)), list_elem_of_fmap. exists (loc, rep). by rewrite elem_of_map_to_list. }
  assert (Ht1 : isr_leaderID t1 = isr_leaderID t ∧ isr_highWatermark t1 = isr_highWatermark t) by done.
  assert (Hcase : isr_highWatermark t1 < min_leo (iter (isr_replicas t1)) → 0 ≤ min_leo (iter (isr_replicas t1)) ≤ L)
    by (destruct Ht1; lia).
  unfold calculateHWLocked. cbv zeta. destruct (Z.ltb_spec (isr_highWatermark t1) (min_leo (iter (isr_replicas t1)))); cbn [set_hw isr_replicas isr_leaderID isr_highWatermark];
    (split; [|done]); constructor; simpl; try done; try (by apply Hcase); try (intros k rep Hk; destruct (Hr2 k rep Hk) as (? & ? & _); done);
    intros rep Hk; by apply Hr2 in Hk as (_ & _ & [? _]).
Qed.

(** ** Partitions and trackers of a broker *)

Lemma get_partition_set n i p n' i' b : is_Some (b.(b_topics) !! n) →
  get_partition n' i' (set_partition n i p b) =
    if bool_decide (n' = n ∧ i' = i) then Some p else get_partition n' i' b.
Proof.
  intros [t Ht]. unfold get_partition, set_partition, GetPartition. rewrite Ht. simpl.
  destruct (decide (n' = n)) as [->|Hn].
  - rewrite lookup_insert_eq, Ht. simpl. destruct (decide (i' = i)) as [->|Hi].
    + by rewrite lookup_insert_eq, bool_decide_true.
    + rewrite lookup_insert_ne by done. by rewrite bool_decide_false by tauto.
  - rewrite lookup_insert_ne by done. by rewrite bool_decide_false by tauto.
Qed.

Lemma get_partition_topic n i b p : get_partition n i b = Some p →
  ∃ t, b.(b_topics) !! n = Some t ∧ t.(tp_Partitions) !! i = Some p.
Proof. unfold get_partition, GetPartition. destruct (_ !! n) as [t|]; [|done]. eauto. Qed.

Lemma getISRTracker_set n i t n' i' b :
  getISRTracker n' i' (set_tracker n i t b) = if bool_decide (n' = n ∧ i' = i) then Some t else getISRTracker n' i' b.
Proof.
  unfold getISRTracker, set_tracker. simpl. destruct (decide (n' = n)) as [->|Hn].
  - rewrite lookup_insert_eq. simpl. destruct (decide (i' = i)) as [->|Hi].
    + by rewrite lookup_insert_eq, bool_decide_true.
    + rewrite lookup_insert_ne by done. rewrite bool_decide_false by tauto. by destruct (_ !! n).
  - rewrite lookup_insert_ne by done. by rewrite bool_decide_false by tauto.
Qed.

Definition leo (b : Broker) (name : string) (id : Z) : Z :=
  match get_partition name id b with Some p => LogEndOffset p | None => 0 end.

(** ** Invariant *)

(** A partition between two appends: the writer is idle, the log is good and has all
    its files open, and the watermark is within the log. *)
Record part_ok (cfg : Config) (name : string) (id : Z) (p : Partition) : Prop := {
  po_name : p.(pt_Topic) = name;
  po_id : p.(pt_ID) = id;
  po_idle : p.(pt_appendCh) = [] ∧ p.(pt_closeCh) = false ∧ p.(pt_writer) = Serving;
  po_log : ∃ f b rs, log_view f p.(pt_log) b rs;
  po_dir : p.(pt_log).(log_dir) = ∅;
  po_cfg : p.(pt_log).(log_config) = withDefaults cfg;
  po_hw : 0 ≤ p.(pt_highWatermark) ≤ LogEndOffset p
}.

(** A topic is one of the metadata, with all its partitions. *)
Definition topic_ok (b : Broker) (name : string) (t : Topic) : Prop :=
  t.(tp_Name) = name ∧ validateTopicName b.(b_dataDir) name = Ok tt ∧
  ∃ m, b.(b_metaManager).(mm_topics) !! name = Some m ∧
    ∀ id, is_Some (t.(tp_Partitions) !! id) ↔ 0 ≤ id < m.(tmt_NumPartitions).

(** What is in the directory of a partition that is not open, and that it can be opened. *)
Definition dir_at (disk : Disk) (dir : list string) : Dir := default ∅ (disk !! dir).
Definition disk_ok (cfg : Config) (disk : Disk) : Prop := ∀ dir, ∃ o rs, dir_holds cfg (dir_at disk dir) o rs.

(** The partitions of the offset store. *)
Definition offset_partitions (cfg : AppConfig) : Z :=
  let n := cfg.(cfg_Group).(gcf_OffsetsTopicPartitions) in if n <=? 0 then 50 else n.

Record broker_inv (b : Broker) : Prop := {
  bi_cfg : config_ok (withDefaults (storageConfig b));
  bi_checkpoint : b.(b_checkpoint) = None;
  bi_meta : persisted b.(b_metaManager);
  bi_topic name t : b.(b_topics) !! name = Some t → topic_ok b name t;
  bi_part name id p : get_partition name id b = Some p → part_ok (storageConfig b) name id p;
  bi_tracker name id t : getISRTracker name id b = Some t →
    tracker_ok (leo b name id) b.(b_localID) (partitionLeader name id b) t;
  bi_disk : disk_ok (storageConfig b) b.(b_disk);
  bi_coord : coord_inv b.(b_coordinator);
  bi_offsets : ∃ rss, store_inv b.(b_offsetStore) rss;
  bi_parts : b.(b_offsetStore).(os_numParts) = offset_partitions b.(b_config)
}.

Lemma part_leo_nonneg cfg name id p : part_ok cfg name id p → 0 ≤ LogEndOffset p.
Proof. intros H. destruct (po_hw _ _ _ _ H). lia. Qed.

Lemma leo_nonneg b name id : broker_inv b → 0 ≤ leo b name id.
Proof.
  intros Hb. unfold leo. destruct (get_partition name id b) as [p|] eqn:E; [|done].
  by eapply part_leo_nonneg, bi_part.
Qed.

(** What the invariant says depends on these fields only. *)
Lemma broker_inv_frame b b' : broker_inv b → b'.(b_config) = b.(b_config) → b'.(b_dataDir) = b.(b_dataDir) →
  b'.(b_checkpoint) = b.(b_checkpoint) → b'.(b_localID) = b.(b_localID) →
  b'.(b_metaManager) = b.(b_metaManager) → b'.(b_topics) = b.(b_topics) →
  b'.(b_isrTrackers) = b.(b_isrTrackers) → (∀ n i, partitionLeader n i b' = partitionLeader n i b) →
  b'.(b_disk) = b.(b_disk) → coord_inv b'.(b_coordinator) → (∃ rss, store_inv b'.(b_offsetStore) rss) →
  b'.(b_offsetStore).(os_numParts) = b.(b_offsetStore).(os_numParts) → broker_inv b'.
Proof.
  intros [H1 H2 H3 H4 H5 H6 H7 H8 H9 H10] Ec Edd Eck El Em Et Ei Ep Ed Hc Ho Hn.
  constructor; unfold storageConfig, topic_ok, leo, get_partition, getISRTracker in *;
    rewrite ?Ec, ?Edd, ?Eck, ?El, ?Em, ?Et, ?Ei, ?Ed, ?Hn; try done.
  intros name id t Ht. rewrite Ep. by apply H6.
Qed.

Ltac inv_frame := eapply broker_inv_frame; [eassumption|..]; cbn; try done; try (by eapply bi_coord); try (by eapply bi_offsets).

Lemma inv_purgatory x b : broker_inv b → broker_inv (set_purgatory x b).
Proof. intros. inv_frame. Qed.
Lemma inv_listeners x b : broker_inv b → broker_inv (set_listeners x b).
Proof. intros. inv_frame. Qed.
Lemma inv_signals x b : broker_inv b → broker_inv (set_signals x b).
Proof. intros. inv_frame. Qed.
Lemma inv_coordinator x b : broker_inv b → coord_inv x → broker_inv (set_coordinator x b).
Proof. intros. inv_frame. Qed.
Lemma inv_offsetStore x b rss : broker_inv b → store_inv x rss → x.(os_numParts) = b.(b_offsetStore).(os_numParts) →
  broker_inv (set_offsetStore x b).
Proof. intros. inv_frame. by eexists. Qed.
Create HintDb broker.
#[export] Hint Resolve inv_purgatory inv_listeners inv_signals inv_coordinator : broker.

(** ** Leadership *)

Lemma partitionLeader_increment n i l n' i' b :
  partitionLeader n' i' (set_epochMgr (IncrementEpoch n i l b.(b_epochMgr)).2 b) =
    if bool_decide (n' = n ∧ i' = i) then l else partitionLeader n' i' b.
Proof.
  unfold partitionLeader, GetEpoch, IncrementEpoch. simpl. destruct (decide (n' = n)) as [->|Hn].
  - rewrite lookup_insert_eq. destruct (decide (i' = i)) as [->|Hi].
    + rewrite lookup_insert_eq, bool_decide_true by done. by destruct (default ∅ _ !! i).
    + rewrite lookup_insert_ne by done. rewrite bool_decide_false by tauto.
      destruct (b_epochMgr b !! n) as [m|]; simpl; [done|]. by rewrite lookup_empty.
  - rewrite lookup_insert_ne by done. by rewrite bool_decide_false by tauto.
Qed.

Lemma isLeader_spec n i b leads b' : isLeader n i b = (leads, b') →
  leads = (partitionLeader n i b =? b.(b_localID)) ∧
  (∀ n' i', partitionLeader n' i' b' = partitionLeader n' i' b) ∧ (b' = b ∨ ∃ x, b' = set_epochMgr x b).
Proof.
  unfold isLeader. destruct (GetEpoch n i (b_epochMgr b)) as [[e l]|err] eqn:E; intros [<- <-]%pair_equal_spec.
  - unfold partitionLeader. rewrite E. auto.
  - split_and!; [by unfold partitionLeader; rewrite E| |right; by eexists].
    intros n' i'. rewrite partitionLeader_increment. case_bool_decide as H; [|done]. destruct H as [-> ->].
    unfold partitionLeader. by rewrite E.
Qed.

Lemma inv_isLeader n i b : broker_inv b → broker_inv (isLeader n i b).2.
Proof.
  intros Hb. destruct (isLeader n i b) as [leads b'] eqn:E. apply isLeader_spec in E as (_ & Hp & [->|[x ->]]); [done|].
  cbn. inv_frame.
Qed.

(** ** Trackers *)

Lemma inv_set_tracker n i t b : broker_inv b →
  tracker_ok (leo b n i) b.(b_localID) (partitionLeader n i b) t → broker_inv (set_tracker n i t b).
Proof.
  intros [H1 H2 H3 H4 H5 H6 H7 H8 H9 H10] Ht. constructor; try done.
  intros n' i' t'. rewrite getISRTracker_set. case_bool_decide as H; [|by apply H6].
  destruct H as [-> ->]. by intros [= <-].
Qed.

Lemma getOrCreateISRTracker_spec e n i b t b' : broker_inv b → getOrCreateISRTracker e n i b = (t, b') →
  broker_inv b' ∧ tracker_ok (leo b n i) b.(b_localID) (partitionLeader n i b) t ∧
  (b' = b ∧ getISRTracker n i b = Some t ∨ b' = set_tracker n i t b).
Proof.
  intros Hb. unfold getOrCreateISRTracker. destruct (getISRTracker n i b) as [t0|] eqn:E; intros [= <- <-].
  { split_and!; [done|by apply bi_tracker|by left]. }
  rewrite (bi_checkpoint _ Hb).
  assert (Ht := NewISRTracker_ok e.(e_trackerNow) n i (partitionLeader n i b) b.(b_replicaIDs) (lagTimeMaxMs b)
    (leo b n i) b.(b_localID) (leo_nonneg b n i Hb)).
  split_and!; [by apply inv_set_tracker|done|by right].
Qed.

Lemma inv_getOrCreateISRTracker e n i b : broker_inv b → broker_inv (getOrCreateISRTracker e n i b).2.
Proof. intros Hb. destruct (getOrCreateISRTracker e n i b) as [t b'] eqn:E. by eapply getOrCreateISRTracker_spec in E as (? & _). Qed.

(** The leader reports a log end offset of its own or of a follower. *)
Lemma updateReplicaLEO_spec e `{EnvOk e} n i id o lo b hw b' : broker_inv b →
  updateReplicaLEO e n i id o lo b = (hw, b') → partitionLeader n i b = b.(b_localID) →
  0 ≤ o → (id = b.(b_localID) → o ≤ leo b n i) →
  (id = b.(b_localID) ∨ ∃ t, getISRTracker n i b = Some t ∧ is_Some (t.(isr_replicas) !! b.(b_localID))) →
  broker_inv b' ∧ 0 ≤ hw ≤ leo b n i ∧ (∃ t, b' = set_tracker n i t b ∧ t.(isr_highWatermark) = hw ∧
    is_Some (t.(isr_replicas) !! b.(b_localID))).
Proof.
  intros Hb E Hl H0 Hid Hs. unfold updateReplicaLEO in E.
  destruct (getOrCreateISRTracker e n i b) as [t b1] eqn:E1.
  destruct (getOrCreateISRTracker_spec _ _ _ _ _ _ Hb E1) as (Hb1 & Ht & Hcase). rewrite Hl in Ht.
  assert (Hst : ∀ t', set_tracker n i t' b1 = set_tracker n i t' b).
  { intros t'. destruct Hcase as [[-> _]| ->]; [done|]. unfold set_tracker. cbn.
    rewrite lookup_insert_eq. cbn. by rewrite !insert_insert_eq. }
  destruct (UpdateLEO_ok e.(e_trackerNow) e.(e_replicas) id o lo (leo b n i) b.(b_localID) t) as [Ht' Hsome]; [done..| |].
  { destruct Hs as [?|(t0 & Et0 & ?)]; [by left|right]. destruct Hcase as [[_ Et]| ->].
    - congruence.
    - unfold getOrCreateISRTracker in E1. rewrite Et0 in E1. injection E1 as -> ?. done. }
  destruct (UpdateLEO_hw e.(e_trackerNow) e.(e_replicas) id o lo t) as [Ehw _].
  destruct (UpdateLEO _ _ id o lo t) as [hw' t']. simpl in *. injection E as <- <-.
  rewrite Hst. split; [apply inv_set_tracker; [done|by rewrite Hl]|]. split; [rewrite Ehw; apply Ht'|by exists t'].
Qed.

(** ** Partitions *)

Lemma inv_set_partition n i p p' b : broker_inv b → get_partition n i b = Some p →
  part_ok (storageConfig b) n i p' → LogEndOffset p ≤ LogEndOffset p' → broker_inv (set_partition n i p' b).
Proof.
  intros Hb Hp Hp' Hle. destruct (get_partition_topic _ _ _ _ Hp) as (t & Ht & Hi).
  pose proof (get_partition_set n i p') as Hget. destruct Hb as [H1 H2 H3 H4 H5 H6 H7 H8 H9 H10].
  assert (Ef : set_partition n i p' b = set_topics (<[n := mkTopic t.(tp_Name) (<[i := p']> t.(tp_Partitions)) t.(tp_roundRobinCounter)]> b.(b_topics)) b)
    by (unfold set_partition; by rewrite Ht).
  assert (Hs : is_Some (b_topics b !! n)) by by eexists.
  constructor; try (by rewrite Ef).
  - intros n' t'. rewrite Ef. cbn. intros [[<- <-]|[_ ?]]%lookup_insert_Some; [|by apply H4].
    destruct (H4 n t Ht) as (? & ? & m & Hm & Hids). split_and!; [done|done|]. exists m. split; [done|].
    intros id. cbn. rewrite <- Hids. destruct (decide (id = i)) as [->|Hne].
    + rewrite lookup_insert_eq, Hi. split; intros _; by eexists.
    + by rewrite lookup_insert_ne.
  - intros n' i' q. rewrite Hget by done. replace (storageConfig (set_partition n i p' b)) with (storageConfig b) by (by rewrite Ef).
    case_bool_decide as H; [|by apply H5]. destruct H as [-> ->]. by intros [= <-].
  - intros n' i' tr Htr. assert (Htr' : getISRTracker n' i' b = Some tr) by (by rewrite Ef in Htr).
    specialize (H6 n' i' tr Htr'). eapply tracker_ok_mono; [|by rewrite Ef]. rewrite Ef in Htr.
    unfold leo in *. rewrite Hget by done. case_bool_decide as H; [|done]. destruct H as [-> ->]. by rewrite Hp.
Qed.

(** ** Opening topics *)

Definition pdir (base : list string) (name : string) (id : Z) : list string := base ++ [name; Itoa id].

Lemma pdir_inj base n i n' i' : inS 32 i → inS 32 i' → pdir base n i = pdir base n' i' → n = n' ∧ i = i'.
Proof.
  intros H1 H2 E. apply app_inv_head in E. injection E as -> E. split; [done|].
  apply (f_equal ParseInt) in E. rewrite !ParseInt_Itoa in E by width_lia. congruence.
Qed.

(** A partition opened on what the disk has. *)
Definition opened (cfg : Config) (disk : Disk) (base : list string) (name : string) (id : Z) (p : Partition) : Prop :=
  part_ok cfg name id p ∧ p.(pt_highWatermark) = LogEndOffset p ∧
  ∀ o rs, dir_holds cfg (dir_at disk (pdir base name id)) o rs → ∃ f, log_view f p.(pt_log) o rs.

Lemma log_view_highest_nonneg f l b rs : log_view f l b rs → 0 ≤ HighestOffset l.
Proof.
  intros Hv. rewrite (log_view_highest _ _ _ _ Hv). destruct Hv as (? & ? & ? & ? & ? & Hr & _).
  pose proof (lr_low _ _ _ _ _ _ _ Hr). lia.
Qed.

Lemma NewPartition_ok mt now base name id cfg disk : disk_ok cfg disk → validateTopicName base name = Ok tt →
  inS 32 id → ∃ p, NewPartition mt now base name id cfg disk = (Ok p, delete (pdir base name id) disk) ∧
  opened cfg disk base name id p.
Proof.
  intros Hd Hv Hid. unfold NewPartition. rewrite (partition_dir_valid base name id Hid Hv). fold (pdir base name id).
  destruct (Hd (pdir base name id)) as (o & rs & Ho). fold (dir_at disk (pdir base name id)).
  destruct (Ho (mt (pdir base name id)) now) as (l & f & E & Hview & Hdir & Hcfg). rewrite E.
  eexists. split; [done|]. split_and!; [|done|].
  - constructor; simpl; try done; [by exists f, o, rs|]. unfold LogEndOffset. simpl.
    pose proof (log_view_highest_nonneg _ _ _ _ Hview). lia.
  - intros o' rs' Ho'. destruct (Ho' (mt (pdir base name id)) now) as (l' & f' & E' & Hview' & _).
    rewrite E in E'. injection E' as <-. by exists f'.
Qed.

Lemma disk_ok_delete cfg disk dir : config_ok (withDefaults cfg) → disk_ok cfg disk → disk_ok cfg (delete dir disk).
Proof.
  intros Hc Hd dir'. unfold dir_at. destruct (decide (dir' = dir)) as [->|Hne].
  - rewrite lookup_delete_eq. exists 0, []. by apply dir_holds_empty.
  - rewrite lookup_delete_ne by done. apply Hd.
Qed.

(** The disk without the directories of partitions [i .. i+n-1]. *)
Lemma open_partitions_ok mt now base name cfg n : validateTopicName base name = Ok tt → config_ok (withDefaults cfg) →
  ∀ i ps disk, disk_ok cfg disk → 0 ≤ i → i + Z.of_nat n ≤ 2 ^ 31 - 1 → (∀ id, is_Some (ps !! id) ↔ 0 ≤ id < i) →
  ∃ ps' disk', open_partitions mt now base name cfg n i ps disk = (Ok ps', disk') ∧ disk_ok cfg disk' ∧
  (∀ id, is_Some (ps' !! id) ↔ 0 ≤ id < i + Z.of_nat n) ∧
  (∀ id p, ps' !! id = Some p → ps !! id = Some p ∨ i ≤ id ∧ opened cfg disk base name id p) ∧
  (∀ dir, (∀ id, i ≤ id < i + Z.of_nat n → dir ≠ pdir base name id) → disk' !! dir = disk !! dir).
Proof.
  intros Hv Hc. induction n as [|n IH]; intros i ps disk Hd Hi Hn Hps; cbn [open_partitions].
  { exists ps, disk. split_and!; [done|done| |by left|done]. intros id. rewrite Hps. lia. }
  destruct (NewPartition_ok mt now base name i cfg disk Hd Hv) as (p & E & Hp); [width_lia|]. rewrite E.
  destruct (IH (i + 1) (<[i := p]> ps) (delete (pdir base name i) disk)) as (ps' & disk' & E' & Hd' & Hids & Hps' & Hrest).
  { by apply disk_ok_delete. } { lia. } { lia. }
  { intros id. destruct (decide (id = i)) as [->|Hne].
    - rewrite lookup_insert_eq. split; [lia|by eexists].
    - rewrite lookup_insert_ne by done. rewrite Hps. lia. }
  exists ps', disk'. split_and!; [done|done| | |].
  - intros id. rewrite Hids. lia.
  - intros id q Hq. destruct (Hps' id q Hq) as [[[<- <-]|[_ ?]]%lookup_insert_Some|[Hle (Ho1 & Ho2 & Ho3)]];
      [right; split; [lia|done]|by left|].
    right. split; [lia|]. split_and!; [done|done|]. intros o rs Ho. apply Ho3. unfold dir_at in *.
    rewrite lookup_delete_ne; [done|]. assert (id < i + 1 + Z.of_nat n) by (apply Hids; by eexists).
    intros [_ ?]%pdir_inj; [lia|width_lia..].
  - intros dir Hdir. rewrite Hrest by (intros id Hid; apply Hdir; lia).
    apply lookup_delete_ne. symmetry. intros E2. eapply Hdir; [|exact E2]. lia.
Qed.

Lemma initTopicReplication_spec e n ids : ∀ b, broker_inv b →
  let b' := foldl (λ b p, init_partition_replication e n p b) b ids in
  broker_inv b' ∧ b'.(b_topics) = b.(b_topics) ∧ b'.(b_disk) = b.(b_disk) ∧
  b'.(b_metaManager) = b.(b_metaManager) ∧ b'.(b_offsetStore) = b.(b_offsetStore) ∧
  b'.(b_config) = b.(b_config) ∧ b'.(b_dataDir) = b.(b_dataDir) ∧ b'.(b_localID) = b.(b_localID) ∧
  b'.(b_replicaIDs) = b.(b_replicaIDs) ∧ b'.(b_coordinator) = b.(b_coordinator).
Proof.
  induction ids as [|i ids IH]; intros b Hb; [by split_and!|]. cbn [foldl].
  assert (H1 : ∃ b1, broker_inv b1 ∧ init_partition_replication e n i b = (getOrCreateISRTracker e n i b1).2 ∧
    (b1 = b ∨ ∃ x, b1 = set_epochMgr x b)).
  { unfold init_partition_replication. destruct (GetEpoch n i (b_epochMgr b)) as [?|err] eqn:E; [by exists b; auto|].
    eexists. split; [|split; [reflexivity|right; by eexists]]. eapply broker_inv_frame; [exact Hb|..]; try done;
      [|exact (bi_coord _ Hb)|exact (bi_offsets _ Hb)].
    intros n' i'. rewrite partitionLeader_increment. case_bool_decide as H; [|done]. destruct H as [-> ->].
    unfold partitionLeader. by rewrite E. }
  destruct H1 as (b1 & Hb1 & -> & Hc1). destruct (getOrCreateISRTracker e n i b1) as [t b2] eqn:E2.
  destruct (getOrCreateISRTracker_spec _ _ _ _ _ _ Hb1 E2) as (Hb2 & _ & Hc2). cbn [snd].
  destruct (IH b2 Hb2) as (Hinv & R). split; [done|].
  assert (F : b2.(b_topics) = b.(b_topics) ∧ b2.(b_disk) = b.(b_disk) ∧ b2.(b_metaManager) = b.(b_metaManager) ∧
    b2.(b_offsetStore) = b.(b_offsetStore) ∧ b2.(b_config) = b.(b_config) ∧ b2.(b_dataDir) = b.(b_dataDir) ∧
    b2.(b_localID) = b.(b_localID) ∧ b2.(b_replicaIDs) = b.(b_replicaIDs) ∧ b2.(b_coordinator) = b.(b_coordinator)).
  { destruct Hc2 as [[-> _]| ->], Hc1 as [->|[x ->]]; done. }
  destruct F as (F1 & F2 & F3 & F4 & F5 & F6 & F7 & F8 & F9). rewrite <- F1, <- F2, <- F3, <- F4, <- F5, <- F6, <- F7, <- F8, <- F9.
  exact R.
Qed.

(** Putting an opened topic in place. *)
Lemma inv_add_topic name m t disk b : broker_inv b → b.(b_topics) !! name = None →
  validateTopicName b.(b_dataDir) name = Ok tt → b.(b_metaManager).(mm_topics) !! name = Some m →
  t.(tp_Name) = name → (∀ id, is_Some (t.(tp_Partitions) !! id) ↔ 0 ≤ id < m.(tmt_NumPartitions)) →
  (∀ id p, t.(tp_Partitions) !! id = Some p → part_ok (storageConfig b) name id p) →
  disk_ok (storageConfig b) disk → broker_inv (set_topics (<[name := t]> b.(b_topics)) (set_disk disk b)).
Proof.
  intros Hb Hnone Hv Hm Hn Hids Hps Hd. destruct Hb as [H1 H2 H3 H4 H5 H6 H7 H8 H9 H10].
  assert (Hget : ∀ n i, get_partition n i (set_topics (<[name := t]> b.(b_topics)) (set_disk disk b)) =
    if bool_decide (n = name) then t.(tp_Partitions) !! i else get_partition n i b).
  { intros n i. unfold get_partition, GetPartition. cbn. case_bool_decide as E.
    - subst n. by rewrite lookup_insert_eq.
    - by rewrite lookup_insert_ne. }
  constructor; try done.
  - intros n' t'. cbn. intros [[<- <-]|[_ ?]]%lookup_insert_Some; [|by apply H4]. split_and!; [done|done|]. by exists m.
  - intros n i p. rewrite Hget. case_bool_decide as E; [subst n; apply Hps|apply H5].
  - intros n i tr Htr. eapply tracker_ok_mono; [|exact (H6 n i tr Htr)]. unfold leo. rewrite Hget.
    case_bool_decide as E; [|done]. subst n. unfold get_partition, GetPartition. rewrite Hnone. cbn.
    destruct (tp_Partitions t !! i) as [p|] eqn:Ep; [|done]. by eapply part_leo_nonneg, Hps.
Qed.

(** Fields that opening a topic leaves alone. *)
Definition same_setting (b b' : Broker) : Prop :=
  b'.(b_config) = b.(b_config) ∧ b'.(b_dataDir) = b.(b_dataDir) ∧ b'.(b_localID) = b.(b_localID) ∧
  b'.(b_replicaIDs) = b.(b_replicaIDs).

Lemma open_topic_spec e name m b : broker_inv b → b.(b_topics) !! name = None →
  validateTopicName b.(b_dataDir) name = Ok tt → b.(b_metaManager).(mm_topics) !! name = Some m →
  ∃ t b', open_topic e name m.(tmt_NumPartitions) b = (Ok tt, b') ∧ broker_inv b' ∧
  b'.(b_topics) = <[name := t]> b.(b_topics) ∧ same_setting b b' ∧
  b'.(b_metaManager) = b.(b_metaManager) ∧ b'.(b_offsetStore) = b.(b_offsetStore) ∧ b'.(b_coordinator) = b.(b_coordinator) ∧
  (∀ id, is_Some (t.(tp_Partitions) !! id) ↔ 0 ≤ id < m.(tmt_NumPartitions)) ∧
  (∀ id p, t.(tp_Partitions) !! id = Some p → opened (storageConfig b) b.(b_disk) b.(b_dataDir) name id p) ∧
  (∀ dir, (∀ id, 0 ≤ id < m.(tmt_NumPartitions) → dir ≠ pdir b.(b_dataDir) name id) → b'.(b_disk) !! dir = b.(b_disk) !! dir).
Proof.
  intros Hb Hnone Hv Hm. pose proof (bi_cfg _ Hb) as Hc.
  destruct (bi_meta _ Hb) as [Hg _]. destruct (Hg name m Hm) as (_ & _ & H32 & _).
  destruct (open_partitions_ok e.(e_ModTime) e.(e_now) b.(b_dataDir) name (storageConfig b) (Z.to_nat m.(tmt_NumPartitions))
    Hv Hc 0 ∅ b.(b_disk)) as (ps & disk & E & Hd & Hids & Hps & Hrest); [apply Hb|lia|width_lia| |].
  { intros id. rewrite lookup_empty. split; [by intros [??]|lia]. }
  assert (Hids' : ∀ id, is_Some (ps !! id) ↔ 0 ≤ id < tmt_NumPartitions m) by (intros id; rewrite Hids; lia).
  assert (Hps' : ∀ id p, ps !! id = Some p → opened (storageConfig b) b.(b_disk) b.(b_dataDir) name id p).
  { intros id p Hp. by destruct (Hps id p Hp) as [[]%lookup_empty_Some|[_ ?]]. }
  set (t := mkTopic name ps 0). set (b1 := set_topics (<[name := t]> b.(b_topics)) (set_disk disk b)).
  assert (Hb1 : broker_inv b1).
  { eapply inv_add_topic; try done. intros id p Hp. by apply Hps'. }
  destruct (initTopicReplication_spec e name (seqZ 0 m.(tmt_NumPartitions)) b1 Hb1)
    as (Hb' & T & D & Mm & Of & Cf & Dd & Lo & Re & Co).
  exists t. eexists. split; [|split; [exact Hb'|]].
  { unfold open_topic, NewTopic. by rewrite E. }
  split_and!; try done. intros dir Hdir. rewrite D. cbn. apply Hrest. intros id Hid. apply Hdir. lia.
Qed.

(** ** Metadata *)

Lemma inv_metaManager mm b : broker_inv b → persisted mm →
  (∀ n m, b.(b_metaManager).(mm_topics) !! n = Some m → mm.(mm_topics) !! n = Some m) → broker_inv (set_metaManager mm b).
Proof.
  intros [H1 H2 H3 H4 H5 H6 H7 H8 H9 H10] Hp Hsub. constructor; try done.
  intros n t Ht. destruct (H4 n t Ht) as (? & ? & m & Hm & ?). split_and!; [done|done|]. exists m. split; [by apply Hsub|done].
Qed.

(** Creating the metadata of a valid topic: the entry that was there, a new one, or a
    failed write that changes nothing. *)
Lemma CreateTopic_spec w name n rf mm r mm' : CreateTopic w name n rf mm = (r, mm') → persisted mm →
  Forall (λ c, topic_char c = true) (to_chars name) → inS 32 n → inS 16 rf →
  persisted mm' ∧ (∀ k m, mm.(mm_topics) !! k = Some m → mm'.(mm_topics) !! k = Some m) ∧
  (∀ k, is_Some (mm'.(mm_topics) !! k) → k = name ∨ is_Some (mm.(mm_topics) !! k)) ∧
  match r with
  | Ok (meta, created) => mm'.(mm_topics) !! name = Some meta ∧
      (if created then mm.(mm_topics) !! name = None ∧ meta = mkTopicMeta name n rf else mm' = mm)
  | Err _ => w = false ∧ mm' = mm
  end.
Proof.
  intros E Hp Hc Hn Hr.
  pose proof (do_create_persisted mm (mkCreateCall w name n rf) Hp (conj Hc (conj Hn Hr))) as Hp'.
  unfold do_create in Hp'. cbn in Hp'. rewrite E in Hp'. cbn in Hp'. split; [done|].
  unfold CreateTopic in E. destruct (mm_topics mm !! name) as [meta|] eqn:El; [injection E as <- <-; by auto|].
  destruct w; injection E as <- <-; cbn.
  - split_and!; [| |by rewrite lookup_insert_eq|done|done].
    + intros k m Hk. rewrite lookup_insert_ne; [done|]. by intros ->; rewrite El in Hk.
    + intros k. destruct (decide (k = name)); [by left|]. rewrite lookup_insert_ne by done. by right.
  - rewrite delete_insert_id by done. destruct mm. auto.
Qed.

Lemma valid_chars base name : validateTopicName base name = Ok tt → Forall (λ c, topic_char c = true) (to_chars name).
Proof. intros (_ & _ & _ & _ & ?)%validateTopicName_Ok. done. Qed.

(** What a broker keeps when it creates topics: everything it has. *)
Definition topics_grow (b b' : Broker) : Prop := same_setting b b' ∧
  (∀ n t, b.(b_topics) !! n = Some t → b'.(b_topics) !! n = Some t) ∧
  (∀ n m, b.(b_metaManager).(mm_topics) !! n = Some m → b'.(b_metaManager).(mm_topics) !! n = Some m) ∧
  b'.(b_offsetStore) = b.(b_offsetStore) ∧ b'.(b_coordinator) = b.(b_coordinator).

(** Every topic of the metadata is open. *)
Definition all_open (b : Broker) : Prop := ∀ n, is_Some (b.(b_metaManager).(mm_topics) !! n) → is_Some (b.(b_topics) !! n).

Lemma topics_grow_refl b : topics_grow b b.
Proof. by split_and!. Qed.

(** Metadata first, then the partitions. *)
Lemma create_and_open e name m mm b : broker_inv b → validateTopicName b.(b_dataDir) name = Ok tt →
  b.(b_topics) !! name = None → persisted mm →
  (∀ k m, b.(b_metaManager).(mm_topics) !! k = Some m → mm.(mm_topics) !! k = Some m) → mm.(mm_topics) !! name = Some m →
  ∃ b' t, open_topic e name m.(tmt_NumPartitions) (set_metaManager mm b) = (Ok tt, b') ∧ broker_inv b' ∧ topics_grow b b' ∧
    b'.(b_topics) = <[name := t]> b.(b_topics) ∧ b'.(b_metaManager) = mm ∧
    (∀ id p, t.(tp_Partitions) !! id = Some p → opened (storageConfig b) b.(b_disk) b.(b_dataDir) name id p).
Proof.
  intros Hb Hv Hnone Hp Hsub Hm.
  destruct (open_topic_spec e name m (set_metaManager mm b)) as (t & b' & E & Hb' & T & S & Mm & Of & Co & Hids & Hps & _);
    [by apply inv_metaManager|done..|].
  exists b', t. split_and!; try done. split; [exact S|]. rewrite Mm. split_and!; try done.
  intros n t' Ht'. rewrite T. rewrite lookup_insert_ne; [done|]. intros ->. by rewrite Hnone in Ht'.
Qed.

Lemma all_open_insert name t mm b b' : b'.(b_topics) = <[name := t]> b.(b_topics) → b'.(b_metaManager) = mm →
  (∀ k, is_Some (mm.(mm_topics) !! k) → k = name ∨ is_Some (b.(b_metaManager).(mm_topics) !! k)) → all_open b → all_open b'.
Proof.
  intros T Mm Hnew Ha k. rewrite Mm, T. intros Hk. destruct (decide (k = name)) as [->|Hne].
  - rewrite lookup_insert_eq. by eexists.
  - rewrite lookup_insert_ne by done. apply Ha. by destruct (Hnew k Hk).
Qed.

Lemma getOrCreateTopic_spec e name n b r b' : broker_inv b → inS 32 n → getOrCreateTopic e name n b = (r, b') →
  broker_inv b' ∧ topics_grow b b' ∧ (all_open b → all_open b') ∧
  match r with Ok _ => is_Some (b'.(b_topics) !! name) | Err _ => b' = b end.
Proof.
  intros Hb Hn E. unfold getOrCreateTopic in E.
  destruct (validateTopicName _ name) as [[]|err] eqn:Hv; [|injection E as <- <-; split_and!; first [done|apply topics_grow_refl]].
  destruct (b_topics b !! name) as [t|] eqn:Ht; [injection E as <- <-; split_and!; first [done|apply topics_grow_refl|by eexists]|].
  destruct (_ && _); [injection E as <- <-; split_and!; first [done|apply topics_grow_refl]|].
  set (np := if n <=? 0 then _ else n) in E. set (rf := if int16 _ <=? 0 then 1 else _) in E.
  assert (Hnp : inS 32 np).
  { unfold np. repeat case_match; try done; by apply wrapS_range. }
  assert (Hrf : inS 16 rf).
  { unfold rf. repeat case_match; try done; by apply wrapS_range. }
  destruct (CreateTopic _ name np rf _) as [[[meta created]|err] mm] eqn:Ec;
    destruct (CreateTopic_spec _ _ _ _ _ _ _ Ec (bi_meta _ Hb) (valid_chars _ _ Hv) Hnp Hrf) as (Hp & Hsub & Hnew & Hres).
  - destruct Hres as [Hm _]. destruct (create_and_open e name meta mm b) as (b1 & t & E1 & Hb1 & Hg & T & Mm & _); try done.
    rewrite E1 in E. injection E as <- <-. split_and!; [done|done| |rewrite T, lookup_insert_eq; by eexists].
    by eapply all_open_insert.
  - destruct Hres as [_ ->]. injection E as <- <-.
    assert (set_metaManager b.(b_metaManager) b = b) as -> by by destruct b. split_and!; first [done|apply topics_grow_refl].
Qed.

Lemma create_topic_spec e tReq b resp b' : broker_inv b → all_open b → inS 32 tReq.(ctt_NumPartitions) →
  inS 16 tReq.(ctt_ReplicationFactor) → create_topic e tReq b = (resp, b') →
  broker_inv b' ∧ topics_grow b b' ∧ all_open b' ∧ resp.(cst_Name) = tReq.(ctt_Name) ∧
  (if bool_decide (resp.(cst_ErrorCode) = ErrNone)
   then b.(b_topics) !! tReq.(ctt_Name) = None ∧
     b'.(b_metaManager).(mm_topics) !! tReq.(ctt_Name) =
       Some (mkTopicMeta tReq.(ctt_Name) tReq.(ctt_NumPartitions) tReq.(ctt_ReplicationFactor)) ∧
     is_Some (b'.(b_topics) !! tReq.(ctt_Name))
   else b' = b).
Proof.
  intros Hb Ha Hn Hr E. unfold create_topic in E.
  assert (Hid : set_metaManager b.(b_metaManager) b = b) by by destruct b.
  pose proof (topics_grow_refl b) as Hrefl.
  destruct (validateTopicName _ _) as [[]|err] eqn:Hv; [|by injection E as <- <-].
  destruct (_ <=? 0); [by injection E as <- <-|].
  destruct (CreateTopic _ _ _ _ _) as [[[meta created]|err] mm] eqn:Ec;
    destruct (CreateTopic_spec _ _ _ _ _ _ _ Ec (bi_meta _ Hb) (valid_chars _ _ Hv) Hn Hr) as (Hp & Hsub & Hnew & Hres).
  2: { destruct Hres as [_ ->]. rewrite Hid in E. by injection E as <- <-. }
  destruct created; destruct Hres as [Hm Hres]; [|subst mm; rewrite Hid in E; by injection E as <- <-].
  destruct Hres as [Hnone ->].
  assert (Ht : b_topics b !! ctt_Name tReq = None).
  { destruct (b_topics b !! ctt_Name tReq) as [t|] eqn:Et; [|done].
    destruct (bi_topic _ Hb _ _ Et) as (_ & _ & m & Hm' & _). congruence. }
  destruct (create_and_open e _ _ mm b Hb Hv Ht Hp Hsub Hm) as (b1 & t & E1 & Hb1 & Hg & T & Mm & _).
  cbn [tmt_NumPartitions] in E1. rewrite E1 in E. injection E as <- <-. rewrite bool_decide_true by done.
  split_and!; [done|done|by eapply all_open_insert|done|done|by rewrite Mm|]. rewrite T, lookup_insert_eq. by eexists.
Qed.
