(* ===== verification/BrokerOps.v ===== *)
(** * Actions of the broker (src/internal/broker/broker.go)

    What the bodies of the handlers' loops do to a broker that satisfies the invariant:
    appends, reads, replica fetches, waits and listeners. *)
From Stdlib Require Import ZArith Lia Strings.Byte.
From stdpp Require Import base list strings gmap.
From S2P Require Import Prelude Files Decimal Record Index Segment PartitionLog Retention LogFacts Codec Frame Requests Responses Server Group Checkpoint Replication Config Json Topic Metadata Partition Offsets Broker Handlers BrokerInv.
Open Scope Z_scope.

(** ** Appending through the broker *)

Lemma partition_append_ok cfg name id p mt now recs : part_ok cfg name id p → Forall record_wf recs → recs ≠ [] →
  inS 64 (LogEndOffset p + zlen recs) → ∃ base err p' k,
  Partition_AppendBatch mt now (Some <$> recs) p = ((base, err), p') ∧ part_ok cfg name id p' ∧
  LogEndOffset p ≤ LogEndOffset p' ∧ p'.(pt_highWatermark) = p.(pt_highWatermark) ∧
  (∀ f o rs, log_view f p.(pt_log) o rs → log_view f p'.(pt_log) o (rs ++ number_from (o + zlen rs) (take k recs))) ∧
  (err = None → take k recs = recs ∧ base = LogEndOffset p).
Proof.
  intros [Hn Hi (Ha & Hcl & Hw) (f & o & rs & Hv) Hd Hc Hhw] Hwf Hne H64. unfold LogEndOffset in *.
  rewrite (log_view_highest _ _ _ _ Hv) in H64, Hhw.
  destruct (AppendBatch_any mt now recs p.(pt_log) f o rs Hv Hwf Hne H64 Hd) as (k & l' & base & err & E & Hv' & Hd' & Hc' & Hok).
  unfold Partition_AppendBatch. rewrite Hcl, E. eexists base, err, _, k. split; [done|]. cbn.
  pose proof (log_view_highest _ _ _ _ Hv') as Hh'. rewrite length_app in Hh'.
  split_and!; [| |done| |].
  - constructor; cbn; try done; [by exists f, o, (rs ++ number_from (o + zlen rs) (take k recs))|congruence|].
    unfold LogEndOffset. cbn. lia.
  - rewrite (log_view_highest _ _ _ _ Hv). lia.
  - intros f2 o2 rs2 Hv2.
    destruct (AppendBatch_any mt now recs p.(pt_log) f2 o2 rs2 Hv2 Hwf Hne) as (k2 & l2 & base2 & err2 & E2 & Hv2' & _); [|done|].
    { by rewrite <- (log_view_highest _ _ _ _ Hv2), (log_view_highest _ _ _ _ Hv). }
    rewrite E in E2. injection E2 as <- <- <-.
    pose proof (log_view_highest _ _ _ _ Hv2') as Hh2. rewrite length_app, length_number_from, length_take in Hh2.
    rewrite length_number_from, length_take in Hh'.
    pose proof (log_view_highest _ _ _ _ Hv) as G1. pose proof (log_view_highest _ _ _ _ Hv2) as G2.
    assert (take k2 recs = take k recs) as <-; [|done].
    rewrite <- (firstn_all recs) at 1 2. rewrite !take_take. f_equal. lia.
  - intros Hnone. rewrite (log_view_highest _ _ _ _ Hv). by apply Hok.
Qed.

Lemma DecodeRecord_shorter s n r s' : DecodeRecord s = ((n, Ok r), s') → zlen s' + 4 ≤ zlen s.
Proof.
  unfold DecodeRecord. destruct (ReadFull 4 s) as [[lenBuf|] s1] eqn:E1; [|done].
  apply ReadFull_Ok in E1 as [-> Hl]; [|done].
  destruct (Z.ltb_spec (be_signed lenBuf) 0); [done|]. destruct (MaxRecordSize <? _); [done|].
  destruct (ReadFull _ s1) as [[payload|] s2] eqn:E2; [|done]. apply ReadFull_Ok in E2 as [-> _]; [|done].
  intros [= _ _ <-]. rewrite !length_app. lia.
Qed.

Lemma decode_record_set_wf fuel : ∀ buf, Forall record_wf (decode_record_set fuel buf).1 ∧
  zlen (decode_record_set fuel buf).1 ≤ zlen buf.
Proof.
  induction fuel as [|fuel IH]; intros buf; [by split; [apply Forall_nil|simpl; lia]|].
  cbn [decode_record_set]. destruct buf as [|c buf]; [by split; [apply Forall_nil|]|].
  destruct (DecodeRecord (c :: buf)) as [[n [r|err]] buf'] eqn:E; [|by split; [apply Forall_nil|simpl; lia]].
  destruct (IH buf') as [IH1 IH2]. apply DecodeRecord_shorter in E as Hs. apply DecodeRecord_wf in E.
  destruct (decode_record_set fuel buf') as [rs corrupt]. cbn in *. split; [by constructor|]. lia.
Qed.

Lemma SetHighWatermark_ok cfg name id p hw : part_ok cfg name id p → hw ≤ LogEndOffset p →
  part_ok cfg name id (SetHighWatermark hw p).
Proof.
  intros [Hn Hi Hid Hl Hd Hc Hh] Hhw. constructor; cbn; try done. unfold LogEndOffset in *. cbn.
  destruct (Z.ltb_spec p.(pt_highWatermark) hw); lia.
Qed.

Lemma SetHighWatermark_ge hw p : p.(pt_highWatermark) ≤ (SetHighWatermark hw p).(pt_highWatermark).
Proof. cbn. destruct (Z.ltb_spec p.(pt_highWatermark) hw); lia. Qed.

Lemma leo_eq n i b p : get_partition n i b = Some p → leo b n i = LogEndOffset p.
Proof. intros E. unfold leo. by rewrite E. Qed.

(** The partitions of [b'] are those of [b] except for one. *)
Definition only_partition (n : string) (i : Z) (b b' : Broker) : Prop := same_setting b b' ∧
  b'.(b_metaManager) = b.(b_metaManager) ∧ dom b'.(b_topics) = dom b.(b_topics) ∧
  ∀ n' i', (n', i') ≠ (n, i) → get_partition n' i' b' = get_partition n' i' b.

Lemma only_partition_refl n i b : only_partition n i b b.
Proof. by split_and!. Qed.

Lemma only_partition_trans n i b1 b2 b3 : only_partition n i b1 b2 → only_partition n i b2 b3 → only_partition n i b1 b3.
Proof.
  intros ((? & ? & ? & ?) & ? & ? & HA) ((? & ? & ? & ?) & ? & ? & HB).
  unfold only_partition, same_setting. split_and!; try congruence.
  intros n' i' Hne. by rewrite HB, HA.
Qed.

Lemma only_set_partition n i p b : only_partition n i b (set_partition n i p b).
Proof.
  destruct (b_topics b !! n) as [t|] eqn:Ht.
  - assert (E : set_partition n i p b = set_topics (<[n := mkTopic t.(tp_Name) (<[i := p]> t.(tp_Partitions)) t.(tp_roundRobinCounter)]> b.(b_topics)) b)
      by (unfold set_partition; by rewrite Ht).
    split_and!; [by rewrite E|by rewrite E| |].
    + rewrite E. cbn. apply dom_insert_lookup_L. by eexists.
    + intros n' i' Hne. rewrite get_partition_set by by eexists. rewrite bool_decide_false; [done|]. by intros [-> ->].
  - replace (set_partition n i p b) with b by (unfold set_partition; by rewrite Ht). apply only_partition_refl.
Qed.

Lemma set_partition_topics n i p b : is_Some (b.(b_topics) !! n) → get_partition n i (set_partition n i p b) = Some p.
Proof. intros. rewrite get_partition_set by done. by rewrite bool_decide_true. Qed.

Lemma get_partition_is_topic n i b p : get_partition n i b = Some p → is_Some (b.(b_topics) !! n).
Proof. intros (t & -> & _)%get_partition_topic. by eexists. Qed.

Lemma after_append_spec e `{EnvOk e} n i p b lo b' : broker_inv b → get_partition n i b = Some p →
  partitionLeader n i b = b.(b_localID) → after_append e n i p b = (lo, b') →
  broker_inv b' ∧ lo = LogEndOffset p ∧ only_partition n i b b' ∧
  ∃ hw, hw = (updateLeaderLEO e n i (LogEndOffset p) b).1 ∧ hw ≤ LogEndOffset p ∧
    get_partition n i b' = Some (SetHighWatermark hw p) ∧
    (∃ t, getISRTracker n i b' = Some t ∧ t.(isr_highWatermark) = hw).
Proof.
  intros Hb Hp Hl E. unfold after_append in E.
  destruct (updateLeaderLEO e n i (LogEndOffset p) b) as [hw b1] eqn:E1. cbn [fst]. unfold updateLeaderLEO in E1.
  pose proof (bi_part _ Hb _ _ _ Hp) as Hpo.
  destruct (updateReplicaLEO_spec e n i _ _ _ _ _ _ Hb E1 Hl) as (Hb1 & Hhw & t & -> & Ht & _);
    [by eapply part_leo_nonneg|intros _; by rewrite (leo_eq _ _ _ _ Hp)|by left|].
  rewrite (leo_eq _ _ _ _ Hp) in Hhw. destruct Hhw as [_ Hhw]. injection E as <- <-.
  set (b2 := set_partition n i (SetHighWatermark hw p) (set_tracker n i t b)).
  assert (Hp1 : get_partition n i (set_tracker n i t b) = Some p) by done.
  assert (Hb2 : broker_inv b2).
  { eapply inv_set_partition; [done|exact Hp1| |done]. by apply SetHighWatermark_ok. }
  assert (Hg2 : get_partition n i b2 = Some (SetHighWatermark hw p)) by (by apply set_partition_topics; eapply get_partition_is_topic).
  split_and!; [|done| |].
  - unfold notifyAppended. auto with broker.
  - destruct (only_set_partition n i (SetHighWatermark hw p) (set_tracker n i t b)) as (? & ? & ? & Ho). split_and!; try done.
  - exists hw. split_and!; [done|done|exact Hg2|]. exists t. split; [|done].
    change (getISRTracker n i b2 = Some t). transitivity (getISRTracker n i (set_tracker n i t b)).
    + unfold b2, set_partition. by destruct (_ !! n).
    + by rewrite getISRTracker_set, bool_decide_true.
Qed.

(** The records [recs] went to the end of the log of one partition. *)
Definition appended (n : string) (i : Z) (recs : list record) (b b' : Broker) : Prop := ∃ p p',
  get_partition n i b = Some p ∧ get_partition n i b' = Some p' ∧ p.(pt_highWatermark) ≤ p'.(pt_highWatermark) ∧
  ∀ f o rs, log_view f p.(pt_log) o rs → log_view f p'.(pt_log) o (rs ++ number_from (o + zlen rs) recs).

Definition request_records (pReq : ProduceRequestPartition) : list record :=
  (decode_record_set (length pReq.(prp_RecordSet)) pReq.(prp_RecordSet)).1.

Lemma appended_nothing n i b p : get_partition n i b = Some p → appended n i [] b b.
Proof. intros Hp. exists p, p. split_and!; [done..|]. intros f o rs. by rewrite app_nil_r. Qed.

(** What the checks before the append may change: epochs and trackers. *)
Definition only_replication (b b' : Broker) : Prop := same_setting b b' ∧
  b'.(b_metaManager) = b.(b_metaManager) ∧ b'.(b_topics) = b.(b_topics).

Lemma only_replication_partition n i b b' : only_replication b b' → only_partition n i b b' ∧
  ∀ n' i', get_partition n' i' b' = get_partition n' i' b.
Proof.
  intros (Hs & Hm & Ht). assert (Hg : ∀ n' i', get_partition n' i' b' = get_partition n' i' b)
    by (intros; unfold get_partition; by rewrite Ht).
  split; [|done]. split_and!; [done|done|by rewrite Ht|]. intros n' i' _. apply Hg.
Qed.

Lemma isLeader_only n i b : only_replication b (isLeader n i b).2.
Proof. destruct (isLeader n i b) as [l b'] eqn:E. by apply isLeader_spec in E as (_ & _ & [->|[x ->]]). Qed.

Lemma tracker_only e n i b : broker_inv b → only_replication b (getOrCreateISRTracker e n i b).2.
Proof.
  intros Hb. destruct (getOrCreateISRTracker e n i b) as [t b'] eqn:E.
  by apply getOrCreateISRTracker_spec in E as (_ & _ & [[-> _]| ->]).
Qed.

Lemma tracker_leader e n i b n' i' : broker_inv b →
  partitionLeader n' i' (getOrCreateISRTracker e n i b).2 = partitionLeader n' i' b.
Proof.
  intros Hb. destruct (getOrCreateISRTracker e n i b) as [t b'] eqn:E.
  by apply getOrCreateISRTracker_spec in E as (_ & _ & [[-> _]| ->]).
Qed.

Lemma only_replication_trans b1 b2 b3 : only_replication b1 b2 → only_replication b2 b3 → only_replication b1 b3.
Proof. intros ((?&?&?&?)&?&?) ((?&?&?&?)&?&?). unfold only_replication, same_setting. split_and!; congruence. Qed.

(** The fences of [handleProduce]: the leader check and the replicas for acks=all. *)
Definition produce_fence (e : Env) (acks : Z) (n : string) (i : Z) (b : Broker) : bool * Broker :=
  if acks =? -1 then
    let '(tracker, b) := getOrCreateISRTracker e n i b in
    (negb (zlen (GetISR e.(e_replicas) tracker) <? minInsyncReplicas b), b)
  else (true, b).

Lemma produce_fence_spec e acks n i b : broker_inv b →
  broker_inv (produce_fence e acks n i b).2 ∧ only_replication b (produce_fence e acks n i b).2 ∧
  ∀ n' i', partitionLeader n' i' (produce_fence e acks n i b).2 = partitionLeader n' i' b.
Proof.
  intros Hb. unfold produce_fence. destruct (acks =? -1); [|done].
  pose proof (inv_getOrCreateISRTracker e n i b Hb). pose proof (tracker_only e n i b Hb).
  pose proof (λ n' i', tracker_leader e n i b n' i' Hb). by destruct (getOrCreateISRTracker e n i b) as [t b1].
Qed.

(** After the fences: the append and what follows it. *)
Lemma produce_append_spec e `{EnvOk e} mt n i p recs b base err p1 : broker_inv b →
  get_partition n i b = Some p → partitionLeader n i b = b.(b_localID) → Forall record_wf recs → recs ≠ [] →
  inS 64 (LogEndOffset p + zlen recs) → Partition_AppendBatch mt e.(e_now) (Some <$> recs) p = ((base, err), p1) →
  let b1 := set_partition n i p1 b in
  broker_inv b1 ∧ only_partition n i b b1 ∧ (∃ k, appended n i (take k recs) b b1) ∧
  (err = None → base = LogEndOffset p ∧ ∀ lo b2, after_append e n i p1 b1 = (lo, b2) →
     broker_inv b2 ∧ only_partition n i b b2 ∧ appended n i recs b b2 ∧ lo = leo b2 n i).
Proof.
  intros Hb Hp Hl Hwf Hne H64 E b1. pose proof (get_partition_is_topic _ _ _ _ Hp) as Ht.
  destruct (partition_append_ok _ _ _ _ mt e.(e_now) recs (bi_part _ Hb _ _ _ Hp) Hwf Hne H64)
    as (base' & err' & p' & k & E' & Hp' & Hle & Hhw & Hv & Hok). rewrite E in E'. injection E' as <- <- <-.
  assert (Hb1 : broker_inv b1) by by eapply inv_set_partition.
  assert (Hg1 : get_partition n i b1 = Some p1) by by apply set_partition_topics.
  split_and!; [done|apply only_set_partition|exists k, p, p1; split_and!; [done|done|lia|done]|].
  intros Hnone. destruct (Hok Hnone) as [Ek ->]. rewrite Ek in Hv. split; [done|]. intros lo b2 E2.
  destruct (after_append_spec e n i p1 b1 lo b2) as (Hb2 & -> & Ho & hw & _ & Hhw2 & Hg2 & _); [done|done| |done|].
  { unfold b1, set_partition. by destruct (_ !! n). }
  split_and!; [done|by eapply only_partition_trans; [apply only_set_partition|]| |].
  - exists p. eexists. split_and!; [done|exact Hg2| |done]. pose proof (SetHighWatermark_ge hw p1). lia.
  - by rewrite (leo_eq _ _ _ _ Hg2).
Qed.

Ltac refused := split_and!; first [done | apply only_partition_refl | left; congruence | intros _; congruence].

Lemma produce_partition_spec e `{EnvOk e} acks n terr pReq b resp pend b' : broker_inv b →
  inS 64 (leo b n pReq.(prp_PartitionID) + zlen pReq.(prp_RecordSet)) →
  produce_partition e acks n terr pReq b = ((resp, pend), b') →
  let i := pReq.(prp_PartitionID) in
  broker_inv b' ∧ only_partition n i b b' ∧ resp.(psp_PartitionID) = i ∧
  (get_partition n i b' = get_partition n i b ∨ ∃ k, appended n i (take k (request_records pReq)) b b') ∧
  (resp.(psp_ErrorCode) = ErrNone → appended n i (request_records pReq) b b' ∧
     (request_records pReq ≠ [] → resp.(psp_BaseOffset) = leo b n i)) ∧
  (resp.(psp_ErrorCode) ∉ [ErrNone; ErrUnknown] → get_partition n i b' = get_partition n i b) ∧
  (∀ h, pend = Some h → acks = -1 ∧ resp.(psp_ErrorCode) = ErrNone ∧ h = leo b' n i).
Proof.
  intros Hb H64 E i. unfold produce_partition in E. fold i in E.
  destruct terr as [err|].
  { injection E as <- <- <-. destruct (errors_Is _ _); refused. }
  destruct (get_partition n i b) as [p|] eqn:Hp; [|injection E as <- <- <-; refused].
  destruct (isLeader n i b) as [leads b1] eqn:El. pose proof (inv_isLeader n i b Hb) as Hb1.
  pose proof (isLeader_only n i b) as Ho1. rewrite El in Hb1, Ho1. cbn in Hb1, Ho1.
  apply isLeader_spec in El as (Elead & Hlead & _).
  fold (produce_fence e acks n i b1) in E.
  destruct (produce_fence_spec e acks n i b1 Hb1) as (Hb2 & Ho2 & Hl2).
  destruct (produce_fence e acks n i b1) as [enough b2]. cbn in Hb2, Ho2, Hl2.
  pose proof (only_replication_trans _ _ _ Ho1 Ho2) as Ho12.
  destruct (only_replication_partition n i _ _ Ho1) as [Hop1 Hg1].
  destruct (only_replication_partition n i _ _ Ho12) as [Hop2 Hg2].
  destruct leads; cbn [negb] in E.
  2: { injection E as <- <- <-. refused. }
  symmetry in Elead. apply Z.eqb_eq in Elead.
  destruct enough; cbn [negb] in E.
  2: { injection E as <- <- <-. refused. }
  destruct (_ && _).
  { injection E as <- <- <-. refused. }
  pose proof (decode_record_set_wf (length pReq.(prp_RecordSet)) pReq.(prp_RecordSet)) as [Hwf Hlen].
  unfold request_records. destruct (decode_record_set _ _) as [recs corrupt]. cbn [fst] in *.
  destruct corrupt.
  { injection E as <- <- <-. refused. }
  assert (Hp2 : get_partition n i b2 = Some p) by (by rewrite Hg2).
  assert (Hl : partitionLeader n i b2 = b_localID b2).
  { rewrite Hl2, Hlead, Elead. symmetry. apply Ho12. }
  fold i in H64. rewrite (leo_eq _ _ _ _ Hp) in H64.
  assert (Hap : ∀ rs b3, appended n i rs b2 b3 → appended n i rs b b3).
  { intros rs b3 (q & q' & Hq & R). exists q, q'. split; [|exact R]. by rewrite <- Hg2. }
  destruct recs as [|r recs].
  { injection E as <- <- <-. split_and!; try done; [left; by rewrite Hg2|].
    intros _. split; [|done]. apply Hap. by eapply appended_nothing. }
  destruct (Partition_AppendBatch _ _ _ p) as [[base aerr] p1] eqn:Ea.
  destruct (produce_append_spec e (mod_time e b2 n i) n i p (r :: recs) b2 base aerr p1) as (Hb3 & Ho3 & (k & Hk) & Hok); try done.
  { pose proof (part_leo_nonneg _ _ _ _ (bi_part _ Hb _ _ _ Hp)). widths. lia. }
  destruct aerr as [aerr|].
  - injection E as <- <- <-. split_and!; try done; [by eapply only_partition_trans|right; exists k; auto|].
    intros Hno. exfalso. apply Hno. cbn. by repeat constructor.
  - destruct (Hok eq_refl) as [Ebase Hafter]. destruct (after_append e n i p1 _) as [lo b4] eqn:E4.
    destruct (Hafter lo b4 eq_refl) as (Hb4 & Ho4 & Ha4 & ->). injection E as <- <- <-. cbn [psp_PartitionID psp_ErrorCode psp_BaseOffset].
    split_and!; try done; [by eapply only_partition_trans|right|intros _; split; [auto|]|intros Hno; exfalso; apply Hno; by constructor|].
    + exists (length (r :: recs)). rewrite firstn_all. auto.
    + intros _. by rewrite (leo_eq _ _ _ _ Hp).
    + intros h. destruct (Z.eqb_spec acks (-1)); [|done]. by intros [= <-].
Qed.

(** ** Reading through the broker *)

(** Two partitions with the same records. *)
Definition same_records (p p' : Partition) : Prop := p'.(pt_highWatermark) = p.(pt_highWatermark) ∧
  LogEndOffset p' = LogEndOffset p ∧ ∀ f o rs, log_view f p.(pt_log) o rs → log_view f p'.(pt_log) o rs.

Lemma partition_read_ok cfg n i p o m r p' : part_ok cfg n i p → Partition_ReadFrom o m p = (r, p') →
  part_ok cfg n i p' ∧ same_records p p' ∧ ∀ f ob rs, log_view f p.(pt_log) ob rs →
    r.2 = (if (0 <? m) && (o <? ob) then Some ErrOffsetOutOfRange else None) ∧
    ∀ x, x ∈ r.1 → x ∈ rs ∧ o ≤ x.(rec_Offset).
Proof.
  intros [Hn Hi Hid (f & ob & rs & Hv) Hd Hc Hh] E. unfold Partition_ReadFrom in E.
  pose proof (λ f ob rs, Log_ReadFrom_any o m p.(pt_log) f ob rs) as Hany.
  destruct (Log_ReadFrom o m (pt_log p)) as [r' l']. injection E as <- <-. cbn in *.
  destruct (Hany f ob rs Hv) as (out & err & l1 & [= -> <-] & (Hv' & Hd' & Hc' & Hin) & Herr).
  assert (El : HighestOffset l' = HighestOffset (pt_log p)) by (by rewrite (log_view_highest _ _ _ _ Hv'), (log_view_highest _ _ _ _ Hv)).
  split_and!.
  - constructor; cbn; try done; [by exists f, ob, rs|congruence|congruence|]. unfold LogEndOffset in *. cbn. by rewrite El.
  - split_and!; [done|done|]. intros f2 o2 rs2 Hv2. by apply Hany in Hv2 as (? & ? & ? & [= _ _ <-] & (? & _) & _).
  - intros f2 o2 rs2 Hv2. destruct (Hany f2 o2 rs2 Hv2) as (? & ? & ? & [= <- <- <-] & (_ & _ & _ & ?) & ->). done.
Qed.

(** Reads and watermark updates: the log end offsets stay. *)
Definition reads_partition (n : string) (i : Z) (b b' : Broker) : Prop := only_partition n i b b' ∧
  ∀ p, get_partition n i b = Some p → ∃ p', get_partition n i b' = Some p' ∧ LogEndOffset p' = LogEndOffset p ∧
    p.(pt_highWatermark) ≤ p'.(pt_highWatermark) ∧ ∀ f o rs, log_view f p.(pt_log) o rs → log_view f p'.(pt_log) o rs.

Lemma reads_partition_refl n i b : reads_partition n i b b.
Proof. split; [apply only_partition_refl|]. intros p Hp. by exists p. Qed.

Lemma inv_read_partition n i o m p r p' b : broker_inv b → get_partition n i b = Some p →
  Partition_ReadFrom o m p = (r, p') →
  broker_inv (set_partition n i p' b) ∧ reads_partition n i b (set_partition n i p' b) ∧
  get_partition n i (set_partition n i p' b) = Some p' ∧ same_records p p'.
Proof.
  intros Hb Hp E.
  destruct (partition_read_ok _ _ _ _ _ _ _ _ (bi_part _ Hb _ _ _ Hp) E) as (Hp' & (Hhw & Hle & Hv) & _).
  assert (Hg : get_partition n i (set_partition n i p' b) = Some p')
    by (apply set_partition_topics; by eapply get_partition_is_topic).
  split_and!; [eapply inv_set_partition; [done..|by rewrite Hle]| |done|done]. split; [apply only_set_partition|].
  intros q Hq. rewrite Hp in Hq. injection Hq as <-. exists p'. split_and!; [done|done|lia|done].
Qed.

Lemma fetch_partition_inv n pReq b : broker_inv b →
  broker_inv (fetch_partition n pReq b).2 ∧ reads_partition n pReq.(frp_PartitionID) b (fetch_partition n pReq b).2.
Proof.
  intros Hb. unfold fetch_partition. set (i := frp_PartitionID pReq).
  assert (Hrefl : reads_partition n i b b) by apply reads_partition_refl.
  destruct (get_partition n i b) as [p|] eqn:Hp; [|done]. destruct (_ <=? _); [done|].
  destruct (Partition_ReadFrom _ _ p) as [[recs err] p'] eqn:E.
  destruct (inv_read_partition _ _ _ _ _ _ _ _ Hb Hp E) as (Hb' & Hr & _).
  repeat case_match; done.
Qed.

(** ** Replica fetches *)

Lemma log_view_offset f l b rs r : log_view f l b rs → r ∈ rs → b ≤ r.(rec_Offset) < b + zlen rs.
Proof.
  intros Hv [i Hi]%list_elem_of_lookup. rewrite (log_view_consecutive _ _ _ _ Hv i r Hi).
  apply lookup_lt_Some in Hi. lia.
Qed.

(** The follower is taken to have what is sent to it; what it asks for from below the
    log is refused. *)
Lemma follower_leo cfg n i p o m recs err p' : part_ok cfg n i p → inS 64 o → 0 < m →
  Partition_ReadFrom o m p = ((recs, err), p') → match err with Some err => negb (errors_Is err EOF) | None => false end = false →
  0 ≤ match last recs with Some r => int64 (r.(rec_Offset) + 1) | None => o end.
Proof.
  intros Hp Ho Hm E Herr. destruct (po_log _ _ _ _ Hp) as (f & ob & rs & Hv).
  destruct (partition_read_ok _ _ _ _ _ _ _ _ Hp E) as (_ & _ & Hr). destruct (Hr f ob rs Hv) as [He Hin]. cbn in He, Hin.
  assert (H0 : 0 ≤ ob ∧ inS 64 (ob + zlen rs)).
  { destruct Hv as (e & sealed & rss & a & ra & Hrep & -> & _).
    pose proof (sealed_chain_length _ _ _ _ (lr_sealed _ _ _ _ _ _ _ Hrep)) as He'.
    pose proof (lr_int64 _ _ _ _ _ _ _ Hrep). split; [apply Hrep|]. rewrite length_app. widths. lia. }
  destruct (Z.ltb_spec 0 m); [|lia]. destruct (Z.ltb_spec o ob) as [|Hge]; cbn in He; subst err; [done|].
  destruct (last recs) as [r|] eqn:El; [|lia].
  assert (Hr' : r ∈ recs) by (apply last_Some in El as [? ->]; apply elem_of_app; right; left).
  destruct (Hin r Hr') as [Hrs _]. pose proof (log_view_offset _ _ _ _ _ Hv Hrs).
  rewrite wrapS_small; [lia|done|]. widths. lia.
Qed.

Lemma reads_partition_trans n i b1 b2 b3 : reads_partition n i b1 b2 → reads_partition n i b2 b3 → reads_partition n i b1 b3.
Proof.
  intros [Ho1 Hr1] [Ho2 Hr2]. split; [by eapply only_partition_trans|]. intros p Hp.
  destruct (Hr1 p Hp) as (p1 & Hp1 & L1 & W1 & V1). destruct (Hr2 p1 Hp1) as (p2 & Hp2 & L2 & W2 & V2).
  exists p2. split_and!; [done|congruence|lia|auto].
Qed.

Lemma reads_partition_replication n i b b' : only_replication b b' → reads_partition n i b b'.
Proof.
  intros Ho. destruct (only_replication_partition n i b b' Ho) as [Hop Hg]. split; [done|]. intros p Hp.
  exists p. by rewrite Hg.
Qed.

Lemma set_hw_reads n i hw p b : broker_inv b → get_partition n i b = Some p → hw ≤ LogEndOffset p →
  broker_inv (set_partition n i (SetHighWatermark hw p) b) ∧ reads_partition n i b (set_partition n i (SetHighWatermark hw p) b).
Proof.
  intros Hb Hp Hhw. split.
  - eapply inv_set_partition; [done|done|by apply SetHighWatermark_ok, Hhw; eapply bi_part|done].
  - split; [apply only_set_partition|]. intros q Hq. rewrite Hp in Hq. injection Hq as <-.
    exists (SetHighWatermark hw p). split_and!; [|done|apply SetHighWatermark_ge|done].
    apply set_partition_topics. by eapply get_partition_is_topic.
Qed.

Lemma replica_fetch_spec e1 e2 `{EnvOk e1, EnvOk e2} req b r b' : broker_inv b → inS 64 req.(rfq_FetchOffset) →
  req.(rfq_ReplicaID) ≠ b.(b_localID) → replica_fetch e1 e2 req b = (r, b') →
  broker_inv b' ∧ reads_partition req.(rfq_Topic) req.(rfq_Partition) b b' ∧
  (∀ n' i', partitionLeader n' i' b' = partitionLeader n' i' b) ∧
  ∀ hw recs, r = inr (hw, recs) → 0 ≤ hw ≤ leo b req.(rfq_Topic) req.(rfq_Partition) ∧
    ∃ p', get_partition req.(rfq_Topic) req.(rfq_Partition) b' = Some p' ∧ hw ≤ p'.(pt_highWatermark).
Proof.
  intros Hb Ho Hid E. unfold replica_fetch in E. set (n := rfq_Topic req) in *. set (i := rfq_Partition req) in *.
  assert (Hrefl : reads_partition n i b b) by apply reads_partition_refl.
  destruct (get_partition n i b) as [p|] eqn:Hp; [|injection E as <- <-; by split_and!].
  destruct (isLeader n i b) as [leads b1] eqn:El. pose proof (inv_isLeader n i b Hb) as Hb1.
  pose proof (isLeader_only n i b) as Ho1. rewrite El in Hb1, Ho1. cbn in Hb1, Ho1.
  apply isLeader_spec in El as (Elead & Hlead & _). pose proof (reads_partition_replication n i _ _ Ho1) as Hr1.
  destruct (only_replication_partition n i _ _ Ho1) as [_ Hg1].
  destruct leads; cbn [negb] in E; [|injection E as <- <-; by split_and!]. symmetry in Elead. apply Z.eqb_eq in Elead.
  assert (Hp1 : get_partition n i b1 = Some p) by by rewrite Hg1.
  destruct (Partition_ReadFrom _ _ p) as [[recs err] p1] eqn:Er.
  destruct (inv_read_partition _ _ _ _ _ _ _ _ Hb1 Hp1 Er) as (Hb2 & Hr2 & Hp2 & (_ & Hle & _)).
  set (b2 := set_partition n i p1 b1) in *. pose proof (reads_partition_trans _ _ _ _ _ Hr1 Hr2) as Hr12.
  assert (Hl5 : ∀ n' i', partitionLeader n' i' b2 = partitionLeader n' i' b).
  { intros n' i'. rewrite <- Hlead. unfold b2, set_partition. by destruct (_ !! n). }
  destruct (match err with Some _ => _ | None => _ end) eqn:Ee; [injection E as <- <-; by split_and!|].
  apply (follower_leo _ _ _ _ _ _ _ _ _ (bi_part _ Hb1 _ _ _ Hp1) Ho) in Er as Hfl; [|unfold replicaMaxBytes; split_ifs|done].
  set (fl := match last recs with Some _ => _ | None => _ end) in *.
  assert (Hloc : b_localID b2 = b_localID b ∧ partitionLeader n i b2 = b_localID b2).
  { assert (b_localID b2 = b_localID b) as Hx by (destruct Hr12 as [(Hs & _) _]; apply Hs).
    split; [done|]. rewrite Hx, <- Elead, <- Hlead. unfold b2, set_partition. by destruct (_ !! n). }
  destruct Hloc as [Hloc Hl2].
  destruct (updateLeaderLEO e1 n i (LogEndOffset p1) b2) as [hw1 b3] eqn:E3. unfold updateLeaderLEO in E3.
  destruct (updateReplicaLEO_spec e1 n i _ _ _ _ _ _ Hb2 E3 Hl2) as (Hb3 & _ & t3 & -> & _ & Hs3);
    [eapply part_leo_nonneg; by eapply bi_part|intros _; by rewrite (leo_eq _ _ _ _ Hp2)|by left|].
  destruct (updateReplicaLEO e2 n i _ fl _ _) as [hw b4] eqn:E4.
  destruct (updateReplicaLEO_spec e2 n i _ _ _ _ _ _ Hb3 E4) as (Hb4 & Hhw & t4 & -> & _ & _);
    [done|done|cbn; congruence|right; exists t3; by rewrite getISRTracker_set, bool_decide_true|].
  change (leo (set_tracker n i t3 b2) n i) with (leo b2 n i) in Hhw. rewrite (leo_eq _ _ _ _ Hp2) in Hhw.
  destruct (set_hw_reads n i hw p1 (set_tracker n i t4 (set_tracker n i t3 b2)) Hb4 Hp2 (proj2 Hhw)) as [Hb5 Hr5].
  injection E as <- <-. split; [by apply inv_purgatory|]. split; [|split].
  2: { intros n' i'. rewrite <- Hl5. unfold set_partition. by destruct (_ !! n). }
  2: { intros hw' recs' [= <- <-]. rewrite (leo_eq _ _ _ _ Hp). split; [lia|]. exists (SetHighWatermark hw p1).
    split; [apply set_partition_topics; by eapply get_partition_is_topic|]. cbn. destruct (Z.ltb_spec (pt_highWatermark p1) hw); lia. }
  apply (reads_partition_trans n i _ (set_tracker n i t4 (set_tracker n i t3 b2))); [|exact Hr5].
  apply (reads_partition_trans n i _ b2); [exact Hr12|]. by apply reads_partition_replication.
Qed.

Lemma replica_fetch_served e1 e2 req b p recs p1 : get_partition req.(rfq_Topic) req.(rfq_Partition) b = Some p →
  partitionLeader req.(rfq_Topic) req.(rfq_Partition) b = b.(b_localID) →
  Partition_ReadFrom req.(rfq_FetchOffset) (replicaMaxBytes b) p = ((recs, None), p1) → ∃ hw b',
  replica_fetch e1 e2 req b = (inr (hw, recs), b').
Proof.
  intros Hp Hl Er. unfold replica_fetch. rewrite Hp. set (n := rfq_Topic req) in *. set (i := rfq_Partition req) in *.
  destruct (isLeader n i b) as [leads b1] eqn:El. pose proof (isLeader_only n i b) as Ho. rewrite El in Ho. cbn in Ho.
  apply isLeader_spec in El as (-> & _ & _). rewrite Hl, Z.eqb_refl. cbn [negb].
  replace (replicaMaxBytes b1) with (replicaMaxBytes b) by (unfold replicaMaxBytes; by destruct Ho as ((-> & _) & _)).
  rewrite Er. destruct (updateLeaderLEO _ _ _ _ _) as [hw1 b2]. destruct (updateReplicaLEO _ _ _ _ _ _ _) as [hw b3].
  by eexists _, _.
Qed.
