(* ===== verification/BrokerRun.v ===== *)
(** * Runs of the broker (src/internal/broker/broker.go, broker_replication.go)

    The actions of the handlers as steps, in any order and from any number of requests
    at a time: each step is the body of a handler's loop for one topic or partition, or
    one change of the shared maps. The invariant holds in every state of a run, and
    what a partition has is never lost. The retention loop of the logs is not among
    the steps; it has its own theorem in [Retention]. *)
From Stdlib Require Import ZArith Lia Strings.Byte.
From stdpp Require Import base list strings gmap.
From S2P Require Import Prelude Files Decimal Record Index Segment PartitionLog Recovery Retention LogFacts Codec Frame Requests Responses Server Group Checkpoint Replication Config Json Topic Metadata Partition Offsets Broker Handlers BrokerInv BrokerOps.
Open Scope Z_scope.

(** The directories of the offset store are not the broker's own ([Topic] has what
    happens to a topic of that name). *)
Definition ordinary (name : string) : Prop := name ≠ "__consumer_offsets".

Definition store_room (s : OffsetStore) : Prop := ∀ l, l ∈ s.(os_logs) → inS 64 (HighestOffset l + 1).

(** The premises: environments are what they should be, numbers have their width,
    offsets do not run out of 64 bits, and followers do not use the leader's id. *)
Inductive broker_step : Broker → Broker → Prop :=
  | step_get_topic e name n b : EnvOk e → ordinary name → inS 32 n →
      broker_step b (getOrCreateTopic e name n b).2
  | step_create_topic e tReq b : EnvOk e → ordinary tReq.(ctt_Name) → inS 32 tReq.(ctt_NumPartitions) →
      inS 16 tReq.(ctt_ReplicationFactor) → broker_step b (create_topic e tReq b).2
  | step_produce e acks name terr pReq b : EnvOk e →
      inS 64 (leo b name pReq.(prp_PartitionID) + zlen pReq.(prp_RecordSet)) →
      broker_step b (produce_partition e acks name terr pReq b).2
  | step_fetch name pReq b : broker_step b (fetch_partition name pReq b).2
  | step_replica_fetch e1 e2 req b : EnvOk e1 → EnvOk e2 → inS 64 req.(rfq_FetchOffset) →
      req.(rfq_ReplicaID) ≠ b.(b_localID) → broker_step b (replica_fetch e1 e2 req b).2
  | step_tracker e name id b : broker_step b (getOrCreateISRTracker e name id b).2
  | step_purgatory p b : broker_step b (set_purgatory p b)
  | step_register name id ch b : broker_step b (registerListenerOn name id ch b)
  | step_unregister name id ch b : broker_step b (unregisterListener name id ch b)
  | step_signals s b : broker_step b (set_signals s b)
  | step_group gc b : coord_step b.(b_coordinator) gc → broker_step b (set_coordinator gc b)
  | step_commit e groupID name p b : EnvOk e → colon_free name → inS 32 p.(ocp_PartitionID) → inS 64 p.(ocp_Offset) →
      store_room b.(b_offsetStore) → broker_step b (commit_partition e groupID name p b).2
  | step_promote e name id leader b : broker_step b (PromoteLeader e name id leader b).2.

(** ** Every step keeps the invariant *)

(** What a partition has stays: its records, its watermark. *)
Definition partitions_grow (b b' : Broker) : Prop := ∀ n i p, get_partition n i b = Some p →
  ∃ p', get_partition n i b' = Some p' ∧ p.(pt_highWatermark) ≤ p'.(pt_highWatermark) ∧
    ∀ f o rs, log_view f p.(pt_log) o rs → ∃ more, log_view f p'.(pt_log) o (rs ++ more).

#[export] Instance partitions_grow_preorder : PreOrder partitions_grow.
Proof.
  split.
  - intros b n i p Hp. exists p. split_and!; [done|done|]. intros f o rs Hv. exists []. by rewrite app_nil_r.
  - intros b1 b2 b3 H12 H23 n i p Hp. destruct (H12 n i p Hp) as (p2 & Hp2 & W2 & V2).
    destruct (H23 n i p2 Hp2) as (p3 & Hp3 & W3 & V3). exists p3. split_and!; [done|lia|].
    intros f o rs Hv. destruct (V2 f o rs Hv) as [m1 Hv1]. destruct (V3 f o _ Hv1) as [m2 Hv2].
    exists (m1 ++ m2). by rewrite app_assoc.
Qed.

Lemma grow_same b b' : b'.(b_topics) = b.(b_topics) → partitions_grow b b'.
Proof.
  intros Ht n i p Hp. exists p. unfold get_partition in *. rewrite Ht. split_and!; [done|done|].
  intros f o rs Hv. exists []. by rewrite app_nil_r.
Qed.

Lemma grow_topics b b' : topics_grow b b' → partitions_grow b b'.
Proof.
  intros (_ & Ht & _) n i p Hp. destruct (get_partition_topic _ _ _ _ Hp) as (t & Hn & Hi).
  exists p. split_and!; [|done|].
  - unfold get_partition, GetPartition. by rewrite (Ht n t Hn).
  - intros f o rs Hv. exists []. by rewrite app_nil_r.
Qed.

Lemma grow_only n i b b' : only_partition n i b b' →
  (∀ p, get_partition n i b = Some p → ∃ p', get_partition n i b' = Some p' ∧ p.(pt_highWatermark) ≤ p'.(pt_highWatermark) ∧
     ∀ f o rs, log_view f p.(pt_log) o rs → ∃ more, log_view f p'.(pt_log) o (rs ++ more)) → partitions_grow b b'.
Proof.
  intros (_ & _ & _ & Ho) Hi n' i' p Hp. destruct (decide ((n', i') = (n, i))) as [[= -> ->]|Hne]; [by apply Hi|].
  exists p. rewrite Ho by done. split_and!; [done|done|]. intros f o rs Hv. exists []. by rewrite app_nil_r.
Qed.

Lemma grow_reads n i b b' : reads_partition n i b b' → partitions_grow b b'.
Proof.
  intros [Ho Hr]. apply (grow_only n i); [done|]. intros p Hp. destruct (Hr p Hp) as (p' & Hp' & _ & W & V).
  exists p'. split_and!; [done|done|]. intros f o rs Hv. exists []. rewrite app_nil_r. auto.
Qed.

Lemma grow_appended n i recs b b' : only_partition n i b b' → appended n i recs b b' → partitions_grow b b'.
Proof.
  intros Ho (q & q' & Hq & Hq' & W & V). apply (grow_only n i); [done|]. intros p Hp. rewrite Hq in Hp. injection Hp as <-.
  exists q'. split_and!; [done|done|]. intros f o rs Hv. eauto.
Qed.

Lemma all_open_dom b b' : b'.(b_metaManager) = b.(b_metaManager) → dom b'.(b_topics) = dom b.(b_topics) →
  all_open b → all_open b'.
Proof. intros Em Ed Ha n. rewrite Em. intros Hn%Ha. apply elem_of_dom. rewrite Ed. by apply elem_of_dom. Qed.

(** A good broker: the invariant, and every topic of the metadata is open. *)
Definition broker_good (b : Broker) : Prop := broker_inv b ∧ all_open b.

Lemma good_only n i b b' : broker_inv b' → only_partition n i b b' → broker_good b → broker_good b'.
Proof. intros Hb' (_ & Hm & Hd & _) [_ Ha]. split; [done|]. by eapply all_open_dom. Qed.

Lemma good_same b b' : broker_inv b' → b'.(b_metaManager) = b.(b_metaManager) → b'.(b_topics) = b.(b_topics) →
  broker_good b → broker_good b' ∧ partitions_grow b b'.
Proof.
  intros Hb' Hm Ht [_ Ha]. split; [|by apply grow_same]. split; [done|]. eapply all_open_dom; [done|by rewrite Ht|done].
Qed.

Lemma step_produce_ok e acks name terr pReq b : EnvOk e →
  inS 64 (leo b name pReq.(prp_PartitionID) + zlen pReq.(prp_RecordSet)) → broker_good b →
  let b' := (produce_partition e acks name terr pReq b).2 in broker_good b' ∧ partitions_grow b b'.
Proof.
  intros He H64 Hg. destruct (produce_partition e acks name terr pReq b) as [[resp pend] b'] eqn:E.
  destruct (produce_partition_spec e acks name terr pReq b resp pend b' (proj1 Hg) H64 E) as (Hb' & Ho & _ & Happ & _).
  cbn. split; [by eapply good_only|]. destruct Happ as [Hsame|[k Hk]]; [|by eapply grow_appended].
  eapply grow_only; [exact Ho|]. intros p Hp. exists p. rewrite Hsame. split_and!; [done|done|].
  intros f o rs Hv. exists []. by rewrite app_nil_r.
Qed.

Lemma Commit_inv e groupID name p b : EnvOk e → colon_free name → inS 32 p.(ocp_PartitionID) → inS 64 p.(ocp_Offset) →
  store_room b.(b_offsetStore) → broker_inv b → broker_inv (commit_partition e groupID name p b).2.
Proof.
  intros He Hc Hp Ho Hroom Hb. destruct (bi_offsets _ Hb) as [rss Hs].
  destruct (Commit_ok (e.(e_ModTime) []) e.(e_now) e.(e_nowMs) groupID name p.(ocp_PartitionID) p.(ocp_Offset)
    b.(b_offsetStore) rss Hs) as (rss' & Hs' & _ & Hn & _); [done..|apply He| |].
  - intros rs [i Hi]%list_elem_of_lookup. destruct (Forall2_lookup_r _ _ _ _ _ (si_logs _ _ Hs) Hi) as (l & Hl & ([f Hv] & _)).
    specialize (Hroom l ltac:(by eapply list_elem_of_lookup_2)). by rewrite (log_view_highest _ _ _ _ Hv) in Hroom.
  - by eapply inv_offsetStore.
Qed.

Lemma PromoteLeader_inv e name id leader b : broker_inv b → broker_inv (PromoteLeader e name id leader b).2.
Proof.
  intros Hb. unfold PromoteLeader. destruct (IncrementEpoch name id leader (b_epochMgr b)) as [ep em] eqn:E. cbn [snd].
  assert (Em : em = (IncrementEpoch name id leader (b_epochMgr b)).2) by by rewrite E.
  pose proof (leo_nonneg b name id Hb) as H0. destruct Hb as [H1 H2 H3 H4 H5 H6 H7 H8 H9 H10]. constructor; try done.
  intros n i t. rewrite getISRTracker_set. intros Ht.
  change (partitionLeader n i (set_tracker _ _ _ _)) with (partitionLeader n i (set_epochMgr em b)).
  rewrite Em, partitionLeader_increment. case_bool_decide as Hc.
  - destruct Hc as [-> ->]. injection Ht as <-. rewrite H2. by apply NewISRTracker_ok.
  - by apply H6.
Qed.

Lemma unregister_only name id ch b : ∃ x, unregisterListener name id ch b = set_listeners x b ∨ unregisterListener name id ch b = b.
Proof. unfold unregisterListener. repeat case_match; first [exists ∅; by right|eexists; by left]. Qed.

Lemma broker_step_ok b b' : broker_good b → broker_step b b' → broker_good b' ∧ partitions_grow b b'.
Proof.
  intros Hg H. pose proof Hg as [Hb Ha]. inversion H as
    [e name n ? He _ Hn|e tReq ? He _ Hn Hr|e acks name terr pReq ? He H64|name pReq ?|e1 e2 req ? He1 He2 Ho Hid
    |e name id ?|p ?|name id ch ?|name id ch ?|s ?|gc ? Hgc|e g name p ? He Hc Hp Ho Hroom|e name id leader ?]; subst.
  - destruct (getOrCreateTopic e name n b) as [r b1] eqn:E.
    destruct (getOrCreateTopic_spec e name n b r b1 Hb Hn E) as (? & ? & Hao & _). split; [by split; auto|by apply grow_topics].
  - destruct (create_topic e tReq b) as [r b1] eqn:E.
    destruct (create_topic_spec e tReq b r b1 Hb Ha Hn Hr E) as (? & ? & ? & _). split; [by split|by apply grow_topics].
  - by apply step_produce_ok.
  - destruct (fetch_partition_inv name pReq b Hb) as [? Hr]. split; [|by eapply grow_reads]. eapply good_only; [done|apply Hr|done].
  - destruct (replica_fetch e1 e2 req b) as [r b1] eqn:E.
    destruct (replica_fetch_spec e1 e2 req b r b1 Hb Ho Hid E) as (? & Hr & _).
    split; [|by eapply grow_reads]. eapply good_only; [done|apply Hr|done].
  - pose proof (tracker_only e name id b Hb) as (_ & ? & ?). apply good_same; [by apply inv_getOrCreateISRTracker|done..].
  - apply good_same; [by apply inv_purgatory|done..].
  - apply good_same; [by apply inv_listeners|done..].
  - destruct (unregister_only name id ch b) as [x [->| ->]]; apply good_same; [by apply inv_listeners|done..].
  - apply good_same; [by apply inv_signals|done..].
  - apply good_same; [|done..]. apply inv_coordinator; [done|]. eapply coord_step_inv; [|done]. apply Hb.
  - apply good_same; [by apply Commit_inv|done..].
  - apply good_same; [by apply PromoteLeader_inv|done..].
Qed.

(** ** What every step keeps *)

Definition metadata_grows (b b' : Broker) : Prop :=
  ∀ n m, b.(b_metaManager).(mm_topics) !! n = Some m → b'.(b_metaManager).(mm_topics) !! n = Some m.

Lemma broker_step_setting b b' : broker_good b → broker_step b b' → same_setting b b' ∧ metadata_grows b b'.
Proof.
  assert (Hsame : ∀ b1 b2, same_setting b1 b2 → b2.(b_metaManager) = b1.(b_metaManager) → same_setting b1 b2 ∧ metadata_grows b1 b2).
  { intros b1 b2 Hs Hm. split; [done|]. unfold metadata_grows. by rewrite Hm. }
  assert (Hown : ∀ n i b1 b2, only_partition n i b1 b2 → same_setting b1 b2 ∧ metadata_grows b1 b2) by (intros n i b1 b2 (? & ? & _); by apply Hsame).
  intros [Hb Ha] H. inversion H as
    [e name n ? He _ Hn|e tReq ? He _ Hn Hr|e acks name terr pReq ? He H64|name pReq ?|e1 e2 req ? He1 He2 Ho Hid
    |e name id ?|p ?|name id ch ?|name id ch ?|s ?|gc ? Hgc|e g name p ? He Hc Hp Ho Hroom|e name id leader ?]; subst; try (apply Hsame; [by split_and!|done]).
  - destruct (getOrCreateTopic e name n b) as [r b1] eqn:E.
    destruct (getOrCreateTopic_spec e name n b r b1 Hb Hn E) as (_ & (? & _ & ? & _) & _). by split.
  - destruct (create_topic e tReq b) as [r b1] eqn:E.
    destruct (create_topic_spec e tReq b r b1 Hb Ha Hn Hr E) as (_ & (? & _ & ? & _) & _). by split.
  - destruct (produce_partition e acks name terr pReq b) as [[resp pend] b1] eqn:E.
    destruct (produce_partition_spec e acks name terr pReq b resp pend b1 Hb H64 E) as (_ & Hp & _). by eapply Hown.
  - destruct (fetch_partition_inv name pReq b Hb) as [_ [Hp _]]. by eapply Hown.
  - destruct (replica_fetch e1 e2 req b) as [r b1] eqn:E.
    destruct (replica_fetch_spec e1 e2 req b r b1 Hb Ho Hid E) as (_ & [Hp _] & _). by eapply Hown.
  - destruct (tracker_only e name id b Hb) as (? & ? & _). by apply Hsame.
  - destruct (unregister_only name id ch b) as [x [->| ->]]; (apply Hsame; [by split_and!|done]).
Qed.

(** A run of the broker. *)
Lemma broker_run_ok b b' : rtc broker_step b b' → broker_good b →
  broker_good b' ∧ partitions_grow b b' ∧ same_setting b b' ∧ metadata_grows b b'.
Proof.
  induction 1 as [b|b b1 b2 Hstep _ IH]; intros Hg.
  { split; [done|]. split; [reflexivity|]. split; [by split_and!|]. by intros n m. }
  destruct (broker_step_ok b b1 Hg Hstep) as [Hg1 Hp1]. destruct (broker_step_setting b b1 Hg Hstep) as [(S1 & S2 & S3 & S4) Hm1].
  destruct (IH Hg1) as (Hg2 & Hp2 & (T1 & T2 & T3 & T4) & Hm2). split; [done|]. split; [by etrans|].
  split; [split_and!; congruence|]. intros n m Hn. by apply Hm2, Hm1.
Qed.
