(* ===== verification/Restart.v ===== *)
(** * Starting and stopping the broker (src/internal/broker/broker.go)

    [Broker_Shutdown] leaves files from which [New] makes a broker with the same topics,
    records and committed offsets. *)
From Stdlib Require Import ZArith Lia Strings.Byte.
From stdpp Require Import base list strings gmap.
From S2P Require Import Prelude Files Decimal Record Index Segment PartitionLog Recovery Retention LogFacts Codec Frame Requests Responses Server Group Checkpoint Replication Config Json Topic Metadata Partition Offsets Broker Handlers BrokerInv BrokerOps BrokerRun.
Open Scope Z_scope.

(** ** The offset store *)

Lemma Start_ok mt now dirs n rss : 0 < n < 2 ^ 32 → zlen rss = n →
  (∀ j rs, rss !! j = Some rs → opens (default ∅ (dirs !! j)) rs) →
  (∀ i rs, rss !! i = Some rs → Forall (key_home n i) rs) → ∃ s,
  Start mt now (NewOffsetStore dirs n) = (Ok tt, s) ∧ store_inv s rss.
Proof.
  intros Hn Hlen Hopen Hhome. destruct (start_loop_ok mt now dirs rss (Z.to_nat n) 0 [] ∅) as (logs & E & HF); [done|lia|].
  unfold Start, NewOffsetStore. simpl. case_test. rewrite E. eexists. split; [done|]. rewrite drop_0 in *.
  constructor; cbn; try done. apply Forall2_length in HF. lia.
Qed.

Lemma store_close s rss : store_inv s rss → Forall2 opens (OffsetStore_Close s).2.(os_dirs) rss.
Proof.
  intros Hs. destruct (close_logs_opens _ _ (si_logs _ _ Hs)) as (dirs & E & Hop).
  unfold OffsetStore_Close. rewrite (si_started _ _ Hs). cbn. by rewrite E.
Qed.

(** ** Closing the partitions *)

Definition closed_dir (p : Partition) : Dir := (Log_Close p.(pt_log)).2.(log_dir).

Section closing.
Context (base : list string).

(** Every partition's directory gets its files; the rest of the disk stays. *)
Lemma close_partitions name ps disk : validateTopicName base name = Ok tt → (∀ i, is_Some (ps !! i) → inS 32 i) →
  let disk' := map_fold (close_partition base name) disk ps in
  (∀ i p, ps !! i = Some p → disk' !! pdir base name i = Some (closed_dir p)) ∧
  ∀ dir, disk' !! dir = disk !! dir ∨ ∃ i p, ps !! i = Some p ∧ dir = pdir base name i.
Proof.
  intros Hv. simpl. apply (map_fold_weak_ind (λ disk' ps, (∀ i, is_Some (ps !! i) → inS 32 i) →
    (∀ i p, ps !! i = Some p → disk' !! pdir base name i = Some (closed_dir p)) ∧
    ∀ dir, disk' !! dir = disk !! dir ∨ ∃ i p, ps !! i = Some p ∧ dir = pdir base name i));
    [intros _; split; [done|by left]|].
  intros i p m d Hi IH Hids. unfold close_partition.
  assert (H32 : inS 32 i) by (apply Hids; rewrite lookup_insert_eq; by eexists).
  assert (Hkeep : ∀ j q, m !! j = Some q → <[i := p]> m !! j = Some q ∧ i ≠ j).
  { intros j q Hj. assert (i ≠ j) by (intros ->; by rewrite Hi in Hj). by rewrite lookup_insert_ne. }
  destruct IH as [IH1 IH2]; [intros j [q Hj]; apply Hids; exists q; by apply Hkeep|].
  rewrite (partition_dir_valid base name i H32 Hv). fold (pdir base name i) (closed_dir p). split.
  - intros j q [[<- <-]|[Hne Hq]]%lookup_insert_Some; [by rewrite lookup_insert_eq|].
    rewrite lookup_insert_ne; [by apply IH1|]. intros [_ ?]%pdir_inj; [done|done|]. apply Hids. exists q. by apply Hkeep.
  - intros dir. destruct (decide (dir = pdir base name i)) as [->|Hne].
    + right. exists i, p. by rewrite lookup_insert_eq.
    + rewrite lookup_insert_ne by done. destruct (IH2 dir) as [?|(j & q & Hj & ->)]; [by left|].
      right. exists j, q. split; [by apply Hkeep|done].
Qed.

Lemma close_topics ts disk :
  (∀ n t, ts !! n = Some t → validateTopicName base n = Ok tt ∧ ∀ i, is_Some (t.(tp_Partitions) !! i) → inS 32 i) →
  let disk' := map_fold (close_topic base) disk ts in
  (∀ n t i p, ts !! n = Some t → t.(tp_Partitions) !! i = Some p → disk' !! pdir base n i = Some (closed_dir p)) ∧
  ∀ dir, disk' !! dir = disk !! dir ∨ ∃ n t i p, ts !! n = Some t ∧ t.(tp_Partitions) !! i = Some p ∧ dir = pdir base n i.
Proof.
  simpl. apply (map_fold_weak_ind (λ disk' ts,
    (∀ n t, ts !! n = Some t → validateTopicName base n = Ok tt ∧ ∀ i, is_Some (t.(tp_Partitions) !! i) → inS 32 i) →
    (∀ n t i p, ts !! n = Some t → t.(tp_Partitions) !! i = Some p → disk' !! pdir base n i = Some (closed_dir p)) ∧
    ∀ dir, disk' !! dir = disk !! dir ∨ ∃ n t i p, ts !! n = Some t ∧ t.(tp_Partitions) !! i = Some p ∧ dir = pdir base n i));
    [intros _; split; [done|by left]|].
  intros n t m d Hn IH Hts.
  destruct (Hts n t) as [Hv Hids]; [by rewrite lookup_insert_eq|].
  assert (Hkeep : ∀ n' t', m !! n' = Some t' → <[n := t]> m !! n' = Some t' ∧ n ≠ n').
  { intros n' t' H'. assert (n ≠ n') by (intros ->; by rewrite Hn in H'). by rewrite lookup_insert_ne. }
  destruct IH as [IH1 IH2]; [intros n' t' H'; by apply Hts, Hkeep|].
  destruct (close_partitions n t.(tp_Partitions) d Hv Hids) as [C1 C2]. unfold close_topic. split.
  - intros n' t' i p [[<- <-]|[Hne Ht']]%lookup_insert_Some Hp; [by apply C1|].
    destruct (C2 (pdir base n' i)) as [->|(j & q & Hj & [? _]%pdir_inj)]; [by eapply IH1|done| |].
    + eapply Hts; [by apply Hkeep|by eexists].
    + apply Hids. by eexists.
  - intros dir. destruct (C2 dir) as [->|(j & q & Hj & ->)].
    + destruct (IH2 dir) as [?|(n' & t' & i & p & H' & Hp & ->)]; [by left|right].
      exists n', t', i, p. split_and!; [by apply Hkeep|done|done].
    + right. exists n, t, j, q. by rewrite lookup_insert_eq.
Qed.
End closing.

(** ** Loading the topics *)

(** A topic as it is found on a disk. *)
Definition loaded (b0 b : Broker) (m : TopicMeta) : Prop := ∃ t, b.(b_topics) !! m.(tmt_Name) = Some t ∧
  ∀ id p, t.(tp_Partitions) !! id = Some p →
    opened (storageConfig b0) b0.(b_disk) b0.(b_dataDir) m.(tmt_Name) id p.

Lemma load_topics_ok env metas : ∀ i b, broker_inv b → NoDup (tmt_Name <$> metas) →
  (∀ m, m ∈ metas → b.(b_metaManager).(mm_topics) !! m.(tmt_Name) = Some m ∧ b.(b_topics) !! m.(tmt_Name) = None ∧
     validateTopicName b.(b_dataDir) m.(tmt_Name) = Ok tt) →
  ∃ b', load_topics env i metas b = Ok b' ∧ broker_inv b' ∧ same_setting b b' ∧
    b'.(b_metaManager) = b.(b_metaManager) ∧ b'.(b_offsetStore) = b.(b_offsetStore) ∧
    (∀ n t, b.(b_topics) !! n = Some t → b'.(b_topics) !! n = Some t) ∧ ∀ m, m ∈ metas → loaded b b' m.
Proof.
  induction metas as [|m metas IH]; intros i b Hb Hnd Hms; cbn [load_topics].
  { exists b. split_and!; try done. intros m Hm. by apply not_elem_of_nil in Hm. }
  destruct (Hms m) as (Hm & Hnone & Hv); [left|]. rewrite Hv.
  destruct (open_topic_spec (env i) m.(tmt_Name) m b Hb Hnone Hv Hm)
    as (t & b1 & E & Hb1 & T & Hs & Mm & Of & _ & Hids & Hps & Hdisk). rewrite E.
  cbn [fmap list_fmap] in Hnd. apply NoDup_cons in Hnd as [Hnin Hnd].
  destruct Hs as (S1 & S2 & S3 & S4).
  assert (Hne : ∀ m', m' ∈ metas → tmt_Name m ≠ tmt_Name m').
  { intros m' Hin Eq. apply Hnin. rewrite Eq. by apply list_elem_of_fmap_2. }
  destruct (IH (S i) b1 Hb1 Hnd) as (b' & E' & Hb' & (S1' & S2' & S3' & S4') & Mm' & Of' & Hkeep & Hload).
  { intros m' Hin. destruct (Hms m') as (? & ? & ?); [by right|]. rewrite Mm, T, S2. split_and!; [done| |done].
    rewrite lookup_insert_ne; [done|by apply Hne]. }
  exists b'. split_and!; [done|done|split_and!; congruence|congruence|congruence| |].
  - intros n t' Ht'. apply Hkeep. rewrite T, lookup_insert_ne; [done|]. intros <-. by rewrite Hnone in Ht'.
  - intros m' [->|Hin]%elem_of_cons.
    + exists t. split; [apply Hkeep; by rewrite T, lookup_insert_eq|done].
    + destruct (Hload m' Hin) as (t' & Ht' & Hop). exists t'. split; [done|]. intros id p Hp.
      assert (Hc : storageConfig b1 = storageConfig b) by (unfold storageConfig; by rewrite S1).
      destruct (Hop id p Hp) as (O1 & O2 & O3). rewrite Hc in O1, O3. split_and!; [done|done|].
      intros o rs Ho. apply O3. unfold dir_at in *. rewrite S2, Hdisk; [done|].
      intros id' Hid'. destruct (bi_meta _ Hb) as [Hg _]. destruct (Hg _ _ Hm) as (_ & _ & H32 & _).
      destruct (Hms m') as (Hm' & _ & _); [by right|]. destruct (Hg _ _ Hm') as (_ & _ & H32' & _).
      destruct (bi_topic _ Hb' _ _ Ht') as (_ & _ & m2 & Hm2 & Hid2).
      assert (m2 = m') as -> by (rewrite Mm', Mm in Hm2; congruence).
      assert (0 ≤ id < tmt_NumPartitions m') by (apply Hid2; by eexists).
      intros [Eq _]%pdir_inj; [|widths; lia..]. by apply (Hne m').
Qed.

(** ** Storage a broker can start from *)

Record storage_ok (cfg : AppConfig) (dataDir : list string) (st : Storage) (mm : MetadataManager)
    (rss : list (list record)) : Prop := {
  so_cfg : config_ok (withDefaults (storageConfigFrom cfg));
  so_checkpoint : st.(st_checkpoint) = None;
  so_meta : NewMetadataManager st.(st_meta) = Ok mm;
  so_good : good_topics mm.(mm_topics);
  so_names n : is_Some (mm.(mm_topics) !! n) → validateTopicName dataDir n = Ok tt;
  so_disk : disk_ok (storageConfigFrom cfg) st.(st_disk);
  so_parts : 0 < offset_partitions cfg < 2 ^ 32;
  so_length : zlen rss = offset_partitions cfg;
  so_open j rs : rss !! j = Some rs → opens (default ∅ (st.(st_offsets) !! j)) rs;
  so_home j rs : rss !! j = Some rs → Forall (key_home (offset_partitions cfg) j) rs
}.

Lemma NewMetadataManager_file file mm : NewMetadataManager file = Ok mm → mm.(mm_file) = file.
Proof.
  unfold NewMetadataManager, load_metadata. cbn. destruct file as [data|]; [|by intros [= <-]].
  destruct (_ ≫= _) as [[topics|]|]; [by intros [= <-]..|done].
Qed.

Lemma listed_names topics keys : good_topics topics → NoDup keys → NoDup (tmt_Name <$> omap (topics !!.) keys).
Proof.
  intros Hg. induction 1 as [|k keys Hnin Hnd IH]; [constructor|]. cbn.
  destruct (topics !! k) as [m|] eqn:E; [|done]. cbn. constructor; [|done].
  intros (m' & Em & (k' & Hk' & Hm')%list_elem_of_omap)%list_elem_of_fmap.
  destruct (Hg k m E) as (Hkm & _), (Hg k' m' Hm') as (Hkm' & _). apply Hnin. congruence.
Qed.

Lemma NewOffsetStore_default dirs cfg : NewOffsetStore dirs cfg.(cfg_Group).(gcf_OffsetsTopicPartitions) =
  NewOffsetStore dirs (offset_partitions cfg).
Proof. unfold NewOffsetStore, offset_partitions. cbv zeta. destruct (Z.leb_spec (gcf_OffsetsTopicPartitions (cfg_Group cfg)) 0); [done|]. by case_test. Qed.

Lemma New_ok e `{EnvOk e} times env cfg dataDir st mm rss : storage_ok cfg dataDir st mm rss → ∃ b,
  New e times env cfg dataDir st = Ok b ∧ broker_good b ∧ b.(b_config) = cfg ∧ b.(b_dataDir) = dataDir ∧
  b.(b_metaManager) = mm ∧ store_inv b.(b_offsetStore) rss ∧ b.(b_localID) = int32 cfg.(cfg_Broker).(bc_ID) ∧
  b.(b_replicaIDs) = clusterReplicaIDs cfg ∧
  ∀ n t id p, b.(b_topics) !! n = Some t → t.(tp_Partitions) !! id = Some p →
    opened (storageConfigFrom cfg) st.(st_disk) dataDir n id p.
Proof.
  intros [Hc Hck Hm Hg Hn Hd Hp Hl Ho Hh].
  destruct (Start_ok times e.(e_now) st.(st_offsets) (offset_partitions cfg) rss Hp Hl Ho Hh) as (os & Eos & Hos).
  unfold New. rewrite Hm, NewOffsetStore_default, Eos.
  set (b0 := mkBroker _ _ _ _ _ _ _ _ _ _ _ _ _ _ _).
  assert (Hb0 : broker_inv b0).
  { constructor; cbn; try done.
    - split; [done|]. by rewrite (NewMetadataManager_file _ _ Hm).
    - apply reachable_inv, rtc_refl.
    - by exists rss.
    - by rewrite <- (si_length _ _ Hos), (Forall2_length _ _ _ (si_logs _ _ Hos)). }
  assert (Hlist : ∀ m, m ∈ ListTopics e.(e_metas) mm → mm.(mm_topics) !! m.(tmt_Name) = Some m).
  { intros m (k & Hk & Hkm)%list_elem_of_omap. destruct (Hg k m Hkm) as (-> & _). done. }
  destruct (load_topics_ok env (ListTopics e.(e_metas) mm) 0 b0 Hb0) as (b & E & Hb & (S1 & S2 & S3 & S4) & Mm & Of & _ & Hload).
  { apply listed_names; [done|]. rewrite (env_metas (mm_topics mm)). apply NoDup_fst_map_to_list. }
  { intros m Hin. pose proof (Hlist m Hin). split_and!; [done|done|]. apply Hn. by eexists. }
  exists b. split; [done|].
  assert (Hin : ∀ n m, mm.(mm_topics) !! n = Some m → m ∈ ListTopics e.(e_metas) mm ∧ tmt_Name m = n).
  { intros n m Hnm. split; [|by destruct (Hg n m Hnm)]. apply list_elem_of_omap. exists n. split; [|done].
    rewrite (env_metas (mm_topics mm)). apply list_elem_of_fmap. exists (n, m). by rewrite elem_of_map_to_list. }
  split_and!; [split; [done|]|done|done|done|by rewrite Of|done|done|].
  - intros n [m Hnm]. rewrite Mm in Hnm. destruct (Hin n m Hnm) as [Hx <-]. destruct (Hload m Hx) as (t & Ht & _). by eexists.
  - intros n t id p Ht Hp'. destruct (bi_topic _ Hb _ _ Ht) as (_ & _ & m & Hnm & _). rewrite Mm in Hnm.
    destruct (Hin n m Hnm) as [Hx <-]. destruct (Hload m Hx) as (t' & Ht' & Hop). rewrite Ht in Ht'. injection Ht' as <-.
    by apply Hop.
Qed.

(** ** Stopping and starting again *)

Lemma good_ids b n t i : broker_inv b → b.(b_topics) !! n = Some t → is_Some (t.(tp_Partitions) !! i) → inS 32 i.
Proof.
  intros Hb Ht Hi. destruct (bi_topic _ Hb _ _ Ht) as (_ & _ & m & Hm & Hids).
  destruct (bi_meta _ Hb) as [Hg _]. destruct (Hg _ _ Hm) as (_ & _ & H32 & _). apply Hids in Hi. widths. lia.
Qed.

Lemma Shutdown_disk b : broker_inv b →
  (∀ n i p, get_partition n i b = Some p → dir_at (Broker_Shutdown b).(st_disk) (pdir b.(b_dataDir) n i) = closed_dir p) ∧
  disk_ok (storageConfig b) (Broker_Shutdown b).(st_disk).
Proof.
  intros Hb. destruct (close_topics b.(b_dataDir) b.(b_topics) b.(b_disk)) as [C1 C2].
  { intros n t Ht. destruct (bi_topic _ Hb _ _ Ht) as (_ & ? & _). split; [done|]. intros i. by eapply good_ids. }
  assert (Hdir : ∀ n i p, get_partition n i b = Some p → dir_at (Broker_Shutdown b).(st_disk) (pdir b.(b_dataDir) n i) = closed_dir p).
  { intros n i p (t & Ht & Hp)%get_partition_topic. unfold dir_at. cbn. by rewrite (C1 n t i p). }
  split; [done|]. intros dir. destruct (C2 dir) as [E|(n & t & i & p & Ht & Hp & ->)].
  - unfold dir_at. cbn. rewrite E. apply (bi_disk _ Hb).
  - assert (Hg : get_partition n i b = Some p) by (unfold get_partition, GetPartition; by rewrite Ht).
    rewrite (Hdir n i p Hg). destruct (bi_part _ Hb _ _ _ Hg) as [_ _ _ (f & o & rs & Hv) Hd Hc _].
    exists o, rs. by eapply dir_holds_closed.
Qed.

Lemma Shutdown_ok b rss : broker_good b → store_inv b.(b_offsetStore) rss →
  storage_ok b.(b_config) b.(b_dataDir) (Broker_Shutdown b) b.(b_metaManager) rss.
Proof.
  intros [Hb Ha] Hs. pose proof (bi_parts _ Hb) as Hn. destruct (bi_meta _ Hb) as [Hg Hf]. pose proof (Forall2_length _ _ _ (si_logs _ _ Hs)) as Hl.
  constructor; cbn.
  - apply (bi_cfg _ Hb).
  - apply (bi_checkpoint _ Hb).
  - done.
  - done.
  - intros n Hn'. destruct (Ha n Hn') as [t Ht]. by destruct (bi_topic _ Hb _ _ Ht) as (_ & ? & _).
  - by apply Shutdown_disk.
  - rewrite <- Hn. apply Hs.
  - rewrite <- Hn, <- (si_length _ _ Hs), Hl. done.
  - intros j rs Hj. destruct (Forall2_lookup_r _ _ _ _ _ (store_close _ _ Hs) Hj) as (d & -> & Hd). done.
  - intros j rs Hj. rewrite <- Hn. by eapply si_home.
Qed.

(** What a broker has again after a restart. *)
Lemma restart_ok e times env b : EnvOk e → broker_good b → ∃ b',
  New e times env b.(b_config) b.(b_dataDir) (Broker_Shutdown b) = Ok b' ∧ broker_good b' ∧
  b'.(b_metaManager) = b.(b_metaManager) ∧
  (∀ n i p, get_partition n i b = Some p → ∃ p', get_partition n i b' = Some p' ∧
     p'.(pt_highWatermark) = LogEndOffset p' ∧ LogEndOffset p' = LogEndOffset p ∧
     ∀ f o rs, log_view f p.(pt_log) o rs → ∃ f', log_view f' p'.(pt_log) o rs) ∧
  (∀ n i, is_Some (get_partition n i b') → is_Some (get_partition n i b)) ∧
  ∀ g t p, Fetch g t p b'.(b_offsetStore) = Fetch g t p b.(b_offsetStore).
Proof.
  intros He Hg. pose proof Hg as [Hb Ha]. destruct (bi_offsets _ Hb) as [rss Hs].
  destruct (New_ok e times env _ _ _ _ _ (Shutdown_ok b rss Hg Hs))
    as (b' & E & [Hb' Ha'] & Hc & Hdd & Hm & Hs' & _ & _ & Hop).
  assert (Hids : ∀ n i, is_Some (get_partition n i b') ↔ is_Some (get_partition n i b)).
  { intros n i. split; (intros [p (t & Ht & Hp)%get_partition_topic]).
    - destruct (bi_topic _ Hb' _ _ Ht) as (_ & _ & m & Hm' & Hids). rewrite Hm in Hm'.
      destruct (Ha n) as [t' Ht']; [by eexists|]. destruct (bi_topic _ Hb _ _ Ht') as (_ & _ & m2 & Hm2 & Hids2).
      unfold get_partition, GetPartition. rewrite Ht'. cbn. apply Hids2. replace m2 with m by congruence. apply Hids. by eexists.
    - destruct (bi_topic _ Hb _ _ Ht) as (_ & _ & m & Hm' & Hids). rewrite <- Hm in Hm'.
      destruct (Ha' n) as [t' Ht']; [by eexists|]. destruct (bi_topic _ Hb' _ _ Ht') as (_ & _ & m2 & Hm2 & Hids2).
      unfold get_partition, GetPartition. rewrite Ht'. cbn. apply Hids2. replace m2 with m by congruence. apply Hids. by eexists. }
  exists b'. split_and!; [done|by split|done| |intros n i; apply Hids|].
  - intros n i p Hp. destruct (proj2 (Hids n i)) as [p' Hp']; [by eexists|]. exists p'.
    destruct (get_partition_topic _ _ _ _ Hp') as (t' & Ht' & Hi'). destruct (Hop n t' i p' Ht' Hi') as (_ & Hhw & Hview).
    assert (Hv : ∀ f o rs, log_view f p.(pt_log) o rs → ∃ f', log_view f' p'.(pt_log) o rs).
    { intros f o rs Hv. apply Hview. destruct (Shutdown_disk b Hb) as [Hdir _]. rewrite (Hdir n i p Hp).
      destruct (bi_part _ Hb _ _ _ Hp) as [_ _ _ _ Hd Hcfg _]. by eapply dir_holds_closed. }
    split_and!; [done|done| |done].
    destruct (po_log _ _ _ _ (bi_part _ Hb _ _ _ Hp)) as (f & o & rs & Hv0). destruct (Hv f o rs Hv0) as [f' Hv0'].
    unfold LogEndOffset. by rewrite (log_view_highest _ _ _ _ Hv0), (log_view_highest _ _ _ _ Hv0').
  - intros g t p. unfold Fetch. by rewrite (si_cache _ _ Hs), (si_cache _ _ Hs').
Qed.

(** ** Claims *)


(** C4: a broker that is shut down and started again has the same topics, in every
    partition the same records with the log end offset and the watermark at the end of
    the log, and the same committed offsets. *)
Theorem broker_restart e times env b : EnvOk e → broker_good b → ∃ b',
  New e times env b.(b_config) b.(b_dataDir) (Broker_Shutdown b) = Ok b' ∧ broker_good b' ∧
  b'.(b_metaManager) = b.(b_metaManager) ∧
  (∀ n i p, get_partition n i b = Some p → ∃ p', get_partition n i b' = Some p' ∧
     p'.(pt_highWatermark) = LogEndOffset p' ∧ LogEndOffset p' = LogEndOffset p ∧
     ∀ f o rs, log_view f p.(pt_log) o rs → ∃ f', log_view f' p'.(pt_log) o rs) ∧
  (∀ n i, is_Some (get_partition n i b') → is_Some (get_partition n i b)) ∧
  ∀ g t p, Fetch g t p b'.(b_offsetStore) = Fetch g t p b.(b_offsetStore).
Proof. apply restart_ok. Qed.

(** ** Witnesses *)

Definition sample_env : Env :=
  mkEnv 5 6 7 (λ _ _, 0) true [x2a; x01; xfe; x30; x77; x00; x9c; xd4] replicas_order (λ items, (map_to_list items).*1) (λ topics, (map_to_list topics).*1)
    keys_order keys_order.
#[global] Instance sample_env_ok : EnvOk sample_env.
Proof. constructor; try apply _; done || by_decide. Qed.

(** An empty data directory. *)
Definition fresh_storage : Storage := mkStorage None None [] ∅.
Definition sample_cfg : AppConfig := WithDefaults sample_yaml.

Lemma sample_cfg_ok : config_ok (withDefaults (storageConfigFrom sample_cfg)).
Proof. split_and!; by vm_compute. Qed.

Lemma fresh_storage_ok : storage_ok sample_cfg ["data"] fresh_storage (mkMetadataManager None ∅)
  (replicate (Z.to_nat (offset_partitions sample_cfg)) []).
Proof.
  constructor; [apply sample_cfg_ok|reflexivity|reflexivity|done| | |by_decide|by vm_compute| |].
  - intros n. cbn. rewrite lookup_empty. by intros [? ?].
  - intros dir. exists 0, []. unfold dir_at. cbn [fresh_storage st_disk]. rewrite lookup_empty. apply dir_holds_empty, sample_cfg_ok.
  - intros j rs [-> _]%lookup_replicate. cbn [fresh_storage st_offsets]. rewrite lookup_nil. apply opens_empty.
  - intros j rs [-> _]%lookup_replicate. constructor.
Qed.


Lemma broker_restart_witness :
  ∃ b b', New sample_env (λ _ _, 0) (λ _, sample_env) sample_cfg ["data"] fresh_storage = Ok b ∧
  New sample_env (λ _ _, 0) (λ _, sample_env) b.(b_config) b.(b_dataDir) (Broker_Shutdown b) = Ok b' ∧ broker_good b'.
Proof.
  destruct (New_ok sample_env (λ _ _, 0) (λ _, sample_env) _ _ _ _ _ fresh_storage_ok) as (b & E & Hg & Hc & _ & _ & Hs & _).
  destruct (broker_restart sample_env (λ _ _, 0) (λ _, sample_env) b sample_env_ok Hg) as (b' & E' & Hg' & _).
  by exists b, b'.
Defined.
