(* ===== verification/Stopping.v ===== *)
(** * While a broker is shut down (src/internal/broker/broker.go)

    [Broker.Shutdown] closes the coordinator, and with it the offset store, before it asks the
    server to stop; until the connections have drained, requests are still answered. *)
From Stdlib Require Import ZArith Lia.
From stdpp Require Import base list strings gmap.
From S2P Require Import Prelude Record Requests Responses Server Offsets CoordinatorLife Broker Handlers BrokerInv BrokerRun Restart.
Open Scope Z_scope.

(** The broker once [Shutdown] has closed the coordinator. *)
Definition stopping (b : Broker) : Broker := set_offsetStore (OffsetStore_Close b.(b_offsetStore)).2 b.

(** [b'] is the stopping broker up to the cache of the store. *)
Definition stopped_like (b b' : Broker) : Prop := ∃ cache, b' = set_offsetStore (set_cache cache (OffsetStore_Close b.(b_offsetStore)).2) b.

Lemma stopping_like b : stopped_like b (stopping b).
Proof. exists (OffsetStore_Close b.(b_offsetStore)).2.(os_cache). unfold stopping, set_cache. by destruct (OffsetStore_Close _).2. Qed.

Lemma commit_stopped e groupID name p b b' : stopped_like b b' →
  (commit_partition e groupID name p b').1.(osp_ErrorCode) = ErrNone ∧ stopped_like b (commit_partition e groupID name p b').2.
Proof.
  intros [cache ->]. split; [done|]. eexists. cbn [snd commit_partition b_offsetStore set_offsetStore].
  unfold Commit, commit_cache. cbn [os_started set_cache]. by rewrite Close_started.
Qed.

Lemma commit_topic_stopped env groupID t b b' : stopped_like b b' →
  Forall (λ p, p.(osp_ErrorCode) = ErrNone) (commit_topic env groupID t b').1.(ost_Partitions) ∧ stopped_like b (commit_topic env groupID t b').2.
Proof.
  intros Hb. unfold commit_topic.
  destruct (imap_state_inv (λ j, commit_partition (env j) groupID t.(oct_Name)) (stopped_like b) (λ _ r, r.(osp_ErrorCode) = ErrNone) t.(oct_Partitions) 0 b' Hb) as [H1 H2].
  { intros j p b1 _ Hb1. destruct (commit_stopped (env j) groupID t.(oct_Name) p b b1 Hb1). by split. }
  destruct (imap_state _ _ _ _) as [ps b2]. cbn in *. split; [|done]. by eapply Forall2_Forall_r; [exact H2|apply Forall_true].
Qed.

Lemma handleOffsetCommit_stopped io req b b' : stopped_like b b' →
  Forall (λ t, Forall (λ p, p.(osp_ErrorCode) = ErrNone) t.(ost_Partitions)) (handleOffsetCommit io req b').1.(ocs_Topics) ∧
  stopped_like b (handleOffsetCommit io req b').2.
Proof.
  intros Hb. unfold handleOffsetCommit.
  destruct (imap_state_inv (λ i, commit_topic (io.(io_env) i) req.(ocq_GroupID)) (stopped_like b)
    (λ _ t, Forall (λ p, p.(osp_ErrorCode) = ErrNone) t.(ost_Partitions)) req.(ocq_Topics) 0 b' Hb) as [H1 H2].
  { intros i t b1 _ Hb1. destruct (commit_topic_stopped (io.(io_env) i) req.(ocq_GroupID) t b b1 Hb1). by split. }
  destruct (imap_state _ _ _ _) as [ts b2]. cbn in *. split; [|done]. by eapply Forall2_Forall_r; [exact H2|apply Forall_true].
Qed.

(** Stopping twice leaves the files of stopping once. *)
Lemma stopped_files b b' : stopped_like b b' → Broker_Shutdown b' = Broker_Shutdown b ∧ b'.(b_config) = b.(b_config) ∧ b'.(b_dataDir) = b.(b_dataDir).
Proof.
  intros [cache ->]. split; [|done]. unfold Broker_Shutdown. cbn [b_metaManager b_checkpoint b_offsetStore b_dataDir b_disk b_topics set_offsetStore]. f_equal.
  unfold OffsetStore_Close at 1. cbn [os_started set_cache]. by rewrite Close_started.
Qed.

(** C39: an OffsetCommit request that arrives while the broker is shutting down, after the
    coordinator was closed, is answered without an error for every partition, and none of its
    offsets is there after the restart: the store has what it had before. *)
Theorem commit_lost_in_shutdown e times env io req b : EnvOk e → broker_good b →
  let '(resp, b1) := handleOffsetCommit io req (stopping b) in
  Forall (λ t, Forall (λ p, p.(osp_ErrorCode) = ErrNone) t.(ost_Partitions)) resp.(ocs_Topics) ∧
  ∃ b', New e times env b.(b_config) b.(b_dataDir) (Broker_Shutdown b1) = Ok b' ∧
    ∀ g t p, Fetch g t p b'.(b_offsetStore) = Fetch g t p b.(b_offsetStore).
Proof.
  intros He Hg. destruct (handleOffsetCommit_stopped io req b _ (stopping_like b)) as [Hr Hb]. destruct (handleOffsetCommit _ _ _) as [resp b1]. cbn in Hr, Hb.
  split; [exact Hr|]. destruct (stopped_files _ _ Hb) as (-> & _). destruct (restart_ok e times env b He Hg) as (b' & E & _ & _ & _ & _ & Hf). by exists b'.
Qed.

(** A commit of offset 42 to a fresh broker that is being shut down. *)
Definition late_request : OffsetCommitRequest :=
  mkOffsetCommitRequest "billing" 1 "m1" [mkOffsetCommitRequestTopic "orders" [mkOffsetCommitRequestPartition 0 42 EmptyString]].
Definition late_io : IO := mkIO (λ _ _, sample_env) (λ _ _, mkWait false id false) [] (mkWait false id false).

Lemma commit_lost_in_shutdown_witness : ∃ b b',
  let '(resp, b1) := handleOffsetCommit late_io late_request (stopping b) in
  resp = mkOffsetCommitResponse [mkOffsetCommitResponseTopic "orders" [mkOffsetCommitResponsePartition 0 ErrNone]] ∧
  New sample_env (λ _ _, 0) (λ _, sample_env) sample_cfg ["data"] (Broker_Shutdown b1) = Ok b' ∧ Fetch "billing" "orders" 0 b'.(b_offsetStore) = -1.
Proof.
  destruct (New_ok sample_env (λ _ _, 0) (λ _, sample_env) _ _ _ _ _ fresh_storage_ok) as (b & E & Hg & Hc & Hd & _ & Hs & _).
  assert (Hf : Fetch "billing" "orders" 0 b.(b_offsetStore) = -1).
  { unfold Fetch. rewrite (si_cache _ _ Hs). generalize (Z.to_nat (offset_partitions sample_cfg)). intros m.
    assert (Ej : mjoin (replicate m ([] : list record)) = []) by (induction m; done). by rewrite Ej. }
  pose proof (commit_lost_in_shutdown sample_env (λ _ _, 0) (λ _, sample_env) late_io late_request b sample_env_ok Hg) as H.
  rewrite Hc, Hd in H. destruct (handleOffsetCommit late_io late_request (stopping b)) as [resp b1] eqn:Eh.
  destruct H as (_ & b' & E' & Hf').
  exists b, b'. rewrite Eh. split; [by injection Eh as <- _|]. split; [exact E'|]. by rewrite Hf', Hf.
Defined.
