(* ===== verification/EndToEnd.v ===== *)
(** * From the producer's records to the consumer (src/internal/broker/broker.go)

    Conditions under which a produce request is accepted and a fetch request gets the
    records, as responses of the handlers. *)
From Stdlib Require Import ZArith Lia Strings.Byte.
From stdpp Require Import base list strings gmap.
From S2P Require Import Prelude Files Decimal Record Index Segment PartitionLog Recovery Retention LogFacts Codec Frame Requests Responses Server Group Checkpoint Replication Config Json Topic Metadata Partition Offsets Broker Handlers BrokerInv BrokerOps BrokerRun.
Open Scope Z_scope.

(** ** Record sets *)

Lemma decode_record_set_images recs : ∀ fuel, Forall record_fits recs → (length (images recs) ≤ fuel)%nat →
  decode_record_set fuel (images recs) = (recs, false).
Proof.
  induction recs as [|r recs IH]; intros fuel Hok Hf; [by destruct fuel|].
  apply Forall_cons in Hok as [[Hwf Hsz] Hok]. rewrite images_cons in *.
  assert (Hl : (0 < length (record_image r))%nat).
  { pose proof (EncodedSize_min r). pose proof (length_record_image r). lia. }
  rewrite length_app in Hf. destruct fuel as [|fuel]; [lia|]. cbn [decode_record_set].
  destruct (record_image r ++ images recs) as [|c tl] eqn:E; [apply (f_equal length) in E; rewrite length_app in E; simpl in E; lia|].
  rewrite <- E, decode_image by done. rewrite IH by (done || lia). done.
Qed.

(** ** A partition with one replica *)

(** Nobody but this broker is tracked for the partition. *)
Definition sole_replica (b : Broker) (n : string) (i : Z) : Prop := ∀ e k,
  k ∈ dom (getOrCreateISRTracker e n i b).1.(isr_replicas) → k = b.(b_localID).

Lemma min_leo_ge L reps : Forall (λ r, L ≤ r.(rep_LogEndOffset)) reps → min_leo reps = -1 ∨ L ≤ min_leo reps.
Proof.
  induction reps as [|x reps IH] using rev_ind; [by left|]. intros [Hf [Hx _]%Forall_cons]%Forall_app. specialize (IH Hf).
  unfold min_leo in *. rewrite foldl_app. cbn [foldl]. destruct (rep_InSync x && _); lia.
Qed.

(** The entries after an update. *)
Lemma UpdateLEO_entries now iter id leo leaderLEO t k rep :
  (UpdateLEO now iter id leo leaderLEO t).2.(isr_replicas) !! k = Some rep →
  (k = id ∧ leo ≤ rep.(rep_LogEndOffset)) ∨ (k ≠ id ∧ ∃ rep0, t.(isr_replicas) !! k = Some rep0 ∧ rep.(rep_LogEndOffset) = rep0.(rep_LogEndOffset)).
Proof.
  rewrite UpdateLEO_eq. unfold calculateHWLocked. cbv zeta. intros H.
  assert (Hk : isr_replicas (updateISRLocked now (set_replicas (<[id := touched now id leo leaderLEO t]> (isr_replicas t)) t)) !! k = Some rep)
    by (by destruct (_ <? _)).
  unfold updateISRLocked in Hk. cbn in Hk. apply lookup_fmap_Some in Hk as (rep0 & <- & [[-> <-]|[Hne Hk]]%lookup_insert_Some).
  - left. split; [done|]. cbn. destruct (touched_ok now k leo leaderLEO t) as [_ ->]. unfold advance_leo.
    destruct (isr_replicas t !! k) as [r|]; [|done]. destruct (Z.ltb_spec (rep_LogEndOffset r) leo); cbn; lia.
  - right. split; [done|]. by exists rep0.
Qed.

(** When every replica has reached the end of the leader's log, so has the watermark. *)
Lemma UpdateLEO_all now iter `{ReplicaOrder iter} id leo leaderLEO L loc t : tracker_ok L loc loc t → 0 ≤ leo → L ≤ leo →
  (id = loc → leo ≤ L) → (id = loc ∨ is_Some (t.(isr_replicas) !! loc)) →
  (∀ k rep, t.(isr_replicas) !! k = Some rep → k ≠ id → L ≤ rep.(rep_LogEndOffset)) →
  (UpdateLEO now iter id leo leaderLEO t).1 = L.
Proof.
  intros Ht H0 HL Hid Hown Hall. destruct (UpdateLEO_hw now iter id leo leaderLEO t) as [-> _].
  destruct (UpdateLEO_ok now iter id leo leaderLEO L loc t Ht H0 Hid Hown) as [[Hl Hle Hr _] [own Howned]].
  pose proof (UpdateLEO_entries now iter id leo leaderLEO t) as Hent. apply Z.le_antisymm; [apply Hle|].
  rewrite UpdateLEO_eq in *. set (t1 := updateISRLocked now _) in *.
  assert (E1 : isr_replicas (calculateHWLocked iter t1) = isr_replicas t1) by (unfold calculateHWLocked; cbv zeta; by destruct (_ <? _)).
  rewrite E1 in Hent, Hr, Howned.
  assert (Hmin : L ≤ min_leo (iter (isr_replicas t1))).
  { assert (Hin : ∀ k rep, isr_replicas t1 !! k = Some rep → rep ∈ iter (isr_replicas t1)).
    { intros k rep Hk. rewrite (replica_order (isr_replicas t1)), list_elem_of_fmap. exists (k, rep). by rewrite elem_of_map_to_list. }
    assert (Hof : ∀ rep, rep ∈ iter (isr_replicas t1) → ∃ k, isr_replicas t1 !! k = Some rep).
    { intros rep. rewrite (replica_order (isr_replicas t1)), list_elem_of_fmap. intros ([k r] & -> & Hk%elem_of_map_to_list). by exists k. }
    destruct (min_leo_ge L (iter (isr_replicas t1))) as [E|]; [| |done].
    - apply Forall_forall. intros rep [k Hk]%Hof. destruct (Hent k rep Hk) as [[_ ?]|(Hne & rep0 & Hk0 & ->)]; [lia|by eapply Hall].
    - destruct (min_leo_le (iter (isr_replicas t1)) own) as [Hp _]; [|by eapply Hin| |lia].
      + apply Forall_forall. intros rep [k Hk]%Hof. by apply (Hr k).
      + destruct (Hr loc own Howned) as [Eo _]. unfold t1, updateISRLocked in Howned. cbn in Howned.
        apply lookup_fmap_Some in Howned as (own0 & <- & _). cbn in *. rewrite Eo, (tk_leader _ _ _ _ Ht). by rewrite bool_decide_true. }
  unfold calculateHWLocked. cbv zeta. destruct (Z.ltb_spec (isr_highWatermark t1) (min_leo (iter (isr_replicas t1)))); cbn [set_hw isr_highWatermark]; lia.
Qed.

Lemma UpdateLEO_sole now iter `{ReplicaOrder iter} L loc t : tracker_ok L loc loc t → 0 ≤ L →
  (∀ k, is_Some (t.(isr_replicas) !! k) → k = loc) → (UpdateLEO now iter loc L L t).1 = L.
Proof.
  intros Ht HL Hsole. apply (UpdateLEO_all now iter loc L L L loc); [done..|by left|].
  intros k rep Hk Hne. destruct Hne. apply Hsole. by eexists.
Qed.

(** The tracker that [getOrCreateISRTracker] finds or makes has the same replicas after
    the checks of a produce request. *)
Lemma tracker_replicas_leader e n i n' i' b : broker_inv b →
  dom (getOrCreateISRTracker e n i (isLeader n' i' b).2).1.(isr_replicas) = dom (getOrCreateISRTracker e n i b).1.(isr_replicas).
Proof.
  intros Hb. destruct (isLeader n' i' b) as [l b1] eqn:E. apply isLeader_spec in E as (_ & Hp & [->|[x ->]]); [done|].
  cbn [snd]. unfold getOrCreateISRTracker. change (getISRTracker n i (set_epochMgr x b)) with (getISRTracker n i b).
  by destruct (getISRTracker n i b).
Qed.

Lemma tracker_replicas_again e e' n i b :
  dom (getOrCreateISRTracker e n i (getOrCreateISRTracker e' n i b).2).1.(isr_replicas) =
  dom (getOrCreateISRTracker e' n i b).1.(isr_replicas).
Proof.
  unfold getOrCreateISRTracker at 1. destruct (getISRTracker n i b) as [t|] eqn:E.
  - unfold getOrCreateISRTracker. by rewrite E; cbn; rewrite E.
  - unfold getOrCreateISRTracker. rewrite E. cbn [snd]. by rewrite getISRTracker_set, bool_decide_true.
Qed.

Lemma tracker_found e n i b : (getOrCreateISRTracker e n i b).1 =
  match getISRTracker n i b with
  | Some t => t
  | None => NewISRTracker e.(e_trackerNow) b.(b_checkpoint) n i (partitionLeader n i b) b.(b_replicaIDs) (lagTimeMaxMs b)
  end.
Proof. unfold getOrCreateISRTracker. by destruct (getISRTracker n i b). Qed.

(** What a produce request needs to be accepted for a partition with one replica. *)
Record accepts (e : Env) (acks : Z) (b : Broker) (n : string) (i : Z) (p : Partition) (recs : list record) : Prop := {
  ac_inv : broker_inv b;
  ac_part : get_partition n i b = Some p;
  ac_leader : partitionLeader n i b = b.(b_localID);
  ac_sole : sole_replica b n i;
  ac_fence : (produce_fence e acks n i (isLeader n i b).2).1 = true;
  ac_size : b.(b_config).(cfg_Log).(lc_MaxMessageBytes) ≤ 0 ∨ zlen (images recs) ≤ b.(b_config).(cfg_Log).(lc_MaxMessageBytes);
  ac_some : recs ≠ [];
  ac_fits : Forall record_fits recs;
  ac_room : inS 64 (LogEndOffset p + zlen recs)
}.

Lemma storable_number_from o recs : 0 ≤ o → Forall record_fits recs → inS 64 (o + zlen recs) → storable_at o recs.
Proof.
  intros H0 Hf H64. split; [|done]. revert o H0 H64. induction Hf as [|r recs [(_ & Ht & Ha) Hs] Hf IH]; intros o H0 H64;
    [constructor|]. cbn [number_from length] in *. constructor.
  - split; [split_and!; cbn; [widths; lia|done|done]|done].
  - apply IH; [lia|]. widths. lia.
Qed.

Lemma partition_append_fits cfg n i p mt now recs : part_ok cfg n i p → recs ≠ [] → Forall record_fits recs →
  inS 64 (LogEndOffset p + zlen recs) → ∃ p',
  Partition_AppendBatch mt now (Some <$> recs) p = ((LogEndOffset p, None), p') ∧ part_ok cfg n i p' ∧
  LogEndOffset p' = LogEndOffset p + zlen recs ∧
  ∀ f o rs, log_view f p.(pt_log) o rs → log_view f p'.(pt_log) o (rs ++ number_from (o + zlen rs) recs).
Proof.
  intros Hp Hne Hfit H64. pose proof (part_leo_nonneg _ _ _ _ Hp) as H0.
  assert (Hwf : Forall record_wf recs) by (eapply Forall_impl; [exact Hfit|by intros r [? _]]).
  destruct (partition_append_ok cfg n i p mt now recs Hp Hwf Hne H64) as (base & err & p' & k & E & Hp' & _ & _ & Hv & Hok).
  destruct (po_log _ _ _ _ Hp) as (f & o & rs & Hview).
  assert (err = None) as ->.
  { unfold LogEndOffset in *. rewrite (log_view_highest _ _ _ _ Hview) in *.
    destruct (append_loop_ok mt now recs p.(pt_log) f o rs None Hview) as (l' & El & _); [by apply storable_number_from|].
    unfold Partition_AppendBatch in E. destruct (po_idle _ _ _ _ Hp) as (_ & Hcl & _). rewrite Hcl in E.
    assert (Ea : AppendBatch mt now (Some <$> recs) (pt_log p) = append_loop mt now None (Some <$> recs) (pt_log p)).
    { unfold AppendBatch. destruct Hview as (? & ? & ? & ? & ? & Hr & _). rewrite (lr_open _ _ _ _ _ _ _ Hr). by destruct recs. }
    rewrite Ea, El in E. congruence. }
  destruct (Hok eq_refl) as [Ek ->]. rewrite Ek in Hv. exists p'. split_and!; [done|done| |done].
  unfold LogEndOffset. rewrite (log_view_highest _ _ _ _ Hview), (log_view_highest _ _ _ _ (Hv f o rs Hview)).
  rewrite length_app, length_number_from. lia.
Qed.

Lemma updateLeaderLEO_sole e `{EnvOk e} n i p b : broker_inv b → get_partition n i b = Some p →
  partitionLeader n i b = b.(b_localID) → sole_replica b n i → (updateLeaderLEO e n i (LogEndOffset p) b).1 = LogEndOffset p.
Proof.
  intros Hb Hp Hl Hs. unfold updateLeaderLEO, updateReplicaLEO. specialize (Hs e).
  destruct (getOrCreateISRTracker e n i b) as [t b1] eqn:E. cbn [fst] in Hs.
  destruct (getOrCreateISRTracker_spec _ _ _ _ _ _ Hb E) as (_ & Ht & _). rewrite Hl, (leo_eq _ _ _ _ Hp) in Ht.
  pose proof (UpdateLEO_sole e.(e_trackerNow) e.(e_replicas) (LogEndOffset p) b.(b_localID) t Ht) as Hu.
  destruct (UpdateLEO _ _ _ _ _ t) as [hw t']. apply Hu; [by eapply part_leo_nonneg, bi_part|].
  intros k Hk. apply Hs. by apply elem_of_dom.
Qed.

Lemma produce_accepts e `{EnvOk e} acks n i p recs b : accepts e acks b n i p recs → ∃ b' p' t,
  produce_partition e acks n None (mkProduceRequestPartition i (images recs)) b =
    ((mkProduceResponsePartition i ErrNone (LogEndOffset p) e.(e_nowMs),
      if acks =? -1 then Some (LogEndOffset p + zlen recs) else None), b') ∧
  broker_inv b' ∧ only_partition n i b b' ∧ get_partition n i b' = Some p' ∧
  p'.(pt_highWatermark) = LogEndOffset p' ∧ LogEndOffset p' = LogEndOffset p + zlen recs ∧
  getISRTracker n i b' = Some t ∧ t.(isr_highWatermark) = LogEndOffset p' ∧
  ∀ f o rs, log_view f p.(pt_log) o rs → log_view f p'.(pt_log) o (rs ++ number_from (o + zlen rs) recs).
Proof.
  intros [Hb Hp Hl Hs Hf Hsz Hne Hfit H64]. unfold produce_partition. cbn [prp_PartitionID prp_RecordSet]. rewrite Hp.
  pose proof (inv_isLeader n i b Hb) as Hb1. pose proof (isLeader_only n i b) as Ho1.
  pose proof (λ e, tracker_replicas_leader e n i n i b Hb) as Hd1.
  destruct (isLeader n i b) as [leads b1] eqn:El. cbn [snd] in *. apply isLeader_spec in El as (-> & Hlead & _).
  rewrite Hl, Z.eqb_refl. cbn [negb]. fold (produce_fence e acks n i b1).
  destruct (produce_fence_spec e acks n i b1 Hb1) as (Hb2 & Ho2 & Hl2).
  assert (Hs2 : sole_replica (produce_fence e acks n i b1).2 n i).
  { intros e' k. assert (b_localID (produce_fence e acks n i b1).2 = b_localID b) as ->
      by (destruct Ho1 as ((_ & _ & <- & _) & _), Ho2 as ((_ & _ & -> & _) & _); done).
    unfold produce_fence. destruct (acks =? -1).
    - pose proof (tracker_replicas_again e' e n i b1) as Ha. pose proof (Hd1 e) as Hd.
      destruct (getOrCreateISRTracker e n i b1) as [t1 b1'] eqn:E1. cbn [fst snd] in *. rewrite Ha, Hd. apply Hs.
    - cbn [snd]. rewrite Hd1. apply Hs. }
  destruct (produce_fence e acks n i b1) as [enough b2]. cbn [fst snd] in *. subst enough. cbn [negb].
  pose proof (only_replication_trans _ _ _ Ho1 Ho2) as Ho12. destruct (only_replication_partition n i _ _ Ho12) as [Hop2 Hg2].
  assert (Ec : b_config b2 = b_config b) by apply Ho12. rewrite Ec.
  assert (Hbytes : (0 <? lc_MaxMessageBytes (cfg_Log (b_config b))) && (lc_MaxMessageBytes (cfg_Log (b_config b)) <? zlen (images recs)) = false).
  { destruct (Z.ltb_spec 0 (lc_MaxMessageBytes (cfg_Log (b_config b)))), (Z.ltb_spec (lc_MaxMessageBytes (cfg_Log (b_config b))) (zlen (images recs))); cbn; lia. }
  rewrite Hbytes, decode_record_set_images by done.
  assert (Hp2 : get_partition n i b2 = Some p) by by rewrite Hg2.
  assert (Hl2' : partitionLeader n i b2 = b_localID b2).
  { rewrite Hl2, Hlead, Hl. symmetry. apply Ho12. }
  destruct (partition_append_fits _ n i p (mod_time e b2 n i) e.(e_now) recs (bi_part _ Hb _ _ _ Hp) Hne Hfit H64)
    as (p1 & Ea & Hpo1 & Hleo & Hv). rewrite Ea.
  assert (Hwf : Forall record_wf recs) by (eapply Forall_impl; [exact Hfit|by intros r [? _]]).
  destruct (produce_append_spec e (mod_time e b2 n i) n i p recs b2 (LogEndOffset p) None p1) as (Hb3 & Ho3 & _ & Hok); try done.
  destruct (Hok eq_refl) as [_ Hafter]. destruct (after_append e n i p1 (set_partition n i p1 b2)) as [lo b4] eqn:E4.
  assert (Hg3 : get_partition n i (set_partition n i p1 b2) = Some p1) by (apply set_partition_topics; by eapply get_partition_is_topic).
  assert (Hl3 : partitionLeader n i (set_partition n i p1 b2) = b_localID (set_partition n i p1 b2)).
  { unfold set_partition. by destruct (_ !! n). }
  destruct (after_append_spec e n i p1 _ lo b4 Hb3 Hg3 Hl3 E4) as (Hb4 & -> & Ho4 & hw & Ehw & _ & Hg4 & (t & Ht & Hthw)).
  assert (Hs3 : sole_replica (set_partition n i p1 b2) n i).
  { intros e' k. unfold set_partition. destruct (b_topics b2 !! n); [|apply Hs2].
    pose proof (Hs2 e' k) as Hk. rewrite tracker_found in *. exact Hk. }
  rewrite (updateLeaderLEO_sole e n i p1 _ Hb3 Hg3 Hl3 Hs3) in Ehw. subst hw.
  exists b4, (SetHighWatermark (LogEndOffset p1) p1), t.
  assert (Hlo : LogEndOffset (SetHighWatermark (LogEndOffset p1) p1) = LogEndOffset p1) by done.
  split; [destruct recs; [done|]; by rewrite Hleo|]. rewrite Hlo.
  split_and!; try done; [by eapply only_partition_trans; [|eapply only_partition_trans]|].
  cbn. destruct (po_hw _ _ _ _ Hpo1). destruct (Z.ltb_spec p1.(pt_highWatermark) (LogEndOffset p1)); lia.
Qed.

(** ** Fetching *)

(** The records before the first one at or above the watermark. *)
Fixpoint below (hw : Z) (recs : list record) : list record :=
  match recs with
  | [] => []
  | r :: recs => if hw <=? r.(rec_Offset) then [] else r :: below hw recs
  end.

Lemma below_in hw recs r : r ∈ below hw recs → r ∈ recs ∧ r.(rec_Offset) < hw.
Proof.
  induction recs as [|x recs IH]; cbn; [by intros ?%not_elem_of_nil|].
  destruct (Z.leb_spec hw (rec_Offset x)); [by intros ?%not_elem_of_nil|].
  intros [->|Hr]%elem_of_cons; [split; [left|done]|]. destruct (IH Hr). split; [by right|done].
Qed.

Lemma below_consecutive hw recs : ∀ a, consecutive a recs → below hw recs = take (Z.to_nat (hw - a)) recs.
Proof.
  induction recs as [|r recs IH]; intros a Hc; [by rewrite take_nil|].
  apply consecutive_cons in Hc as [Eo Hc]. cbn. rewrite Eo. destruct (Z.leb_spec hw a).
  - by replace (Z.to_nat (hw - a)) with 0%nat by lia.
  - rewrite (IH (a + 1) Hc). by replace (Z.to_nat (hw - a)) with (S (Z.to_nat (hw - (a + 1)))) by lia.
Qed.

Lemma encode_below_ok hw recs : ∀ buf, Forall (λ r, EncodedSize r ≤ MaxRecordSize) recs →
  encode_below hw recs buf = Ok (buf ++ images (below hw recs)).
Proof.
  induction recs as [|r recs IH]; intros buf Hok; cbn [encode_below below]; [by rewrite app_nil_r|].
  apply Forall_cons in Hok as [Hr Hok]. destruct (hw <=? rec_Offset r); [by rewrite app_nil_r|].
  unfold Encode. case_bool (Z.ltb_spec MaxRecordSize (EncodedSize r)). cbn [Write].
  rewrite images_cons, app_assoc. by apply IH.
Qed.

Lemma log_view_sizes f l b rs r : log_view f l b rs → r ∈ rs → storable r.
Proof.
  intros (e & sealed & rss & a & ra & Hr & -> & _) [Hin|Hin]%elem_of_app.
  - pose proof (lr_sealed _ _ _ _ _ _ _ Hr) as Hc. clear -Hc Hin.
    induction Hc as [|b0 e0 s segs rs rss Hb Hd Hf Hne Hc IH]; [by apply not_elem_of_nil in Hin|].
    apply elem_of_app in Hin as [Hin|Hin]; [|auto]. pose proof (sd_ok _ _ Hd) as HF. rewrite Forall_forall in HF. auto.
  - pose proof (sd_ok _ _ (sr_data _ _ (lr_active _ _ _ _ _ _ _ Hr))) as HF. rewrite Forall_forall in HF. auto.
Qed.

(** The response to a fetch of a partition the broker has. *)
Definition fetch_response (pReq : FetchRequestPartition) (p : Partition) (recs : list record) : FetchResponsePartition :=
  let resp code set := mkFetchResponsePartition pReq.(frp_PartitionID) code p.(pt_highWatermark) (LogStartOffset p) set in
  if p.(pt_highWatermark) <=? pReq.(frp_FetchOffset) then resp ErrNone []
  else if (0 <? pReq.(frp_MaxBytes)) && (pReq.(frp_FetchOffset) <? LogStartOffset p) then resp ErrUnknown []
  else resp ErrNone (images (below p.(pt_highWatermark) recs)).

Lemma LogStartOffset_view f p o rs : log_view f p.(pt_log) o rs → LogStartOffset p = o.
Proof.
  intros (? & ? & ? & ? & ? & Hr & _). unfold LogStartOffset, LowestOffset.
  by destruct (log_rep_lowest _ _ _ _ _ _ _ Hr) as (s0 & tl & -> & ->).
Qed.

Lemma fetch_partition_spec n pReq b p recs err p' : broker_inv b → get_partition n pReq.(frp_PartitionID) b = Some p →
  Partition_ReadFrom pReq.(frp_FetchOffset) pReq.(frp_MaxBytes) p = ((recs, err), p') →
  (fetch_partition n pReq b).1 = fetch_response pReq p recs ∧
  ∀ f o rs, log_view f p.(pt_log) o rs → ∀ r, r ∈ recs → r ∈ rs ∧ pReq.(frp_FetchOffset) ≤ r.(rec_Offset).
Proof.
  intros Hb Hp E. pose proof (bi_part _ Hb _ _ _ Hp) as Hpo. unfold fetch_partition, fetch_response. rewrite Hp, E.
  destruct (partition_read_ok _ _ _ _ _ _ _ _ Hpo E) as (_ & _ & Hread). cbn [fst snd] in Hread.
  split; [|intros f o rs Hv; by apply (Hread f o rs Hv)].
  destruct (_ <=? _); [done|]. destruct (po_log _ _ _ _ Hpo) as (f & o & rs & Hv). destruct (Hread f o rs Hv) as [-> Hin].
  rewrite (LogStartOffset_view _ _ _ _ Hv). destruct (_ && _); [done|].
  rewrite encode_below_ok; [done|]. apply Forall_forall. intros r Hr. by apply (log_view_sizes _ _ _ _ r Hv), Hin.
Qed.

(** With room for everything, the response has all committed records from the offset on. *)
Lemma fetch_partition_all n pReq b p o rs : broker_inv b → get_partition n pReq.(frp_PartitionID) b = Some p →
  log_view true p.(pt_log) o rs → o ≤ pReq.(frp_FetchOffset) < p.(pt_highWatermark) →
  0 < pReq.(frp_MaxBytes) ≤ MaxInt32 - MaxRecordSize →
  total_size (drop (Z.to_nat (pReq.(frp_FetchOffset) - o)) rs) ≤ pReq.(frp_MaxBytes) →
  (fetch_partition n pReq b).1 = mkFetchResponsePartition pReq.(frp_PartitionID) ErrNone p.(pt_highWatermark) o
    (images (take (Z.to_nat (p.(pt_highWatermark) - pReq.(frp_FetchOffset))) (drop (Z.to_nat (pReq.(frp_FetchOffset) - o)) rs))).
Proof.
  intros Hb Hp Hv Ho Hm Hsz. set (fo := frp_FetchOffset pReq) in *. set (mb := frp_MaxBytes pReq) in *.
  destruct (Log_ReadFrom_rep p.(pt_log) o rs fo mb Hv) as (l' & rss & E & Ej & _); [lia|done|].
  rewrite readfrom_ref_all, Ej in E by (lia || by rewrite Ej).
  destruct (fetch_partition_spec n pReq b p (drop (Z.to_nat (fo - o)) rs) None
    (mkPartition p.(pt_Topic) p.(pt_ID) l' p.(pt_highWatermark) p.(pt_appendCh) p.(pt_closeCh) p.(pt_writer) p.(pt_responses)) Hb Hp)
    as [-> _].
  { unfold Partition_ReadFrom. fold fo mb. by rewrite E. }
  unfold fetch_response. fold fo mb. rewrite (LogStartOffset_view _ _ _ _ Hv).
  case_bool (Z.leb_spec p.(pt_highWatermark) fo). case_bool (Z.ltb_spec fo o). rewrite andb_false_r.
  do 2 f_equal. replace fo with (o + Z.of_nat (Z.to_nat (fo - o))) at 2 by lia. 
  by apply below_consecutive, consecutive_drop; eapply log_view_consecutive.
Qed.

(** C20: whatever a fetch asks for, the record set of a partition in the response holds
    whole records of its log, from the requested offset on and below the high
    watermark that the response reports: uncommitted records are never visible. *)
Theorem fetch_only_committed n pReq b : broker_inv b → let resp := (fetch_partition n pReq b).1 in ∃ out,
  resp.(fsp_RecordSet) = images out ∧
  (∀ r, r ∈ out → pReq.(frp_FetchOffset) ≤ r.(rec_Offset) < resp.(fsp_HighWatermark)) ∧
  ∀ p, get_partition n pReq.(frp_PartitionID) b = Some p → resp.(fsp_HighWatermark) = p.(pt_highWatermark) ∧
    ∀ f o rs, log_view f p.(pt_log) o rs → ∀ r, r ∈ out → r ∈ rs.
Proof.
  intros Hb. destruct (get_partition n pReq.(frp_PartitionID) b) as [p|] eqn:Hp.
  2: { unfold fetch_partition. rewrite Hp. exists []. split_and!; [done|by intros r ?%not_elem_of_nil|done]. }
  destruct (Partition_ReadFrom pReq.(frp_FetchOffset) pReq.(frp_MaxBytes) p) as [[recs err] p'] eqn:E.
  destruct (fetch_partition_spec n pReq b p recs err p' Hb Hp E) as [-> Hin]. unfold fetch_response.
  assert (Hnil : ∃ out : list record, [] = images out ∧ (∀ r, r ∈ out → pReq.(frp_FetchOffset) ≤ r.(rec_Offset) < p.(pt_highWatermark)) ∧
    ∀ p0, Some p = Some p0 → pt_highWatermark p = pt_highWatermark p0 ∧ ∀ f o rs, log_view f p0.(pt_log) o rs → ∀ r, r ∈ out → r ∈ rs).
  { exists []. split_and!; [done|by intros r ?%not_elem_of_nil|]. intros p0 [= <-]. split; [done|]. by intros ? ? ? _ r ?%not_elem_of_nil. }
  destruct (_ <=? _); [exact Hnil|]. destruct (_ && _); [exact Hnil|].
  destruct (po_log _ _ _ _ (bi_part _ Hb _ _ _ Hp)) as (f & o & rs & Hv).
  exists (below p.(pt_highWatermark) recs). split; [done|]. split.
  - intros r [Hr Hlt]%below_in. destruct (Hin f o rs Hv r Hr). done.
  - intros p0 [= <-]. split; [done|]. intros f2 o2 rs2 Hv2 r [Hr _]%below_in. by apply (Hin f2 o2 rs2 Hv2).
Qed.
