(* ===== verification/Standalone.v ===== *)
(** * Brokers as they start (src/internal/broker/broker.go, broker_replication.go)

    From [New] on, through the creation of topics, the leaders are those of the static
    assignment. With no other brokers configured, a broker leads every partition as its
    only replica, and every well-formed produce request that is not too large is
    accepted. *)
From Stdlib Require Import ZArith Lia Strings.Byte.
From stdpp Require Import base list strings gmap.
From S2P Require Import Prelude Files Decimal Record Index Segment PartitionLog Recovery Retention LogFacts Codec Frame Requests Responses Server Group Checkpoint Replication Config Json Topic Metadata Partition Offsets Broker Handlers BrokerInv BrokerOps BrokerRun Restart EndToEnd.
Open Scope Z_scope.

(** Leaders are those of the static assignment, and trackers know only the replicas of
    the configuration. *)
Record started (b : Broker) : Prop := {
  sd_leader n i : partitionLeader n i b = staticPartitionLeader b.(b_replicaIDs) b.(b_localID) i;
  sd_tracker n i t k : getISRTracker n i b = Some t → k ∈ dom t.(isr_replicas) → k ∈ b.(b_replicaIDs)
}.

Lemma dom_new_replicas (now : Z) ids (k : Z) : ∀ reps : gmap Z ReplicaState,
  k ∈ dom (foldl (λ reps id, <[id := mkReplicaState id 0 now true]> reps) reps ids) → k ∈ ids ∨ k ∈ dom reps.
Proof.
  induction ids as [|id ids IH]; intros reps Hk; [by right|]. cbn in Hk. destruct (IH _ Hk) as [|Hd]; [left; by right|].
  rewrite dom_insert, elem_of_union, elem_of_singleton in Hd. destruct Hd as [->|]; [left; left|by right].
Qed.

Lemma tracker_started e n i b k : started b → k ∈ dom (getOrCreateISRTracker e n i b).1.(isr_replicas) → k ∈ b.(b_replicaIDs).
Proof.
  intros [Hl Ht]. unfold getOrCreateISRTracker. destruct (getISRTracker n i b) as [t|] eqn:E; [by apply (Ht n i)|].
  cbn. intros [|Hk]%dom_new_replicas; [done|]. by rewrite dom_empty in Hk; apply elem_of_empty in Hk.
Qed.

Lemma started_tracker e n i b : started b → started (getOrCreateISRTracker e n i b).2.
Proof.
  intros Hs. pose proof (λ k, tracker_started e n i b k Hs) as Hk. destruct Hs as [Hl Ht]. unfold getOrCreateISRTracker in *.
  destruct (getISRTracker n i b) as [t|] eqn:E; [done|]. cbn [fst snd] in *. constructor; [done|].
  intros n' i' t k. rewrite getISRTracker_set. case_bool_decide; [|by apply Ht]. intros [= <-]. apply Hk.
Qed.

Lemma started_epoch n i b : started b → started (set_epochMgr (IncrementEpoch n i
  (staticPartitionLeader b.(b_replicaIDs) b.(b_localID) i) b.(b_epochMgr)).2 b).
Proof.
  intros [Hl Ht]. constructor; [|done]. intros n' i'. rewrite partitionLeader_increment. case_bool_decide as H; [|done].
  by destruct H as [_ ->].
Qed.

Lemma started_init e n np b : started b → started (initTopicReplication e n np b).
Proof.
  unfold initTopicReplication. generalize (seqZ 0 np) as l. intros l. revert b.
  induction l as [|p l IH]; intros b Hs; [done|]. cbn. apply IH. unfold init_partition_replication. apply started_tracker.
  destruct (GetEpoch n p (b_epochMgr b)); [done|]. by apply started_epoch.
Qed.

Lemma started_open e n np b : started b → started (open_topic e n np b).2.
Proof.
  intros Hs. unfold open_topic. destruct (NewTopic _ _ _ _ _ _ _) as [[t|err] disk]; cbn [snd].
  - apply started_init. by destruct Hs.
  - by destruct Hs.
Qed.

Lemma started_load env metas : ∀ i b b', started b → load_topics env i metas b = Ok b' → started b'.
Proof.
  induction metas as [|m metas IH]; intros i b b' Hs; cbn [load_topics]; [by intros [= <-]|].
  destruct (validateTopicName _ _); [|done]. pose proof (started_open (env i) (tmt_Name m) (tmt_NumPartitions m) b Hs) as Ho.
  destruct (open_topic _ _ _ b) as [[]]; [|done]. cbn [snd] in Ho. by apply IH.
Qed.

Lemma started_New e times env cfg dataDir st b : New e times env cfg dataDir st = Ok b → started b.
Proof.
  intros E. unfold New in E. destruct (NewMetadataManager _); [|done]. destruct (Start _ _ _) as [[] os]; [|done].
  revert E. apply started_load. by constructor.
Qed.

(** ** One broker *)

Record standalone (b : Broker) : Prop := {
  sa_replicas : b.(b_replicaIDs) = [b.(b_localID)];
  sa_started : started b
}.

Lemma standalone_leader b n i : standalone b → partitionLeader n i b = b.(b_localID).
Proof. intros [Hr Hs]. rewrite (sd_leader b Hs), Hr. unfold staticPartitionLeader. cbn [length]. by rewrite Z.rem_1_r. Qed.

Lemma sole_replica_alone b n i : standalone b → sole_replica b n i.
Proof. intros [Hr Hs] e k Hk%tracker_started; [|done]. rewrite Hr in Hk. by apply list_elem_of_singleton in Hk. Qed.

Lemma standalone_New e times env cfg dataDir st b : cfg.(cfg_Brokers) = [] → b.(b_replicaIDs) = clusterReplicaIDs cfg →
  b.(b_localID) = int32 cfg.(cfg_Broker).(bc_ID) → New e times env cfg dataDir st = Ok b → standalone b.
Proof. intros Hc Hr Hl E. split; [|by eapply started_New]. rewrite Hr, Hl. unfold clusterReplicaIDs. by rewrite Hc. Qed.

(** ** Accepted requests *)

(** Fencing only concerns requests that wait for all replicas. *)
Lemma standalone_accepts e acks b n i p recs : broker_inv b → standalone b → get_partition n i b = Some p → acks ≠ -1 →
  b.(b_config).(cfg_Log).(lc_MaxMessageBytes) ≤ 0 ∨ zlen (images recs) ≤ b.(b_config).(cfg_Log).(lc_MaxMessageBytes) →
  recs ≠ [] → Forall record_fits recs → inS 64 (LogEndOffset p + zlen recs) → accepts e acks b n i p recs.
Proof.
  intros Hb Hs Hp Ha Hm Hne Hfit H64. constructor; try done.
  - by apply standalone_leader.
  - by apply sole_replica_alone.
  - unfold produce_fence. by case_bool (Z.eqb_spec acks (-1)).
Qed.

(** ** Produce requests *)

Lemma started_frame b b' : b'.(b_epochMgr) = b.(b_epochMgr) → b'.(b_isrTrackers) = b.(b_isrTrackers) → b'.(b_replicaIDs) = b.(b_replicaIDs) →
  b'.(b_localID) = b.(b_localID) → started b → started b'.
Proof.
  intros E1 E2 E3 E4 [Hl Ht]. constructor.
  - intros n i. unfold partitionLeader. rewrite E1, E3, E4. apply Hl.
  - intros n i t k. unfold getISRTracker. rewrite E2, E3. apply Ht.
Qed.

Lemma started_set_partition n i p b : started b → started (set_partition n i p b).
Proof. intros Hs. unfold set_partition. destruct (_ !! n); [|done]. by apply (started_frame b). Qed.

Lemma started_isLeader n i b : started b → started (isLeader n i b).2.
Proof.
  intros Hs. unfold isLeader. destruct (GetEpoch n i (b_epochMgr b)) as [[? ?]|]; [done|]. cbn [snd]. by apply started_epoch.
Qed.

Lemma started_update e n i id leo leaderLEO b : id ∈ b.(b_replicaIDs) → started b → started (updateReplicaLEO e n i id leo leaderLEO b).2.
Proof.
  intros Hid Hs. unfold updateReplicaLEO. pose proof (λ k, tracker_started e n i b k Hs) as Hk. pose proof (started_tracker e n i b Hs) as Hs'.
  assert (Er : b_replicaIDs (getOrCreateISRTracker e n i b).2 = b_replicaIDs b) by (unfold getOrCreateISRTracker; by destruct (getISRTracker n i b)).
  destruct (getOrCreateISRTracker e n i b) as [t b1]. cbn [fst snd] in *. destruct (UpdateLEO _ _ _ _ _ t) as [hw t'] eqn:Eu. cbn [snd].
  destruct Hs' as [Hl Ht]. constructor; [exact Hl|]. intros n' i' t1 k. rewrite getISRTracker_set. case_bool_decide; [|apply Ht].
  intros [= <-] [rep Hrep]%elem_of_dom. change (b_replicaIDs (set_tracker n i t' b1)) with (b_replicaIDs b1). rewrite Er.
  pose proof (UpdateLEO_entries (e_trackerNow e) (e_replicas e) id leo leaderLEO t k rep) as Hent. rewrite Eu in Hent. cbn [snd] in Hent.
  destruct (Hent Hrep) as [[-> _]|(_ & rep0 & Hold & _)]; [done|]. apply Hk, elem_of_dom. by eexists.
Qed.

Lemma started_after_append e n i p b : b.(b_localID) ∈ b.(b_replicaIDs) → started b → started (after_append e n i p b).2.
Proof.
  intros Hl Hs. unfold after_append, updateLeaderLEO. pose proof (started_update e n i b.(b_localID) (LogEndOffset p) (LogEndOffset p) b Hl Hs) as Hu.
  destruct (updateReplicaLEO _ _ _ _ _ _ b) as [hw b1]. cbn [snd] in *. apply (started_set_partition n i (SetHighWatermark hw p)) in Hu.
  by apply (started_frame (set_partition n i (SetHighWatermark hw p) b1)).
Qed.

Lemma started_produce e acks n err pReq b : b.(b_localID) ∈ b.(b_replicaIDs) → started b → started (produce_partition e acks n err pReq b).2.
Proof.
  intros Hin Hs. unfold produce_partition. destruct err; [done|]. destruct (get_partition _ _ _) as [pObj|]; [|done].
  pose proof (started_isLeader n (prp_PartitionID pReq) b Hs) as H1. assert (Hin1 : b_localID (isLeader n (prp_PartitionID pReq) b).2 ∈ b_replicaIDs (isLeader n (prp_PartitionID pReq) b).2).
  { unfold isLeader. by destruct (GetEpoch _ _ _) as [[? ?]|]. }
  destruct (isLeader n _ b) as [leads b1]. cbn [snd] in H1, Hin1. destruct (negb leads); [done|].
  fold (produce_fence e acks n (prp_PartitionID pReq) b1).
  assert (H2 : started (produce_fence e acks n (prp_PartitionID pReq) b1).2 ∧
    b_localID (produce_fence e acks n (prp_PartitionID pReq) b1).2 ∈ b_replicaIDs (produce_fence e acks n (prp_PartitionID pReq) b1).2).
  { unfold produce_fence. destruct (acks =? -1); [|done]. pose proof (started_tracker e n (prp_PartitionID pReq) b1 H1) as Ht.
    unfold getOrCreateISRTracker in *. by destruct (getISRTracker n (prp_PartitionID pReq) b1). }
  destruct (produce_fence e acks n _ b1) as [enough b2]. cbn [snd] in H2. destruct H2 as [H2 Hin2].
  destruct (negb enough); [done|]. destruct (_ && _); [done|]. destruct (decode_record_set _ _) as [records corrupt]. destruct corrupt; [done|].
  destruct records as [|r records]; [done|]. destruct (Partition_AppendBatch _ _ _ pObj) as [[base aerr] pObj'].
  pose proof (started_set_partition n (prp_PartitionID pReq) pObj' b2 H2) as H3. destruct aerr; [done|].
  pose proof (started_after_append e n (prp_PartitionID pReq) pObj' (set_partition n (prp_PartitionID pReq) pObj' b2)) as H4.
  destruct (after_append _ _ _ _ _) as [lo b4]. cbn [snd] in *. apply H4; [|done]. unfold set_partition. by destruct (b_topics b2 !! n).
Qed.

(** A broker on its own stays so. *)
Lemma standalone_produce e acks n err pReq b b' : standalone b → same_setting b b' → b' = (produce_partition e acks n err pReq b).2 → standalone b'.
Proof.
  intros [Hr Hs] (_ & _ & El & Er) ->. constructor; [by rewrite Er, El|]. apply started_produce; [|done]. rewrite Hr. by apply list_elem_of_singleton.
Qed.

(** ** A broker with a topic *)

Lemma log_view_empty f l o : log_view f l o [] → log_view true l o [].
Proof.
  intros (e & sealed & rss & a & ra & Hr & E & _). exists e, sealed, rss, a, ra. split_and!; [done|done|]. intros _.
  destruct (lr_sealed _ _ _ _ _ _ _ Hr) as [|b0 e0 s segs rs rss Hb Hd Hf Hne Hc]; [constructor|].
  exfalso. destruct rs; [by apply Hne|done].
Qed.

(** A metadata file with the topic "orders", and no data yet. *)
Definition orders_metadata : MetadataManager := (CreateTopic true "orders" 1 1 (mkMetadataManager None ∅)).2.
Definition orders_storage : Storage := mkStorage orders_metadata.(mm_file) None [] ∅.

Lemma orders_metadata_ok : persisted orders_metadata ∧ orders_metadata.(mm_topics) = {["orders" := mkTopicMeta "orders" 1 1]}.
Proof.
  split; [|done]. destruct (CreateTopic_spec true "orders" 1 1 (mkMetadataManager None ∅) (CreateTopic true "orders" 1 1 (mkMetadataManager None ∅)).1
    orders_metadata) as (Hp & _); [apply surjective_pairing| | |by_decide|by_decide|done].
  - by split.
  - by_decide.
Qed.

Lemma orders_storage_ok : storage_ok sample_cfg ["data"] orders_storage orders_metadata
  (replicate (Z.to_nat (offset_partitions sample_cfg)) []).
Proof.
  destruct orders_metadata_ok as [[Hg Hf] Ht]. destruct fresh_storage_ok as [S1 S2 _ _ _ S6 S7 S8 S9 S10].
  constructor; [exact S1|exact S2|exact Hf|exact Hg| |exact S6|exact S7|exact S8|exact S9|exact S10].
  intros n. rewrite Ht. intros [m [<- _]%lookup_singleton_Some]. by vm_compute.
Qed.

(** The broker that starts from it. *)
Lemma orders_broker_of cfg rss : storage_ok cfg ["data"] orders_storage orders_metadata rss → ∃ b q,
  New sample_env (λ _ _, 0) (λ _, sample_env) cfg ["data"] orders_storage = Ok b ∧ broker_good b ∧ b.(b_config) = cfg ∧
  b.(b_localID) = int32 cfg.(cfg_Broker).(bc_ID) ∧ b.(b_replicaIDs) = clusterReplicaIDs cfg ∧
  b.(b_metaManager) = orders_metadata ∧ is_Some (b.(b_topics) !! "orders") ∧
  get_partition "orders" 0 b = Some q ∧ log_view true q.(pt_log) 0 [].
Proof.
  intros Hst. destruct (New_ok sample_env (λ _ _, 0) (λ _, sample_env) _ _ _ _ _ Hst)
    as (b & E & Hg & Hc & _ & Hm & _ & Hid & Hrep & Hop). destruct orders_metadata_ok as [_ Ht].
  destruct (proj2 Hg "orders") as [t Htp]; [rewrite Hm, Ht, lookup_singleton_eq; by eexists|].
  destruct (bi_topic _ (proj1 Hg) _ _ Htp) as (_ & _ & m & Hmm & Hids). rewrite Hm, Ht, lookup_singleton_eq in Hmm. injection Hmm as <-.
  destruct (proj2 (Hids 0)) as [q Hq]; [cbn; lia|].
  destruct (Hop "orders" t 0 q Htp Hq) as (_ & _ & Hv). destruct (Hv 0 []) as [f Hview].
  { unfold dir_at. cbn [orders_storage st_disk]. rewrite lookup_empty. apply dir_holds_empty, (so_cfg _ _ _ _ _ Hst). }
  exists b, q. split; [exact E|]. split; [exact Hg|]. split; [exact Hc|]. split; [exact Hid|]. split; [exact Hrep|]. split; [exact Hm|].
  split; [by eexists|]. split; [|exact (log_view_empty _ _ _ Hview)]. unfold get_partition, GetPartition. by rewrite Htp.
Qed.

Lemma orders_broker : ∃ b q, New sample_env (λ _ _, 0) (λ _, sample_env) sample_cfg ["data"] orders_storage = Ok b ∧
  broker_good b ∧ standalone b ∧ b.(b_config) = sample_cfg ∧ is_Some (b.(b_topics) !! "orders") ∧
  get_partition "orders" 0 b = Some q ∧ log_view true q.(pt_log) 0 [].
Proof.
  destruct (orders_broker_of _ _ orders_storage_ok) as (b & q & E & Hg & Hc & Hid & Hrep & _ & Ht & Hq & Hv).
  exists b, q. split; [exact E|]. split; [exact Hg|]. split; [by refine (standalone_New _ _ _ _ _ _ _ _ Hrep Hid E)|].
  split; [exact Hc|]. split; [exact Ht|]. split; [exact Hq|exact Hv].
Qed.
