(* ===== verification/Network.v ===== *)
(** * Connections to a broker (the round trips of src/pkg/client)

    Dialling, and the write, flush and read of one request that the producer, the
    consumer and the group consumer each have in their own file. The network is an
    interface: a client is a program over it, and [Serves] says what a network with a
    mux behind it promises. [Served] is such a network with the connection loop of
    [Server] at its other end. *)
From Stdlib Require Import ZArith Lia Strings.Byte.
From stdpp Require Import base list strings gmap.
From S2P Require Import Prelude Files Codec Frame Server.
Open Scope Z_scope.

(** [net.DialTimeout], writing to a connection, what arrives on it until the reader
    has a response or the peer is gone, and closing. *)
Class Network (N : Type) := {
  Dial : string → N → result nat * N;
  Conn_Write : nat → bytes → N → result Z * N;
  Arrived : nat → N → bytes * N;
  Conn_Close : nat → N → option error * N
}.

(** A connection as the writer under a [bufio.Writer]. *)
Record Link (N : Type) := mkLink {
  lk_conn : nat;
  lk_net : N
}.
Arguments mkLink {N} _ _.
Arguments lk_conn {N} _.
Arguments lk_net {N} _.

(** An open connection and the bytes its [bufio.Reader] has read ahead. Its
    [bufio.Writer] is empty between requests: a request is flushed, or the connection
    is dropped. *)
Record Stream := mkStream {
  st_conn : nat;
  st_br : bytes
}.

Section client.
Context {N : Type} `{Network N}.

#[global] Instance Link_Write : Writer (Link N) := λ p l,
  let '(r, n) := Conn_Write l.(lk_conn) p l.(lk_net) in (r, mkLink l.(lk_conn) n).

(** [for _, addr := range addrs]: the first that answers, or the last error. *)
Fixpoint dial_any (addrs : list string) (lastErr : option error) (n : N) : (nat + option error) * N :=
  match addrs with
  | [] => (inr lastErr, n)
  | addr :: addrs =>
      match Dial addr n with
      | (Ok conn, n) => (inl conn, n)
      | (Err err, n) => dial_any addrs (Some err) n
      end
  end.

Definition connect_failed (who : string) (lastErr : option error) : error :=
  match lastErr with
  | Some err => wrapError (who +:+ " connect failed") err
  | None => errorString (who +:+ " connect failed")
  end.

(** A request and its response over one connection; every error here makes the
    connection unusable. *)
Definition exchange (who : string) (frame : RequestFrame) (st : Stream) (n : N) :
    result ResponseFrame * (Stream * N) :=
  match RequestFrame_Write frame (NewWriterSize (mkLink st.(st_conn) n) (64 * 1024)) with
  | (Err err, bw) => (Err (wrapError (who +:+ ": write frame") err), (st, bw.(bw_wr).(lk_net)))
  | (Ok _, bw) =>
      match bufio_Flush bw with
      | (Err err, bw) => (Err (wrapError (who +:+ ": flush frame") err), (st, bw.(bw_wr).(lk_net)))
      | (Ok _, bw) =>
          let '(more, n) := Arrived st.(st_conn) bw.(bw_wr).(lk_net) in
          match ReadResponseFrame (st.(st_br) ++ more) with
          | (Err err, br) => (Err (wrapError (who +:+ ": read response") err), (mkStream st.(st_conn) br, n))
          | (Ok respFrame, br) =>
              (if respFrame.(rsf_CorrelationID) =? frame.(rqf_CorrelationID) then Ok respFrame
               else Err (errorString (who +:+ ": correlation id mismatch")),
               (mkStream st.(st_conn) br, n))
          end
      end
  end.
End client.

(** ** What a served network promises *)

(** [RequestFrame.Write] fills in the size field. *)
Definition request_sized (f : RequestFrame) : RequestFrame :=
  mkRequestFrame (14 + zlen (str_bytes f.(rqf_ClientID)) + zlen f.(rqf_Payload)) f.(rqf_ApiKey) f.(rqf_ApiVersion)
    f.(rqf_CorrelationID) f.(rqf_ClientID) f.(rqf_Payload).

(** [net_state] is the state of the handlers behind the mux [m], [sent] what the server
    has yet to read from a connection. *)
Class ServedBy (N St : Type) := {
  net_state : N → St;
  net_open : nat → N → Prop;
  sent : nat → N → bytes;
  net_listens : string → N → Prop
}.

Definition idle {N St} `{ServedBy N St} (c : nat) (n : N) : Prop := net_open c n ∧ sent c n = [].

(** The other connections and the listeners stay as they are. *)
Definition others {N St} `{ServedBy N St} (c : nat) (n n' : N) : Prop :=
  (∀ addr, net_listens addr n → net_listens addr n') ∧ ∀ c', c' ≠ c → idle c' n → idle c' n'.

Class Serves {N St : Type} `{Network N, !ServedBy N St} (m : Mux St) (limit : Z) := {
  serves_dial addr n : net_listens addr n → ∃ c n', Dial addr n = (Ok c, n') ∧
    idle c n' ∧ net_state n' = net_state n ∧ others c n n' ∧ ∀ c', idle c' n → c' ≠ c;
  serves_write c p n : net_open c n → ∃ n', Conn_Write c p n = (Ok (zlen p), n') ∧
    net_open c n' ∧ sent c n' = sent c n ++ p ∧ net_state n' = net_state n ∧ others c n n';
  serves_arrive c n f : net_open c n → sent c n = request_wire f → request_wf f →
    limit ≤ 0 ∨ f.(rqf_Size) ≤ limit → response_wf (sized (Dispatch m f (net_state n)).1.1) →
    ∃ n', Arrived c n = (response_wire (Dispatch m f (net_state n)).1.1, n') ∧
    idle c n' ∧ net_state n' = (Dispatch m f (net_state n)).2 ∧ others c n n';
  serves_close c n : net_state (Conn_Close c n).2 = net_state n ∧ others c n (Conn_Close c n).2
}.

Section serves.
Context {N St : Type} `{Serves N St m limit}.

Lemma others_trans c (n1 n2 n3 : N) : others c n1 n2 → others c n2 n3 → others c n1 n3.
Proof. intros [L1 C1] [L2 C2]. split; eauto. Qed.

(** The writer of connection [c], seen from the network [n0] it started in. *)
#[program] Definition Link_WriterOk (c : nat) (n0 : N) : WriterOk (Link N) := {|
  writer_inv l := l.(lk_conn) = c ∧ net_open c l.(lk_net) ∧ net_state l.(lk_net) = net_state n0 ∧ others c n0 l.(lk_net);
  written l := sent c l.(lk_net)
|}.
Next Obligation.
  intros c n0 p [c' n] (Ec & Hc & Hs & Ho). cbn in *. subst c'. destruct (serves_write c p n Hc) as (n' & E & Ho' & Hw & Hs' & Hot).
  exists (mkLink c n'). unfold Write, Link_Write. cbn. rewrite E.
  split_and!; [done|done|done|congruence|by eapply others_trans|done].
Qed.

(** The client gets the answer of the mux to its request, on a connection that is
    ready for the next one. *)
Lemma exchange_ok who f c (n : N) : idle c n → request_wf (request_sized f) →
  limit ≤ 0 ∨ (request_sized f).(rqf_Size) ≤ limit →
  response_wf (sized (Dispatch m (request_sized f) (net_state n)).1.1) → ∃ n',
  exchange who f (mkStream c []) n = (Ok (sized (Dispatch m (request_sized f) (net_state n)).1.1), (mkStream c [], n')) ∧
  idle c n' ∧ net_state n' = (Dispatch m (request_sized f) (net_state n)).2 ∧ others c n n'.
Proof.
  intros [Hc Hs] Hwf Hlim Hresp. unfold exchange. cbn [st_conn st_br].
  set (bw0 := NewWriterSize (mkLink c n) (64 * 1024)).
  assert (Hb0 : writer_inv (WriterOk:=@bufio_WriterOk _ _ (Link_WriterOk c n)) bw0).
  { split_and!; [split_and!; [done|done|done|by split]|done|done|]. cbn. lia. }
  destruct (@RequestFrame_Write_ok _ _ (@bufio_WriterOk _ _ (Link_WriterOk c n)) (request_sized f) bw0 Hwf Hb0)
    as (bw1 & E1 & Hb1 & Ew1).
  change (RequestFrame_Write f bw0) with (RequestFrame_Write (request_sized f) bw0). rewrite E1.
  destruct (@bufio_Flush_ok _ _ (Link_WriterOk c n) bw1 Hb1) as (bw2 & E2 & Hb2 & Eb & Ew2 & _). rewrite E2.
  destruct Hb2 as ((_ & Ho2 & Hs2 & Hot2) & _). destruct bw2 as [[c2 n2] sz buf er]. cbn in *. subst buf.
  destruct (serves_arrive c n2 (request_sized f)) as (n' & -> & Hi & Hs' & Hot); [done| |done|done|by rewrite Hs2|].
  { unfold bufio_written in Ew2. cbn in Ew2, Ew1. unfold bufio_written in Ew1. cbn in Ew1.
    rewrite app_nil_r in Ew2. rewrite Ew2. unfold bufio_written. cbn. rewrite Ew1, Hs. done. }
  rewrite Hs2 in *. unfold response_wire.
  rewrite <- (app_nil_r (response_bytes _)), read_response_bytes by done.
  cbn [rsf_CorrelationID sized]. rewrite Dispatch_correlation, Z.eqb_refl.
  exists n'. split_and!; [done|done|done|by apply (others_trans c n n2)].
Qed.
End serves.

(** ** The server at the other end *)

(** The bytes of each open connection that the server has not read. *)
Record Served (St : Type) := mkServed {
  sn_state : St;
  sn_conns : gmap nat bytes;
  sn_addr : string
}.
Arguments mkServed {St} _ _ _.
Arguments sn_state {St} _.
Arguments sn_conns {St} _.
Arguments sn_addr {St} _.

Section served.
Context {St : Type} (m : Mux St) (maxRequestBytes : Z).

#[local] Instance Served_Network : Network (Served St) := {|
  Dial addr n :=
    if bool_decide (addr = n.(sn_addr)) then
      let c := fresh (dom n.(sn_conns)) in (Ok c, mkServed n.(sn_state) (<[c := []]> n.(sn_conns)) n.(sn_addr))
    else (Err (errorString "connection refused"), n);
  Conn_Write c p n :=
    match n.(sn_conns) !! c with
    | Some buf => (Ok (zlen p), mkServed n.(sn_state) (<[c := buf ++ p]> n.(sn_conns)) n.(sn_addr))
    | None => (Err (errorString "use of closed network connection"), n)
    end;
  Arrived c n :=
    match n.(sn_conns) !! c with
    | Some buf =>
        match handleConn m maxRequestBytes buf ([] : bytes) n.(sn_state) with
        | Some (out, s) => (out, mkServed s (<[c := []]> n.(sn_conns)) n.(sn_addr))
        | None => ([], n)
        end
    | None => ([], n)
    end;
  Conn_Close c n := (None, mkServed n.(sn_state) (delete c n.(sn_conns)) n.(sn_addr))
|}.

#[local] Instance Served_By : ServedBy (Served St) St := {|
  net_state := sn_state;
  net_open c n := is_Some (n.(sn_conns) !! c);
  sent c n := default [] (n.(sn_conns) !! c);
  net_listens addr n := addr = n.(sn_addr)
|}.

Definition request_limit : Z := if maxRequestBytes =? 0 then DefaultMaxRequestBytes else maxRequestBytes.

(** One request on an idle connection. *)
Lemma handleConn_one f s : request_wf f → request_limit ≤ 0 ∨ f.(rqf_Size) ≤ request_limit →
  response_wf (sized (Dispatch m f s).1.1) →
  handleConn m maxRequestBytes (request_wire f) ([] : bytes) s =
    Some (response_wire (Dispatch m f s).1.1, (Dispatch m f s).2).
Proof.
  intros Hwf Hlim Hresp. unfold handleConn. fold request_limit.
  assert (Hl : (4 ≤ length (request_wire f))%nat) by (unfold request_wire; rewrite length_app, length_be_encode; lia).
  destruct (length (request_wire f)) as [|fuel]; [lia|]. cbn [conn_loop]. unfold request_wire.
  rewrite <- (app_nil_r (request_bytes f)), read_request_bytes by done.
  destruct (Dispatch m f s) as [[resp lg] s']. cbn [fst snd] in *.
  destruct (respond_ok resp (NewWriterSize ([] : bytes) (64 * 1024)) Hresp) as (bw1 & bw2 & -> & -> & Hb2 & Eb & Ew).
  { split_and!; [done|done|done|]. cbn. lia. }
  change (ReadRequestFrameWithLimit request_limit []) with (Err (A:=RequestFrame) EOF, @nil byte). cbv iota beta.
  unfold bufio_written in Ew. rewrite Eb, app_nil_r in Ew. cbn in Ew. by rewrite <- Ew.
Qed.

Lemma others_insert c n s buf : others c n (mkServed s (<[c := buf]> n.(sn_conns)) n.(sn_addr)).
Proof. split; [done|]. intros c' Hne. unfold idle. cbn. by rewrite lookup_insert_ne. Qed.

#[local] Instance Served_Serves : Serves (N:=Served St) m request_limit.
Proof.
  constructor.
  - intros addr n ->. cbn. rewrite bool_decide_true by done. set (c := fresh (dom n.(sn_conns))).
    assert (Hc : n.(sn_conns) !! c = None) by apply not_elem_of_dom, is_fresh.
    eexists c, _. split_and!; [done| |done|apply others_insert|].
    + unfold idle. cbn. by rewrite lookup_insert_eq.
    + intros c' [[x Hx] _] ->. cbn in Hx. by rewrite Hc in Hx.
  - intros c p n [buf Hb]. cbn. rewrite Hb. eexists. split_and!; [done| | |done|apply others_insert].
    + cbn. by rewrite lookup_insert_eq.
    + cbn. by rewrite lookup_insert_eq.
  - intros c n f [buf Hb] Hs Hwf Hlim Hresp. cbn in *. rewrite Hb in *. cbn in Hs. subst buf.
    rewrite handleConn_one by done. eexists. split_and!; [done| |done|apply others_insert].
    unfold idle. cbn. by rewrite lookup_insert_eq.
  - intros c n. cbn. split; [done|]. split; [done|]. intros c' Hne. unfold idle. cbn. by rewrite lookup_delete_ne.
Qed.
End served.
