(* ===== verification/Consumer.v ===== *)
(** * The consumer client (src/pkg/client/consumer.go)

    The connection a consumer keeps, [Fetch] from the request to the decoded messages,
    and [Close]. *)
From Stdlib Require Import ZArith Lia Strings.Byte.
From stdpp Require Import base list strings gmap.
From S2P Require Import Prelude Files Record Codec Frame Requests Responses Server Network.
Open Scope Z_scope.

Record Message := mkMessage {
  msg_Key : option bytes;
  msg_Value : option bytes;
  msg_Offset : Z;
  msg_Timestamp : Z
}.

Definition message_of (rec : record) : Message :=
  mkMessage rec.(rec_Key) rec.(rec_Value) rec.(rec_Offset) rec.(rec_Timestamp).

Record ConsumerConfig := mkConsumerConfig {
  cc_ClientID : string;
  cc_MaxWaitMs : Z;
  cc_MinBytes : Z;
  cc_MaxBytes : Z
}.

Definition DefaultConsumerConfig : ConsumerConfig := mkConsumerConfig "mini-kafka-consumer" 500 1 (1024 * 1024).

Record Consumer := mkConsumer {
  cs_addrs : list string;
  cs_config : ConsumerConfig;
  cs_conn : option Stream;
  cs_closed : bool;
  cs_nextID : Z  (* int32 *)
}.

Definition NewConsumer (addrs : list string) (cfg : ConsumerConfig) : result Consumer :=
  match addrs with
  | [] => Err (errorString "consumer: at least one broker address required")
  | _ =>
      let id := if bool_decide (cfg.(cc_ClientID) = EmptyString) then "mini-kafka-consumer" else cfg.(cc_ClientID) in
      let maxBytes := if cfg.(cc_MaxBytes) <=? 0 then 1024 * 1024 else cfg.(cc_MaxBytes) in
      Ok (mkConsumer addrs (mkConsumerConfig id cfg.(cc_MaxWaitMs) cfg.(cc_MinBytes) maxBytes) None false 0)
  end.

Definition set_cs_conn (conn : option Stream) (c : Consumer) : Consumer :=
  mkConsumer c.(cs_addrs) c.(cs_config) conn c.(cs_closed) c.(cs_nextID).

(** The loop over the record set: an end of file ends it, any other error is the
    result. *)
Fixpoint decode_messages (fuel : nat) (buf : bytes) : result (list Message) :=
  match fuel, buf with
  | S fuel, _ :: _ =>
      match DecodeRecord buf with
      | ((_, Err err), _) => if errors_Is err EOF then Ok [] else Err (wrapError "consumer: record decode error" err)
      | ((_, Ok rec), buf) =>
          match decode_messages fuel buf with
          | Ok messages => Ok (message_of rec :: messages)
          | Err err => Err err
          end
      end
  | _, _ => Ok []
  end.

Section consumer.
Context {N : Type} `{Network N}.

Definition Consumer_getConn : M (Consumer * N) Stream := λ '(c, n),
  if c.(cs_closed) then (Err (errorString "consumer closed"), (c, n))
  else match c.(cs_conn) with
  | Some st => (Ok st, (c, n))
  | None =>
      match dial_any c.(cs_addrs) None n with
      | (inl conn, n) => let st := mkStream conn [] in (Ok st, (set_cs_conn (Some st) c, n))
      | (inr lastErr, n) => (Err (connect_failed "consumer" lastErr), (c, n))
      end
  end.

Definition Consumer_closeConn (c : Consumer) (n : N) : Consumer * N :=
  match c.(cs_conn) with
  | Some st => (set_cs_conn None c, (Conn_Close st.(st_conn) n).2)
  | None => (c, n)
  end.

(** [getConn] and the round trip; an error of the round trip drops the connection. *)
Definition Consumer_roundTrip (frame : RequestFrame) : M (Consumer * N) ResponseFrame := λ s,
  match Consumer_getConn s with
  | (Err err, s) => (Err err, s)
  | (Ok st, (c, n)) =>
      match exchange "consumer" frame st n with
      | (Err err, (_, n)) => (Err err, Consumer_closeConn c n)
      | (Ok respFrame, (st, n)) => (Ok respFrame, (set_cs_conn (Some st) c, n))
      end
  end.

(** What [Fetch] makes of the response. *)
Definition fetched_messages (respFrame : ResponseFrame) : result (list Message) :=
  if negb (respFrame.(rsf_ErrorCode) =? 0) then Err (errorString "consumer: broker error code")
  else match unmarshal (A:=FetchResponse) respFrame.(rsf_Payload) with
  | Err err => Err (wrapError "consumer: fetch response decode" err)
  | Ok fetchResp =>
      match fetchResp.(frs_Topics) with
      | topic :: _ =>
          match topic.(fst_Partitions) with
          | partResp :: _ =>
              if negb (partResp.(fsp_ErrorCode) =? 0) then Err (errorString "consumer: partition error code")
              else decode_messages (length partResp.(fsp_RecordSet)) partResp.(fsp_RecordSet)
          | [] => Err (errorString "consumer: empty response from broker")
          end
      | [] => Err (errorString "consumer: empty response from broker")
      end
  end.

Definition fetch_request (cfg : ConsumerConfig) (topic : string) (partition fetchOffset : Z) : FetchRequest :=
  mkFetchRequest cfg.(cc_MaxWaitMs) cfg.(cc_MinBytes) cfg.(cc_MaxBytes)
    [mkFetchRequestTopic topic [mkFetchRequestPartition partition fetchOffset cfg.(cc_MaxBytes)]].

Definition Consumer_Fetch (topic : string) (partition fetchOffset : Z) : M (Consumer * N) (list Message) := λ '(c, n),
  match marshal (fetch_request c.(cs_config) topic partition fetchOffset) with
  | Err err => (Err (wrapError "consumer: fetch request encode" err), (c, n))
  | Ok payload =>
      let corrID := int32 (c.(cs_nextID) + 1) in
      let c := mkConsumer c.(cs_addrs) c.(cs_config) c.(cs_conn) c.(cs_closed) corrID in
      match Consumer_roundTrip (mkRequestFrame 0 1 1 corrID c.(cs_config).(cc_ClientID) payload) (c, n) with
      | (Err err, s) => (Err err, s)
      | (Ok respFrame, s) => (fetched_messages respFrame, s)
      end
  end.

(** The result is the error of closing the connection. *)
Definition Consumer_Close (c : Consumer) (n : N) : option error * (Consumer * N) :=
  let c := mkConsumer c.(cs_addrs) c.(cs_config) c.(cs_conn) true c.(cs_nextID) in
  match c.(cs_conn) with
  | Some st => let '(err, n) := Conn_Close st.(st_conn) n in (err, (set_cs_conn None c, n))
  | None => (None, (c, n))
  end.
End consumer.
