(* ===== verification/Producer.v ===== *)
(** * The producer client (src/pkg/client/producer.go)

    The synchronous path ([SendBatch], [produceRecords]), the batcher behind [Send]
    when a linger time is set, and [Close]. Batches are shared objects: the map of
    pending batches, the timers and the goroutines that flush hold their addresses in
    the heap [p_batches]. *)
From Stdlib Require Import ZArith Lia Strings.Byte.
From stdpp Require Import base list strings gmap.
From S2P Require Import Prelude Files Record Codec Frame Requests Responses Server Network Consumer.
Open Scope Z_scope.

Record ProducerConfig := mkProducerConfig {
  pc_ClientID : string;
  pc_Acks : Z;  (* int16 *)
  pc_TimeoutMs : Z;  (* int32 *)
  pc_LingerMs : Z;  (* int32 *)
  pc_BatchSize : Z
}.

Definition DefaultProducerConfig : ProducerConfig := mkProducerConfig "mini-kafka-producer" 1 30000 0 16384.

Definition topicPartition : Type := string * Z.

(** A waiter is the channel of a [Send] call. *)
Record pendingBatch := mkPendingBatch {
  pb_records : list record;
  pb_bytes : Z;
  pb_waiters : list nat;
  pb_timer : bool  (* timer != nil *)
}.

(** [p_channels] has what was sent on each waiter's channel and not yet received. *)
Record Producer := mkProducer {
  p_addrs : list string;
  p_config : ProducerConfig;
  p_conn : option Stream;
  p_closed : bool;
  p_finalized : bool;
  p_nextID : Z;  (* int32 *)
  p_pending : gmap topicPartition nat;
  p_batches : gmap nat pendingBatch;
  p_channels : gmap nat (list (result Z))
}.

Definition NewProducer (addrs : list string) (cfg : ProducerConfig) : result Producer :=
  match addrs with
  | [] => Err (errorString "producer: at least one broker address required")
  | _ =>
      let id := if bool_decide (cfg.(pc_ClientID) = EmptyString) then "mini-kafka-producer" else cfg.(pc_ClientID) in
      let acks := if cfg.(pc_Acks) =? 0 then 1 else cfg.(pc_Acks) in
      let timeoutMs := if cfg.(pc_TimeoutMs) <=? 0 then 30000 else cfg.(pc_TimeoutMs) in
      let batchSize := if cfg.(pc_BatchSize) <=? 0 then 16384 else cfg.(pc_BatchSize) in
      Ok (mkProducer addrs (mkProducerConfig id acks timeoutMs cfg.(pc_LingerMs) batchSize) None false false 0 ∅ ∅ ∅)
  end.

Definition set_p_conn (x : option Stream) (p : Producer) : Producer :=
  mkProducer p.(p_addrs) p.(p_config) x p.(p_closed) p.(p_finalized) p.(p_nextID) p.(p_pending) p.(p_batches) p.(p_channels).
Definition set_p_nextID (x : Z) (p : Producer) : Producer :=
  mkProducer p.(p_addrs) p.(p_config) p.(p_conn) p.(p_closed) p.(p_finalized) x p.(p_pending) p.(p_batches) p.(p_channels).
Definition set_p_closed (x : bool) (p : Producer) : Producer :=
  mkProducer p.(p_addrs) p.(p_config) p.(p_conn) x p.(p_finalized) p.(p_nextID) p.(p_pending) p.(p_batches) p.(p_channels).
Definition set_p_pending (x : gmap topicPartition nat) (p : Producer) : Producer :=
  mkProducer p.(p_addrs) p.(p_config) p.(p_conn) p.(p_closed) p.(p_finalized) p.(p_nextID) x p.(p_batches) p.(p_channels).
Definition set_p_batches (x : gmap nat pendingBatch) (p : Producer) : Producer :=
  mkProducer p.(p_addrs) p.(p_config) p.(p_conn) p.(p_closed) p.(p_finalized) p.(p_nextID) p.(p_pending) x p.(p_channels).
Definition set_p_channels (x : gmap nat (list (result Z))) (p : Producer) : Producer :=
  mkProducer p.(p_addrs) p.(p_config) p.(p_conn) p.(p_closed) p.(p_finalized) p.(p_nextID) p.(p_pending) p.(p_batches) x.

(** ** One Produce round trip *)

Definition encode_records (records : list record) : result bytes :=
  match for_each records (λ rec, Encode (Some rec) ;; mret ()) ([] : bytes) with
  | (Ok _, recBuf) => Ok recBuf
  | (Err err, _) => Err (wrapError "producer: record encode" err)
  end.

Definition produce_request (cfg : ProducerConfig) (topic : string) (partition : Z) (recordSet : bytes) : ProduceRequest :=
  mkProduceRequest cfg.(pc_Acks) cfg.(pc_TimeoutMs)
    [mkProduceRequestTopic topic [mkProduceRequestPartition partition recordSet]].

(** The offsets of [count] records, from the response. *)
Definition produced_offsets (count : nat) (respFrame : ResponseFrame) : result (list Z) :=
  if negb (respFrame.(rsf_ErrorCode) =? 0) then Err (errorString "producer: broker returned error code")
  else match unmarshal (A:=ProduceResponse) respFrame.(rsf_Payload) with
  | Err err => Err (wrapError "producer: produce response decode" err)
  | Ok produceResp =>
      match produceResp.(prs_Topics) with
      | topic :: _ =>
          match topic.(pst_Partitions) with
          | partResp :: _ =>
              if negb (partResp.(psp_ErrorCode) =? 0) then Err (errorString "producer: partition error code")
              else Ok ((λ i, int64 (partResp.(psp_BaseOffset) + Z.of_nat i)) <$> seq 0 count)
          | [] => Err (errorString "producer: malformed response from broker")
          end
      | [] => Err (errorString "producer: malformed response from broker")
      end
  end.

Section producer.
Context {N : Type} `{Network N}.

(** A connection may be made until [Close] has finished draining. *)
Definition Producer_getConn : M (Producer * N) Stream := λ '(p, n),
  match p.(p_conn) with
  | Some st => (Ok st, (p, n))
  | None =>
      if p.(p_finalized) then (Err (errorString "producer closed"), (p, n))
      else match dial_any p.(p_addrs) None n with
      | (inl conn, n) => let st := mkStream conn [] in (Ok st, (set_p_conn (Some st) p, n))
      | (inr lastErr, n) => (Err (connect_failed "producer" lastErr), (p, n))
      end
  end.

Definition Producer_closeConn (p : Producer) (n : N) : Producer * N :=
  match p.(p_conn) with
  | Some st => (set_p_conn None p, (Conn_Close st.(st_conn) n).2)
  | None => (p, n)
  end.

Definition Producer_roundTrip (frame : RequestFrame) : M (Producer * N) ResponseFrame := λ s,
  match Producer_getConn s with
  | (Err err, s) => (Err err, s)
  | (Ok st, (p, n)) =>
      match exchange "producer" frame st n with
      | (Err err, (_, n)) => (Err err, Producer_closeConn p n)
      | (Ok respFrame, (st, n)) => (Ok respFrame, (set_p_conn (Some st) p, n))
      end
  end.

Definition produceRecords (topic : string) (partition : Z) (records : list record) : M (Producer * N) (list Z) := λ '(p, n),
  match records with
  | [] => (Ok [], (p, n))
  | _ =>
      match encode_records records with
      | Err err => (Err err, (p, n))
      | Ok recBuf =>
          match marshal (produce_request p.(p_config) topic partition recBuf) with
          | Err err => (Err (wrapError "producer: produce request encode" err), (p, n))
          | Ok payload =>
              let corrID := int32 (p.(p_nextID) + 1) in
              let p := set_p_nextID corrID p in
              match Producer_roundTrip (mkRequestFrame 0 0 1 corrID p.(p_config).(pc_ClientID) payload) (p, n) with
              | (Err err, s) => (Err err, s)
              | (Ok respFrame, s) => (produced_offsets (length records) respFrame, s)
              end
          end
      end
  end.

(** [ctxErr] is [ctx.Err()], [now] the clock in milliseconds. *)
Definition record_of (now : Z) (msg : Message) : record :=
  mkRecord 0 (if msg.(msg_Timestamp) <=? 0 then now else msg.(msg_Timestamp)) 0 msg.(msg_Key) msg.(msg_Value).

Definition SendBatch (ctxErr : option error) (now : Z) (topic : string) (partition : Z) (msgs : list Message) :
    M (Producer * N) (list Z) := λ '(p, n),
  match msgs, ctxErr with
  | [], _ => (Ok [], (p, n))
  | _, Some err => (Err err, (p, n))
  | _, None =>
      if p.(p_closed) then (Err (errorString "producer closed"), (p, n))
      else produceRecords topic partition (record_of now <$> msgs) (p, n)
  end.

(** [Send] without a linger time. *)
Definition Send (ctxErr : option error) (now : Z) (topic : string) (partition : Z) (key value : option bytes) :
    M (Producer * N) Z := λ s,
  match SendBatch ctxErr now topic partition [mkMessage key value 0 0] s with
  | (Err err, s) => (Err err, s)
  | (Ok (offset :: _), s) => (Ok offset, s)
  | (Ok [], s) => (Err (errorString "producer: empty offset response"), s)
  end.

(** ** The batcher *)

(** [time.Timer.Stop] and [timer = nil] of a batch. *)
Definition stop_timer (pb : nat) (p : Producer) : Producer :=
  match p.(p_batches) !! pb with
  | Some b => set_p_batches (<[pb := mkPendingBatch b.(pb_records) b.(pb_bytes) b.(pb_waiters) false]> p.(p_batches)) p
  | None => p
  end.

(** What [sendBatched] does under [batch.mu]: the record joins the batch of its
    partition, a new one at a fresh address with its timer started when there is none;
    a batch that reached [BatchSize] is detached and returned. The caller's channel is
    [waiter]. *)
Definition enqueue (tp : topicPartition) (rec : record) (waiter : nat) (p : Producer) : option nat * Producer :=
  let '(pb, b) :=
    match p.(p_pending) !! tp with
    | Some pb => (pb, default (mkPendingBatch [] 0 [] false) (p.(p_batches) !! pb))
    | None => (fresh (dom p.(p_batches)), mkPendingBatch [] 0 [] true)
    end in
  let b := mkPendingBatch (b.(pb_records) ++ [rec]) (b.(pb_bytes) + EncodedSize rec) (b.(pb_waiters) ++ [waiter]) b.(pb_timer) in
  let p := set_p_channels (<[waiter := []]> p.(p_channels))
             (set_p_batches (<[pb := b]> p.(p_batches)) (set_p_pending (<[tp := pb]> p.(p_pending)) p)) in
  if p.(p_config).(pc_BatchSize) <=? b.(pb_bytes) then
    (Some pb, stop_timer pb (set_p_pending (delete tp p.(p_pending)) p))
  else (None, p).

(** [sendBatched] up to the flush and the wait. *)
Definition sendBatched (ctxErr : option error) (now : Z) (tp : topicPartition) (key value : option bytes) (waiter : nat)
    (p : Producer) : result (option nat) * Producer :=
  match ctxErr with
  | Some err => (Err err, p)
  | None =>
      if p.(p_closed) then (Err (errorString "producer closed"), p)
      else let '(toFlush, p) := enqueue tp (mkRecord 0 now 0 key value) waiter p in (Ok toFlush, p)
  end.

(** The wait: the result that is in the channel, or the error of the context. *)
Definition await (waiter : nat) (p : Producer) : option (result Z) * Producer :=
  match p.(p_channels) !! waiter with
  | Some (res :: more) => (Some res, set_p_channels (<[waiter := more]> p.(p_channels)) p)
  | _ => (None, p)
  end.

(** The timer of batch [pb]: it is detached if it is still the one of its partition. *)
Definition lingerFire (tp : topicPartition) (pb : nat) (p : Producer) : option nat * Producer :=
  if bool_decide (p.(p_pending) !! tp = Some pb) then (Some pb, stop_timer pb (set_p_pending (delete tp p.(p_pending)) p))
  else (None, p).

Definition send_result (waiter : nat) (res : result Z) (p : Producer) : Producer :=
  set_p_channels (<[waiter := default [] (p.(p_channels) !! waiter) ++ [res]]> p.(p_channels)) p.

(** The result of the [i]-th waiter of a batch. *)
Definition batch_result (offsets : result (list Z)) (i : nat) : result Z :=
  match offsets with
  | Err err => Err err
  | Ok offsets =>
      match offsets !! i with
      | Some offset => Ok offset
      | None => Err (errorString "producer: missing offset for record")
      end
  end.

Definition flushBatch (tp : topicPartition) (pb : nat) (s : Producer * N) : Producer * N :=
  match s.1.(p_batches) !! pb with
  | None => s
  | Some b =>
      match b.(pb_records) with
      | [] => s
      | _ =>
          let '(offsets, (p, n)) := produceRecords tp.1 tp.2 b.(pb_records) s in
          ((imap_state (λ i w p, ((), send_result w (batch_result offsets i) p)) 0 b.(pb_waiters) p).2, n)
      end
  end.

(** [flushAllPending] under the lock: the batches, in the order of the map, detached. *)
Definition detach_all (order : gmap topicPartition nat → list topicPartition) (p : Producer) :
    list (topicPartition * nat) * Producer :=
  let batches := omap (λ tp, pair tp <$> p.(p_pending) !! tp) (order p.(p_pending)) in
  (batches, set_p_pending ∅ (foldl (λ p '(_, pb), stop_timer pb p) p batches)).

(** ** Close *)

(** The first part: [None] when there is nothing to do, otherwise whether the pending
    batches are to be drained. *)
Definition close_begin (p : Producer) : option bool * Producer :=
  if p.(p_finalized) then (None, p)
  else (Some (negb p.(p_closed) && (0 <? p.(p_config).(pc_LingerMs))), set_p_closed true p).

Definition close_finish (p : Producer) (n : N) : option error * (Producer * N) :=
  if p.(p_finalized) then (None, (p, n))
  else
    let p' := mkProducer p.(p_addrs) p.(p_config) None p.(p_closed) true p.(p_nextID) p.(p_pending) p.(p_batches) p.(p_channels) in
    match p.(p_conn) with
    | Some st => let '(err, n) := Conn_Close st.(st_conn) n in (err, (p', n))
    | None => (None, (p', n))
    end.

(** [Close] on its own. *)
Definition Close (order : gmap topicPartition nat → list topicPartition) (p : Producer) (n : N) : option error * (Producer * N) :=
  match close_begin p with
  | (None, p) => (None, (p, n))
  | (Some drain, p) =>
      let '(p, n) :=
        if drain then let '(batches, p) := detach_all order p in foldl (λ s '(tp, pb), flushBatch tp pb s) (p, n) batches
        else (p, n) in
      close_finish p n
  end.
End producer.
