(* ===== verification/Batcher.v ===== *)
(** * Runs of the producer's batcher (src/pkg/client/producer.go)

    [Send] callers, timers and [Close] calls act on one producer in any interleaving:
    each step is what one goroutine does under a lock, or one flush. Every accepted
    record is in exactly one batch, every batch is flushed at most once, and every
    caller gets exactly one result. *)
From Stdlib Require Import ZArith Lia Strings.Byte.
From stdpp Require Import base list strings gmap.
From S2P Require Import Prelude Files Record Codec Frame Requests Responses Server Network Consumer Producer.
Open Scope Z_scope.

(** Where a [Close] call is. *)
Inductive closing :=
  | Draining
  | Flushing (batches : list (topicPartition * nat))
  | Finishing.

(** [w_flush] has the batches that goroutines of [Send] and of timers detached and are
    about to flush; [w_sends] what the callers sent, by their channel. *)
Record Run (N : Type) := mkRun {
  w_prod : Producer;
  w_net : N;
  w_flush : list (topicPartition * nat);
  w_close : list closing;
  w_sends : gmap nat (topicPartition * record)
}.
Arguments mkRun {N} _ _ _ _ _.
Arguments w_prod {N} _.
Arguments w_net {N} _.
Arguments w_flush {N} _.
Arguments w_close {N} _.
Arguments w_sends {N} _.

(** The order in which a Go map is ranged over. *)
Class KeyOrder (order : gmap topicPartition nat → list topicPartition) : Prop :=
  key_order m : order m ≡ₚ (map_to_list m).*1.

Definition to_flush (tp : topicPartition) (pb : option nat) : list (topicPartition * nat) :=
  match pb with Some pb => [(tp, pb)] | None => [] end.

Section run.
Context {N : Type} `{Network N}.

Inductive producer_step : Run N → Run N → Prop :=
  | step_send now tp key value waiter p p' n fl cl sends toFlush :
      0 < p.(p_config).(pc_LingerMs) → sends !! waiter = None →
      sendBatched None now tp key value waiter p = (Ok toFlush, p') →
      producer_step (mkRun p n fl cl sends)
        (mkRun p' n (fl ++ to_flush tp toFlush) cl (<[waiter := (tp, mkRecord 0 now 0 key value)]> sends))
  | step_linger tp pb p n fl cl sends :
      producer_step (mkRun p n fl cl sends)
        (mkRun (lingerFire tp pb p).2 n (fl ++ to_flush tp (lingerFire tp pb p).1) cl sends)
  | step_flush tp pb p n fl1 fl2 cl sends :
      producer_step (mkRun p n (fl1 ++ (tp, pb) :: fl2) cl sends)
        (mkRun (flushBatch tp pb (p, n)).1 (flushBatch tp pb (p, n)).2 (fl1 ++ fl2) cl sends)
  | step_send_batch ctxErr now topic partition msgs p n fl cl sends :
      let s := (SendBatch ctxErr now topic partition msgs (p, n)).2 in
      producer_step (mkRun p n fl cl sends) (mkRun s.1 s.2 fl cl sends)
  | step_close_begin p n fl cl sends :
      producer_step (mkRun p n fl cl sends)
        (mkRun (close_begin p).2 n fl
           (match (close_begin p).1 with
            | Some true => Draining :: cl
            | Some false => Finishing :: cl
            | None => cl
            end) sends)
  | step_close_drain order p n fl cl1 cl2 sends : KeyOrder order →
      producer_step (mkRun p n fl (cl1 ++ Draining :: cl2) sends)
        (mkRun (detach_all order p).2 n fl (cl1 ++ Flushing (detach_all order p).1 :: cl2) sends)
  | step_close_flush tp pb batches p n fl cl1 cl2 sends :
      producer_step (mkRun p n fl (cl1 ++ Flushing ((tp, pb) :: batches) :: cl2) sends)
        (mkRun (flushBatch tp pb (p, n)).1 (flushBatch tp pb (p, n)).2 fl (cl1 ++ Flushing batches :: cl2) sends)
  | step_close_flushed p n fl cl1 cl2 sends :
      producer_step (mkRun p n fl (cl1 ++ Flushing [] :: cl2) sends) (mkRun p n fl (cl1 ++ Finishing :: cl2) sends)
  | step_close_finish p n fl cl1 cl2 sends :
      producer_step (mkRun p n fl (cl1 ++ Finishing :: cl2) sends)
        (mkRun (close_finish p n).2.1 (close_finish p n).2.2 fl (cl1 ++ cl2) sends)
  | step_net p n n' fl cl sends : producer_step (mkRun p n fl cl sends) (mkRun p n' fl cl sends).
End run.

(** ** The invariant *)

Definition closing_batches (c : closing) : list (topicPartition * nat) :=
  match c with Flushing batches => batches | _ => [] end.

(** The batches that are not flushed: pending, or about to be flushed. *)
Definition places {N} (s : Run N) : list (topicPartition * nat) :=
  map_to_list s.(w_prod).(p_pending) ++ s.(w_flush) ++ (s.(w_close) ≫= closing_batches).

Definition batch_waiters (p : Producer) (x : topicPartition * nat) : list nat :=
  match p.(p_batches) !! x.2 with Some b => b.(pb_waiters) | None => [] end.

(** The callers that have no result yet. *)
Definition waiting {N} (s : Run N) : list nat := places s ≫= batch_waiters s.(w_prod).

(** A batch that is not flushed: its records are what its waiters sent, in order, to
    the batch's partition. *)
Definition batch_ok (sends : gmap nat (topicPartition * record)) (tp : topicPartition) (b : pendingBatch) : Prop :=
  b.(pb_records) ≠ [] ∧ b.(pb_bytes) = foldr (λ r n, EncodedSize r + n) 0 b.(pb_records) ∧
  Forall2 (λ w r, sends !! w = Some (tp, r)) b.(pb_waiters) b.(pb_records).

Record batches_ok {N} (s : Run N) : Prop := {
  bo_ids : NoDup (places s).*2;
  bo_batch tp pb : (tp, pb) ∈ places s → ∃ b, s.(w_prod).(p_batches) !! pb = Some b ∧ batch_ok s.(w_sends) tp b;
  bo_waiting : NoDup (waiting s);
  bo_channel w x : s.(w_sends) !! w = Some x →
    if bool_decide (w ∈ waiting s) then s.(w_prod).(p_channels) !! w = Some []
    else ∃ res, s.(w_prod).(p_channels) !! w = Some [res]
}.

(** A pending batch has its timer and is below the limit. *)
Definition timers_ok (p : Producer) : Prop := ∀ tp pb, p.(p_pending) !! tp = Some pb →
  ∃ b, p.(p_batches) !! pb = Some b ∧ b.(pb_timer) = true ∧ b.(pb_bytes) < p.(p_config).(pc_BatchSize).

Record run_inv {N} (s : Run N) : Prop := {
  ri_batches : batches_ok s;
  ri_timers : timers_ok s.(w_prod);
  ri_linger : s.(w_prod).(p_pending) ≠ ∅ → 0 < s.(w_prod).(p_config).(pc_LingerMs);
  ri_closed : s.(w_prod).(p_closed) = true → s.(w_prod).(p_pending) ≠ ∅ → Draining ∈ s.(w_close)
}.

(** ** What a round trip leaves alone *)

Definition same_batcher (p p' : Producer) : Prop :=
  p'.(p_config) = p.(p_config) ∧ p'.(p_closed) = p.(p_closed) ∧ p'.(p_finalized) = p.(p_finalized) ∧
  p'.(p_pending) = p.(p_pending) ∧ p'.(p_batches) = p.(p_batches) ∧ p'.(p_channels) = p.(p_channels).

Section frame.
Context {N : Type} `{Network N}.

Lemma roundTrip_same frame p n r p' n' : Producer_roundTrip frame (p, n) = (r, (p', n')) → same_batcher p p'.
Proof.
  unfold Producer_roundTrip, Producer_getConn, Producer_closeConn. intros E.
  repeat case_match; simplify_eq/=; done.
Qed.

Lemma produceRecords_same topic partition records p n r p' n' :
  produceRecords topic partition records (p, n) = (r, (p', n')) → same_batcher p p'.
Proof.
  unfold produceRecords. intros E. repeat case_match; simplify_eq/=; try done.
  all: match goal with E : Producer_roundTrip _ (?q, _) = _ |- _ => apply roundTrip_same in E; exact E end.
Qed.

Lemma send_results offsets ws : ∀ i p, NoDup ws → (∀ w, w ∈ ws → p.(p_channels) !! w = Some []) →
  let p' := (imap_state (λ i w p, ((), send_result w (batch_result offsets i) p)) i ws p).2 in
  same_batcher p (set_p_channels p.(p_channels) p') ∧
  (∀ j w, ws !! j = Some w → p'.(p_channels) !! w = Some [batch_result offsets (i + j)]) ∧
  ∀ w, w ∉ ws → p'.(p_channels) !! w = p.(p_channels) !! w.
Proof.
  induction ws as [|w ws IH]; intros i p Hnd Hch; [by split_and!|]. apply NoDup_cons in Hnd as [Hw Hnd].
  cbn [imap_state]. destruct (IH (S i) (send_result w (batch_result offsets i) p) Hnd) as (I1 & I2 & I3).
  { intros w' Hw'. cbn. rewrite lookup_insert_ne by (by intros ->). apply Hch. by right. }
  destruct (imap_state _ (S i) ws _) as [us p']. cbn [snd] in *. split_and!.
  - destruct I1 as (? & ? & ? & ? & ? & _). by split_and!.
  - intros [|j] w' Hj; cbn in Hj.
    + injection Hj as <-. rewrite I3 by done. cbn. rewrite lookup_insert_eq, Hch by by left. by rewrite Nat.add_0_r.
    + rewrite (I2 j w' Hj). by rewrite Nat.add_succ_r.
  - intros w' [Hne Hw']%not_elem_of_cons. rewrite I3 by done. cbn. by rewrite lookup_insert_ne.
Qed.

(** A flush sends the records of the batch in one request and every waiter the result
    of its own record. *)
Lemma flushBatch_spec tp pb b p n : p.(p_batches) !! pb = Some b → b.(pb_records) ≠ [] → NoDup b.(pb_waiters) →
  (∀ w, w ∈ b.(pb_waiters) → p.(p_channels) !! w = Some []) → ∃ offsets p1 n1 p2,
  produceRecords tp.1 tp.2 b.(pb_records) (p, n) = (offsets, (p1, n1)) ∧ flushBatch tp pb (p, n) = (p2, n1) ∧
  same_batcher p (set_p_channels p.(p_channels) p2) ∧
  (∀ i w, b.(pb_waiters) !! i = Some w → p2.(p_channels) !! w = Some [batch_result offsets i]) ∧
  ∀ w, w ∉ b.(pb_waiters) → p2.(p_channels) !! w = p.(p_channels) !! w.
Proof.
  intros Hb Hne Hnd Hch. unfold flushBatch. cbn [fst]. rewrite Hb.
  destruct (produceRecords tp.1 tp.2 b.(pb_records) (p, n)) as [offsets [p1 n1]] eqn:E.
  destruct (produceRecords_same _ _ _ _ _ _ _ _ E) as (S1 & S2 & S3 & S4 & S5 & S6).
  destruct (send_results offsets b.(pb_waiters) 0 p1 Hnd) as (R1 & R2 & R3); [by rewrite S6|].
  destruct b.(pb_records) eqn:Er; [done|]. rewrite <- Er in *.
  exists offsets, p1, n1, (imap_state (λ i w p, ((), send_result w (batch_result offsets i) p)) 0 (pb_waiters b) p1).2.
  split_and!; [done|done| |exact R2|by rewrite <- S6].
  destruct R1 as (? & ? & ? & ? & ? & _). split_and!; cbn in *; try congruence.
Qed.
End frame.

(** ** Every step keeps the invariant *)

Section inv.
Context {N : Type} `{Network N}.
Implicit Types s : Run N.

(** The batches may move between the places. *)
Lemma batches_ok_move s s' : batches_ok s → places s' ≡ₚ places s →
  (∀ x, batch_waiters s'.(w_prod) x = batch_waiters s.(w_prod) x) →
  (∀ tp pb b, s.(w_prod).(p_batches) !! pb = Some b → batch_ok s.(w_sends) tp b →
     ∃ b', s'.(w_prod).(p_batches) !! pb = Some b' ∧ batch_ok s.(w_sends) tp b') →
  s'.(w_prod).(p_channels) = s.(w_prod).(p_channels) → s'.(w_sends) = s.(w_sends) → batches_ok s'.
Proof.
  intros [B1 B2 B3 B4] Hp Hw Hb Hch Hs.
  assert (Ew : waiting s' ≡ₚ waiting s).
  { unfold waiting. rewrite Hp. clear -Hw. induction (places s) as [|x l IH]; [done|]. rewrite !bind_cons, Hw. by f_equiv. }
  constructor.
  - by rewrite Hp.
  - intros tp pb. rewrite Hp, Hs. intros (b & E & Hok)%B2. eauto.
  - by rewrite Ew.
  - intros w x. rewrite Hs, Hch. intros Hx. specialize (B4 w x Hx).
    by rewrite (bool_decide_ext (w ∈ waiting s') (w ∈ waiting s)) by by rewrite Ew.
Qed.

(** A flushed batch is gone and its waiters have their results. *)
Lemma batches_ok_flush tp pb p (n : N) fl cl fl' cl' sends :
  batches_ok (mkRun p n fl cl sends) → places (mkRun p n fl cl sends) ≡ₚ (tp, pb) :: places (mkRun p n fl' cl' sends) →
  let s := flushBatch tp pb (p, n) in
  same_batcher p (set_p_channels p.(p_channels) s.1) ∧ batches_ok (mkRun s.1 s.2 fl' cl' sends).
Proof.
  intros [B1 B2 B3 B4] Hp. set (s0 := mkRun p n fl cl sends) in *. set (s1 := mkRun p n fl' cl' sends) in *.
  destruct (B2 tp pb) as (b & Hb & Hok); [rewrite Hp; by left|]. cbn in Hb, Hok.
  assert (Ew : waiting s0 ≡ₚ b.(pb_waiters) ++ waiting s1).
  { unfold waiting. rewrite Hp. cbn. unfold batch_waiters at 1. cbn. by rewrite Hb. }
  pose proof B3 as Hnd. rewrite Ew in Hnd. apply NoDup_app in Hnd as (Hnd1 & Hdis & Hnd2).
  assert (Hch : ∀ w, w ∈ b.(pb_waiters) → p.(p_channels) !! w = Some []).
  { intros w Hw. destruct Hok as (_ & _ & HF). apply list_elem_of_lookup in Hw as [i Hi].
    destruct (Forall2_lookup_l _ _ _ _ _ HF Hi) as (r & _ & Hr). specialize (B4 w _ Hr).
    rewrite bool_decide_true in B4; [done|]. rewrite Ew. apply elem_of_app. left. by eapply list_elem_of_lookup_2. }
  destruct (flushBatch_spec tp pb b p n Hb (proj1 Hok) Hnd1 Hch) as (offs & p1 & n1 & p2 & _ & E & S & R1 & R2).
  rewrite E. cbn [fst snd]. split; [done|]. destruct S as (_ & _ & _ & S4 & S5 & _). cbn in S4, S5.
  assert (Epl : places (mkRun p2 n1 fl' cl' sends) = places s1) by (unfold places; cbn; by rewrite S4).
  assert (Ewt : waiting (mkRun p2 n1 fl' cl' sends) = waiting s1).
  { unfold waiting. rewrite Epl. unfold batch_waiters. cbn. by rewrite S5. }
  constructor; rewrite ?Epl, ?Ewt.
  - pose proof B1 as Hids. rewrite Hp in Hids. cbn in Hids. by apply NoDup_cons in Hids as [_ ?].
  - intros tp' pb' Hin. cbn. rewrite S5. apply B2. rewrite Hp. by right.
  - done.
  - intros w x Hx. cbn in Hx |- *. specialize (B4 w x Hx). destruct (decide (w ∈ b.(pb_waiters))) as [Hw|Hw].
    + rewrite bool_decide_false by auto. apply list_elem_of_lookup in Hw as [i Hi]. eauto.
    + rewrite R2 by done. rewrite (bool_decide_ext (w ∈ waiting s1) (w ∈ waiting s0)); [done|].
      rewrite Ew, elem_of_app. tauto.
Qed.

(** Nothing but timers and the map of pending batches changes. *)
Definition batch_data (b : pendingBatch) := (b.(pb_records), b.(pb_bytes), b.(pb_waiters)).
Definition timers_only (p p' : Producer) : Prop :=
  p'.(p_config) = p.(p_config) ∧ p'.(p_closed) = p.(p_closed) ∧ p'.(p_channels) = p.(p_channels) ∧
  ∀ x, batch_data <$> p'.(p_batches) !! x = batch_data <$> p.(p_batches) !! x.

Lemma stop_timer_only pb p pend : timers_only p (stop_timer pb (set_p_pending pend p)).
Proof.
  unfold stop_timer. cbn. destruct (p.(p_batches) !! pb) as [b|] eqn:E; [|by split_and!].
  split_and!; [done..|]. intros x. cbn. destruct (decide (x = pb)) as [->|Hne]; [by rewrite lookup_insert_eq, E|].
  by rewrite lookup_insert_ne.
Qed.
Lemma stop_timer_pending pb p : (stop_timer pb p).(p_pending) = p.(p_pending).
Proof. unfold stop_timer. by destruct (p.(p_batches) !! pb). Qed.
Lemma stop_timer_other pb x p : x ≠ pb → (stop_timer pb p).(p_batches) !! x = p.(p_batches) !! x.
Proof. intros Hne. unfold stop_timer. destruct (p.(p_batches) !! pb); [|done]. cbn. by rewrite lookup_insert_ne. Qed.

Lemma timers_only_trans p1 p2 p3 : timers_only p1 p2 → timers_only p2 p3 → timers_only p1 p3.
Proof. intros (A1 & A2 & A3 & A4) (B1 & B2 & B3 & B4). split_and!; congruence || (intros x; by rewrite B4). Qed.

Lemma batches_ok_detach s s' : batches_ok s → timers_only s.(w_prod) s'.(w_prod) → places s' ≡ₚ places s →
  s'.(w_sends) = s.(w_sends) → batches_ok s'.
Proof.
  intros Hs (_ & _ & Hc & Hd) Hp Es. apply (batches_ok_move s); [done|done| | |done|done].
  - intros x. unfold batch_waiters. specialize (Hd x.2). unfold batch_data in Hd.
    destruct (p_batches (w_prod s') !! x.2), (p_batches (w_prod s) !! x.2); cbn in Hd; congruence.
  - intros tp pb b Hb (O1 & O2 & O3). specialize (Hd pb). rewrite Hb in Hd.
    destruct (p_batches (w_prod s') !! pb) as [b'|]; cbn in Hd; [|done]. exists b'. split; [done|].
    unfold batch_data in Hd. injection Hd as E1 E2 E3. unfold batch_ok. by rewrite E1, E2, E3.
Qed.

Lemma pending_ids s tp tp' pb : NoDup (places s).*2 → s.(w_prod).(p_pending) !! tp = Some pb →
  s.(w_prod).(p_pending) !! tp' = Some pb → tp' = tp.
Proof.
  unfold places. rewrite fmap_app. intros (Hnd & _)%NoDup_app H1 H2. destruct (decide (tp' = tp)) as [|Hne]; [done|]. exfalso.
  rewrite <- (map_to_list_delete _ _ _ H1) in Hnd. cbn in Hnd. apply NoDup_cons in Hnd as [Hnin _]. apply Hnin.
  apply list_elem_of_fmap. exists (tp', pb). split; [done|]. apply elem_of_map_to_list. by rewrite lookup_delete_ne.
Qed.

(** Detaching the batch of a partition. *)
Definition detach (tp : topicPartition) (pb : nat) (p : Producer) : Producer :=
  stop_timer pb (set_p_pending (delete tp p.(p_pending)) p).

Lemma detach_ok tp pb p (n : N) fl cl sends : batches_ok (mkRun p n fl cl sends) → p.(p_pending) !! tp = Some pb →
  batches_ok (mkRun (detach tp pb p) n (fl ++ [(tp, pb)]) cl sends).
Proof.
  intros Hs Hp. eapply batches_ok_detach; [exact Hs|apply stop_timer_only| |done]. unfold places. cbn.
  unfold detach. rewrite stop_timer_pending. cbn. rewrite <- (map_to_list_delete p.(p_pending) tp pb Hp).
  rewrite <- !app_assoc. cbn. by rewrite !Permutation_middle.
Qed.

Lemma detach_timers tp pb p : (∀ tp', p.(p_pending) !! tp' = Some pb → tp' = tp) →
  (∀ tp' pb', tp' ≠ tp → p.(p_pending) !! tp' = Some pb' →
     ∃ b, p.(p_batches) !! pb' = Some b ∧ b.(pb_timer) = true ∧ b.(pb_bytes) < p.(p_config).(pc_BatchSize)) →
  timers_ok (detach tp pb p).
Proof.
  intros Hid Ht tp' pb'. destruct (stop_timer_only pb p (delete tp p.(p_pending))) as (Ec & _).
  unfold detach. rewrite stop_timer_pending, Ec. cbn. intros [Hne Hp]%lookup_delete_Some.
  rewrite stop_timer_other; [by apply (Ht tp')|]. intros ->. by apply Hne, eq_sym, Hid.
Qed.

Lemma detach_all_ok order `{KeyOrder order} p (n : N) fl cl1 cl2 sends : batches_ok (mkRun p n fl (cl1 ++ Draining :: cl2) sends) →
  timers_only p (detach_all order p).2 ∧ (detach_all order p).2.(p_pending) = ∅ ∧
  batches_ok (mkRun (detach_all order p).2 n fl (cl1 ++ Flushing (detach_all order p).1 :: cl2) sends).
Proof.
  intros Hs. unfold detach_all. set (bs := omap _ _). cbn [fst snd].
  assert (Hto : timers_only p (set_p_pending ∅ (foldl (λ p '(_, pb), stop_timer pb p) p bs))).
  { assert (Hg : timers_only p (foldl (λ p '(_, pb), stop_timer pb p) p bs)); [|by destruct Hg as (? & ? & ? & ?); split_and!].
    clearbody bs. clear. revert p. induction bs as [|[tp pb] bs IH]; intros p; [by split_and!|]. cbn.
    eapply timers_only_trans; [|apply IH]. pose proof (stop_timer_only pb p p.(p_pending)). by destruct p. }
  split_and!; [done|done|]. eapply batches_ok_detach; [exact Hs|exact Hto| |done].
  assert (Hbs : bs ≡ₚ map_to_list p.(p_pending)).
  { unfold bs. rewrite (key_order p.(p_pending)).
    assert (Hl : ∀ l, (∀ tp pb, (tp, pb) ∈ l → p.(p_pending) !! tp = Some pb) →
      omap (λ tp, pair tp <$> p.(p_pending) !! tp) (l.*1) = l).
    { induction l as [|[tp pb] l IH]; intros Hl; [done|]. cbn. rewrite (Hl tp pb) by by left. cbn. f_equal.
      apply IH. intros. apply Hl. by right. }
    rewrite Hl; [done|]. intros tp pb. apply elem_of_map_to_list. }
  unfold places. cbn. rewrite map_to_list_empty, !bind_app, !bind_cons. cbn. rewrite Hbs. solve_Permutation.
Qed.

(** The record joins its batch. *)
Definition join_batch (rec : record) (waiter : nat) (b : pendingBatch) : pendingBatch :=
  mkPendingBatch (b.(pb_records) ++ [rec]) (b.(pb_bytes) + EncodedSize rec) (b.(pb_waiters) ++ [waiter]) b.(pb_timer).
Definition joined (tp : topicPartition) (pb : nat) (rec : record) (waiter : nat) (b : pendingBatch) (p : Producer) : Producer :=
  set_p_channels (<[waiter := []]> p.(p_channels))
    (set_p_batches (<[pb := join_batch rec waiter b]> p.(p_batches)) (set_p_pending (<[tp := pb]> p.(p_pending)) p)).

Lemma sum_sizes_app l r : foldr (λ r n, EncodedSize r + n) 0 (l ++ [r]) = foldr (λ r n, EncodedSize r + n) 0 l + EncodedSize r.
Proof. induction l as [|x l IH]; cbn; [lia|]. rewrite IH. lia. Qed.

Lemma detach_all_final order p : (detach_all order p).2.(p_finalized) = p.(p_finalized).
Proof.
  unfold detach_all. cbn. generalize (omap (λ tp, pair tp <$> p_pending p !! tp) (order (p_pending p))) as bs. intros bs.
  revert p. induction bs as [|[tp pb] bs IH]; intros p; [done|]. cbn. rewrite IH. unfold stop_timer. by destruct (p_batches p !! pb).
Qed.

(** [rest] are the other batches; the one of [tp] may be new. *)
Lemma joined_ok tp pb rec waiter b p (n : N) fl cl sends rest : batches_ok (mkRun p n fl cl sends) → sends !! waiter = None →
  let s := mkRun p n fl cl sends in
  let s' := mkRun (joined tp pb rec waiter b p) n fl cl (<[waiter := (tp, rec)]> sends) in
  places s' ≡ₚ (tp, pb) :: rest → pb ∉ rest.*2 → NoDup rest.*2 → (∀ x, x ∈ rest → x ∈ places s) →
  waiting s ≡ₚ b.(pb_waiters) ++ (rest ≫= batch_waiters p) →
  b.(pb_bytes) = foldr (λ r n, EncodedSize r + n) 0 b.(pb_records) →
  Forall2 (λ w r, sends !! w = Some (tp, r)) b.(pb_waiters) b.(pb_records) → batches_ok s'.
Proof.
  intros [B1 B2 B3 B4] Hw s s' Hp Hnin Hnd Hin Ewt Hby HF.
  assert (Hold : ∀ x, x ∈ rest → p_batches (joined tp pb rec waiter b p) !! x.2 = p.(p_batches) !! x.2).
  { intros x Hx. cbn. rewrite lookup_insert_ne; [done|]. intros ->. apply Hnin, list_elem_of_fmap. eauto. }
  assert (Ewt' : waiting s' ≡ₚ waiter :: waiting s).
  { unfold waiting at 1. rewrite Hp, bind_cons, Ewt. unfold batch_waiters at 1. cbn. rewrite lookup_insert_eq. cbn.
    rewrite <- app_assoc. cbn. rewrite <- Permutation_middle. do 2 f_equiv.
    clear -Hold. induction rest as [|x rest IH]; [done|]. rewrite !bind_cons. f_equiv.
    - unfold batch_waiters. rewrite <- Hold by by left. done.
    - apply IH. intros y Hy. apply Hold. by right. }
  assert (Hfresh : waiter ∉ waiting s).
  { intros (x & Hx & Hxp)%list_elem_of_bind. destruct x as [tp' pb']. destruct (B2 tp' pb' Hxp) as (b' & Hb' & (_ & _ & HF')).
    unfold batch_waiters in Hx. cbn in Hx, Hb'. rewrite Hb' in Hx. apply list_elem_of_lookup in Hx as [j Hj].
    destruct (Forall2_lookup_l _ _ _ _ _ HF' Hj) as (r & _ & Hr). cbn in Hr. by rewrite Hw in Hr. }
  assert (Hsend : ∀ w x, sends !! w = Some x → <[waiter := (tp, rec)]> sends !! w = Some x).
  { intros w x Hx. rewrite lookup_insert_ne; [done|]. intros ->. by rewrite Hw in Hx. }
  constructor.
  - rewrite Hp. cbn. by constructor.
  - intros tp' pb'. rewrite Hp. intros [[= -> ->]|Hx]%elem_of_cons.
    + exists (join_batch rec waiter b). cbn. rewrite lookup_insert_eq. split; [done|]. split_and!; cbn.
      * by destruct (pb_records b).
      * by rewrite sum_sizes_app, Hby.
      * apply Forall2_app; [eapply Forall2_impl; [exact HF|]; cbn; auto|]. constructor; [by rewrite lookup_insert_eq|done].
    + destruct (B2 tp' pb' (Hin _ Hx)) as (b' & Hb' & (O1 & O2 & O3)). exists b'.
      pose proof (Hold _ Hx) as Eh. cbn [snd] in Eh. cbn [w_prod s']. rewrite Eh. split; [done|]. split_and!; [done|done|].
      eapply Forall2_impl; [exact O3|]. cbn. auto.
  - rewrite Ewt'. by constructor.
  - intros w x. cbn [w_sends s' w_prod]. destruct (decide (w = waiter)) as [->|Hne].
    + intros _. rewrite bool_decide_true by (rewrite Ewt'; by left). cbn. by rewrite lookup_insert_eq.
    + rewrite lookup_insert_ne by done. intros Hx. specialize (B4 w x Hx). cbn. rewrite lookup_insert_ne by done.
      rewrite (bool_decide_ext (w ∈ waiting s') (w ∈ waiting s)); [done|]. rewrite Ewt', elem_of_cons. tauto.
Qed.

(** The batch of the partition, or the new one. *)
Definition batch_for (tp : topicPartition) (p : Producer) : nat * pendingBatch :=
  match p.(p_pending) !! tp with
  | Some pb => (pb, default (mkPendingBatch [] 0 [] false) (p.(p_batches) !! pb))
  | None => (fresh (dom p.(p_batches)), mkPendingBatch [] 0 [] true)
  end.

Lemma enqueue_eq tp rec waiter p : let '(pb, b) := batch_for tp p in
  enqueue tp rec waiter p =
    if p.(p_config).(pc_BatchSize) <=? b.(pb_bytes) + EncodedSize rec then (Some pb, detach tp pb (joined tp pb rec waiter b p))
    else (None, joined tp pb rec waiter b p).
Proof. unfold enqueue. fold (batch_for tp p). by destruct (batch_for tp p) as [pb b]. Qed.

Lemma batch_for_ok tp rec waiter p (n : N) fl cl sends : batches_ok (mkRun p n fl cl sends) → timers_ok p →
  sends !! waiter = None → let '(pb, b) := batch_for tp p in
  batches_ok (mkRun (joined tp pb rec waiter b p) n fl cl (<[waiter := (tp, rec)]> sends)) ∧
  b.(pb_timer) = true ∧ ∀ tp' pb', tp' ≠ tp → p.(p_pending) !! tp' = Some pb' → pb' ≠ pb.
Proof.
  intros Hs Ht Hw. pose proof Hs as [B1 B2 _ _]. unfold batch_for. destruct (p.(p_pending) !! tp) as [pb|] eqn:E.
  - destruct (Ht tp pb E) as (b & Hb & Htm & _). rewrite Hb. cbn [default]. split_and!; [|done|].
    2: { intros tp' pb' Hne Hp' ->. by apply Hne, (pending_ids (mkRun p n fl cl sends) tp tp' pb). }
    pose proof (map_to_list_delete _ _ _ E) as Hdel.
    set (rest := map_to_list (delete tp p.(p_pending)) ++ fl ++ (cl ≫= closing_batches)).
    assert (Hpl : places (mkRun p n fl cl sends) ≡ₚ (tp, pb) :: rest) by (unfold places; cbn; by rewrite <- Hdel).
    rewrite Hpl in B1. cbn in B1. apply NoDup_cons in B1 as [Hn1 Hn2].
    destruct (B2 tp pb) as (b' & Hb' & (_ & O2 & O3)); [rewrite Hpl; by left|]. cbn in Hb', O3. rewrite Hb in Hb'. injection Hb' as <-.
    apply (joined_ok _ _ _ _ _ _ _ _ _ _ rest); try done.
    + unfold places. cbn. rewrite (insert_id p.(p_pending)) by done. by rewrite <- Hdel.
    + intros x Hx. rewrite Hpl. by right.
    + unfold waiting. rewrite Hpl, bind_cons. unfold batch_waiters at 1. cbn. by rewrite Hb.
  - set (pb := fresh (dom p.(p_batches))).
    assert (Hf : p.(p_batches) !! pb = None) by apply not_elem_of_dom, is_fresh.
    assert (Hnin : pb ∉ (places (mkRun p n fl cl sends)).*2).
    { intros ([tp' pb'] & Ex & Hx)%list_elem_of_fmap. cbn in Ex. subst pb'. destruct (B2 _ _ Hx) as (b & Hb & _). cbn in Hb. by rewrite Hf in Hb. }
    split_and!; [|done|].
    + apply (joined_ok _ _ _ _ _ _ _ _ _ _ (places (mkRun p n fl cl sends))); try done.
      unfold places. cbn. by rewrite map_to_list_insert.
    + intros tp' pb' _ Hp' ->. apply Hnin, list_elem_of_fmap. exists (tp', pb). split; [done|].
      apply elem_of_app. left. by apply elem_of_map_to_list.
Qed.

Lemma enqueue_ok tp rec waiter p (n : N) fl cl sends : batches_ok (mkRun p n fl cl sends) → timers_ok p →
  sends !! waiter = None → let '(toFlush, p') := enqueue tp rec waiter p in
  batches_ok (mkRun p' n (fl ++ to_flush tp toFlush) cl (<[waiter := (tp, rec)]> sends)) ∧ timers_ok p' ∧
  p'.(p_config) = p.(p_config) ∧ p'.(p_closed) = p.(p_closed).
Proof.
  intros Hs Ht Hw. pose proof (enqueue_eq tp rec waiter p) as Ee. pose proof (batch_for_ok tp rec waiter p n fl cl sends Hs Ht Hw) as Hj.
  destruct (batch_for tp p) as [pb b]. destruct Hj as (Hj & Htm & Hid). rewrite Ee.
  assert (Hothers : ∀ tp' pb', tp' ≠ tp → (joined tp pb rec waiter b p).(p_pending) !! tp' = Some pb' →
    ∃ b', (joined tp pb rec waiter b p).(p_batches) !! pb' = Some b' ∧ b'.(pb_timer) = true ∧ b'.(pb_bytes) < p.(p_config).(pc_BatchSize)).
  { intros tp' pb' Hne. cbn. rewrite lookup_insert_ne by done. intros Hp'. rewrite lookup_insert_ne by (intros <-; by eapply Hid).
    by apply (Ht tp'). }
  destruct (Z.leb_spec (pc_BatchSize (p_config p)) (pb_bytes b + EncodedSize rec)).
  - destruct (stop_timer_only pb (joined tp pb rec waiter b p) (delete tp (joined tp pb rec waiter b p).(p_pending))) as (E1 & E2 & _).
    split_and!; [|apply detach_timers|exact E1|exact E2].
    + apply detach_ok; [done|]. cbn. by rewrite lookup_insert_eq.
    + intros tp' Hp'. destruct (decide (tp' = tp)) as [|Hne]; [done|]. cbn in Hp'. rewrite lookup_insert_ne in Hp' by done.
      by destruct (Hid tp' pb Hne Hp').
    + exact Hothers.
  - cbn [to_flush]. rewrite app_nil_r. split_and!; [done| |done|done].
    intros tp' pb'. destruct (decide (tp' = tp)) as [->|Hne]; [|by apply Hothers].
    cbn. rewrite lookup_insert_eq. intros [= <-]. rewrite lookup_insert_eq. by eexists.
Qed.

Lemma same_timers p p' : same_batcher p p' → timers_ok p → timers_ok p'.
Proof. intros (E1 & _ & _ & E2 & E3 & _) Ht tp pb. rewrite E1, E2, E3. apply Ht. Qed.

Lemma same_inv p p' (n n' : N) fl cl sends : same_batcher p p' → run_inv (mkRun p n fl cl sends) → run_inv (mkRun p' n' fl cl sends).
Proof.
  intros Hsame [R1 R2 R3 R4]. pose proof Hsame as (E1 & E2 & _ & E3 & E4 & E5). constructor; cbn in *.
  - apply (batches_ok_move (mkRun p n fl cl sends)); [done|..]; cbn; try done.
    + unfold places. cbn. by rewrite E3.
    + intros x. unfold batch_waiters. by rewrite E4.
    + intros tp pb b Hb Ho. exists b. by rewrite E4.
  - by eapply same_timers.
  - by rewrite E1, E3.
  - by rewrite E2, E3.
Qed.

Lemma flush_inv tp pb p (n : N) fl cl fl' cl' sends : run_inv (mkRun p n fl cl sends) →
  places (mkRun p n fl cl sends) ≡ₚ (tp, pb) :: places (mkRun p n fl' cl' sends) → (Draining ∈ cl → Draining ∈ cl') →
  run_inv (mkRun (flushBatch tp pb (p, n)).1 (flushBatch tp pb (p, n)).2 fl' cl' sends).
Proof.
  intros [R1 R2 R3 R4] Hp Hdr. destruct (batches_ok_flush tp pb p n fl cl fl' cl' sends R1 Hp) as [(E1 & E2 & _ & E3 & E4 & _) Hok].
  cbn in *. constructor; cbn; [done|..].
  - intros tp' pb'. rewrite E1, E3, E4. apply R2.
  - by rewrite E1, E3.
  - rewrite E2, E3. auto.
Qed.

(** The calls of [Close] may go on, as long as the first one drains. *)
Lemma close_inv p q (n n' : N) fl cl cl' sends : run_inv (mkRun p n fl cl sends) →
  q.(p_config) = p.(p_config) → q.(p_pending) = p.(p_pending) → q.(p_batches) = p.(p_batches) → q.(p_channels) = p.(p_channels) →
  (cl' ≫= closing_batches) ≡ₚ (cl ≫= closing_batches) →
  (q.(p_closed) = true → p.(p_pending) ≠ ∅ → Draining ∈ cl') → run_inv (mkRun q n' fl cl' sends).
Proof.
  intros [R1 R2 R3 _] E1 E3 E4 E5 Hcl Hdr. constructor; cbn in *.
  - apply (batches_ok_move (mkRun p n fl cl sends)); [done|..]; cbn; try done.
    + unfold places. cbn. by rewrite E3, Hcl.
    + intros x. unfold batch_waiters. by rewrite E4.
    + intros tp pb b Hb Ho. exists b. by rewrite E4.
  - intros tp pb. rewrite E1, E3, E4. apply R2.
  - by rewrite E1, E3.
  - by rewrite E3.
Qed.

Lemma close_begin_inv p (n : N) fl cl sends : run_inv (mkRun p n fl cl sends) →
  run_inv (mkRun (close_begin p).2 n fl
    (match (close_begin p).1 with Some true => Draining :: cl | Some false => Finishing :: cl | None => cl end) sends).
Proof.
  intros Hs. pose proof Hs as [_ _ R3 R4]. cbn in R3, R4. unfold close_begin. destruct (p_finalized p); [done|]. cbn.
  destruct (p_closed p) eqn:Hc; cbn; [|destruct (Z.ltb_spec 0 (pc_LingerMs (p_config p)))];
    (eapply close_inv; [exact Hs|done..|]); intros _ Hne.
  - right. by apply R4.
  - by left.
  - specialize (R3 Hne). lia.
Qed.

Lemma draining_other c cl1 cl2 : c ≠ Draining → Draining ∈ cl1 ++ c :: cl2 → Draining ∈ cl1 ++ cl2.
Proof. rewrite !elem_of_app, elem_of_cons. intros Hne [?|[?|?]]; [by left|congruence|by right]. Qed.

Lemma close_finish_inv p (n : N) fl cl1 cl2 sends : run_inv (mkRun p n fl (cl1 ++ Finishing :: cl2) sends) →
  run_inv (mkRun (close_finish p n).2.1 (close_finish p n).2.2 fl (cl1 ++ cl2) sends).
Proof.
  intros Hs. pose proof (ri_closed _ Hs) as R4. cbn in R4. unfold close_finish.
  destruct (p_finalized p); [|destruct (p_conn p) as [st|]; [destruct (Conn_Close _ n) as [err n']|]];
    (eapply close_inv; [exact Hs|done..| |]); cbn; [by rewrite !bind_app, !bind_cons| |by rewrite !bind_app, !bind_cons| |by rewrite !bind_app, !bind_cons|];
    intros Hc Hne; by eapply draining_other, R4.
Qed.

Lemma linger_inv tp pb p (n : N) fl cl sends : run_inv (mkRun p n fl cl sends) →
  run_inv (mkRun (lingerFire tp pb p).2 n (fl ++ to_flush tp (lingerFire tp pb p).1) cl sends).
Proof.
  intros Hs. pose proof Hs as [R1 R2 R3 R4]. cbn in R2, R3, R4. unfold lingerFire.
  destruct (bool_decide_reflect (p.(p_pending) !! tp = Some pb)) as [Hp|Hp]; cbn; [|by rewrite app_nil_r].
  destruct (stop_timer_only pb p (delete tp p.(p_pending))) as (E1 & E2 & _).
  assert (Hne : p.(p_pending) ≠ ∅) by (intros Hx; by rewrite Hx, lookup_empty in Hp).
  constructor; cbn; [by apply detach_ok| | |].
  - apply detach_timers; [|eauto]. intros tp' Hp'. by apply (pending_ids _ tp tp' pb (bo_ids _ R1)).
  - rewrite E1. auto.
  - rewrite E2. auto.
Qed.

Lemma send_inv now tp key value waiter p p' (n : N) fl cl sends toFlush : 0 < p.(p_config).(pc_LingerMs) →
  sends !! waiter = None → sendBatched None now tp key value waiter p = (Ok toFlush, p') → run_inv (mkRun p n fl cl sends) →
  run_inv (mkRun p' n (fl ++ to_flush tp toFlush) cl (<[waiter := (tp, mkRecord 0 now 0 key value)]> sends)).
Proof.
  intros Hl Hw E [R1 R2 R3 R4]. unfold sendBatched in E. destruct (p_closed p) eqn:Hc; [done|].
  pose proof (enqueue_ok tp (mkRecord 0 now 0 key value) waiter p n fl cl sends R1 R2 Hw) as He.
  destruct (enqueue tp _ waiter p) as [tf q]. injection E as -> ->. destruct He as (H1 & H2 & H3 & H4).
  constructor; cbn; [done|done|by rewrite H3|]. rewrite H4, Hc. done.
Qed.

Lemma run_step_inv s s' : run_inv s → producer_step s s' → run_inv s'.
Proof.
  intros Hs Hstep. inversion Hstep as
    [now tp key value waiter p p' n fl cl sends toFlush Hl Hw E|tp pb p n fl cl sends|tp pb p n fl1 fl2 cl sends
    |ctxErr now topic partition msgs p n fl cl sends|p n fl cl sends|order p n fl cl1 cl2 sends Hord
    |tp pb batches p n fl cl1 cl2 sends|p n fl cl1 cl2 sends|p n fl cl1 cl2 sends|p n n' fl cl sends]; subst.
  - by eapply send_inv.
  - by apply linger_inv.
  - eapply flush_inv; [exact Hs| |done]. unfold places. cbn. by rewrite <- !app_assoc, <- app_comm_cons, !Permutation_middle.
  - destruct (SendBatch ctxErr now topic partition msgs (p, n)) as [r [p' n']] eqn:E. cbn. eapply same_inv; [|exact Hs].
    unfold SendBatch in E. repeat case_match; simplify_eq; try done. by eapply produceRecords_same.
  - by apply close_begin_inv.
  - destruct (detach_all_ok order p n fl cl1 cl2 sends (ri_batches _ Hs)) as (_ & Ep & Hok).
    constructor; cbn; [done|..]; by rewrite ?Ep; try done.
  - eapply flush_inv; [exact Hs| |].
    + unfold places. cbn. rewrite !bind_app, !bind_cons. cbn. by rewrite <- !Permutation_middle.
    + rewrite !elem_of_app, !elem_of_cons. intros [?|[?|?]]; [by left|done|by right; right].
  - eapply close_inv; [exact Hs|done|done|done|done|by rewrite !bind_app, !bind_cons|]. intros Hc Hne.
    pose proof (draining_other (Flushing []) cl1 cl2 ltac:(done) (ri_closed _ Hs Hc Hne)) as Hin. rewrite elem_of_app in Hin |- *.
    destruct Hin; [by left|by right; right].
  - by apply close_finish_inv.
  - by eapply same_inv.
Qed.

Lemma run_initial addrs cfg p (n : N) : NewProducer addrs cfg = Ok p → run_inv (mkRun p n [] [] ∅).
Proof.
  unfold NewProducer. destruct addrs; [done|]. intros [= <-]. constructor; cbn; [constructor; cbn|..]; try done; try constructor.
  by intros tp pb ?%not_elem_of_nil.
Qed.

Lemma run_reachable addrs cfg p n s : NewProducer addrs cfg = Ok p → rtc producer_step (mkRun p n [] [] ∅) s → run_inv s.
Proof. intros Hnew%(run_initial _ _ _ n) Hrun. induction Hrun; eauto using run_step_inv. Qed.

(** Flushing a list of detached batches answers all their waiters. *)
Lemma flush_list batches : ∀ p (n : N) sends, run_inv (mkRun p n [] [Flushing batches] sends) →
  let st := foldl (λ st '(tp, pb), flushBatch tp pb st) (p, n) batches in run_inv (mkRun st.1 st.2 [] [Flushing []] sends).
Proof.
  induction batches as [|[tp pb] batches IH]; intros p n sends Hs; [done|]. cbn.
  destruct (flushBatch tp pb (p, n)) as [p' n'] eqn:E. apply IH.
  pose proof (flush_inv tp pb p n [] [Flushing ((tp, pb) :: batches)] [] [Flushing batches] sends Hs) as Hf. rewrite E in Hf.
  apply Hf; [|by intros [?|?%not_elem_of_nil]%elem_of_cons]. unfold places. cbn. by rewrite <- Permutation_middle.
Qed.
End inv.

(** ** Claims *)

(** C9: in every interleaving of [Send] calls, timers and [Close] calls, a caller is
    never sent more than one result, so that no flush blocks on its channel; a record
    without a result is in exactly one batch, one that a goroutine is about to flush
    or one that is pending with its timer running; and when a closed producer has no
    goroutine left, every caller has its result. *)
Theorem send_answered_once {N} `{Network N} addrs cfg p n (s : Run N) : NewProducer addrs cfg = Ok p →
  rtc producer_step (mkRun p n [] [] ∅) s → let q := s.(w_prod) in
  (∀ w tp r, s.(w_sends) !! w = Some (tp, r) →
     (∃ res, q.(p_channels) !! w = Some [res] ∧ (await w q).1 = Some res) ∨
     (q.(p_channels) !! w = Some [] ∧ ∃ pb b i, q.(p_batches) !! pb = Some b ∧
        b.(pb_waiters) !! i = Some w ∧ b.(pb_records) !! i = Some r ∧
        ((tp, pb) ∈ s.(w_flush) ∨ (∃ batches, Flushing batches ∈ s.(w_close) ∧ (tp, pb) ∈ batches) ∨
         (q.(p_pending) !! tp = Some pb ∧ b.(pb_timer) = true ∧ (lingerFire tp pb q).1 = Some pb)))) ∧
  (q.(p_closed) = true → s.(w_flush) = [] → s.(w_close) = [] →
   ∀ w, is_Some (s.(w_sends) !! w) → ∃ res, (await w q).1 = Some res).
Proof.
  intros Hnew Hrun. pose proof (run_reachable _ _ _ _ _ Hnew Hrun) as Hs. pose proof Hs as [[B1 B2 B3 B4] R2 R3 R4].
  assert (Haw : ∀ w res, s.(w_prod).(p_channels) !! w = Some [res] → (await w s.(w_prod)).1 = Some res).
  { intros w res E. unfold await. by rewrite E. }
  cbv zeta. split.
  - intros w tp r Hw. specialize (B4 w _ Hw). case_bool_decide as Hin; [right|left; destruct B4 as [res E]; eauto].
    split; [done|]. apply list_elem_of_bind in Hin as ([tp' pb] & Hin & Hpl). destruct (B2 tp' pb Hpl) as (b & Hb & _ & _ & HF).
    unfold batch_waiters in Hin. cbn in Hin. rewrite Hb in Hin. apply list_elem_of_lookup in Hin as [i Hi].
    destruct (Forall2_lookup_l _ _ _ _ _ HF Hi) as (r' & Hr' & Hw'). cbn in Hw'. rewrite Hw in Hw'. injection Hw' as <- <-.
    exists pb, b, i. split_and!; [done..|]. unfold places in Hpl. apply elem_of_app in Hpl as [Hp|[Hp|Hp]%elem_of_app].
    + right; right. apply elem_of_map_to_list in Hp. destruct (R2 tp pb Hp) as (b' & Hb' & Ht & _). rewrite Hb in Hb'.
      injection Hb' as <-. split_and!; [done|done|]. unfold lingerFire. by rewrite bool_decide_true.
    + by left.
    + right; left. apply list_elem_of_bind in Hp as (c & Hc & Hcl). destruct c as [|bs|]; [by apply not_elem_of_nil in Hc| |by apply not_elem_of_nil in Hc].
      by exists bs.
  - intros Hc Hf Hcl w [x Hx]. specialize (B4 w x Hx).
    rewrite bool_decide_false in B4; [destruct B4 as [res E]; eauto|].
    unfold waiting, places. rewrite Hf, Hcl. cbn. destruct (decide (s.(w_prod).(p_pending) = ∅)) as [->|Hne].
    + rewrite map_to_list_empty. apply not_elem_of_nil.
    + specialize (R4 Hc Hne). rewrite Hcl in R4. by apply not_elem_of_nil in R4.
Qed.

(** The flush of a batch is one Produce request with the records its callers sent,
    in the order they were accepted and all for the batch's partition, and each caller
    gets the result of its own record. *)
Theorem flush_answers_each {N} `{Network N} addrs cfg p n (s : Run N) tp pb : NewProducer addrs cfg = Ok p →
  rtc producer_step (mkRun p n [] [] ∅) s → (tp, pb) ∈ places s → ∃ records waiters offsets s1,
  produceRecords tp.1 tp.2 records (s.(w_prod), s.(w_net)) = (offsets, s1) ∧ records ≠ [] ∧
  Forall2 (λ w r, s.(w_sends) !! w = Some (tp, r)) waiters records ∧
  (∀ i w, waiters !! i = Some w →
     (flushBatch tp pb (s.(w_prod), s.(w_net))).1.(p_channels) !! w = Some [batch_result offsets i]) ∧
  ∀ w, w ∉ waiters → (flushBatch tp pb (s.(w_prod), s.(w_net))).1.(p_channels) !! w = s.(w_prod).(p_channels) !! w.
Proof.
  intros Hnew Hrun Hpl. destruct (ri_batches _ (run_reachable _ _ _ _ _ Hnew Hrun)) as [_ B2 B3 B4].
  destruct (B2 tp pb Hpl) as (b & Hb & Hne & _ & HF).
  assert (Hsub : ∀ w, w ∈ b.(pb_waiters) → w ∈ waiting s).
  { intros w Hw. apply list_elem_of_bind. exists (tp, pb). split; [|done]. unfold batch_waiters. cbn. by rewrite Hb. }
  destruct (flushBatch_spec tp pb b s.(w_prod) s.(w_net) Hb Hne) as (offs & p1 & n1 & p2 & E1 & E2 & _ & R1 & R2).
  - apply list_elem_of_split in Hpl as (l1 & l2 & El). unfold waiting in B3. rewrite El, bind_app, bind_cons in B3.
    apply NoDup_app in B3 as (_ & _ & B3). apply NoDup_app in B3 as (B3 & _ & _). unfold batch_waiters in B3. cbn in B3. by rewrite Hb in B3.
  - intros w Hw. pose proof Hw as Hw'. apply list_elem_of_lookup in Hw' as [i Hi].
    destruct (Forall2_lookup_l _ _ _ _ _ HF Hi) as (r & _ & Hr). specialize (B4 w _ Hr). by rewrite bool_decide_true in B4 by auto.
  - exists b.(pb_records), b.(pb_waiters), offs, (p1, n1). rewrite E2. by split_and!.
Qed.

(** Nothing is left behind by a drain, and everyone has a result. *)
Lemma drained_answers {N} `{Network N} p (n : N) cl sends : batches_ok (mkRun p n [] cl sends) → (cl ≫= closing_batches) = [] →
  p.(p_pending) = ∅ → ∀ w, is_Some (sends !! w) → ∃ res, p.(p_channels) !! w = Some [res].
Proof.
  intros [_ _ _ B4] Hcl Hp w [x Hx]. specialize (B4 w x Hx). rewrite bool_decide_false in B4; [done|].
  unfold waiting, places. cbn. rewrite Hp, Hcl, map_to_list_empty. apply not_elem_of_nil.
Qed.

Lemma flush_list_pending {N} `{Network N} batches : ∀ p (n : N) sends, run_inv (mkRun p n [] [Flushing batches] sends) →
  (foldl (λ st '(tp, pb), flushBatch tp pb st) (p, n) batches).1.(p_pending) = p.(p_pending) ∧
  (foldl (λ st '(tp, pb), flushBatch tp pb st) (p, n) batches).1.(p_finalized) = p.(p_finalized).
Proof.
  induction batches as [|[tp pb] batches IH]; intros p n sends Hs; [done|]. cbn.
  destruct (batches_ok_flush tp pb p n [] [Flushing ((tp, pb) :: batches)] [] [Flushing batches] sends (ri_batches _ Hs))
    as [(E1 & E2 & E3 & E4 & _) _].
  { unfold places. cbn. by rewrite <- Permutation_middle. }
  destruct (flushBatch tp pb (p, n)) as [p' n'] eqn:E. cbn in E3, E4. rewrite <- E3, <- E4. apply (IH p' n' sends).
  pose proof (flush_inv tp pb p n [] [Flushing ((tp, pb) :: batches)] [] [Flushing batches] sends Hs) as Hf. rewrite E in Hf.
  apply Hf; [|by intros [?|?%not_elem_of_nil]%elem_of_cons]. unfold places. cbn. by rewrite <- Permutation_middle.
Qed.

(** [Close] on a producer with pending batches and no goroutine in the middle of
    a flush returns with every caller answered, no matter what the network does. *)
Theorem close_answers_everyone {N} `{Network N} addrs cfg p n (s : Run N) order : KeyOrder order →
  NewProducer addrs cfg = Ok p → rtc producer_step (mkRun p n [] [] ∅) s →
  s.(w_flush) = [] → s.(w_close) = [] → s.(w_prod).(p_finalized) = false →
  let q := (Close order s.(w_prod) s.(w_net)).2.1 in
  q.(p_finalized) = true ∧ q.(p_pending) = ∅ ∧ ∀ w, is_Some (s.(w_sends) !! w) → ∃ res, q.(p_channels) !! w = Some [res].
Proof.
  intros Hord Hnew Hrun Hf Hcl Hfin. pose proof (run_reachable _ _ _ _ _ Hnew Hrun) as Hs. clear Hnew Hrun.
  destruct s as [q0 n0 fl cl sends]. cbn in Hf, Hcl, Hfin. subst fl cl. cbn [w_prod w_net w_sends].
  assert (Hend : ∀ p (n : N), p.(p_finalized) = false → p.(p_pending) = ∅ →
    (∀ w, is_Some (sends !! w) → ∃ res, p.(p_channels) !! w = Some [res]) →
    let q := (close_finish p n).2.1 in q.(p_finalized) = true ∧ q.(p_pending) = ∅ ∧
    ∀ w, is_Some (sends !! w) → ∃ res, q.(p_channels) !! w = Some [res]).
  { intros p1 n1 E1 E2 E3. unfold close_finish. rewrite E1. destruct (p_conn p1); [destruct (Conn_Close _ n1)|]; by split_and!. }
  pose proof (close_begin_inv _ _ _ _ _ Hs) as Hb. unfold Close. unfold close_begin in *. rewrite Hfin in *. cbn [fst snd] in *.
  destruct (negb (p_closed q0) && _) eqn:Hdr.
  - destruct (detach_all_ok order (set_p_closed true q0) n0 [] [] [] sends (ri_batches _ Hb)) as (_ & Ep & _).
    pose proof (run_step_inv _ _ Hb (step_close_drain order (set_p_closed true q0) n0 [] [] [] sends Hord)) as Hb2.
    assert (Ef : (detach_all order (set_p_closed true q0)).2.(p_finalized) = false) by (rewrite detach_all_final; exact Hfin).
    destruct (detach_all order (set_p_closed true q0)) as [bs q1]. cbn in *.
    pose proof (flush_list bs q1 n0 sends Hb2) as Hb3. destruct (flush_list_pending bs q1 n0 sends Hb2) as [Ep3 Ef3].
    destruct (foldl _ (q1, n0) bs) as [q2 n2]. cbn [fst snd] in *. rewrite Ep in Ep3. rewrite Ef in Ef3. apply Hend; [done|done|].
    by apply (drained_answers q2 n2 [Flushing []] sends (ri_batches _ Hb3)).
  - assert (Ep : q0.(p_pending) = ∅).
    { destruct (decide (q0.(p_pending) = ∅)) as [|Hne]; [done|]. pose proof (ri_closed _ Hb eq_refl Hne) as Hin.
      by apply elem_of_cons in Hin as [?|?%not_elem_of_nil]. }
    apply Hend; [done|done|]. apply (drained_answers (set_p_closed true q0) n0 [Finishing] sends); [apply (ri_batches _ Hb)|done|done].
Qed.

(** ** Witnesses *)

(** A network on which nobody answers. *)
Definition down_network : Network unit := {|
  Dial _ n := (Err (errorString "connection refused"), n);
  Conn_Write _ _ n := (Err (errorString "use of closed network connection"), n);
  Arrived _ n := ([], n);
  Conn_Close _ n := (None, n)
|}.

Definition sample_order (m : gmap topicPartition nat) : list topicPartition := (map_to_list m).*1.
Lemma sample_order_ok : KeyOrder sample_order.
Proof. by intros m. Qed.

(** One call of [Send] on a producer with a linger time. *)
Definition lingering (size : Z) : Producer :=
  mkProducer ["localhost:9092"] (mkProducerConfig "app" 1 30000 5 size) None false false 0 ∅ ∅ ∅.
Definition one_send (size : Z) : Run unit :=
  let '(r, p) := sendBatched None 7 ("orders", 0) None (Some [x61]) 3 (lingering size) in
  mkRun p () (to_flush ("orders", 0) (match r with Ok tf => tf | Err _ => None end)) []
    {[3%nat := (("orders", 0), mkRecord 0 7 0 None (Some [x61]))]}.

Lemma one_send_run size : 0 < size → rtc (@producer_step unit down_network) (mkRun (lingering size) () [] [] ∅) (one_send size).
Proof.
  intros Hs. apply rtc_once. unfold one_send.
  destruct (sendBatched None 7 ("orders", 0) None (Some [x61]) 3 (lingering size)) as [r p] eqn:E.
  assert (∃ tf, r = Ok tf) as [tf ->].
  { unfold sendBatched in E. cbn [lingering p_closed] in E. destruct (enqueue _ _ _ _). injection E as <- <-. by eexists. }
  by apply (step_send 7 ("orders", 0) None (Some [x61]) 3 (lingering size) p () [] [] ∅ tf).
Qed.

Lemma send_answered_once_witness :
  ∃ pb b i, (one_send 1000).(w_prod).(p_batches) !! pb = Some b ∧ b.(pb_waiters) !! i = Some 3%nat.
Proof.
  destruct (@send_answered_once unit down_network ["localhost:9092"] (mkProducerConfig "app" 1 30000 5 1000) (lingering 1000) ()
    (one_send 1000) eq_refl (one_send_run 1000 eq_refl)) as [Hone _].
  destruct (Hone 3%nat ("orders", 0) (mkRecord 0 7 0 None (Some [x61])) eq_refl)
    as [(res & E & _)|(_ & pb & b & i & Hb & Hi & _)]; [vm_compute in E; discriminate|].
  by exists pb, b, i.
Defined.

Lemma flush_answers_each_witness :
  ∃ records, records ≠ [] ∧ (one_send 1).(w_flush) = [(("orders", 0), 0%nat)] ∧
  ∃ waiters, Forall2 (λ w r, (one_send 1).(w_sends) !! w = Some (("orders", 0), r)) waiters records.
Proof.
  destruct (@flush_answers_each unit down_network ["localhost:9092"] (mkProducerConfig "app" 1 30000 5 1) (lingering 1) ()
    (one_send 1) ("orders", 0) 0 eq_refl (one_send_run 1 eq_refl)) as (records & waiters & _ & _ & _ & Hne & HF & _).
  - vm_compute. left.
  - exists records. split; [done|]. split; [vm_compute; reflexivity|by exists waiters].
Defined.

Lemma close_answers_everyone_witness :
  ∃ res, (Close (N:=unit) (H:=down_network) sample_order (one_send 1000).(w_prod) ()).2.1.(p_channels) !! 3%nat = Some [res].
Proof.
  destruct (@close_answers_everyone unit down_network ["localhost:9092"] (mkProducerConfig "app" 1 30000 5 1000) (lingering 1000) ()
    (one_send 1000) sample_order sample_order_ok eq_refl (one_send_run 1000 eq_refl) eq_refl eq_refl eq_refl) as (_ & _ & Hw).
  apply Hw. by eexists.
Defined.
