(* ===== verification/Delivery.v ===== *)
(** * Producer, broker and consumer together (src/pkg/client, src/internal/server, src/internal/broker)

    The clients of [Producer] and [Consumer] over a network served by the mux of
    [Handlers]: what a successful send means, and that what was sent can be fetched. *)
From Stdlib Require Import ZArith Lia Strings.Byte.
From stdpp Require Import base list strings gmap.
From S2P Require Import Prelude Files Decimal Record Index Segment PartitionLog Recovery Retention LogFacts Codec Frame Requests Responses Server Group Checkpoint Replication Config Json Topic Metadata Partition Offsets Broker Handlers BrokerInv BrokerOps BrokerRun Restart EndToEnd Standalone Network Consumer Producer.
Open Scope Z_scope.

(** ** The messages on the wire *)

Definition wire_string (s : string) : bytes := be_encode 2 (zlen (str_bytes s)) ++ str_bytes s.
Definition wire_bytes (b : bytes) : bytes := be_encode 4 (zlen b) ++ b.

Lemma bind_buf {A B} (m : M bytes A) (f : A → M bytes B) w a p : m w = (Ok a, w ++ p) → (m ≫= f) w = f a (w ++ p).
Proof. intros E. unfold mbind, M_bind. by rewrite E. Qed.
Lemma put_int_buf n v (w : bytes) : put_int n v w = (Ok (Z.of_nat n), w ++ be_encode n v).
Proof. done. Qed.
Lemma put_one_buf {A} (put : A → M bytes unit) x (w p : bytes) : (∀ w, put x w = (Ok tt, w ++ p)) →
  put_array put [x] w = (Ok tt, w ++ be_encode 4 1 ++ p).
Proof.
  intros E. unfold put_array. erewrite bind_buf by apply put_int_buf. cbn [for_each]. unfold mbind, M_bind.
  by rewrite E, <- app_assoc.
Qed.

(** The fields of a message, one after the other. *)
Ltac put_fields :=
  repeat first
    [ erewrite bind_buf by apply put_int_buf
    | erewrite bind_buf by (by apply PutString_buf)
    | erewrite bind_buf by (by apply PutBytes_buf)
    | erewrite bind_buf by (by apply put_one_buf; eauto) ];
  unfold mret, M_ret; by rewrite <- ?app_assoc.

Lemma marshal_produce cfg topic i set : str_ok topic → bytes_ok set →
  marshal (produce_request cfg topic i set) = Ok (be_encode 2 cfg.(pc_Acks) ++ be_encode 4 cfg.(pc_TimeoutMs) ++ be_encode 4 1 ++
    wire_string topic ++ be_encode 4 1 ++ be_encode 4 i ++ wire_bytes set).
Proof.
  intros Ht Hs.
  assert (H1 : ∀ w, ProduceRequestPartition_Encode (mkProduceRequestPartition i set) w = (Ok tt, w ++ be_encode 4 i ++ wire_bytes set)).
  { intros w. unfold ProduceRequestPartition_Encode, PutInt32. put_fields. }
  assert (H2 : ∀ w, ProduceRequestTopic_Encode (mkProduceRequestTopic topic [mkProduceRequestPartition i set]) w =
    (Ok tt, w ++ wire_string topic ++ be_encode 4 1 ++ be_encode 4 i ++ wire_bytes set)).
  { intros w. unfold ProduceRequestTopic_Encode. put_fields. }
  unfold marshal, produce_request. cbn [wire_put ProduceRequest_Wire]. unfold ProduceRequest_Encode, PutInt16, PutInt32.
  put_fields.
Qed.

(** A response about one partition. *)
Definition produce_reply (topic : string) (r : ProduceResponsePartition) : ProduceResponse :=
  mkProduceResponse [mkProduceResponseTopic topic [r]].
Definition fetch_reply (topic : string) (r : FetchResponsePartition) : FetchResponse :=
  mkFetchResponse [mkFetchResponseTopic topic [r]].

Lemma marshal_produce_reply topic r : str_ok topic →
  marshal (produce_reply topic r) = Ok (be_encode 4 1 ++ wire_string topic ++ be_encode 4 1 ++
    be_encode 4 r.(psp_PartitionID) ++ be_encode 2 r.(psp_ErrorCode) ++ be_encode 8 r.(psp_BaseOffset) ++ be_encode 8 r.(psp_LogAppendTime)).
Proof.
  intros Ht. destruct r as [i code base time]. cbn [psp_PartitionID psp_ErrorCode psp_BaseOffset psp_LogAppendTime].
  assert (H1 : ∀ w, ProduceResponsePartition_Encode (mkProduceResponsePartition i code base time) w =
    (Ok tt, w ++ be_encode 4 i ++ be_encode 2 code ++ be_encode 8 base ++ be_encode 8 time)).
  { intros w. unfold ProduceResponsePartition_Encode, PutInt16, PutInt32, PutInt64. put_fields. }
  assert (H2 : ∀ w, ProduceResponseTopic_Encode (mkProduceResponseTopic topic [mkProduceResponsePartition i code base time]) w =
    (Ok tt, w ++ wire_string topic ++ be_encode 4 1 ++ be_encode 4 i ++ be_encode 2 code ++ be_encode 8 base ++ be_encode 8 time)).
  { intros w. unfold ProduceResponseTopic_Encode. put_fields. }
  unfold marshal, produce_reply. cbn [wire_put ProduceResponse_Wire]. unfold ProduceResponse_Encode. put_fields.
Qed.

Lemma marshal_fetch cfg topic i o : str_ok topic →
  marshal (fetch_request cfg topic i o) = Ok (be_encode 4 cfg.(cc_MaxWaitMs) ++ be_encode 4 cfg.(cc_MinBytes) ++
    be_encode 4 cfg.(cc_MaxBytes) ++ be_encode 4 1 ++ wire_string topic ++ be_encode 4 1 ++ be_encode 4 i ++ be_encode 8 o ++
    be_encode 4 cfg.(cc_MaxBytes)).
Proof.
  intros Ht.
  assert (H1 : ∀ w, FetchRequestPartition_Encode (mkFetchRequestPartition i o cfg.(cc_MaxBytes)) w =
    (Ok tt, w ++ be_encode 4 i ++ be_encode 8 o ++ be_encode 4 cfg.(cc_MaxBytes))).
  { intros w. unfold FetchRequestPartition_Encode, PutInt32, PutInt64. put_fields. }
  assert (H2 : ∀ w, FetchRequestTopic_Encode (mkFetchRequestTopic topic [mkFetchRequestPartition i o cfg.(cc_MaxBytes)]) w =
    (Ok tt, w ++ wire_string topic ++ be_encode 4 1 ++ be_encode 4 i ++ be_encode 8 o ++ be_encode 4 cfg.(cc_MaxBytes))).
  { intros w. unfold FetchRequestTopic_Encode. put_fields. }
  unfold marshal, fetch_request. cbn [wire_put FetchRequest_Wire]. unfold FetchRequest_Encode, PutInt32. put_fields.
Qed.

Lemma marshal_fetch_reply topic r : str_ok topic → bytes_ok r.(fsp_RecordSet) →
  marshal (fetch_reply topic r) = Ok (be_encode 4 1 ++ wire_string topic ++ be_encode 4 1 ++
    be_encode 4 r.(fsp_PartitionID) ++ be_encode 2 r.(fsp_ErrorCode) ++ be_encode 8 r.(fsp_HighWatermark) ++
    be_encode 8 r.(fsp_LogStartOffset) ++ wire_bytes r.(fsp_RecordSet)).
Proof.
  intros Ht Hb. destruct r as [i code hw start set]. cbn [fsp_PartitionID fsp_ErrorCode fsp_HighWatermark fsp_LogStartOffset fsp_RecordSet] in *.
  set (r := mkFetchResponsePartition i code hw start set).
  assert (H1 : ∀ w, FetchResponsePartition_Encode r w =
    (Ok tt, w ++ be_encode 4 i ++ be_encode 2 code ++ be_encode 8 hw ++ be_encode 8 start ++ wire_bytes set)).
  { intros w. unfold FetchResponsePartition_Encode, PutInt16, PutInt32, PutInt64. put_fields. }
  assert (H2 : ∀ w, FetchResponseTopic_Encode (mkFetchResponseTopic topic [r]) w =
    (Ok tt, w ++ wire_string topic ++ be_encode 4 1 ++ be_encode 4 i ++ be_encode 2 code ++ be_encode 8 hw ++ be_encode 8 start ++ wire_bytes set)).
  { intros w. unfold FetchResponseTopic_Encode. put_fields. }
  unfold marshal, fetch_reply. cbn [wire_put FetchResponse_Wire]. unfold FetchResponse_Encode. put_fields.
Qed.

(** ** Requests through the mux *)

(** What the handler of an api key does with the requests of a client. *)
Definition handled {A B} `{Wire A, Wire B} (io : IO) (key : Z) (client : string) (h : A → Broker → option B * Broker) : Prop :=
  ∃ hd, broker_handler io key = Some hd ∧ ∀ f b, f.(rqf_ClientID) = client → hd f b = handle_panics h f b.

Lemma handled_with {A B} `{Wire A, Wire B} io key client (h : A → Broker → B * Broker) : broker_handler io key = Some (handle_with h) →
  handled io key client (λ a b, let '(resp, b) := h a b in (Some resp, b)).
Proof. intros E. by exists (handle_with h). Qed.

Lemma Dispatch_handled {A B} `{Wire A, Wire B} io k b f (h : A → Broker → option B * Broker) a resp b' reply :
  handlers (broker_mux io) !! f.(rqf_ApiKey) = Some (registered io f.(rqf_ApiKey)) →
  handled (io k) f.(rqf_ApiKey) f.(rqf_ClientID) h → unmarshal f.(rqf_Payload) = Ok a →
  h a b = (Some resp, b') → marshal resp = Ok reply →
  Dispatch (broker_mux io) f (k, b) = (mkResponseFrame 0 f.(rqf_CorrelationID) 0 reply, [], (S k, b')).
Proof.
  intros Hm (hd & Hh & Hd) Hu Hf Hr. unfold Dispatch. unfold HandlerFunc in *. rewrite Hm. unfold registered. rewrite Hh, Hd by done. unfold handle_panics.
  by rewrite Hu, Hf, Hr.
Qed.

(** A well-formed request and its response as frames. *)
Lemma handled_frames {A B} `{WireOk A, WireOk B} io k b key corr client (h : A → Broker → option B * Broker) a resp b' payload reply :
  let f := mkRequestFrame 0 key 1 corr client payload in
  handlers (broker_mux io) !! key = Some (registered io key) → handled (io k) key client h →
  wire_wf a → marshal a = Ok payload → h a b = (Some resp, b') → wire_wf resp → marshal resp = Ok reply →
  inS 16 key → inS 32 corr → str_ok client → 14 + zlen (str_bytes client) + zlen payload ≤ MaxFrameSize →
  10 + zlen reply ≤ MaxFrameSize →
  request_wf (request_sized f) ∧ Dispatch (broker_mux io) (request_sized f) (k, b) = (mkResponseFrame 0 corr 0 reply, [], (S k, b')) ∧
  response_wf (sized (mkResponseFrame 0 corr 0 reply)) ∧ unmarshal reply = Ok resp.
Proof.
  intros f Hm Hh Hwf Ea Ef Hwr Er Hkey Hcorr Hcl Hq Hp. unfold MaxFrameSize in *.
  destruct (marshal_unmarshal a Hwf) as (bs & E & Hu). rewrite Ea in E. injection E as <-. specialize (Hu []). rewrite app_nil_r in Hu.
  destruct (marshal_unmarshal resp Hwr) as (bs & E & Hur). rewrite Er in E. injection E as <-. specialize (Hur []). rewrite app_nil_r in Hur.
  split_and!; [..|by apply (Dispatch_handled io k b (request_sized f) h a resp b' reply)| |done].
  - split_and!; [exact Hkey|by_decide|exact Hcorr|exact Hcl|unfold bytes_ok, MaxBytesLength; cbn [rqf_Payload request_sized f]; lia|reflexivity|].
    cbn [rqf_Size request_sized f rqf_ClientID rqf_Payload]. unfold MaxFrameSize. lia.
  - split_and!; [exact Hcorr|by_decide|unfold bytes_ok, MaxBytesLength; cbn [sized rsf_Payload]; lia|reflexivity|].
    cbn [sized rsf_Size rsf_Payload]. unfold MaxFrameSize. lia.
Qed.

Lemma call_frames {A B} `{WireOk A, WireOk B} io k b key corr client (h : A → Broker → B * Broker) a resp b' payload reply :
  let f := mkRequestFrame 0 key 1 corr client payload in
  handlers (broker_mux io) !! key = Some (registered io key) → broker_handler (io k) key = Some (handle_with h) →
  wire_wf a → marshal a = Ok payload → h a b = (resp, b') → wire_wf resp → marshal resp = Ok reply →
  inS 16 key → inS 32 corr → str_ok client → 14 + zlen (str_bytes client) + zlen payload ≤ MaxFrameSize →
  10 + zlen reply ≤ MaxFrameSize →
  request_wf (request_sized f) ∧ Dispatch (broker_mux io) (request_sized f) (k, b) = (mkResponseFrame 0 corr 0 reply, [], (S k, b')) ∧
  response_wf (sized (mkResponseFrame 0 corr 0 reply)) ∧ unmarshal reply = Ok resp.
Proof.
  intros f Hm Hh Hwf Ea Ef. eapply (handled_frames io k b key corr client _ a resp b' payload reply); [exact Hm|by apply handled_with|exact Hwf|exact Ea|cbv beta; by rewrite Ef].
Qed.

Section clients.
Context {N : Type} `{Network N, !ServedBy N (nat * Broker)} (io : nat → IO) (limit : Z) `{!Serves (broker_mux io) limit}.

(** A client has an idle connection, or can get one from its first address. *)
Definition link_ready (addrs : list string) (conn : option Stream) (n : N) : Prop :=
  match conn with
  | Some st => st.(st_br) = [] ∧ idle st.(st_conn) n
  | None => ∃ addr rest, addrs = addr :: rest ∧ net_listens addr n
  end.

(** What another client had is still there. *)
Definition link_kept (own : option Stream) (n n' : N) : Prop :=
  (∀ addr, net_listens addr n → net_listens addr n') ∧
  ∀ c, match own with Some st => c ≠ st.(st_conn) | None => True end → idle c n → idle c n'.

Lemma link_kept_ready own addrs conn n n' : link_kept own n n' → link_ready addrs conn n →
  (∀ st st', own = Some st → conn = Some st' → st_conn st' ≠ st_conn st) → link_ready addrs conn n'.
Proof.
  intros [Hl Hk] Hr Hne. destruct conn as [st|]; cbn in *.
  - destruct Hr as [Hb Hi]. split; [done|]. apply Hk; [|done]. destruct own; [by apply (Hne _ _ eq_refl eq_refl)|done].
  - destruct Hr as (addr & rest & E & Ha). eauto.
Qed.

(** A request over a ready link gets the answer of the mux. *)
Lemma link_exchange who addrs conn f n : link_ready addrs conn n → request_wf (request_sized f) →
  limit ≤ 0 ∨ (request_sized f).(rqf_Size) ≤ limit →
  response_wf (sized (Dispatch (broker_mux io) (request_sized f) (net_state n)).1.1) → ∃ c n1 n2,
  (match conn with Some st => st = mkStream c [] ∧ n1 = n | None => dial_any addrs None n = (inl c, n1) end) ∧
  exchange who f (mkStream c []) n1 = (Ok (sized (Dispatch (broker_mux io) (request_sized f) (net_state n)).1.1), (mkStream c [], n2)) ∧
  idle c n2 ∧ net_state n2 = (Dispatch (broker_mux io) (request_sized f) (net_state n)).2 ∧ link_kept conn n n2.
Proof.
  intros Hr Hwf Hlim Hresp. destruct conn as [[c br]|]; cbn in Hr.
  - destruct Hr as [-> Hi]. destruct (exchange_ok who f c n Hi Hwf Hlim Hresp) as (n2 & E & Hi2 & Hs & Hl & Ho).
    exists c, n, n2. by split_and!.
  - destruct Hr as (addr & rest & -> & Ha). destruct (serves_dial addr n Ha) as (c & n1 & E1 & Hi & Hs1 & [Hl1 Ho1] & Hne).
    rewrite <- Hs1 in *. destruct (exchange_ok who f c n1 Hi Hwf Hlim Hresp) as (n2 & E & Hi2 & Hs & Hl & Ho).
    exists c, n1, n2. split_and!; [cbn; by rewrite E1|done|done|done|]. split; [auto|]. intros c' _ Hc'. auto.
Qed.

Lemma Producer_roundTrip_ok f p n : link_ready p.(p_addrs) p.(p_conn) n → p.(p_finalized) = false →
  request_wf (request_sized f) → limit ≤ 0 ∨ (request_sized f).(rqf_Size) ≤ limit →
  response_wf (sized (Dispatch (broker_mux io) (request_sized f) (net_state n)).1.1) → ∃ c n2,
  Producer_roundTrip f (p, n) = (Ok (sized (Dispatch (broker_mux io) (request_sized f) (net_state n)).1.1),
    (set_p_conn (Some (mkStream c [])) p, n2)) ∧
  idle c n2 ∧ net_state n2 = (Dispatch (broker_mux io) (request_sized f) (net_state n)).2 ∧ link_kept p.(p_conn) n n2.
Proof.
  intros Hr Hf Hwf Hlim Hresp. destruct (link_exchange "producer" _ _ f n Hr Hwf Hlim Hresp) as (c & n1 & n2 & Hc & E & Hi & Hs & Hk).
  exists c, n2. split; [|done]. unfold Producer_roundTrip, Producer_getConn. destruct (p_conn p) as [st|].
  - destruct Hc as [-> ->]. by rewrite E.
  - rewrite Hf, Hc, E. done.
Qed.

Lemma Consumer_roundTrip_ok f c n : link_ready c.(cs_addrs) c.(cs_conn) n → c.(cs_closed) = false →
  request_wf (request_sized f) → limit ≤ 0 ∨ (request_sized f).(rqf_Size) ≤ limit →
  response_wf (sized (Dispatch (broker_mux io) (request_sized f) (net_state n)).1.1) → ∃ k n2,
  Consumer_roundTrip f (c, n) = (Ok (sized (Dispatch (broker_mux io) (request_sized f) (net_state n)).1.1),
    (set_cs_conn (Some (mkStream k [])) c, n2)) ∧
  idle k n2 ∧ net_state n2 = (Dispatch (broker_mux io) (request_sized f) (net_state n)).2 ∧ link_kept c.(cs_conn) n n2.
Proof.
  intros Hr Hf Hwf Hlim Hresp. destruct (link_exchange "consumer" _ _ f n Hr Hwf Hlim Hresp) as (k & n1 & n2 & Hc & E & Hi & Hs & Hk).
  exists k, n2. split; [|done]. unfold Consumer_roundTrip, Consumer_getConn. rewrite Hf. destruct (cs_conn c) as [st|].
  - destruct Hc as [-> ->]. by rewrite E.
  - rewrite Hc, E. done.
Qed.
End clients.

(** ** Producing to one partition *)

Lemma valid_name_ok dir name : validateTopicName dir name = Ok tt → str_ok name.
Proof.
  unfold validateTopicName. destruct (bool_decide _); [done|]. destruct (Z.ltb_spec maxTopicNameLen (zlen (to_chars name))) as [|Hl]; [done|].
  intros _. unfold str_ok. unfold maxTopicNameLen in Hl. unfold String.list_byte_of_string. rewrite length_map.
  widths. lia.
Qed.

(** The handler on a request for one partition of an open topic. *)
Lemma handleProduce_one io cfg topic i set b t : broker_inv b → b.(b_topics) !! topic = Some t →
  handleProduce io (produce_request cfg topic i set) b =
    let '(r, b1) := produce_partition (io.(io_env) 0%nat 1%nat) cfg.(pc_Acks) topic None (mkProduceRequestPartition i set) b in
    let '(resp, b2) := produce_wait (io.(io_env) 0%nat 1%nat) (io.(io_wait) 0%nat 0%nat) topic r b1 in
    (produce_reply topic resp, b2).
Proof.
  intros Hb Ht. destruct (bi_topic _ Hb _ _ Ht) as (_ & Hv & _).
  unfold handleProduce, produce_request, produce_topic, getOrCreateTopic. cbn [prq_Topics imap_state prt_Name prt_Partitions].
  rewrite Hv, Ht. cbn [prq_Acks]. destruct (produce_partition _ _ _ _ _ b) as [r b1]. cbn [zip zip_with imap_state prt_Name].
  by destruct (produce_wait _ _ topic r b1) as [resp b2].
Qed.

(** The codes are int16 values and the offsets int64 values. *)
Lemma produce_partition_wf e `{EnvOk e} acks n terr pReq b resp pend b' : broker_inv b → inS 32 pReq.(prp_PartitionID) →
  inS 64 (leo b n pReq.(prp_PartitionID) + zlen pReq.(prp_RecordSet)) →
  produce_partition e acks n terr pReq b = ((resp, pend), b') → ProduceResponsePartition_wf resp.
Proof.
  intros Hb Hi H64 E. pose proof (leo_nonneg b n pReq.(prp_PartitionID) Hb) as H0.
  destruct (produce_partition_spec e acks n terr pReq b resp pend b' Hb H64 E) as (_ & _ & _ & _ & Hok & _).
  assert (Hfail : ∀ code, inS 16 code → ProduceResponsePartition_wf (mkProduceResponsePartition pReq.(prp_PartitionID) code 0 0))
    by (intros; by split_and!).
  unfold produce_partition in E. cbv zeta in E.
  repeat case_match; simplify_eq/=; try (apply Hfail; by_decide).
  all: split_and!; cbn; [done|by_decide| |apply env_nowMs]; destruct (Hok eq_refl) as [_ ->]; [|unfold request_records].
  all: try (match goal with E : decode_record_set _ _ = _ |- _ => by rewrite E end); widths; lia.
Qed.

Lemma produce_wait_wf e w name r b resp b' : ProduceResponsePartition_wf r.1 → produce_wait e w name r b = (resp, b') →
  ProduceResponsePartition_wf resp.
Proof.
  destruct r as [r pend]. intros (H1 & H2 & H3 & H4) E. unfold produce_wait in E. repeat case_match; simplify_eq/=; done.
Qed.

Lemma encode_records_ok recs : Forall record_fits recs → encode_records recs = Ok (images recs).
Proof.
  intros Hf. unfold encode_records.
  assert (Hl : ∀ w : bytes, for_each recs (λ rec, Encode (Some rec) ;; mret ()) w = (Ok tt, w ++ images recs)).
  { induction Hf as [|r recs [_ Hsz] _ IH]; intros w; cbn [for_each]; [by rewrite app_nil_r|].
    unfold mbind, M_bind. unfold Encode. case_bool (Z.ltb_spec MaxRecordSize (EncodedSize r)). unfold mret, M_ret. cbn [Write].
    unfold Buffer_Writer, Write. rewrite IH, images_cons. by rewrite app_assoc. }
  by rewrite Hl.
Qed.

Definition produce_size (cfg : ProducerConfig) (topic : string) (recs : list record) : Z :=
  38 + zlen (str_bytes cfg.(pc_ClientID)) + zlen (str_bytes topic) + zlen (images recs).

(** What a producer needs for a round trip with broker [b]: a connection, an open
    topic, and a request that fits the frames, the server's limit and 64-bit offsets. *)
Record produce_call {N} `{Network N, !ServedBy N (nat * Broker)} (limit : Z) (p : Producer) (n : N) (k : nat) (b : Broker)
    (topic : string) (i : Z) (recs : list record) : Prop := {
  pcl_ready : link_ready p.(p_addrs) p.(p_conn) n;
  pcl_open : p.(p_finalized) = false;
  pcl_state : net_state n = (k, b);
  pcl_inv : broker_inv b;
  pcl_topic : is_Some (b.(b_topics) !! topic);
  pcl_some : recs ≠ [];
  pcl_fits : Forall record_fits recs;
  pcl_client : str_ok p.(p_config).(pc_ClientID);
  pcl_acks : inS 16 p.(p_config).(pc_Acks);
  pcl_timeout : inS 32 p.(p_config).(pc_TimeoutMs);
  pcl_part : inS 32 i;
  pcl_frame : produce_size p.(p_config) topic recs ≤ MaxFrameSize;
  pcl_limit : limit ≤ 0 ∨ produce_size p.(p_config) topic recs ≤ limit;
  pcl_room : inS 64 (leo b topic i + zlen (images recs))
}.

Section produce.
Context {N : Type} `{Network N, !ServedBy N (nat * Broker)} (io : nat → IO) (limit : Z) `{!Serves (broker_mux io) limit}.

Lemma produceRecords_served p n k b topic i recs (e := (io k).(io_env) 0%nat 1%nat) : EnvOk e →
  produce_call limit p n k b topic i recs → ∃ r b1 resp b2 c n2,
  produce_partition e p.(p_config).(pc_Acks) topic None (mkProduceRequestPartition i (images recs)) b = (r, b1) ∧
  produce_wait e ((io k).(io_wait) 0%nat 0%nat) topic r b1 = (resp, b2) ∧
  produceRecords topic i recs (p, n) =
    (if resp.(psp_ErrorCode) =? 0 then Ok ((λ j, int64 (resp.(psp_BaseOffset) + Z.of_nat j)) <$> seq 0 (length recs))
     else Err (errorString "producer: partition error code"),
     (set_p_conn (Some (mkStream c [])) (set_p_nextID (int32 (p.(p_nextID) + 1)) p), n2)) ∧
  net_state n2 = (S k, b2) ∧ link_kept p.(p_conn) n n2 ∧ idle c n2.
Proof.
  intros He [Hr Hf Hst Hb [t Ht] Hne Hfit Hcl Hac Hto Hi Hfr Hlim Hroom]. unfold produce_size, MaxFrameSize in *.
  destruct (bi_topic _ Hb _ _ Ht) as (_ & Hv & _). pose proof (valid_name_ok _ _ Hv) as Hname.
  assert (Hbytes : bytes_ok (images recs)) by (unfold bytes_ok, MaxBytesLength; lia).
  destruct (produce_partition e _ topic None _ b) as [r b1] eqn:E1.
  destruct (produce_wait e ((io k).(io_wait) 0%nat 0%nat) topic r b1) as [resp b2] eqn:E2.
  assert (Hwf : ProduceResponsePartition_wf resp).
  { eapply produce_wait_wf; [|exact E2]. destruct r as [r pend].
    exact (produce_partition_wf e _ _ _ (mkProduceRequestPartition i (images recs)) _ _ _ _ Hb Hi Hroom E1). }
  pose proof (marshal_produce (p_config p) topic i (images recs) Hname Hbytes) as Em. set (payload := be_encode 2 _ ++ _) in Em.
  pose proof (marshal_produce_reply topic resp Hname) as Er. set (reply := be_encode 4 1 ++ _) in Er.
  assert (Hlen : zlen payload = 24 + zlen (str_bytes topic) + zlen (images recs)) by (unfold payload, wire_string, wire_bytes; len).
  assert (Hrlen : zlen reply = 32 + zlen (str_bytes topic)) by (unfold reply, wire_string; len).
  destruct (call_frames io k b 0 (int32 (p_nextID p + 1)) (pc_ClientID (p_config p)) (handleProduce (io k))
    (produce_request (p_config p) topic i (images recs)) (produce_reply topic resp) b2 payload reply) as (F1 & F2 & F3 & F4);
    [reflexivity|reflexivity| |exact Em| | |exact Er|by_decide|apply wrapS_range; lia|exact Hcl|unfold MaxFrameSize; lia
    |unfold str_ok, MaxFrameSize in *; widths; lia|].
  { split; [exact Hac|]. split; [exact Hto|]. split; [done|]. constructor; [|done]. split; [done|]. split; [done|]. by constructor. }
  { rewrite (handleProduce_one _ _ _ _ _ _ t Hb Ht). fold e. by rewrite E1, E2. }
  { split; [done|]. constructor; [|done]. split; [done|]. split; [done|]. by constructor. }
  rewrite <- Hst in F2.
  destruct (Producer_roundTrip_ok io limit (mkRequestFrame 0 0 1 (int32 (p_nextID p + 1)) (pc_ClientID (p_config p)) payload)
    (set_p_nextID (int32 (p_nextID p + 1)) p) n Hr Hf F1) as (c & n2 & E & Hic & Hs2 & Hk).
  { cbn [rqf_Size request_sized rqf_ClientID rqf_Payload]. rewrite Hlen. destruct Hlim; [by left|right; lia]. }
  { rewrite F2. exact F3. }
  rewrite F2 in E, Hs2. exists r, b1, resp, b2, c, n2.
  split; [done|]. split; [exact E2|]. split; [|split; [exact Hs2|split; [exact Hk|exact Hic]]].
  unfold produceRecords. destruct recs as [|r0 recs]; [done|]. rewrite encode_records_ok, Em by done. cbv zeta.
  change (p_config (set_p_nextID _ p)) with (p_config p). rewrite E.
  unfold produced_offsets. cbn [sized rsf_ErrorCode rsf_Payload fst Z.eqb negb]. rewrite F4. cbn.
  by destruct (psp_ErrorCode resp =? 0).
Qed.
End produce.

(** ** Waiting for replicas *)

(** While a producer waits, other requests only add to the logs. *)
Definition others_add (w : Wait) : Prop := ∀ b, broker_inv b → partitions_grow b (w.(w_meanwhile) b).

Lemma waitForAcksAll_grow e w topic i hw b : broker_inv b → others_add w →
  partitions_grow b (waitForAcksAll e w topic i hw b).2.
Proof.
  intros Hb Hw. unfold waitForAcksAll. destruct (hw <=? 0); [done|].
  pose proof (tracker_only e topic i b Hb) as (_ & _ & Et1). pose proof (inv_getOrCreateISRTracker e topic i b Hb) as Hb1.
  destruct (getOrCreateISRTracker e topic i b) as [t1 b1]. cbn [snd] in *. destruct (hw <=? _); [by apply grow_same|].
  destruct (Watch topic i hw _ _) as [id pg].
  pose proof (inv_purgatory pg b1 Hb1) as Hb2. pose proof (tracker_only e topic i _ Hb2) as (_ & _ & Et3).
  pose proof (inv_getOrCreateISRTracker e topic i _ Hb2) as Hb3.
  destruct (getOrCreateISRTracker e topic i (set_purgatory pg b1)) as [t3 b3]. cbn [snd] in *. cbv zeta.
  set (b4 := if hw <=? isr_highWatermark t3 then _ else b3).
  assert (Hb4 : broker_inv b4) by (unfold b4; destruct (hw <=? _); [by apply inv_purgatory|done]).
  assert (Et4 : b_topics b4 = b_topics b) by (unfold b4; destruct (hw <=? _); cbn; rewrite Et3; done).
  destruct (w_expired w); [by apply grow_same|].
  destruct (_ && _); cbn [snd].
  - etrans; [by apply (grow_same b b4)|]. etrans; [by apply Hw|]. by apply grow_same.
  - etrans; [by apply (grow_same b b4)|]. etrans; [by apply Hw|]. by apply grow_same.
Qed.

Lemma produce_wait_grow e w topic r b resp b' : broker_inv b → others_add w → produce_wait e w topic r b = (resp, b') →
  partitions_grow b b' ∧ resp.(psp_BaseOffset) = r.1.(psp_BaseOffset) ∧ (resp.(psp_ErrorCode) = 0 → r.1.(psp_ErrorCode) = 0).
Proof.
  destruct r as [r pend]. intros Hb Hw E. unfold produce_wait in E. destruct pend as [hw|]; [|by simplify_eq].
  pose proof (waitForAcksAll_grow e w topic r.(psp_PartitionID) hw b Hb Hw) as Hg.
  destruct (waitForAcksAll e w topic _ hw b) as [[err|] b1]; simplify_eq/=; [|done].
  split_and!; [done|done|]. by destruct (errors_Is err errProduceTimeout).
Qed.

(** ** Fetching from one partition *)

Lemma decode_messages_images recs : ∀ fuel, Forall record_fits recs → (length (images recs) ≤ fuel)%nat →
  decode_messages fuel (images recs) = Ok (message_of <$> recs).
Proof.
  induction recs as [|r recs IH]; intros fuel Hok Hf; [by destruct fuel|].
  apply Forall_cons in Hok as [[Hwf Hsz] Hok]. rewrite images_cons in *.
  assert (Hl : (0 < length (record_image r))%nat).
  { pose proof (EncodedSize_min r). pose proof (length_record_image r). lia. }
  rewrite length_app in Hf. destruct fuel as [|fuel]; [lia|]. cbn [decode_messages].
  destruct (record_image r ++ images recs) as [|c tl] eqn:E; [apply (f_equal length) in E; rewrite length_app in E; simpl in E; lia|].
  rewrite <- E, decode_image by done. rewrite IH by (done || lia). done.
Qed.

(** A long poll that finds data returns at once. *)
Lemma long_poll_ready rounds cfg topic i o b : fetchTargetHasNewData (mkFetchTarget topic i o) b = true →
  ∃ x, long_poll rounds (fetch_request cfg topic i o) b = set_listeners x b.
Proof.
  intros Hd. unfold long_poll, fetch_targets. cbn -[fetchTargetHasNewData registerListenerOn unregisterListener].
  assert (Hsame : ∃ x, b = set_listeners x b) by (exists b.(b_listeners); by destruct b).
  destruct (0 <? cc_MaxWaitMs cfg); [|exact Hsame]. cbn -[fetchTargetHasNewData registerListenerOn unregisterListener].
  set (ch := fresh_listener b). set (b1 := registerListenerOn topic i ch b).
  assert (Hp : poll_loop [mkFetchTarget topic i o] ch rounds b1 = b1).
  { destruct rounds; cbn -[fetchTargetHasNewData]; change (fetchTargetHasNewData _ b1) with (fetchTargetHasNewData (mkFetchTarget topic i o) b);
      by rewrite Hd. }
  rewrite Hp. destruct (unregister_only topic i ch b1) as [x [->| ->]]; by eexists.
Qed.

Lemma handleFetch_one io cfg topic i o b : handleFetch io (fetch_request cfg topic i o) b =
  let '(r, b1) := fetch_partition topic (mkFetchRequestPartition i o cfg.(cc_MaxBytes)) (long_poll io.(io_rounds) (fetch_request cfg topic i o) b) in
  (fetch_reply topic r, b1).
Proof. unfold handleFetch. cbn -[fetch_partition long_poll]. unfold fetch_topic. cbn -[fetch_partition long_poll]. by destruct (fetch_partition _ _ _). Qed.

Lemma log_view_range f l o rs : log_view f l o rs → 0 ≤ o ∧ inS 64 (o + zlen rs).
Proof.
  intros (e & sealed & rss & a & ra & Hr & -> & _). pose proof (lr_low _ _ _ _ _ _ _ Hr). pose proof (lr_int64 _ _ _ _ _ _ _ Hr).
  pose proof (sealed_chain_length _ _ _ _ (lr_sealed _ _ _ _ _ _ _ Hr)). split; [done|]. rewrite length_app, Nat2Z.inj_add.
  by replace (o + (zlen (mjoin rss) + zlen ra)) with (e + zlen ra) by lia.
Qed.

(** With room for everything, the handler returns all committed records from the
    offset on. *)
Lemma handleFetch_all io cfg topic i fo b q o rs : broker_inv b → get_partition topic i b = Some q →
  log_view true q.(pt_log) o rs → o ≤ fo < q.(pt_highWatermark) → 0 < cfg.(cc_MaxBytes) ≤ MaxInt32 - MaxRecordSize →
  total_size (drop (Z.to_nat (fo - o)) rs) ≤ cfg.(cc_MaxBytes) →
  46 + zlen (str_bytes topic) + total_size (drop (Z.to_nat (fo - o)) rs) ≤ MaxFrameSize → inS 32 i →
  let out := take (Z.to_nat (q.(pt_highWatermark) - fo)) (drop (Z.to_nat (fo - o)) rs) in
  let r := mkFetchResponsePartition i ErrNone q.(pt_highWatermark) o (images out) in ∃ b1,
  handleFetch io (fetch_request cfg topic i fo) b = (fetch_reply topic r, b1) ∧ FetchResponsePartition_wf r ∧
  Forall record_fits out ∧ consecutive fo out ∧ fo + zlen out = q.(pt_highWatermark) ∧
  46 + zlen (str_bytes topic) + zlen (images out) ≤ MaxFrameSize.
Proof.
  intros Hb Hq Hv Ho Hmax Hsz Hfr Hi out r. destruct (log_view_range _ _ _ _ Hv) as [H0 H64].
  destruct (po_hw _ _ _ _ (bi_part _ Hb _ _ _ Hq)) as [H1 H2].
  destruct (long_poll_ready io.(io_rounds) cfg topic i fo b) as [x Hlp].
  { unfold fetchTargetHasNewData. cbn. rewrite Hq. apply Z.ltb_lt. lia. }
  pose proof (fetch_partition_all topic (mkFetchRequestPartition i fo cfg.(cc_MaxBytes)) (set_listeners x b) q o rs
    (inv_listeners x b Hb) Hq Hv Ho Hmax Hsz) as Hf. cbn [frp_PartitionID frp_FetchOffset] in Hf. fold out r in Hf.
  unfold LogEndOffset in H2. rewrite (log_view_highest _ _ _ _ Hv) in H2.
  assert (Hts : total_size out ≤ total_size (drop (Z.to_nat (fo - o)) rs)).
  { unfold out. rewrite <- (take_drop (Z.to_nat (pt_highWatermark q - fo)) (drop _ rs)) at 2. rewrite total_size_app.
    pose proof (total_size_nonneg (drop (Z.to_nat (pt_highWatermark q - fo)) (drop (Z.to_nat (fo - o)) rs))). lia. }
  exists (fetch_partition topic (mkFetchRequestPartition i fo cfg.(cc_MaxBytes)) (set_listeners x b)).2. unfold MaxFrameSize in *.
  split; [rewrite handleFetch_one, Hlp; by destruct (fetch_partition _ _ _); cbn in Hf; subst|].
  split; [split_and!; cbn; [exact Hi|by_decide|widths; lia|widths; lia|unfold bytes_ok, MaxBytesLength; rewrite length_images; lia]|].
  split_and!; [| | |rewrite length_images; lia].
  - apply Forall_forall. intros y Hy. apply elem_of_take in Hy as (j & Hj & _). apply list_elem_of_lookup_2 in Hj.
    apply (log_view_sizes _ _ _ _ y Hv). rewrite <- (take_drop (Z.to_nat (fo - o)) rs). apply elem_of_app. by right.
  - apply consecutive_take. replace fo with (o + Z.of_nat (Z.to_nat (fo - o))) at 1 by lia.
    apply consecutive_drop. by eapply log_view_consecutive.
  - unfold out. rewrite length_take, length_drop. lia.
Qed.

Definition fetch_size (cfg : ConsumerConfig) (topic : string) : Z :=
  52 + zlen (str_bytes cfg.(cc_ClientID)) + zlen (str_bytes topic).

(** What a consumer needs for a round trip; [r] is the response of the handler. *)
Record fetch_call {N} `{Network N, !ServedBy N (nat * Broker)} (limit : Z) (c : Consumer) (n : N) (topic : string) (i o : Z) : Prop := {
  fcl_ready : link_ready c.(cs_addrs) c.(cs_conn) n;
  fcl_open : c.(cs_closed) = false;
  fcl_name : str_ok topic;
  fcl_client : str_ok c.(cs_config).(cc_ClientID);
  fcl_wait : inS 32 c.(cs_config).(cc_MaxWaitMs);
  fcl_min : inS 32 c.(cs_config).(cc_MinBytes);
  fcl_max : inS 32 c.(cs_config).(cc_MaxBytes);
  fcl_part : inS 32 i;
  fcl_offset : inS 64 o;
  fcl_limit : limit ≤ 0 ∨ fetch_size c.(cs_config) topic ≤ limit
}.

Section fetch.
Context {N : Type} `{Network N, !ServedBy N (nat * Broker)} (io : nat → IO) (limit : Z) `{!Serves (broker_mux io) limit}.

Lemma Consumer_Fetch_served c n k b topic i o r b1 : fetch_call limit c n topic i o → net_state n = (k, b) →
  handleFetch (io k) (fetch_request c.(cs_config) topic i o) b = (fetch_reply topic r, b1) →
  FetchResponsePartition_wf r → 46 + zlen (str_bytes topic) + zlen r.(fsp_RecordSet) ≤ MaxFrameSize → ∃ c' n2,
  Consumer_Fetch topic i o (c, n) =
    (if r.(fsp_ErrorCode) =? 0 then decode_messages (length r.(fsp_RecordSet)) r.(fsp_RecordSet)
     else Err (errorString "consumer: partition error code"), (c', n2)) ∧ net_state n2 = (S k, b1).
Proof.
  intros [Hr Hcl Hname Hid Hmw Hmin Hmax Hi Ho Hlim] Hst E1 Hwf Hfr. unfold fetch_size, MaxFrameSize in *.
  pose proof Hwf as (_ & _ & _ & _ & Hbytes).
  pose proof (marshal_fetch (cs_config c) topic i o Hname) as Em. set (payload := be_encode 4 _ ++ _) in Em.
  pose proof (marshal_fetch_reply topic r Hname Hbytes) as Er. set (reply := be_encode 4 1 ++ _) in Er.
  assert (Hlen : zlen payload = 38 + zlen (str_bytes topic)) by (unfold payload, wire_string, wire_bytes; len).
  assert (Hrlen : zlen reply = 36 + zlen (str_bytes topic) + zlen r.(fsp_RecordSet)) by (unfold reply, wire_string, wire_bytes; len).
  destruct (call_frames io k b 1 (int32 (cs_nextID c + 1)) (cc_ClientID (cs_config c)) (handleFetch (io k))
    (fetch_request (cs_config c) topic i o) (fetch_reply topic r) b1 payload reply) as (F1 & F2 & F3 & F4);
    [reflexivity|reflexivity| |exact Em|exact E1| |exact Er|by_decide|apply wrapS_range; lia|exact Hid
    |unfold str_ok, MaxFrameSize in *; widths; lia|unfold MaxFrameSize; lia|].
  { split; [exact Hmw|]. split; [exact Hmin|]. split; [exact Hmax|]. split; [done|].
    constructor; [|done]. split; [done|]. split; [done|]. by constructor. }
  { split; [done|]. constructor; [|done]. split; [done|]. split; [done|]. by constructor. }
  rewrite <- Hst in F2.
  destruct (Consumer_roundTrip_ok io limit (mkRequestFrame 0 1 1 (int32 (cs_nextID c + 1)) (cc_ClientID (cs_config c)) payload)
    (mkConsumer (cs_addrs c) (cs_config c) (cs_conn c) (cs_closed c) (int32 (cs_nextID c + 1))) n Hr Hcl F1) as (x & n2 & E & _ & Hs2 & _).
  { cbn [rqf_Size request_sized rqf_ClientID rqf_Payload]. rewrite Hlen. destruct Hlim; [by left|right; lia]. }
  { rewrite F2. exact F3. }
  rewrite F2 in E, Hs2. eexists _, n2. split; [|exact Hs2].
  unfold Consumer_Fetch. rewrite Em. cbv zeta. cbn [cs_config]. rewrite E.
  unfold fetched_messages. cbn [sized rsf_ErrorCode rsf_Payload fst Z.eqb negb]. rewrite F4. cbn.
  by destruct (fsp_ErrorCode r =? 0).
Qed.

(** With room for everything, [Fetch] returns all committed records from the offset on. *)
Lemma Consumer_Fetch_all c n k b topic i fo q o rs : fetch_call limit c n topic i fo → net_state n = (k, b) → broker_inv b →
  get_partition topic i b = Some q → log_view true q.(pt_log) o rs → o ≤ fo < q.(pt_highWatermark) →
  0 < c.(cs_config).(cc_MaxBytes) ≤ MaxInt32 - MaxRecordSize →
  total_size (drop (Z.to_nat (fo - o)) rs) ≤ c.(cs_config).(cc_MaxBytes) →
  46 + zlen (str_bytes topic) + total_size (drop (Z.to_nat (fo - o)) rs) ≤ MaxFrameSize → ∃ c' n2,
  Consumer_Fetch topic i fo (c, n) =
    (Ok (message_of <$> take (Z.to_nat (q.(pt_highWatermark) - fo)) (drop (Z.to_nat (fo - o)) rs)), (c', n2)).
Proof.
  intros Hc Hst Hb Hq Hv Ho Hmax Hsz Hfr.
  destruct (handleFetch_all (io k) c.(cs_config) topic i fo b q o rs Hb Hq Hv Ho Hmax Hsz Hfr (fcl_part _ _ _ _ _ _ Hc))
    as (b1 & E & Hwf & Hout & _ & _ & Hlen).
  destruct (Consumer_Fetch_served c n k b topic i fo _ b1 Hc Hst E Hwf) as (c' & n2 & -> & _); [cbn [fsp_RecordSet]; lia|].
  exists c', n2. cbn. by rewrite decode_messages_images.
Qed.
End fetch.

(** ** Claims *)

Lemma int64_offsets base (recs : list record) : 0 ≤ base → inS 64 (base + zlen recs) →
  (λ j, int64 (base + Z.of_nat j)) <$> seq 0 (length recs) = (λ j, base + Z.of_nat j) <$> seq 0 (length recs).
Proof.
  intros H0 H64. apply list_fmap_ext. intros j x (-> & Hj)%lookup_seq. apply wrapS_small; [lia|]. widths. lia.
Qed.

Lemma images_count recs : zlen recs ≤ zlen (images recs).
Proof.
  induction recs as [|r recs IH]; [done|]. rewrite images_cons. pose proof (EncodedSize_min r). pose proof (length_record_image r).
  rewrite length_app. cbn [length]. lia.
Qed.


(** A partition whose watermark has reached the end of the log needs no wait. *)
Lemma produce_wait_done e w name i base time pend b t : getISRTracker name i b = Some t →
  (∀ h, pend = Some h → h ≤ t.(isr_highWatermark)) →
  let resp := mkProduceResponsePartition i ErrNone base time in produce_wait e w name (resp, pend) b = (resp, b).
Proof.
  intros Ht Hp resp. unfold produce_wait. destruct pend as [h|]; [|done]. specialize (Hp h eq_refl).
  unfold waitForAcksAll. destruct (h <=? 0); [done|]. unfold resp at 1. cbn [psp_PartitionID].
  unfold getOrCreateISRTracker. rewrite Ht. by case_bool (Z.leb_spec h t.(isr_highWatermark)).
Qed.

Lemma total_size_number o recs : total_size (number_from o recs) = total_size recs.
Proof. revert o. induction recs as [|r recs IH]; intros o; [done|]. cbn. unfold total_size in IH. by rewrite IH. Qed.

Lemma length_number o recs : length (number_from o recs) = length recs.
Proof. revert o. induction recs as [|r recs IH]; intros o; [done|]. cbn. by rewrite IH. Qed.

Lemma total_size_positive recs : recs ≠ [] → 0 < total_size recs.
Proof.
  destruct recs as [|r recs]; [done|]. intros _. pose proof (EncodedSize_min r). pose proof (total_size_nonneg recs).
  cbn. unfold total_size in *. lia.
Qed.

(** What an accepting partition answers and has afterwards, and what the producer has. *)
Lemma sent_served {N} `{Network N, !ServedBy N (nat * Broker)} (io : nat → IO) (limit : Z) `{!Serves (broker_mux io) limit}
    now topic i msgs p n k b q :
  let recs := record_of now <$> msgs in
  let e := (io k).(io_env) 0%nat 1%nat in
  EnvOk e → p.(p_closed) = false → produce_call limit p n k b topic i recs →
  accepts e p.(p_config).(pc_Acks) b topic i q recs → ∃ c n1 b1 q1,
  SendBatch None now topic i msgs (p, n) = (Ok ((λ j, LogEndOffset q + Z.of_nat j) <$> seq 0 (length recs)),
    (set_p_conn (Some (mkStream c [])) (set_p_nextID (int32 (p.(p_nextID) + 1)) p), n1)) ∧ idle c n1 ∧
  b1 = (produce_partition e p.(p_config).(pc_Acks) topic None (mkProduceRequestPartition i (images recs)) b).2 ∧ only_partition topic i b b1 ∧
  net_state n1 = (S k, b1) ∧ link_kept p.(p_conn) n n1 ∧ broker_inv b1 ∧ get_partition topic i b1 = Some q1 ∧
  q1.(pt_highWatermark) = LogEndOffset q1 ∧ LogEndOffset q1 = LogEndOffset q + zlen recs ∧
  ∀ f o rs, log_view f q.(pt_log) o rs → log_view f q1.(pt_log) o (rs ++ number_from (o + zlen rs) recs).
Proof.
  intros recs e He Hclosed Hc Hacc. pose proof Hc as [_ _ _ Hb _ Hne _ _ _ _ _ _ _ _].
  pose proof (ac_room _ _ _ _ _ _ _ Hacc) as Hroom. pose proof (ac_part _ _ _ _ _ _ _ Hacc) as Hq.
  pose proof (part_leo_nonneg _ _ _ _ (bi_part _ Hb _ _ _ Hq)) as H0.
  destruct (produce_accepts e _ topic i q recs b Hacc) as (b1' & q' & t & E & Hb1 & Ho & Hq' & Hhw & Hleo & Ht & Hthw & Hview).
  destruct (produceRecords_served io limit p n k b topic i recs He Hc) as (r & b1 & resp & b2 & cn & n1 & E1 & E2 & E3 & Hs & Hk & Hidle).
  fold e in E1, E2. rewrite E in E1. injection E1 as <- <-.
  rewrite (produce_wait_done e _ topic i (LogEndOffset q) e.(e_nowMs) _ b1' t Ht) in E2.
  2: { intros h. destruct (_ =? -1); [|done]. intros [= <-]. lia. }
  injection E2 as <- <-. cbn [psp_ErrorCode psp_BaseOffset] in E3. change (ErrNone =? 0) with true in E3. cbn iota in E3.
  rewrite int64_offsets in E3 by done. exists cn, n1, b1', q'. rewrite E. cbn [snd].
  split; [|by split_and!]. unfold SendBatch. destruct msgs as [|m msgs]; [done|]. by rewrite Hclosed.
Qed.

Lemma sent_offsets {N} `{Network N, !ServedBy N (nat * Broker)} (io : nat → IO) (limit : Z) `{!Serves (broker_mux io) limit}
    now topic i msgs p n k b q :
  let recs := record_of now <$> msgs in
  let e := (io k).(io_env) 0%nat 1%nat in
  EnvOk e → p.(p_closed) = false → produce_call limit p n k b topic i recs →
  accepts e p.(p_config).(pc_Acks) b topic i q recs → ∃ p' n1,
  SendBatch None now topic i msgs (p, n) = (Ok ((λ j, LogEndOffset q + Z.of_nat j) <$> seq 0 (length recs)), (p', n1)) ∧
  ∃ b1 q1, net_state n1 = (S k, b1) ∧ link_kept p.(p_conn) n n1 ∧ broker_inv b1 ∧ get_partition topic i b1 = Some q1 ∧
  q1.(pt_highWatermark) = LogEndOffset q1 ∧ LogEndOffset q1 = LogEndOffset q + zlen recs ∧
  ∀ f o rs, log_view f q.(pt_log) o rs → log_view f q1.(pt_log) o (rs ++ number_from (o + zlen rs) recs).
Proof.
  intros recs e He Hcl Hc Hacc. destruct (sent_served io limit now topic i msgs p n k b q He Hcl Hc Hacc) as (c & n1 & b1 & q1 & E & _ & _ & _ & H').
  eexists _, n1. split; [exact E|]. by exists b1, q1.
Qed.


(** ** Witnesses *)

(** Nothing else happens at the broker. *)
Definition quiet_wait : Wait := mkWait false (λ b, b) false.
Definition quiet_io (k : nat) : IO := mkIO (λ _ _, sample_env) (λ _ _, quiet_wait) [] quiet_wait.

Definition sample_producer : Producer := mkProducer ["localhost:9092"] DefaultProducerConfig None false false 0 ∅ ∅ ∅.
Definition sample_consumer : Consumer := mkConsumer ["localhost:9092"] DefaultConsumerConfig None false 0.
Definition sample_msgs : list Message := [mkMessage None (Some [x61]) 0 0; mkMessage (Some [x6b]) (Some [x62; x63]) 0 9].
Definition sample_net (b : Broker) : Served (nat * Broker) := mkServed (0%nat, b) ∅ "localhost:9092".

Section sample.
#[local] Existing Instance Served_By.
#[local] Instance sample_network : Network (Served (nat * Broker)) := Served_Network (broker_mux quiet_io) 0.
#[local] Instance sample_serves : Serves (N:=Served (nat * Broker)) (broker_mux quiet_io) (request_limit 0) :=
  Served_Serves (broker_mux quiet_io) 0.

Lemma sample_call b q : broker_inv b → is_Some (b.(b_topics) !! "orders") → get_partition "orders" 0 b = Some q →
  log_view true q.(pt_log) 0 [] →
  produce_call (request_limit 0) sample_producer (sample_net b) 0 b "orders" 0 (record_of 7 <$> sample_msgs).
Proof.
  intros Hb Ht Hq Hv. constructor;
    [|reflexivity|reflexivity|exact Hb|exact Ht|discriminate|change (Forall storable (record_of 7 <$> sample_msgs)); by_decide|by_decide|by_decide|by_decide|by_decide|by_decide|right; by_decide|].
  - by exists "localhost:9092", [].
  - rewrite (leo_eq _ _ _ _ Hq). unfold LogEndOffset. rewrite (log_view_highest _ _ _ _ Hv). by_decide.
Qed.

Lemma sample_accepts b q : broker_inv b → standalone b → b.(b_config) = sample_cfg → get_partition "orders" 0 b = Some q →
  log_view true q.(pt_log) 0 [] → accepts sample_env 1 b "orders" 0 q (record_of 7 <$> sample_msgs) ∧ LogEndOffset q = 0.
Proof.
  intros Hb Hs Hc Hq Hv. assert (E0 : LogEndOffset q = 0) by (unfold LogEndOffset; by rewrite (log_view_highest _ _ _ _ Hv)).
  split; [|exact E0]. apply standalone_accepts; [exact Hb|exact Hs|exact Hq|discriminate| |discriminate| |].
  - rewrite Hc. right. by_decide.
  - change (Forall storable (record_of 7 <$> sample_msgs)). by_decide.
  - rewrite E0. by_decide.
Qed.



(** The second of two records. *)
Lemma fetch_only_committed_witness : ∃ b q out, get_partition "orders" 0 b = Some q ∧
  log_view true q.(pt_log) 0 (number_from 0 (record_of 7 <$> sample_msgs)) ∧
  (fetch_partition "orders" (mkFetchRequestPartition 0 1 1024) b).1.(fsp_RecordSet) = images out ∧
  ∀ r, r ∈ out → 1 ≤ r.(rec_Offset) < 2.
Proof.
  destruct orders_broker as (b & q & _ & [Hb _] & Hs & Hc & Ht & Hq & Hv).
  pose proof (sample_call b q Hb Ht Hq Hv) as Hcall. destruct (sample_accepts b q Hb Hs Hc Hq Hv) as [Hacc E0].
  destruct (sent_offsets quiet_io (request_limit 0) 7 "orders" 0 sample_msgs sample_producer (sample_net b) 0 b q)
    as (p' & n1 & _ & b1 & q1 & _ & _ & Hb1 & Hq1 & Hhw & Hleo & Hview); [exact sample_env_ok|reflexivity|exact Hcall|exact Hacc|].
  specialize (Hview _ _ _ Hv). rewrite E0 in Hleo. change (0 + zlen (record_of 7 <$> sample_msgs)) with 2 in Hleo. rewrite Hleo in Hhw.
  destruct (fetch_only_committed "orders" (mkFetchRequestPartition 0 1 1024) b1 Hb1) as (out & E & Hr & Hp).
  destruct (Hp q1 Hq1) as [Eh _]. rewrite Eh, Hhw in Hr. exists b1, q1, out. split; [exact Hq1|]. split; [exact Hview|]. split; [exact E|exact Hr].
Defined.
End sample.
