(* ===== verification/GroupConsumer.v ===== *)
(** * The group consumer client (src/pkg/client/group_consumer.go)

    Joining and syncing a group, the positions of the assigned partitions, polling,
    committing, one turn of the heartbeat loop, and leaving. Every request goes over a
    connection of its own. Calls of the rebalance callbacks are a trace. *)
From Stdlib Require Import ZArith Lia Strings.Byte.
From stdpp Require Import base list strings gmap.
From S2P Require Import Prelude Files Record Codec Frame Requests Responses Server Assignor Network Consumer.
Open Scope Z_scope.

Definition TopicPartition : Type := string * Z.

Record GroupConsumerConfig := mkGroupConsumerConfig {
  gcc_ClientID : string;
  gcc_SessionTimeoutMs : Z;
  gcc_HeartbeatIntervalMs : Z;
  gcc_RebalanceTimeoutMs : Z;
  gcc_AutoCommit : bool;
  gcc_AutoCommitInterval : Z;
  gcc_AutoOffsetReset : string;
  gcc_MaxWaitMs : Z;
  gcc_MinBytes : Z;
  gcc_MaxBytes : Z;
  gcc_AssignorStrategy : string;
  gcc_OnRevoked : bool;  (* whether the callbacks are set *)
  gcc_OnAssigned : bool
}.

Inductive callback :=
  | PartitionsRevoked (revoked : list TopicPartition)
  | PartitionsAssigned (assigned : list TopicPartition).

(** The field [conn] of the source is never set: requests dial their own connection. *)
Record GroupConsumer := mkGroupConsumer {
  gc_addrs : list string;
  gc_groupID : string;
  gc_topics : list string;
  gc_config : GroupConsumerConfig;
  gc_closed : bool;
  gc_nextID : Z;  (* int32 *)
  gc_memberID : string;
  gc_generationID : Z;  (* int32 *)
  gc_leaderID : string;
  gc_assigned : list TopicPartition;
  gc_offsets : gmap TopicPartition Z;
  gc_calls : list callback
}.

Definition set_gc_closed (g : GroupConsumer) : GroupConsumer :=
  mkGroupConsumer g.(gc_addrs) g.(gc_groupID) g.(gc_topics) g.(gc_config) true g.(gc_nextID) g.(gc_memberID) g.(gc_generationID)
    g.(gc_leaderID) g.(gc_assigned) g.(gc_offsets) g.(gc_calls).
Definition set_gc_nextID (x : Z) (g : GroupConsumer) : GroupConsumer :=
  mkGroupConsumer g.(gc_addrs) g.(gc_groupID) g.(gc_topics) g.(gc_config) g.(gc_closed) x g.(gc_memberID) g.(gc_generationID)
    g.(gc_leaderID) g.(gc_assigned) g.(gc_offsets) g.(gc_calls).
Definition set_gc_member (memberID : string) (generationID : Z) (leaderID : string) (g : GroupConsumer) : GroupConsumer :=
  mkGroupConsumer g.(gc_addrs) g.(gc_groupID) g.(gc_topics) g.(gc_config) g.(gc_closed) g.(gc_nextID) memberID generationID
    leaderID g.(gc_assigned) g.(gc_offsets) g.(gc_calls).
Definition set_gc_assigned (x : list TopicPartition) (g : GroupConsumer) : GroupConsumer :=
  mkGroupConsumer g.(gc_addrs) g.(gc_groupID) g.(gc_topics) g.(gc_config) g.(gc_closed) g.(gc_nextID) g.(gc_memberID)
    g.(gc_generationID) g.(gc_leaderID) x g.(gc_offsets) g.(gc_calls).
Definition set_gc_offsets (x : gmap TopicPartition Z) (g : GroupConsumer) : GroupConsumer :=
  mkGroupConsumer g.(gc_addrs) g.(gc_groupID) g.(gc_topics) g.(gc_config) g.(gc_closed) g.(gc_nextID) g.(gc_memberID)
    g.(gc_generationID) g.(gc_leaderID) g.(gc_assigned) x g.(gc_calls).
Definition call_back (c : callback) (g : GroupConsumer) : GroupConsumer :=
  mkGroupConsumer g.(gc_addrs) g.(gc_groupID) g.(gc_topics) g.(gc_config) g.(gc_closed) g.(gc_nextID) g.(gc_memberID)
    g.(gc_generationID) g.(gc_leaderID) g.(gc_assigned) g.(gc_offsets) (g.(gc_calls) ++ [c]).

(** The orders in which ranges over maps go. *)
Record Orders := mkOrders {
  or_assignments : gmap string MemberAssignment → list string;
  or_parts : gmap string (list Z) → list string;
  or_lists : gmap string (list ListOffsetsRequestPartition) → list string;
  or_fetches : gmap string (list FetchRequestPartition) → list string;
  or_commits : gmap string (list OffsetCommitRequestPartition) → list string;
  or_offsets : gmap TopicPartition Z → list TopicPartition
}.

(** [m := make(map[string][]A); for ... { m[tp.Topic] = append(m[tp.Topic], x) }] *)
Definition by_topic {A} (l : list (string * A)) : gmap string (list A) :=
  foldl (λ m '(t, x), <[t := default [] (m !! t) ++ [x]]> m) ∅ l.

(** ** Requests *)

Definition join_request (g : GroupConsumer) : JoinGroupRequest :=
  mkJoinGroupRequest g.(gc_groupID) g.(gc_config).(gcc_SessionTimeoutMs) g.(gc_memberID) "consumer"
    [mkJoinGroupProtocol g.(gc_config).(gcc_AssignorStrategy) []].

Definition offset_fetch_request (ord : Orders) (groupID : string) (assigned : list TopicPartition) : OffsetFetchRequest :=
  let topicMap := by_topic assigned in
  mkOffsetFetchRequest groupID
    ((λ t, mkOffsetFetchRequestTopic t (default [] (topicMap !! t))) <$> ord.(or_parts) topicMap).

Definition list_offsets_request (ord : Orders) (timestamp : Z) (needResolve : list TopicPartition) : ListOffsetsRequest :=
  let topicMap := by_topic ((λ '(t, p), (t, mkListOffsetsRequestPartition p timestamp)) <$> needResolve) in
  mkListOffsetsRequest ((λ t, mkListOffsetsRequestTopic t (default [] (topicMap !! t))) <$> ord.(or_lists) topicMap).

Definition poll_request (ord : Orders) (cfg : GroupConsumerConfig) (assigned : list TopicPartition)
    (offsets : gmap TopicPartition Z) : FetchRequest :=
  let position tp := match offsets !! tp with Some off => if off <? 0 then 0 else off | None => 0 end in
  let topicMap := by_topic ((λ tp, (tp.1, mkFetchRequestPartition tp.2 (position tp) cfg.(gcc_MaxBytes))) <$> assigned) in
  mkFetchRequest cfg.(gcc_MaxWaitMs) cfg.(gcc_MinBytes) cfg.(gcc_MaxBytes)
    ((λ t, mkFetchRequestTopic t (default [] (topicMap !! t))) <$> ord.(or_fetches) topicMap).

(** The positions that [Commit] commits, by topic. *)
Definition committable (ord : Orders) (offsets : gmap TopicPartition Z) : gmap string (list OffsetCommitRequestPartition) :=
  by_topic (tp ← ord.(or_offsets) offsets;
            match offsets !! tp with
            | Some off => if 0 <=? off then [(tp.1, mkOffsetCommitRequestPartition tp.2 off EmptyString)] else []
            | None => []
            end).
Definition commit_request (ord : Orders) (g : GroupConsumer) : OffsetCommitRequest :=
  let topicMap := committable ord g.(gc_offsets) in
  mkOffsetCommitRequest g.(gc_groupID) g.(gc_generationID) g.(gc_memberID)
    ((λ t, mkOffsetCommitRequestTopic t (default [] (topicMap !! t))) <$> ord.(or_commits) topicMap).

(** ** Responses *)

Definition metadata_partitions (resp : MetadataResponse) : gmap string Z :=
  foldl (λ m t, if t.(tm_ErrorCode) =? 0 then <[t.(tm_Name) := int32 (zlen t.(tm_Partitions))]> m else m) ∅ resp.(mds_Topics).

(** -1 marks a partition without a committed offset. *)
Definition committed_offsets (resp : OffsetFetchResponse) (offsets : gmap TopicPartition Z) : gmap TopicPartition Z :=
  foldl (λ m t, foldl (λ m p, <[(t.(oftr_Name), p.(ofp_PartitionID)) := if 0 <=? p.(ofp_Offset) then p.(ofp_Offset) else -1]> m)
                  m t.(oftr_Partitions)) offsets resp.(ofs_Topics).

Definition listed_offsets (resp : ListOffsetsResponse) (offsets : gmap TopicPartition Z) : gmap TopicPartition Z :=
  foldl (λ m t, foldl (λ m p, if p.(lsp_ErrorCode) =? 0 then <[(t.(lst_Name), p.(lsp_PartitionID)) := p.(lsp_Offset)]> m else m)
                  m t.(lst_Partitions)) offsets resp.(los_Topics).

(** The loop over the record set of a partition: any error ends it, and every message
    advances the position. *)
Fixpoint poll_records (fuel : nat) (tp : TopicPartition) (buf : bytes) (offsets : gmap TopicPartition Z) :
    list Message * gmap TopicPartition Z :=
  match fuel, buf with
  | S fuel, _ :: _ =>
      match DecodeRecord buf with
      | ((_, Err _), _) => ([], offsets)
      | ((_, Ok rec), buf) =>
          let '(messages, offsets) := poll_records fuel tp buf (<[tp := int64 (rec.(rec_Offset) + 1)]> offsets) in
          (message_of rec :: messages, offsets)
      end
  | _, _ => ([], offsets)
  end.

Definition poll_partition (name : string) (p : FetchResponsePartition) (s : list Message * gmap TopicPartition Z) :
    list Message * gmap TopicPartition Z :=
  if negb (p.(fsp_ErrorCode) =? 0) then s
  else let '(messages, offsets) := poll_records (length p.(fsp_RecordSet)) (name, p.(fsp_PartitionID)) p.(fsp_RecordSet) s.2 in
       (s.1 ++ messages, offsets).
Definition polled (resp : FetchResponse) (offsets : gmap TopicPartition Z) : list Message * gmap TopicPartition Z :=
  foldl (λ s t, foldl (λ s p, poll_partition t.(fst_Name) p s) s t.(fst_Partitions)) ([], offsets) resp.(frs_Topics).

Definition unresolved (offsets : gmap TopicPartition Z) (tp : TopicPartition) : bool :=
  match offsets !! tp with Some off => off <? 0 | None => false end.

Definition assigned_partitions (assignment : MemberAssignment) : list TopicPartition :=
  ta ← assignment.(ma_Topics); (λ p, (ta.(pa_Topic), p)) <$> ta.(pa_Partitions).

(** The assignments that a leader sends, in the order of the map. *)
Fixpoint sync_assignments (assignments : gmap string MemberAssignment) (ids : list string) : result (list SyncGroupAssignment) :=
  match ids with
  | [] => Ok []
  | mID :: ids =>
      match assignments !! mID with
      | None => sync_assignments assignments ids
      | Some ma =>
          match EncodeAssignment ma with
          | Err err => Err (wrapError "encode assignment" err)
          | Ok encoded =>
              match sync_assignments assignments ids with
              | Ok l => Ok (mkSyncGroupAssignment mID encoded :: l)
              | Err err => Err err
              end
          end
      end
  end.

(** ** The client *)

Definition wrapped {S A} (msg : string) (m : M S A) : M S A := λ s,
  match m s with
  | (Err err, s) => (Err (wrapError msg err), s)
  | r => r
  end.

(** What the methods wait for when nothing is assigned. *)
Inductive poll_idle := CtxDone (err : error) | TimedOut | Stopped.

Section group_consumer.
Context {N : Type} `{Network N}.

Definition this : M (GroupConsumer * N) GroupConsumer := λ s, (Ok s.1, s).
Definition update (f : GroupConsumer → GroupConsumer) : M (GroupConsumer * N) unit := λ s, (Ok tt, (f s.1, s.2)).

(** A fresh connection, one round trip, and the connection is closed. *)
Definition sendRequest (apiKey : Z) (payload : bytes) : M (GroupConsumer * N) ResponseFrame := λ '(g, n),
  match dial_any g.(gc_addrs) None n with
  | (inr lastErr, n) => (Err (connect_failed "group_consumer" lastErr), (g, n))
  | (inl conn, n) =>
      let corrID := int32 (g.(gc_nextID) + 1) in
      let frame := mkRequestFrame 0 apiKey 1 corrID g.(gc_config).(gcc_ClientID) payload in
      let '(r, (_, n)) := exchange "group_consumer" frame (mkStream conn []) n in
      (r, (set_gc_nextID corrID g, (Conn_Close conn n).2))
  end.

Definition lift {S A} (r : result A) : M S A := λ s, (r, s).
Definition encode {S A} `{Wire A} (a : A) : M S bytes := lift (marshal a).
Definition decode {S A} `{Wire A} (resp : ResponseFrame) : M S A := lift (unmarshal resp.(rsf_Payload)).
Definition require {S} (b : bool) (err : error) : M S unit := λ s, if b then (Ok tt, s) else (Err err, s).

(** The numbers of partitions of the subscribed topics. *)
Definition fetchTopicMetadata : M (GroupConsumer * N) (gmap string Z) :=
  g ← this;
  payload ← encode (mkMetadataRequest (Some g.(gc_topics)));
  resp ← sendRequest 2 payload;
  metaResp ← decode resp;
  mret (metadata_partitions metaResp).

(** Partitions without a position get one from the broker, as [AutoOffsetReset] says. *)
Definition resolveUnsetOffsets (ord : Orders) : M (GroupConsumer * N) unit :=
  g ← this;
  let needResolve := filter (λ tp, unresolved g.(gc_offsets) tp = true) (ord.(or_offsets) g.(gc_offsets)) in
  match needResolve with
  | [] => mret ()
  | _ =>
      require (negb (bool_decide (g.(gc_config).(gcc_AutoOffsetReset) = "none")))
        (errorString "group_consumer: no committed offset and auto.offset.reset=none") ;;
      let timestamp := if bool_decide (g.(gc_config).(gcc_AutoOffsetReset) = "latest") then -1 else -2 in
      payload ← encode (list_offsets_request ord timestamp needResolve);
      resp ← sendRequest 10 payload;
      listResp ← decode resp;
      update (λ g, set_gc_offsets (listed_offsets listResp g.(gc_offsets)) g)
  end.

Definition fetchInitialOffsets (ord : Orders) : M (GroupConsumer * N) unit :=
  g ← this;
  match g.(gc_assigned) with
  | [] => mret ()
  | assigned =>
      payload ← encode (offset_fetch_request ord g.(gc_groupID) assigned);
      resp ← sendRequest 9 payload;
      fetchResp ← decode resp;
      update (λ g, set_gc_offsets (committed_offsets fetchResp g.(gc_offsets)) g) ;;
      resolveUnsetOffsets ord
  end.

(** The leader's part of the sync: everyone's partitions. *)
Definition leader_assignments (ord : Orders) (joinResp : JoinGroupResponse) : M (GroupConsumer * N) (list SyncGroupAssignment) :=
  topicPartitions ← wrapped "leader fetch metadata" fetchTopicMetadata;
  g ← this;
  match GetAssignor g.(gc_config).(gcc_AssignorStrategy) with
  | Err err => raise (wrapError "get assignor" err)
  | Ok assignor =>
      let assignments := assignor.(Assign) (jgm_MemberID <$> joinResp.(jgs_Members)) topicPartitions in
      lift (sync_assignments assignments (ord.(or_assignments) assignments))
  end.

Definition join (ord : Orders) : M (GroupConsumer * N) JoinGroupResponse :=
  g ← this;
  payload ← wrapped "encode join" (encode (join_request g));
  resp ← wrapped "join request" (sendRequest 4 payload);
  require (resp.(rsf_ErrorCode) =? 0) (errorString "join frame error code") ;;
  joinResp ← wrapped "decode join response" (decode (A:=JoinGroupResponse) resp);
  require (joinResp.(jgs_ErrorCode) =? 0) (errorString "join error code") ;;
  update (set_gc_member joinResp.(jgs_MemberID) joinResp.(jgs_GenerationID) joinResp.(jgs_LeaderID)) ;;
  mret joinResp.

Definition sync (ord : Orders) (joinResp : JoinGroupResponse) : M (GroupConsumer * N) MemberAssignment :=
  assignments ← (if bool_decide (joinResp.(jgs_MemberID) = joinResp.(jgs_LeaderID)) then leader_assignments ord joinResp
                 else mret []);
  g ← this;
  payload ← wrapped "encode sync"
    (encode (mkSyncGroupRequest g.(gc_groupID) joinResp.(jgs_GenerationID) joinResp.(jgs_MemberID) assignments));
  resp ← wrapped "sync request" (sendRequest 5 payload);
  require (resp.(rsf_ErrorCode) =? 0) (errorString "sync frame error code") ;;
  syncResp ← wrapped "decode sync response" (decode (A:=SyncGroupResponse) resp);
  require (syncResp.(sgs_ErrorCode) =? 0) (errorString "sync error code") ;;
  wrapped "decode assignment" (lift (DecodeAssignment syncResp.(sgs_Assignment))).

(** The new assignment replaces the old one, between the two callbacks. *)
Definition take_assignment (ord : Orders) (newAssigned : list TopicPartition) : M (GroupConsumer * N) unit :=
  update (λ g, set_gc_assigned newAssigned
    (if g.(gc_config).(gcc_OnRevoked) && negb (bool_decide (g.(gc_assigned) = [])) then call_back (PartitionsRevoked g.(gc_assigned)) g
     else g)) ;;
  wrapped "fetch initial offsets" (fetchInitialOffsets ord) ;;
  update (λ g, if g.(gc_config).(gcc_OnAssigned) && negb (bool_decide (newAssigned = [])) then call_back (PartitionsAssigned newAssigned) g
               else g).

Definition joinAndSync (ord : Orders) : M (GroupConsumer * N) unit :=
  joinResp ← join ord;
  assignment ← sync ord joinResp;
  take_assignment ord (assigned_partitions assignment).

Definition Poll (ord : Orders) (idle : poll_idle) : M (GroupConsumer * N) (list Message) :=
  g ← this;
  require (negb g.(gc_closed)) (errorString "group_consumer closed") ;;
  match g.(gc_assigned) with
  | [] =>
      match idle with
      | CtxDone err => raise err
      | TimedOut => mret []
      | Stopped => raise (errorString "group_consumer closed")
      end
  | assigned =>
      payload ← wrapped "group_consumer: fetch encode" (encode (poll_request ord g.(gc_config) assigned g.(gc_offsets)));
      resp ← wrapped "group_consumer: fetch request" (sendRequest 1 payload);
      require (resp.(rsf_ErrorCode) =? 0) (errorString "group_consumer: broker error code") ;;
      fetchResp ← wrapped "group_consumer: fetch response decode" (decode (A:=FetchResponse) resp);
      g ← this;
      let '(messages, offsets) := polled fetchResp g.(gc_offsets) in
      update (set_gc_offsets offsets) ;;
      mret messages
  end.

Definition send_commit (req : OffsetCommitRequest) : M (GroupConsumer * N) unit :=
  payload ← wrapped "group_consumer: commit encode" (encode req);
  resp ← wrapped "group_consumer: commit request" (sendRequest 8 payload);
  require (resp.(rsf_ErrorCode) =? 0) (errorString "group_consumer: commit error code").

Definition GroupConsumer_Commit (ord : Orders) : M (GroupConsumer * N) unit :=
  g ← this;
  require (negb g.(gc_closed)) (errorString "group_consumer closed") ;;
  if bool_decide (committable ord g.(gc_offsets) = ∅) then mret () else send_commit (commit_request ord g).

Definition CommitOffset (tp : TopicPartition) (offset : Z) : M (GroupConsumer * N) unit :=
  g ← this;
  update (λ g, set_gc_offsets (<[tp := offset]> g.(gc_offsets)) g) ;;
  send_commit (mkOffsetCommitRequest g.(gc_groupID) g.(gc_generationID) g.(gc_memberID)
    [mkOffsetCommitRequestTopic tp.1 [mkOffsetCommitRequestPartition tp.2 offset EmptyString]]).

(** One tick of [heartbeatLoop]: whether the group has to be joined again. Errors are
    ignored until the next tick. *)
Definition heartbeat_tick (s : GroupConsumer * N) : bool * (GroupConsumer * N) :=
  let g := s.1 in
  if bool_decide (g.(gc_memberID) = EmptyString) then (false, s)
  else
    match (payload ← encode (mkHeartbeatRequest g.(gc_groupID) g.(gc_generationID) g.(gc_memberID));
           resp ← sendRequest 6 payload;
           decode (A:=HeartbeatResponse) resp) s with
    | (Err _, s) => (false, s)
    | (Ok hbResp, s) => (bool_decide (hbResp.(hbs_ErrorCode) ∈ [10; 11; 9]), s)
    end.

(** [Close]; the background loops have ended. *)
Definition GroupConsumer_Close (s : GroupConsumer * N) : GroupConsumer * N :=
  let '(g, n) := s in
  if g.(gc_closed) then s
  else
    let g := set_gc_closed g in
    let g := if g.(gc_config).(gcc_OnRevoked) && negb (bool_decide (g.(gc_assigned) = []))
             then call_back (PartitionsRevoked g.(gc_assigned)) g else g in
    if bool_decide (g.(gc_memberID) = EmptyString) then (g, n)
    else ((payload ← encode (mkLeaveGroupRequest g.(gc_groupID) g.(gc_memberID)); sendRequest 7 payload) (g, n)).2.

(** The defaults, the first join, and the consumer. *)
Definition group_config (cfg : GroupConsumerConfig) : GroupConsumerConfig :=
  let pos v d := if v <=? 0 then d else v in
  let str s d := if bool_decide (s = EmptyString) then d else s in
  mkGroupConsumerConfig (str cfg.(gcc_ClientID) "mini-kafka-group-consumer") (pos cfg.(gcc_SessionTimeoutMs) 45000)
    (pos cfg.(gcc_HeartbeatIntervalMs) 3000) cfg.(gcc_RebalanceTimeoutMs) cfg.(gcc_AutoCommit)
    (pos cfg.(gcc_AutoCommitInterval) (5 * 1000000000)) (str cfg.(gcc_AutoOffsetReset) "earliest") cfg.(gcc_MaxWaitMs)
    cfg.(gcc_MinBytes) (pos cfg.(gcc_MaxBytes) (1024 * 1024)) (str cfg.(gcc_AssignorStrategy) "range")
    cfg.(gcc_OnRevoked) cfg.(gcc_OnAssigned).

Definition NewGroupConsumer (ord : Orders) (addrs : list string) (groupID : string) (topics : list string)
    (cfg : GroupConsumerConfig) (n : N) : result GroupConsumer * N :=
  match addrs with
  | [] => (Err (errorString "group_consumer: at least one broker address required"), n)
  | _ =>
      if bool_decide (groupID = EmptyString) then (Err (errorString "group_consumer: groupID required"), n)
      else match topics with
      | [] => (Err (errorString "group_consumer: at least one topic required"), n)
      | _ =>
          let g := mkGroupConsumer addrs groupID topics (group_config cfg) false 0 EmptyString 0 EmptyString [] ∅ [] in
          match joinAndSync ord (g, n) with
          | (Err err, (_, n)) => (Err (wrapError "group_consumer: initial join" err), n)
          | (Ok _, (g, n)) => (Ok g, n)
          end
      end
  end.
End group_consumer.

Definition DefaultGroupConsumerConfig : GroupConsumerConfig :=
  mkGroupConsumerConfig "mini-kafka-group-consumer" 45000 3000 60000 true (5 * 1000000000) "earliest" 500 1 (1024 * 1024) "range"
    false false.
