(* ===== verification/GroupDelivery.v ===== *)
(** * Group consumers and the broker (src/pkg/client/group_consumer.go, src/internal/broker)

    The requests of a group consumer over a network served by the broker: polling
    delivers every committed record once and in order, a committed position is where
    the next owner of the partition starts, and a position that a consumer kept for a
    partition it lost is committed over the new owner's. *)
From Stdlib Require Import ZArith Lia Strings.Byte.
From stdpp Require Import base list strings gmap.
From S2P Require Import Prelude Files Decimal Record Index Segment PartitionLog Recovery Retention LogFacts Codec Frame Requests Responses Server Assignor Group Checkpoint Replication Config Json Topic Metadata Partition Offsets Broker Handlers BrokerInv BrokerOps BrokerRun Restart EndToEnd Standalone Network Consumer Producer Delivery GroupConsumer.
Open Scope Z_scope.

Section requests.
Context {N : Type} `{Network N, !ServedBy N (nat * Broker)} (io : nat → IO) (limit : Z) `{!Serves (broker_mux io) limit}.

(** The consumer can reach the broker. *)
Definition reachable_from (g : GroupConsumer) (n : N) : Prop :=
  ∃ addr rest, g.(gc_addrs) = addr :: rest ∧ net_listens addr n.

Lemma reachable_kept g g' n n' : reachable_from g n → g'.(gc_addrs) = g.(gc_addrs) →
  (∀ addr, net_listens addr n → net_listens addr n') → reachable_from g' n'.
Proof. intros (addr & rest & Ea & Hl) Eg Hk. exists addr, rest. rewrite Eg. eauto. Qed.

(** A request and its response through the mux. *)
Lemma sendRequest_handled {A B} `{WireOk A, WireOk B} key (h : A → Broker → option B * Broker) a resp b' payload reply g n k b :
  reachable_from g n → net_state n = (k, b) →
  handlers (broker_mux io) !! key = Some (registered io key) → handled (io k) key g.(gc_config).(gcc_ClientID) h →
  wire_wf a → marshal a = Ok payload → h a b = (Some resp, b') → wire_wf resp → marshal resp = Ok reply →
  inS 16 key → str_ok g.(gc_config).(gcc_ClientID) →
  14 + zlen (str_bytes g.(gc_config).(gcc_ClientID)) + zlen payload ≤ MaxFrameSize →
  limit ≤ 0 ∨ 14 + zlen (str_bytes g.(gc_config).(gcc_ClientID)) + zlen payload ≤ limit → 10 + zlen reply ≤ MaxFrameSize →
  ∃ f n2 x, sendRequest key payload (g, n) = (Ok f, (set_gc_nextID x g, n2)) ∧ f.(rsf_ErrorCode) = 0 ∧
  unmarshal f.(rsf_Payload) = Ok resp ∧ net_state n2 = (S k, b') ∧ ∀ addr, net_listens addr n → net_listens addr n2.
Proof.
  intros (addr & rest & Ea & Hl) Hst Hm Hh Hwf Em Ef Hwr Er Hkey Hcl Hq Hlim Hp.
  destruct (handled_frames io k b key (int32 (gc_nextID g + 1)) (gcc_ClientID (gc_config g)) h a resp b' payload reply)
    as (F1 & F2 & F3 & F4); [exact Hm|exact Hh|exact Hwf|exact Em|exact Ef|exact Hwr|exact Er|exact Hkey|apply wrapS_range; lia|exact Hcl|exact Hq|exact Hp|].
  set (f := mkRequestFrame 0 key 1 _ _ payload) in *. rewrite <- Hst in F2.
  destruct (link_exchange io limit "group_consumer" g.(gc_addrs) None f n) as (c & n1 & n2 & Hc & E & Hi & Hs & Hk);
    [by exists addr, rest|exact F1|exact Hlim|rewrite F2; exact F3|].
  rewrite F2 in E, Hs. destruct (serves_close (m:=broker_mux io) (limit:=limit) c n2) as (Hs2 & Hl2 & _).
  exists (sized (mkResponseFrame 0 (int32 (gc_nextID g + 1)) 0 reply)), (Conn_Close c n2).2, (int32 (gc_nextID g + 1)).
  split; [unfold sendRequest; rewrite Hc; cbv zeta; fold f; by rewrite E|].
  split; [done|]. split; [exact F4|]. split; [by rewrite Hs2, Hs|].
  intros a' Ha. apply Hl2. destruct Hk as [Hk _]. by apply Hk.
Qed.

Lemma sendRequest_served {A B} `{WireOk A, WireOk B} key (h : A → Broker → B * Broker) a resp b' payload reply g n k b :
  reachable_from g n → net_state n = (k, b) →
  handlers (broker_mux io) !! key = Some (registered io key) → broker_handler (io k) key = Some (handle_with h) →
  wire_wf a → marshal a = Ok payload → h a b = (resp, b') → wire_wf resp → marshal resp = Ok reply →
  inS 16 key → str_ok g.(gc_config).(gcc_ClientID) →
  14 + zlen (str_bytes g.(gc_config).(gcc_ClientID)) + zlen payload ≤ MaxFrameSize →
  limit ≤ 0 ∨ 14 + zlen (str_bytes g.(gc_config).(gcc_ClientID)) + zlen payload ≤ limit → 10 + zlen reply ≤ MaxFrameSize →
  ∃ f n2 x, sendRequest key payload (g, n) = (Ok f, (set_gc_nextID x g, n2)) ∧ f.(rsf_ErrorCode) = 0 ∧
  unmarshal f.(rsf_Payload) = Ok resp ∧ net_state n2 = (S k, b') ∧ ∀ addr, net_listens addr n → net_listens addr n2.
Proof.
  intros Hr Hst Hm Hh Hwf Em Ef. eapply (sendRequest_handled key _ a resp b' payload reply g n k b Hr Hst Hm); [by apply handled_with|exact Hwf|exact Em|cbv beta; by rewrite Ef].
Qed.
End requests.

(** ** Polling *)

(** The orders visit every key once. *)
Record orders_ok (ord : Orders) : Prop := {
  oo_assignments m : ord.(or_assignments) m ≡ₚ (map_to_list m).*1;
  oo_parts m : ord.(or_parts) m ≡ₚ (map_to_list m).*1;
  oo_lists m : ord.(or_lists) m ≡ₚ (map_to_list m).*1;
  oo_fetches m : ord.(or_fetches) m ≡ₚ (map_to_list m).*1;
  oo_commits m : ord.(or_commits) m ≡ₚ (map_to_list m).*1;
  oo_offsets m : ord.(or_offsets) m ≡ₚ (map_to_list m).*1
}.

Lemma order_singleton {A} (order : gmap string A → list string) k x :
  (∀ m, order m ≡ₚ (map_to_list m).*1) → order {[k := x]} = [k].
Proof. intros Ho. apply Permutation_singleton_r. rewrite Ho, map_to_list_singleton. done. Qed.

Lemma by_topic_one {A} t (x : A) : by_topic [(t, x)] = {[t := [x]]}.
Proof. unfold by_topic. cbn. by rewrite lookup_empty, insert_empty. Qed.

(** Whatever the bytes, the position of a partition that delivered messages is right
    after the last of them. *)
Lemma poll_records_position fuel tp : ∀ buf offsets, let '(messages, offsets') := poll_records fuel tp buf offsets in
  offsets' = match last messages with Some m => <[tp := int64 (m.(msg_Offset) + 1)]> offsets | None => offsets end.
Proof.
  induction fuel as [|fuel IH]; intros buf offsets; [done|]. cbn [poll_records]. destruct buf as [|c buf]; [done|].
  destruct (DecodeRecord (c :: buf)) as [[x [rec|err]] buf']; [|done].
  specialize (IH buf' (<[tp := int64 (rec.(rec_Offset) + 1)]> offsets)).
  destruct (poll_records fuel tp buf' _) as [ms offs]. subst offs. destruct ms as [|m ms]; [done|].
  change (last (message_of rec :: m :: ms)) with (last (m :: ms)). destruct (last_is_Some (m :: ms)) as [_ Hl].
  destruct Hl as [m' ->]; [done|]. by rewrite insert_insert_eq.
Qed.

Lemma poll_records_images recs tp : ∀ fuel offsets, Forall record_fits recs → (length (images recs) ≤ fuel)%nat →
  (poll_records fuel tp (images recs) offsets).1 = message_of <$> recs.
Proof.
  induction recs as [|r recs IH]; intros fuel offsets Hok Hf; [by destruct fuel|].
  apply Forall_cons in Hok as [[Hwf Hsz] Hok]. rewrite images_cons in *.
  assert (Hl : (0 < length (record_image r))%nat).
  { pose proof (EncodedSize_min r). pose proof (length_record_image r). lia. }
  rewrite length_app in Hf. destruct fuel as [|fuel]; [lia|]. cbn [poll_records].
  destruct (record_image r ++ images recs) as [|c tl] eqn:E; [apply (f_equal length) in E; rewrite length_app in E; simpl in E; lia|].
  rewrite <- E, decode_image by done. specialize (IH fuel (<[tp := int64 (rec_Offset r + 1)]> offsets) Hok ltac:(lia)).
  destruct (poll_records fuel tp (images recs) _) as [ms offs]. cbn in *. by rewrite IH.
Qed.

(** The record sets that the broker sends: consecutive records from [o] on. *)
Lemma polled_one topic i hw start recs o offsets : Forall record_fits recs → consecutive o recs → recs ≠ [] → 0 ≤ o →
  inS 64 (o + zlen recs) →
  polled (fetch_reply topic (mkFetchResponsePartition i ErrNone hw start (images recs))) offsets =
    (message_of <$> recs, <[(topic, i) := o + zlen recs]> offsets).
Proof.
  intros Hfit Hc Hne H0 H64. unfold polled, poll_partition. cbn -[poll_records].
  pose proof (poll_records_position (length (images recs)) (topic, i) (images recs) offsets) as Hp.
  pose proof (poll_records_images recs (topic, i) (length (images recs)) offsets Hfit ltac:(lia)) as Hm.
  destruct (poll_records _ _ _ _) as [ms offs]. cbn in Hm. subst ms offs. f_equal.
  destruct (exists_last Hne) as (l & r & ->). rewrite fmap_app. cbn. rewrite last_snoc. cbn.
  assert (Er : rec_Offset r = o + zlen l) by (apply Hc; by rewrite list_lookup_middle).
  rewrite length_app in *. cbn in *. rewrite Er, wrapS_small; [f_equal; lia|lia|]. widths. lia.
Qed.

Definition consumer_config (cfg : GroupConsumerConfig) : ConsumerConfig :=
  mkConsumerConfig cfg.(gcc_ClientID) cfg.(gcc_MaxWaitMs) cfg.(gcc_MinBytes) cfg.(gcc_MaxBytes).

Lemma poll_request_one ord cfg topic i fo offsets : orders_ok ord → offsets !! (topic, i) = Some fo → 0 ≤ fo →
  poll_request ord cfg [(topic, i)] offsets = fetch_request (consumer_config cfg) topic i fo.
Proof.
  intros Ho Hp H0. unfold poll_request, fetch_request, consumer_config. cbn -[by_topic]. rewrite by_topic_one, Hp.
  case_bool (Z.ltb_spec fo 0). rewrite (order_singleton _ _ _ (oo_fetches _ Ho)). cbn. by rewrite lookup_singleton_eq.
Qed.

(** What a poll of one partition needs to fit the frames. *)
Record poll_fits (limit : Z) (g : GroupConsumer) (topic : string) (i fo : Z) (data : list record) : Prop := {
  pf_client : str_ok g.(gc_config).(gcc_ClientID);
  pf_wait : inS 32 g.(gc_config).(gcc_MaxWaitMs);
  pf_min : inS 32 g.(gc_config).(gcc_MinBytes);
  pf_max : 0 < g.(gc_config).(gcc_MaxBytes) ≤ MaxInt32 - MaxRecordSize;
  pf_part : inS 32 i;
  pf_offset : inS 64 fo;
  pf_limit : limit ≤ 0 ∨ fetch_size (consumer_config g.(gc_config)) topic ≤ limit;
  pf_data : total_size data ≤ g.(gc_config).(gcc_MaxBytes);
  pf_frame : 46 + zlen (str_bytes topic) + total_size data ≤ MaxFrameSize
}.


(** ** Committing *)

Definition commit_one (group : string) (gen : Z) (member topic : string) (i off : Z) : OffsetCommitRequest :=
  mkOffsetCommitRequest group gen member [mkOffsetCommitRequestTopic topic [mkOffsetCommitRequestPartition i off EmptyString]].
Definition committed_one (topic : string) (i : Z) : OffsetCommitResponse :=
  mkOffsetCommitResponse [mkOffsetCommitResponseTopic topic [mkOffsetCommitResponsePartition i ErrNone]].
Definition offset_of (group topic : string) (i : Z) : OffsetFetchRequest :=
  mkOffsetFetchRequest group [mkOffsetFetchRequestTopic topic [i]].
Definition offset_is (topic : string) (i off : Z) : OffsetFetchResponse :=
  mkOffsetFetchResponse [mkOffsetFetchResponseTopic topic [mkOffsetFetchResponsePartition i off ErrNone]].

Lemma marshal_commit_one group gen member topic i off : str_ok group → str_ok member → str_ok topic →
  marshal (commit_one group gen member topic i off) = Ok (wire_string group ++ be_encode 4 gen ++ wire_string member ++ be_encode 4 1 ++
    wire_string topic ++ be_encode 4 1 ++ be_encode 4 i ++ be_encode 8 off ++ wire_string EmptyString).
Proof.
  intros Hg Hm Ht.
  assert (H1 : ∀ w, OffsetCommitRequestPartition_Encode (mkOffsetCommitRequestPartition i off EmptyString) w =
    (Ok tt, w ++ be_encode 4 i ++ be_encode 8 off ++ wire_string EmptyString)).
  { intros w. unfold OffsetCommitRequestPartition_Encode, PutInt32, PutInt64. put_fields. }
  assert (H2 : ∀ w, OffsetCommitRequestTopic_Encode (mkOffsetCommitRequestTopic topic [mkOffsetCommitRequestPartition i off EmptyString]) w =
    (Ok tt, w ++ wire_string topic ++ be_encode 4 1 ++ be_encode 4 i ++ be_encode 8 off ++ wire_string EmptyString)).
  { intros w. unfold OffsetCommitRequestTopic_Encode. put_fields. }
  unfold marshal, commit_one. cbn [wire_put OffsetCommitRequest_Wire]. unfold OffsetCommitRequest_Encode, PutInt32. put_fields.
Qed.

Lemma marshal_committed_one topic i : str_ok topic →
  marshal (committed_one topic i) = Ok (be_encode 4 1 ++ wire_string topic ++ be_encode 4 1 ++ be_encode 4 i ++ be_encode 2 ErrNone).
Proof.
  intros Ht.
  assert (H1 : ∀ w, OffsetCommitResponsePartition_Encode (mkOffsetCommitResponsePartition i ErrNone) w =
    (Ok tt, w ++ be_encode 4 i ++ be_encode 2 ErrNone)).
  { intros w. unfold OffsetCommitResponsePartition_Encode, PutInt32, PutInt16. put_fields. }
  assert (H2 : ∀ w, OffsetCommitResponseTopic_Encode (mkOffsetCommitResponseTopic topic [mkOffsetCommitResponsePartition i ErrNone]) w =
    (Ok tt, w ++ wire_string topic ++ be_encode 4 1 ++ be_encode 4 i ++ be_encode 2 ErrNone)).
  { intros w. unfold OffsetCommitResponseTopic_Encode. put_fields. }
  unfold marshal, committed_one. cbn [wire_put OffsetCommitResponse_Wire]. unfold OffsetCommitResponse_Encode. put_fields.
Qed.

Lemma marshal_offset_of group topic i : str_ok group → str_ok topic →
  marshal (offset_of group topic i) = Ok (wire_string group ++ be_encode 4 1 ++ wire_string topic ++ be_encode 4 1 ++ be_encode 4 i).
Proof.
  intros Hg Ht.
  assert (H1 : ∀ w, (PutInt32 i ;; mret ()) (w : bytes) = (Ok tt, w ++ be_encode 4 i)) by (intros w; unfold PutInt32; put_fields).
  assert (H2 : ∀ w, OffsetFetchRequestTopic_Encode (mkOffsetFetchRequestTopic topic [i]) w =
    (Ok tt, w ++ wire_string topic ++ be_encode 4 1 ++ be_encode 4 i)).
  { intros w. unfold OffsetFetchRequestTopic_Encode. put_fields. }
  unfold marshal, offset_of. cbn [wire_put OffsetFetchRequest_Wire]. unfold OffsetFetchRequest_Encode. put_fields.
Qed.

Lemma marshal_offset_is topic i off : str_ok topic →
  marshal (offset_is topic i off) = Ok (be_encode 4 1 ++ wire_string topic ++ be_encode 4 1 ++ be_encode 4 i ++ be_encode 8 off ++ be_encode 2 ErrNone).
Proof.
  intros Ht.
  assert (H1 : ∀ w, OffsetFetchResponsePartition_Encode (mkOffsetFetchResponsePartition i off ErrNone) w =
    (Ok tt, w ++ be_encode 4 i ++ be_encode 8 off ++ be_encode 2 ErrNone)).
  { intros w. unfold OffsetFetchResponsePartition_Encode, PutInt32, PutInt64, PutInt16. put_fields. }
  assert (H2 : ∀ w, OffsetFetchResponseTopic_Encode (mkOffsetFetchResponseTopic topic [mkOffsetFetchResponsePartition i off ErrNone]) w =
    (Ok tt, w ++ wire_string topic ++ be_encode 4 1 ++ be_encode 4 i ++ be_encode 8 off ++ be_encode 2 ErrNone)).
  { intros w. unfold OffsetFetchResponseTopic_Encode. put_fields. }
  unfold marshal, offset_is. cbn [wire_put OffsetFetchResponse_Wire]. unfold OffsetFetchResponse_Encode. put_fields.
Qed.

(** What a commit of one partition needs. *)
Record commit_fits (limit : Z) (e : Env) (b : Broker) (g : GroupConsumer) (topic : string) (i off : Z) : Prop := {
  cf_env : EnvOk e;
  cf_inv : broker_inv b;
  cf_room : store_room b.(b_offsetStore);
  cf_client : str_ok g.(gc_config).(gcc_ClientID);
  cf_group : str_ok g.(gc_groupID);
  cf_member : str_ok g.(gc_memberID);
  cf_topic : str_ok topic;
  cf_colon : colon_free topic;
  cf_gen : inS 32 g.(gc_generationID);
  cf_part : inS 32 i;
  cf_offset : inS 64 off;
  cf_key : commit_too_large g.(gc_groupID) topic i = false;
  cf_limit : limit ≤ 0 ∨ 2 ^ 18 ≤ limit
}.

(** No log of the offset store has more than [m] records. *)
Definition store_below (m : Z) (s : OffsetStore) : Prop := ∀ l, l ∈ s.(os_logs) → HighestOffset l ≤ m.

Lemma committed_store e group topic p b : EnvOk e → broker_inv b → store_room b.(b_offsetStore) → colon_free topic →
  inS 32 p.(ocp_PartitionID) → inS 64 p.(ocp_Offset) → commit_too_large group topic p.(ocp_PartitionID) = false →
  let b' := (commit_partition e group topic p b).2 in
  broker_inv b' ∧ Fetch group topic p.(ocp_PartitionID) b'.(b_offsetStore) = p.(ocp_Offset) ∧
  ∀ m, store_below m b.(b_offsetStore) → store_below (m + 1) b'.(b_offsetStore).
Proof.
  intros He Hb Hroom Hc Hp Ho Hk. split; [by apply Commit_inv|]. destruct (bi_offsets _ Hb) as [rss Hs].
  destruct (Commit_ok (e.(e_ModTime) []) e.(e_now) e.(e_nowMs) group topic p.(ocp_PartitionID) p.(ocp_Offset)
    b.(b_offsetStore) rss Hs) as (rss' & Hs' & Hcache & _ & Hgrow); [done..|apply He| |].
  - intros rs [j Hj]%list_elem_of_lookup. destruct (Forall2_lookup_r _ _ _ _ _ (si_logs _ _ Hs) Hj) as (l & Hl & ([f Hv] & _)).
    specialize (Hroom l ltac:(by eapply list_elem_of_lookup_2)). by rewrite (log_view_highest _ _ _ _ Hv) in Hroom.
  - unfold Fetch, commit_partition. cbn [snd set_offsetStore b_offsetStore]. rewrite Hcache, Hk. split; [by rewrite lookup_insert_eq|].
    intros m Hm l [j Hj]%list_elem_of_lookup. destruct (Forall2_lookup_l _ _ _ _ _ (si_logs _ _ Hs') Hj) as (rs & Hrs & ([f Hv] & _)).
    rewrite (log_view_highest _ _ _ _ Hv). apply (Hgrow m); [|by eapply list_elem_of_lookup_2].
    intros rs' [j' Hj']%list_elem_of_lookup. destruct (Forall2_lookup_r _ _ _ _ _ (si_logs _ _ Hs) Hj') as (l' & Hl' & ([f' Hv'] & _)).
    specialize (Hm l' ltac:(by eapply list_elem_of_lookup_2)). by rewrite (log_view_highest _ _ _ _ Hv') in Hm.
Qed.

Section commits.
Context {N : Type} `{Network N, !ServedBy N (nat * Broker)} (io : nat → IO) (limit : Z) `{!Serves (broker_mux io) limit}.

Lemma send_commit_served g n k b topic i off : reachable_from g n → net_state n = (k, b) →
  commit_fits limit ((io k).(io_env) 0%nat 0%nat) b g topic i off → ∃ x n2 b',
  send_commit (commit_one g.(gc_groupID) g.(gc_generationID) g.(gc_memberID) topic i off) (g, n) = (Ok tt, (set_gc_nextID x g, n2)) ∧
  net_state n2 = (S k, b') ∧ reachable_from (set_gc_nextID x g) n2 ∧ broker_inv b' ∧
  Fetch g.(gc_groupID) topic i b'.(b_offsetStore) = off ∧
  (∀ addr, net_listens addr n → net_listens addr n2) ∧
  ∀ m, store_below m b.(b_offsetStore) → store_below (m + 1) b'.(b_offsetStore).
Proof.
  intros Hr Hst [F1 F2 F3 F4 F5 F6 F7 F8 F9 F10 F11 F12 F13].
  set (p := mkOffsetCommitRequestPartition i off EmptyString).
  destruct (committed_store ((io k).(io_env) 0%nat 0%nat) g.(gc_groupID) topic p b F1 F2 F3 F8 F10 F11 F12) as (Hb' & Hf & Hgrow).
  pose proof (marshal_commit_one g.(gc_groupID) g.(gc_generationID) g.(gc_memberID) topic i off F5 F6 F7) as Em. set (payload := wire_string _ ++ _) in Em.
  pose proof (marshal_committed_one topic i F7) as Er. set (reply := be_encode 4 1 ++ _) in Er.
  assert (Hl1 : zlen payload = 32 + zlen (str_bytes g.(gc_groupID)) + zlen (str_bytes g.(gc_memberID)) + zlen (str_bytes topic))
    by (unfold payload; change (wire_string EmptyString) with [x00; x00]; unfold wire_string; len).
  assert (Hl2 : zlen reply = 16 + zlen (str_bytes topic)) by (unfold reply, wire_string; len).
  change (2 ^ 18) with 262144 in F13. unfold str_ok in F4, F5, F6, F7. widths.
  destruct (sendRequest_served io limit 8 (handleOffsetCommit (io k)) (commit_one g.(gc_groupID) g.(gc_generationID) g.(gc_memberID) topic i off)
    (committed_one topic i) (commit_partition ((io k).(io_env) 0%nat 0%nat) g.(gc_groupID) topic p b).2 payload reply g n k b Hr Hst)
    as (f & n2 & x & Es & Hf0 & Hfu & Hs2 & Hl3);
    [reflexivity|reflexivity| |exact Em|reflexivity| |exact Er|by_decide|exact F4|unfold MaxFrameSize; lia
    |destruct F13; [by left|right; lia]|unfold MaxFrameSize; lia|].
  { split; [exact F5|]. split; [exact F9|]. split; [exact F6|]. split; [done|].
    constructor; [|done]. split; [exact F7|]. split; [done|]. constructor; [|done]. split; [exact F10|]. split; [exact F11|]. by_decide. }
  { split; [done|]. constructor; [|done]. split; [exact F7|]. split; [done|]. constructor; [|done]. split; [exact F10|]. by_decide. }
  exists x, n2, (commit_partition ((io k).(io_env) 0%nat 0%nat) g.(gc_groupID) topic p b).2.
  split; [|split_and!; [exact Hs2|by eapply reachable_kept|exact Hb'|exact Hf|exact Hl3|exact Hgrow]].
  unfold send_commit, wrapped, encode, lift, require, mbind, M_bind. by rewrite Em, Es, Hf0.
Qed.

Lemma none_unresolved (offsets : gmap TopicPartition Z) l : (∀ tp, unresolved offsets tp = false) →
  filter (λ tp, unresolved offsets tp = true) l = [].
Proof. intros Hu. induction l as [|tp l IH]; [done|]. rewrite filter_cons_False; [done|]. by rewrite Hu. Qed.

(** The owner of one partition gets the committed offset as its position. *)
Lemma fetchInitialOffsets_served ord g n k b topic i off : orders_ok ord → reachable_from g n → net_state n = (k, b) →
  g.(gc_assigned) = [(topic, i)] → (∀ tp, unresolved g.(gc_offsets) tp = false) →
  str_ok g.(gc_config).(gcc_ClientID) → str_ok g.(gc_groupID) → str_ok topic → inS 32 i → inS 64 off → 0 ≤ off →
  limit ≤ 0 ∨ 2 ^ 18 ≤ limit → Fetch g.(gc_groupID) topic i b.(b_offsetStore) = off → ∃ x n2,
  fetchInitialOffsets ord (g, n) = (Ok tt, (set_gc_offsets (<[(topic, i) := off]> g.(gc_offsets)) (set_gc_nextID x g), n2)) ∧
  net_state n2 = (S k, b).
Proof.
  intros Hord Hr Hst Has Hun F1 F2 F3 F4 F5 H0 F6 Hf. change (2 ^ 18) with 262144 in F6.
  pose proof (marshal_offset_of g.(gc_groupID) topic i F2 F3) as Em. set (payload := wire_string _ ++ _) in Em.
  pose proof (marshal_offset_is topic i off F3) as Er. set (reply := be_encode 4 1 ++ _) in Er.
  assert (Hl1 : zlen payload = 16 + zlen (str_bytes g.(gc_groupID)) + zlen (str_bytes topic)) by (unfold payload, wire_string; len).
  assert (Hl2 : zlen reply = 24 + zlen (str_bytes topic)) by (unfold reply, wire_string; len).
  unfold str_ok in F1, F2, F3. widths.
  destruct (sendRequest_served io limit 9 handleOffsetFetch (offset_of g.(gc_groupID) topic i) (offset_is topic i off) b payload reply
    g n k b Hr Hst) as (f & n2 & x & Es & _ & Hfu & Hs2 & _);
    [reflexivity|reflexivity| |exact Em| | |exact Er|by_decide|exact F1|unfold MaxFrameSize; lia
    |destruct F6; [by left|right; lia]|unfold MaxFrameSize; lia|].
  { split; [exact F2|]. split; [done|]. constructor; [|done]. split; [exact F3|]. split; [done|]. by constructor. }
  { unfold handleOffsetFetch, offset_of, offset_is. cbn. by rewrite Hf. }
  { split; [done|]. constructor; [|done]. split; [exact F3|]. split; [done|]. constructor; [|done]. split; [exact F4|]. split; [exact F5|by_decide]. }
  assert (Hreq : offset_fetch_request ord g.(gc_groupID) [(topic, i)] = offset_of g.(gc_groupID) topic i).
  { unfold offset_fetch_request. rewrite by_topic_one, (order_singleton _ _ _ (oo_parts _ Hord)). cbn. by rewrite lookup_singleton_eq. }
  exists x, n2. split; [|exact Hs2].
  unfold fetchInitialOffsets, this, encode, decode, lift, update, mbind, M_bind. cbn [fst snd]. rewrite Has. unfold TopicPartition.
  rewrite Hreq, Em, Es, Hfu.
  cbn [set_gc_nextID gc_offsets fst snd]. unfold committed_offsets, offset_is. cbn [ofs_Topics foldl oftr_Partitions oftr_Name ofp_PartitionID ofp_Offset].
  case_bool (Z.leb_spec 0 off). unfold resolveUnsetOffsets, this, mbind, M_bind. cbn [fst snd set_gc_offsets gc_offsets].
  rewrite none_unresolved; [done|]. intros tp. unfold unresolved. destruct (decide (tp = (topic, i))) as [->|Hne].
  - rewrite lookup_insert_eq. apply Z.ltb_ge. lia.
  - rewrite lookup_insert_ne by done. apply Hun.
Qed.
End commits.

(** C22: a position committed by one member of a group is where the member that the
    partition is assigned to next starts. *)
Theorem committed_position_resumes {N} `{Network N, !ServedBy N (nat * Broker)} (io : nat → IO) (limit : Z)
    `{!Serves (broker_mux io) limit} ord g1 g2 n k b topic i off :
  orders_ok ord → reachable_from g1 n → reachable_from g2 n → net_state n = (k, b) →
  commit_fits limit ((io k).(io_env) 0%nat 0%nat) b g1 topic i off → 0 ≤ off →
  g2.(gc_groupID) = g1.(gc_groupID) → g2.(gc_assigned) = [(topic, i)] → (∀ tp, unresolved g2.(gc_offsets) tp = false) →
  str_ok g2.(gc_config).(gcc_ClientID) → ∃ g1' n1 g2' n2,
  CommitOffset (topic, i) off (g1, n) = (Ok tt, (g1', n1)) ∧ fetchInitialOffsets ord (g2, n1) = (Ok tt, (g2', n2)) ∧
  g2'.(gc_offsets) = <[(topic, i) := off]> g2.(gc_offsets).
Proof.
  intros Hord Hr1 Hr2 Hst Hfit H0 Hg Has Hun Hcl. pose proof Hfit as [F1 F2 F3 F4 F5 F6 F7 F8 F9 F10 F11 F12 F13].
  set (g1' := set_gc_offsets (<[(topic, i) := off]> g1.(gc_offsets)) g1).
  destruct (send_commit_served io limit g1' n k b topic i off Hr1 Hst) as (x & n1 & b' & E1 & Hs1 & _ & _ & Hf & Hl & _); [by constructor|].
  destruct (fetchInitialOffsets_served io limit ord g2 n1 (S k) b' topic i off Hord) as (y & n2 & E2 & _); try done.
  - by eapply reachable_kept.
  - by rewrite Hg.
  - by rewrite Hg.
  - exists (set_gc_nextID x g1'), n1, (set_gc_offsets (<[(topic, i) := off]> g2.(gc_offsets)) (set_gc_nextID y g2)), n2. split_and!; [|exact E2|done].
    unfold CommitOffset, this, update, mbind, M_bind. cbn [fst snd]. fold g1'. exact E1.
Qed.

(** C37: a consumer that lost a partition in a rebalance keeps its position for it, and
    its next commit puts that old position over what the new owner has committed, so
    that the group goes back to records it has already processed. *)
Theorem stale_commit_rewinds {N} `{Network N, !ServedBy N (nat * Broker)} (io : nat → IO) (limit : Z)
    `{!Serves (broker_mux io) limit} ord g1 g2 n k b topic i old new m :
  orders_ok ord → reachable_from g1 n → reachable_from g2 n → net_state n = (k, b) →
  g1.(gc_closed) = false → (topic, i) ∉ g1.(gc_assigned) → g1.(gc_offsets) = {[(topic, i) := old]} → 0 ≤ old < new →
  g2.(gc_groupID) = g1.(gc_groupID) →
  commit_fits limit ((io k).(io_env) 0%nat 0%nat) b g2 topic i new →
  commit_fits limit ((io (S k)).(io_env) 0%nat 0%nat) b g1 topic i old →
  0 ≤ m → store_below m b.(b_offsetStore) → inS 64 (m + 2) → ∃ g2' n1 g1' n2 b1 b2,
  CommitOffset (topic, i) new (g2, n) = (Ok tt, (g2', n1)) ∧ net_state n1 = (S k, b1) ∧
  Fetch g1.(gc_groupID) topic i b1.(b_offsetStore) = new ∧
  GroupConsumer_Commit ord (g1, n1) = (Ok tt, (g1', n2)) ∧ net_state n2 = (S (S k), b2) ∧
  Fetch g1.(gc_groupID) topic i b2.(b_offsetStore) = old.
Proof.
  intros Hord Hr1 Hr2 Hst Hcl Hlost Hoff Hlt Hg Hfit2 Hfit1 Hm0 Hm H64.
  pose proof Hfit2 as [F1 F2 F3 F4 F5 F6 F7 F8 F9 F10 F11 F12 F13]. destruct Hfit1 as [G1 _ _ G4 G5 G6 _ _ G9 _ G11 G12 _].
  set (g2' := set_gc_offsets (<[(topic, i) := new]> g2.(gc_offsets)) g2).
  destruct (send_commit_served io limit g2' n k b topic i new Hr2 Hst) as (x & n1 & b1 & E1 & Hs1 & _ & Hb1 & Hf1 & Hl & Hgrow); [by constructor|].
  destruct (send_commit_served io limit g1 n1 (S k) b1 topic i old) as (y & n2 & b2 & E2 & Hs2 & _ & _ & Hf2 & _); [exact (reachable_kept _ _ _ _ Hr1 eq_refl Hl)|exact Hs1| |].
  { constructor; try done. intros l Hl'. specialize (Hgrow m Hm l Hl').
    destruct (bi_offsets _ Hb1) as [rss Hrs]. apply list_elem_of_lookup in Hl' as [j Hj].
    destruct (Forall2_lookup_l _ _ _ _ _ (si_logs _ _ Hrs) Hj) as (rs & _ & ([f Hv] & _)).
    pose proof (log_view_highest_nonneg _ _ _ _ Hv). widths. lia. }
  exists (set_gc_nextID x g2'), n1, (set_gc_nextID y g1), n2, b1, b2. split_and!; [|exact Hs1|by rewrite <- Hg| |exact Hs2|exact Hf2].
  - unfold CommitOffset, this, update, mbind, M_bind. cbn [fst snd]. fold g2'. exact E1.
  - assert (Hc : committable ord g1.(gc_offsets) = {[topic := [mkOffsetCommitRequestPartition i old EmptyString]]}).
    { unfold committable. rewrite Hoff.
      assert (Eo : or_offsets ord {[(topic, i) := old]} = [(topic, i)]).
      { apply Permutation_singleton_r. by rewrite (oo_offsets _ Hord), map_to_list_singleton. }
      rewrite Eo. cbn -[by_topic]. rewrite lookup_singleton_eq. case_bool (Z.leb_spec 0 old). apply by_topic_one. }
    unfold GroupConsumer_Commit, this, require, mbind, M_bind. cbn [fst snd]. rewrite Hcl. cbn [negb]. rewrite Hc.
    rewrite bool_decide_false by done. unfold commit_request. rewrite Hc, (order_singleton _ _ _ (oo_commits _ Hord)). cbn [fmap list_fmap].
    rewrite lookup_singleton_eq. exact E2.
Qed.

(** ** A group consumer of the topic "orders" *)

Definition sample_orders : Orders :=
  mkOrders (λ m, (map_to_list m).*1) (λ m, (map_to_list m).*1) (λ m, (map_to_list m).*1) (λ m, (map_to_list m).*1)
    (λ m, (map_to_list m).*1) (λ m, (map_to_list m).*1).

Lemma sample_orders_ok : orders_ok sample_orders.
Proof. constructor; reflexivity. Qed.

Definition sample_member (member : string) (assigned : list TopicPartition) (offsets : gmap TopicPartition Z) : GroupConsumer :=
  mkGroupConsumer ["localhost:9092"] "billing" ["orders"] DefaultGroupConsumerConfig false 0 member 1 "m1" assigned offsets [].

Section sample.
#[local] Existing Instance Served_By.
#[local] Instance group_network : Network (Served (nat * Broker)) := Served_Network (broker_mux quiet_io) 0.
#[local] Instance group_serves : Serves (N:=Served (nat * Broker)) (broker_mux quiet_io) (request_limit 0) :=
  Served_Serves (broker_mux quiet_io) 0.

(** A broker whose offset store is empty. *)
Lemma sample_group_broker : ∃ b, broker_inv b ∧ store_below 0 b.(b_offsetStore) ∧ store_room b.(b_offsetStore).
Proof.
  destruct (New_ok sample_env (λ _ _, 0) (λ _, sample_env) _ _ _ _ _ orders_storage_ok) as (b & _ & [Hb _] & _ & _ & _ & Hs & _).
  assert (Hz : ∀ l, l ∈ b.(b_offsetStore).(os_logs) → HighestOffset l = 0).
  { intros l [j Hj]%list_elem_of_lookup. destruct (Forall2_lookup_l _ _ _ _ _ (si_logs _ _ Hs) Hj) as (rs & Hrs & ([f Hv] & _)).
    apply lookup_replicate in Hrs as [-> _]. exact (log_view_highest _ _ _ _ Hv). }
  exists b. split; [exact Hb|]. split; intros l Hl; rewrite (Hz l Hl); by_decide.
Qed.

Lemma sample_commit_fits b g off : broker_inv b → store_room b.(b_offsetStore) → g.(gc_config) = DefaultGroupConsumerConfig →
  g.(gc_groupID) = "billing" → str_ok g.(gc_memberID) → g.(gc_generationID) = 1 → inS 64 off →
  commit_fits (request_limit 0) sample_env b g "orders" 0 off.
Proof.
  intros Hb Hr Ec Eg Hm En Ho. constructor; [exact sample_env_ok|exact Hb|exact Hr| | |exact Hm|by_decide|by_decide| |by_decide|exact Ho| |right; by_decide].
  - rewrite Ec. by_decide.
  - rewrite Eg. by_decide.
  - rewrite En. by_decide.
  - rewrite Eg. by_decide.
Qed.


Lemma committed_position_resumes_witness : ∃ n g1' n1 g2' n2,
  CommitOffset ("orders", 0) 2 (sample_member "m1" [("orders", 0)] {[("orders", 0) := 2]}, n) = (Ok tt, (g1', n1)) ∧
  fetchInitialOffsets sample_orders (sample_member "m2" [("orders", 0)] ∅, n1) = (Ok tt, (g2', n2)) ∧
  g2'.(gc_offsets) = {[("orders", 0) := 2]}.
Proof.
  destruct sample_group_broker as (b & Hb & _ & Hr).
  destruct (committed_position_resumes quiet_io (request_limit 0) sample_orders (sample_member "m1" [("orders", 0)] {[("orders", 0) := 2]})
    (sample_member "m2" [("orders", 0)] ∅) (sample_net b) 0 b "orders" 0 2 sample_orders_ok) as (g1' & n1 & g2' & n2 & E1 & E2 & E3);
    [by exists "localhost:9092", []|by exists "localhost:9092", []|reflexivity| |lia|reflexivity|reflexivity| |by_decide|].
  - apply sample_commit_fits; [exact Hb|exact Hr|reflexivity|reflexivity|by_decide|reflexivity|by_decide].
  - reflexivity.
  - exists (sample_net b), g1', n1, g2', n2. split; [exact E1|]. split; [exact E2|exact E3].
Defined.

(** Member "m2" owns the partition and has committed 5; member "m1", which lost it at
    position 2, commits. *)
Lemma stale_commit_rewinds_witness : ∃ n g2' n1 g1' n2,
  CommitOffset ("orders", 0) 5 (sample_member "m2" [("orders", 0)] {[("orders", 0) := 5]}, n) = (Ok tt, (g2', n1)) ∧
  GroupConsumer_Commit sample_orders (sample_member "m1" [] {[("orders", 0) := 2]}, n1) = (Ok tt, (g1', n2)) ∧
  Fetch "billing" "orders" 0 (net_state n2).2.(b_offsetStore) = 2.
Proof.
  destruct sample_group_broker as (b & Hb & Hm & Hr).
  destruct (stale_commit_rewinds quiet_io (request_limit 0) sample_orders (sample_member "m1" [] {[("orders", 0) := 2]})
    (sample_member "m2" [("orders", 0)] {[("orders", 0) := 5]}) (sample_net b) 0 b "orders" 0 2 5 0 sample_orders_ok)
    as (g2' & n1 & g1' & n2 & b1 & b2 & E1 & _ & _ & E2 & Hs & Hf);
    [by exists "localhost:9092", []|by exists "localhost:9092", []|reflexivity|reflexivity| |reflexivity|lia|reflexivity| | |lia|exact Hm|by_decide|].
  - apply not_elem_of_nil.
  - apply sample_commit_fits; [exact Hb|exact Hr|reflexivity|reflexivity|by_decide|reflexivity|by_decide].
  - apply sample_commit_fits; [exact Hb|exact Hr|reflexivity|reflexivity|by_decide|reflexivity|by_decide].
  - exists (sample_net b), g2', n1, g1', n2. split; [exact E1|]. split; [exact E2|]. rewrite Hs. exact Hf.
Defined.
End sample.
