(* ===== verification/Follower.v ===== *)
(** * Followers (src/internal/broker/broker_replication.go)

    The fetch loop of a follower: which partitions it fetches from a leader, the
    ReplicaFetch round trip over the network, the append to its own log and the high
    watermark it takes over. The theorems are about a follower and the leader behind
    the network: the follower's log stays a copy of the leader's. *)
From Stdlib Require Import ZArith Lia Strings.Byte.
From stdpp Require Import base list strings gmap.
From S2P Require Import Prelude Files Decimal Record Index Segment PartitionLog Recovery Retention LogFacts Codec Frame Requests Responses Server Assignor Group Checkpoint Replication Config Json Topic Metadata Partition Offsets Broker Handlers BrokerInv BrokerOps BrokerRun Restart EndToEnd Standalone Network Consumer Producer Delivery.
Open Scope Z_scope.

(** [fmt.Sprintf("%s:%d", host, port)] *)
Definition host_port (host : string) (port : Z) : string := host +:+ ":" +:+ Itoa port.

Definition brokerAddr (id : Z) (b : Broker) : option string :=
  match b.(b_config).(cfg_Brokers) with
  | [] =>
      if id =? b.(b_localID) then Some (host_port b.(b_config).(cfg_Broker).(bc_Host) b.(b_config).(cfg_Broker).(bc_Port))
      else None
  | brokers => (λ br, host_port br.(cb_Host) br.(cb_Port)) <$> head (filter (λ br, int32 br.(cb_ID) = id) brokers)
  end.

(** The next offset to fetch, by topic and partition. *)
Abbreviation fetch_offsets := (gmap string (gmap Z Z)).
Definition fetch_offset (topic : string) (partition : Z) (offsets : fetch_offsets) : Z :=
  default 0 (offsets !! topic ≫= (.!! partition)).
Definition set_fetch_offset (topic : string) (partition off : Z) (offsets : fetch_offsets) : fetch_offsets :=
  <[topic := <[partition := off]> (default ∅ (offsets !! topic))]> offsets.

(** What a fetch loop works on: its broker, its map of offsets and the network. *)
Record Follower (N : Type) := mkFollower {
  fw_broker : Broker;
  fw_offsets : fetch_offsets;
  fw_net : N
}.
Arguments mkFollower {N} _ _ _.
Arguments fw_broker {N} _.
Arguments fw_offsets {N} _.
Arguments fw_net {N} _.

(** One tick: the readings for each target, the orders of the ranges over topics and
    partitions, and how many targets are fetched before the context is cancelled. *)
Record Tick := mkTick {
  tk_env : nat → Env;
  tk_topics : gmap string Topic → list string;
  tk_partitions : gmap Z Partition → list Z;
  tk_turns : nat
}.

Definition follower_targets (tick : Tick) (leaderID : Z) (b : Broker) : list (string * Z) :=
  name ← tick.(tk_topics) b.(b_topics);
  match b.(b_topics) !! name with
  | None => []
  | Some t => pair name <$> filter (λ pID, partitionLeader name pID b = leaderID) (tick.(tk_partitions) t.(tp_Partitions))
  end.

Definition fetch_wait_max (b : Broker) : Z :=
  let maxWait := int32 b.(b_config).(cfg_Replication).(rc_ReplicaFetchWaitMaxMs) in if maxWait <=? 0 then 500 else maxWait.

(** The records and the watermark in the answer. *)
Definition replica_records (resp : ResponseFrame) : result (list record * Z) :=
  if negb (resp.(rsf_ErrorCode) =? 0) then Err (errorString "replica fetch error code")
  else match DecodeReplicaFetchResponse resp.(rsf_Payload) with
  | Err err => Err err
  | Ok (errCode, hw, records) =>
      if negb (errCode =? 0) then Err (errorString "replica fetch body error code") else Ok (records, hw)
  end.

(** The follower takes over the leader's watermark, as far as its own log goes. *)
Definition adopt_watermark (topic : string) (partition hw : Z) (b : Broker) : Broker :=
  match get_partition topic partition b with
  | None => b
  | Some p =>
      let localLEO := LogEndOffset p in
      set_partition topic partition (SetHighWatermark (if localLEO <? hw then localLEO else hw) p) b
  end.

(** Where the fetch starts: behind what the log already has. *)
Definition fetch_from (topic : string) (partition : Z) (b : Broker) (offsets : fetch_offsets) : Z :=
  let fetchOff := fetch_offset topic partition offsets in
  match get_partition topic partition b with
  | None => fetchOff
  | Some p => if fetchOff <? LogEndOffset p then LogEndOffset p else fetchOff
  end.

(** What is done with an answer: append, remember the next offset, take over the
    watermark. An error leaves the offset for the next tick. *)
Definition store_fetched (e : Env) (topic : string) (partition fetchOff : Z) (records : list record) (hw : Z)
    (b : Broker) (offsets : fetch_offsets) : Broker * fetch_offsets :=
  match records with
  | [] => (adopt_watermark topic partition hw b, set_fetch_offset topic partition fetchOff offsets)
  | _ =>
      match get_partition topic partition b with
      | None => (b, offsets)
      | Some p =>
          let '((_, err), p) := Partition_AppendBatch (mod_time e b topic partition) e.(e_now) (Some <$> records) p in
          let b := set_partition topic partition p b in
          match err with
          | Some _ => (b, offsets)
          | None => (adopt_watermark topic partition hw b, set_fetch_offset topic partition (LogEndOffset p) offsets)
          end
      end
  end.

Section follower.
Context {N : Type} `{Network N}.

(** A connection of its own for the request; its correlation id is not checked. *)
Definition sendReplicaFetch (localID : Z) (addr topic : string) (partition fetchOffset maxWaitMs : Z) (n : N) :
    result (list record * Z) * N :=
  match EncodeReplicaFetchRequest (mkReplicaFetchRequest localID maxWaitMs topic partition fetchOffset) with
  | Err err => (Err err, n)
  | Ok payload =>
      match Dial addr n with
      | (Err err, n) => (Err err, n)
      | (Ok conn, n) =>
          let frame := mkRequestFrame 0 apiKeyReplicaFetch 1 1 ("replica-" +:+ Itoa localID) payload in
          match RequestFrame_Write frame (mkLink conn n) with
          | (Err err, l) => (Err err, (Conn_Close conn l.(lk_net)).2)
          | (Ok _, l) =>
              let '(arrived, n) := Arrived conn l.(lk_net) in
              (match ReadResponseFrame arrived with
               | (Err err, _) => Err err
               | (Ok resp, _) => replica_records resp
               end, (Conn_Close conn n).2)
          end
      end
  end.

Definition fetch_target (e : Env) (addr : string) (maxWait : Z) (tgt : string * Z) (s : Follower N) : Follower N :=
  let '(topic, partition) := tgt in
  let b := s.(fw_broker) in
  let offsets := match s.(fw_offsets) !! topic with Some _ => s.(fw_offsets) | None => <[topic := ∅]> s.(fw_offsets) end in
  let fetchOff := fetch_from topic partition b offsets in
  match sendReplicaFetch b.(b_localID) addr topic partition fetchOff maxWait s.(fw_net) with
  | (Err _, n) => mkFollower b offsets n
  | (Ok (records, hw), n) =>
      let '(b, offsets) := store_fetched e topic partition fetchOff records hw b offsets in mkFollower b offsets n
  end.

Fixpoint fetch_all_targets (env : nat → Env) (i : nat) (addr : string) (maxWait : Z) (targets : list (string * Z)) (s : Follower N) :
    Follower N :=
  match targets with
  | [] => s
  | tgt :: targets => fetch_all_targets env (S i) addr maxWait targets (fetch_target (env i) addr maxWait tgt s)
  end.

Definition followerFetchOnce (tick : Tick) (leaderID : Z) (s : Follower N) : Follower N :=
  match brokerAddr leaderID s.(fw_broker) with
  | None => s
  | Some addr =>
      fetch_all_targets tick.(tk_env) 0 addr (fetch_wait_max s.(fw_broker))
        (take tick.(tk_turns) (follower_targets tick leaderID s.(fw_broker))) s
  end.

(** The loop, from an empty map of offsets. *)
Definition followerFetchLoop (ticks : list Tick) (leaderID : Z) (b : Broker) (n : N) : Follower N :=
  foldl (λ s tick, followerFetchOnce tick leaderID s) (mkFollower b ∅ n) ticks.
End follower.

(** The leaders that a broker has a fetch loop for. *)
Definition followed_brokers (b : Broker) : list Z := filter (λ id, id ≠ b.(b_localID)) b.(b_replicaIDs).

(** ** A fetch from the leader *)

Lemma length_str_bytes s : length (str_bytes s) = length (to_chars s).
Proof. induction s as [|c s IH]; [done|]. cbn. by f_equal. Qed.

Lemma replica_client_ok id : inS 32 id → zlen (str_bytes ("replica-" +:+ Itoa id)) ≤ 29.
Proof.
  intros Hid. rewrite length_str_bytes, to_chars_app. rewrite length_app.
  assert (Hl : (length (to_chars (Itoa id)) ≤ 21)%nat) by (apply length_Itoa; widths; lia).
  change (length (to_chars "replica-")) with 8%nat. lia.
Qed.

(** The records of a log that is read in full from an offset on. *)
Lemma partition_read_all p o rs fo m : log_view true p.(pt_log) o rs → o ≤ fo → 0 < m ≤ MaxInt32 - MaxRecordSize →
  total_size (drop (Z.to_nat (fo - o)) rs) ≤ m → ∃ p1,
  Partition_ReadFrom fo m p = ((drop (Z.to_nat (fo - o)) rs, None), p1).
Proof.
  intros Hv Ho Hm Hsz. destruct (Log_ReadFrom_rep p.(pt_log) o rs fo m Hv) as (l' & rss & E & Ej & _); [lia|done|].
  rewrite readfrom_ref_all, Ej in E by (lia || by rewrite Ej). unfold Partition_ReadFrom. rewrite E. by eexists.
Qed.

Lemma Dispatch_replica io k b f req hw out b' reply : f.(rqf_ApiKey) = apiKeyReplicaFetch →
  DecodeReplicaFetchRequest f.(rqf_Payload) = Ok req →
  replica_fetch ((io k).(io_env) 0%nat 0%nat) ((io k).(io_env) 0%nat 1%nat) req b = (inr (hw, out), b') →
  EncodeReplicaFetchResponse 0 hw (Some <$> out) = Ok reply →
  Dispatch (broker_mux io) f (k, b) = (mkResponseFrame 0 f.(rqf_CorrelationID) 0 reply, [], (S k, b')).
Proof.
  intros Ek Ed Er Ep.
  assert (Hm : handlers (broker_mux io) !! apiKeyReplicaFetch = Some (registered io apiKeyReplicaFetch)) by reflexivity.
  assert (Hh : broker_handler (io k) apiKeyReplicaFetch = Some (handleReplicaFetch (io k))) by reflexivity.
  unfold Dispatch. unfold HandlerFunc in *. rewrite Ek, Hm. unfold registered. rewrite Hh. unfold handleReplicaFetch.
  by rewrite Ed, Er, Ep.
Qed.

Lemma concat_images rs : concat (record_image <$> rs) = images rs.
Proof. induction rs as [|r rs IH]; [done|]. unfold images in *. cbn. by rewrite IH. Qed.

Lemma encode_replica_request id w topic i fo : str_ok topic →
  EncodeReplicaFetchRequest (mkReplicaFetchRequest id w topic i fo) =
    Ok (be_encode 4 id ++ be_encode 4 w ++ wire_string topic ++ be_encode 4 i ++ be_encode 8 fo).
Proof.
  intros Ht. unfold EncodeReplicaFetchRequest.
  assert (E : put_replica_fetch (mkReplicaFetchRequest id w topic i fo) ([] : bytes) =
    (Ok tt, [] ++ be_encode 4 id ++ be_encode 4 w ++ wire_string topic ++ be_encode 4 i ++ be_encode 8 fo)).
  { unfold put_replica_fetch, PutInt32, PutInt64. put_fields. }
  by rewrite E.
Qed.

(** ** Copies *)

Lemma number_from_consecutive recs : ∀ o, consecutive o recs → number_from o recs = recs.
Proof.
  induction recs as [|r recs IH]; intros o Hc; [done|]. cbn. f_equal.
  - specialize (Hc 0%nat r eq_refl). destruct r. cbn in *. unfold set_Offset. cbn. f_equal. lia.
  - apply IH. intros j x Hj. specialize (Hc (S j) x Hj). lia.
Qed.

(** The follower [bF] has the first records of the leader's partition; [more] is missing. *)
Definition lags (bF bL : Broker) (tgt : string * Z) (o : Z) (rs more : list record) : Prop := ∃ pF pL f,
  get_partition tgt.1 tgt.2 bF = Some pF ∧ get_partition tgt.1 tgt.2 bL = Some pL ∧
  log_view f pF.(pt_log) o rs ∧ log_view true pL.(pt_log) o (rs ++ more) ∧ pF.(pt_highWatermark) ≤ pL.(pt_highWatermark).

Lemma lags_same bF bL bF' bL' tgt o rs more : lags bF bL tgt o rs more →
  get_partition tgt.1 tgt.2 bF' = get_partition tgt.1 tgt.2 bF → get_partition tgt.1 tgt.2 bL' = get_partition tgt.1 tgt.2 bL →
  lags bF' bL' tgt o rs more.
Proof. intros (pF & pL & f & H1 & H2 & H3) E1 E2. exists pF, pL, f. by rewrite E1, E2. Qed.

(** The leader serves the partition, and what is missing fits one answer. *)
Record fetchable (bL : Broker) (offsets : fetch_offsets) (tgt : string * Z) (o : Z) (rs more : list record) : Prop := {
  fe_leads : partitionLeader tgt.1 tgt.2 bL = bL.(b_localID);
  fe_part : inS 32 tgt.2;
  fe_offset : fetch_offset tgt.1 tgt.2 offsets ≤ o + zlen rs;
  fe_bytes : total_size more ≤ replicaMaxBytes bL;
  fe_frame : 20 + total_size more ≤ MaxFrameSize
}.

Lemma fetch_offset_made topic t i offsets :
  fetch_offset t i (match offsets !! topic with Some _ => offsets | None => <[topic := ∅]> offsets end) = fetch_offset t i offsets.
Proof.
  destruct (offsets !! topic) eqn:E; [done|]. unfold fetch_offset. destruct (decide (t = topic)) as [->|Hne].
  - by rewrite lookup_insert_eq, E.
  - by rewrite lookup_insert_ne.
Qed.

Lemma fetch_offset_set topic i v t j offsets : (t, j) ≠ (topic, i) →
  fetch_offset t j (set_fetch_offset topic i v offsets) = fetch_offset t j offsets.
Proof.
  intros Hne. unfold fetch_offset, set_fetch_offset. destruct (decide (t = topic)) as [->|Ht].
  - rewrite lookup_insert_eq. cbn. rewrite lookup_insert_ne by congruence. destruct (offsets !! topic) as [m|]; cbn; [done|].
    by rewrite lookup_empty.
  - by rewrite lookup_insert_ne.
Qed.

(** Taking over the watermark of a partition. *)
Lemma adopt_watermark_ok topic i hw b p : broker_inv b → get_partition topic i b = Some p →
  broker_inv (adopt_watermark topic i hw b) ∧ only_partition topic i b (adopt_watermark topic i hw b) ∧
  ∃ p', get_partition topic i (adopt_watermark topic i hw b) = Some p' ∧ p'.(pt_log) = p.(pt_log) ∧
    p'.(pt_highWatermark) ≤ p.(pt_highWatermark) `max` hw.
Proof.
  intros Hb Hp. unfold adopt_watermark. rewrite Hp. set (h := if _ <? _ then _ else _).
  assert (Hh : h ≤ LogEndOffset p ∧ h ≤ hw) by (unfold h; destruct (Z.ltb_spec (LogEndOffset p) hw); lia).
  destruct (set_hw_reads topic i h p b Hb Hp (proj1 Hh)) as [Hb' [Ho _]]. split; [done|]. split; [done|].
  exists (SetHighWatermark h p). split_and!; [apply set_partition_topics; by eapply get_partition_is_topic|done|].
  cbn. destruct (Z.ltb_spec (pt_highWatermark p) h); lia.
Qed.

(** Appending what was fetched keeps the offsets the leader gave. *)
Lemma append_fetched mt now topic i b p f o rs more : broker_inv b → get_partition topic i b = Some p →
  log_view f p.(pt_log) o rs → more ≠ [] → Forall record_fits more → consecutive (o + zlen rs) more → inS 64 (o + zlen rs + zlen more) → ∃ base p',
  Partition_AppendBatch mt now (Some <$> more) p = ((base, None), p') ∧ broker_inv (set_partition topic i p' b) ∧
  only_partition topic i b (set_partition topic i p' b) ∧ get_partition topic i (set_partition topic i p' b) = Some p' ∧
  log_view f p'.(pt_log) o (rs ++ more) ∧ p'.(pt_highWatermark) = p.(pt_highWatermark).
Proof.
  intros Hb Hp Hv Hne Hfit Hc H64. pose proof (bi_part _ Hb _ _ _ Hp) as Hpo.
  assert (El : LogEndOffset p = o + zlen rs) by (unfold LogEndOffset; by rewrite (log_view_highest _ _ _ _ Hv)).
  destruct (partition_append_fits _ _ _ p mt now more Hpo Hne Hfit) as (p' & E & Hpo' & Hle & Hview); [by rewrite El|].
  exists (LogEndOffset p), p'. split; [done|]. split; [eapply inv_set_partition; [done..|lia]|]. split; [apply only_set_partition|].
  split; [apply set_partition_topics; by eapply get_partition_is_topic|].
  rewrite <- (number_from_consecutive more _ Hc). split; [by apply Hview|].
  unfold Partition_AppendBatch in E. destruct (pt_closeCh p); [done|]. destruct (AppendBatch _ _ _ _). by injection E as _ <-.
Qed.

Lemma store_fetched_ok e topic i b offsets p f o rs more hw fo : broker_inv b → get_partition topic i b = Some p →
  log_view f p.(pt_log) o rs → Forall record_fits more → consecutive (o + zlen rs) more → inS 64 (o + zlen rs + zlen more) →
  let '(b', offsets') := store_fetched e topic i fo more hw b offsets in
  broker_inv b' ∧ only_partition topic i b b' ∧
  (∀ t j, (t, j) ≠ (topic, i) → fetch_offset t j offsets' = fetch_offset t j offsets) ∧
  ∃ p', get_partition topic i b' = Some p' ∧ log_view f p'.(pt_log) o (rs ++ more) ∧
    p'.(pt_highWatermark) ≤ p.(pt_highWatermark) `max` hw.
Proof.
  intros Hb Hp Hv Hfit Hc H64. unfold store_fetched. destruct more as [|r more].
  - destruct (adopt_watermark_ok topic i hw b p Hb Hp) as (Hb' & Ho & p' & Hp' & El & Hh). rewrite app_nil_r.
    split_and!; [done|done|intros; by apply fetch_offset_set|]. exists p'. by rewrite El.
  - rewrite Hp. destruct (append_fetched (mod_time e b topic i) e.(e_now) topic i b p f o rs (r :: more) Hb Hp Hv)
      as (base & p1 & E & Hb1 & Ho1 & Hp1 & Hv1 & Hh1); [done..|]. rewrite E.
    destruct (adopt_watermark_ok topic i hw _ p1 Hb1 Hp1) as (Hb' & Ho & p' & Hp' & El & Hh). rewrite Hh1 in Hh.
    split_and!; [done|by eapply only_partition_trans|intros; by apply fetch_offset_set|]. exists p'. by rewrite El.
Qed.

Section served.
Context {N : Type} `{Network N, !ServedBy N (nat * Broker)} (io : nat → IO) (limit : Z) `{!Serves (broker_mux io) limit}.

(** A request written without a buffer, and what arrives. *)
Lemma write_and_arrive f c (n : N) : idle c n → request_wf (request_sized f) →
  limit ≤ 0 ∨ (request_sized f).(rqf_Size) ≤ limit →
  response_wf (sized (Dispatch (broker_mux io) (request_sized f) (net_state n)).1.1) → ∃ sz l n',
  RequestFrame_Write f (mkLink c n) = (Ok sz, l) ∧
  Arrived c l.(lk_net) = (response_wire (Dispatch (broker_mux io) (request_sized f) (net_state n)).1.1, n') ∧
  net_state n' = (Dispatch (broker_mux io) (request_sized f) (net_state n)).2 ∧ others c n n'.
Proof.
  intros [Hc Hs] Hwf Hlim Hresp.
  destruct (@RequestFrame_Write_ok _ _ (Link_WriterOk (m:=broker_mux io) (limit:=limit) c n) (request_sized f) (mkLink c n) Hwf)
    as (l & E & (Hlc & Ho & Hns & Hot) & Ew); [split_and!; [done|done|done|by split]|].
  change (RequestFrame_Write f (mkLink c n)) with (RequestFrame_Write (request_sized f) (mkLink c n)).
  cbn in Ew. rewrite Hs in Ew. rewrite <- Hns in *.
  destruct (serves_arrive c l.(lk_net) (request_sized f)) as (n' & Ea & _ & Hs' & Hot'); [done|exact Ew|done|done|done|].
  exists (4 + rqf_Size (request_sized f)), l, n'. split_and!; [done|done|done|]. by eapply others_trans.
Qed.

(** What a fetch needs: the leader [b] with partition [p], and sizes that fit. *)
Record replica_call (n : N) (k : nat) (b : Broker) (id : Z) (addr topic : string) (i fo w : Z) (p : Partition) : Prop := {
  rl_listens : net_listens addr n;
  rl_state : net_state n = (k, b);
  rl_env j : EnvOk ((io k).(io_env) 0%nat j);
  rl_inv : broker_inv b;
  rl_remote : id ≠ b.(b_localID);
  rl_id : inS 32 id;
  rl_wait : inS 32 w;
  rl_part : inS 32 i;
  rl_offset : inS 64 fo;
  rl_found : get_partition topic i b = Some p;
  rl_leads : partitionLeader topic i b = b.(b_localID);
  rl_limit : limit ≤ 0 ∨ 2 ^ 17 ≤ limit
}.

(** The frames of a fetch: the request decodes to what was asked, the answer to the
    records and the watermark. *)
Lemma replica_frames id w topic i fo hw out (payload := be_encode 4 id ++ be_encode 4 w ++ wire_string topic ++ be_encode 4 i ++ be_encode 8 fo)
    (reply := be_encode 2 0 ++ be_encode 8 hw ++ images out)
    (f := mkRequestFrame 0 apiKeyReplicaFetch 1 1 ("replica-" +:+ Itoa id) payload) (r := mkResponseFrame 0 1 0 reply) :
  replica_fetch_wf (mkReplicaFetchRequest id w topic i fo) → inS 64 hw → Forall record_fits out → 20 + total_size out ≤ MaxFrameSize →
  limit ≤ 0 ∨ 2 ^ 17 ≤ limit →
  request_wf (request_sized f) ∧ (limit ≤ 0 ∨ (request_sized f).(rqf_Size) ≤ limit) ∧ response_wf (sized r) ∧
  DecodeReplicaFetchRequest payload = Ok (mkReplicaFetchRequest id w topic i fo) ∧ replica_records (sized r) = Ok (out, hw).
Proof.
  intros Hwf H64 Hfit Hsz Hlim. pose proof Hwf as (I1 & _ & Hname & _). cbn [rfq_ReplicaID rfq_Topic] in I1, Hname.
  destruct (replica_fetch_roundtrip _ 0 hw out [] Hwf) as [(bs & Eq & Dq) (bs' & Ep & Dp)]; [by_decide|exact H64|exact Hfit|by left|].
  rewrite (encode_replica_request _ _ _ _ _ Hname) in Eq. injection Eq as <-. rewrite app_nil_r in Dp.
  rewrite (encode_replica_response _ _ _ Hfit) in Ep. injection Ep as <-.
  rewrite concat_images in Dp. fold payload in Dq. fold reply in Dp.
  assert (Hl1 : zlen payload = 22 + zlen (str_bytes topic)) by (unfold payload, wire_string; len).
  assert (Hl2 : zlen reply = 10 + total_size out) by (unfold reply; rewrite !length_app, !length_be_encode, <- length_images; lia).
  pose proof (replica_client_ok id I1) as Hcl. unfold MaxFrameSize, str_ok in *. change (2 ^ 17) with 131072 in Hlim. pose proof (total_size_nonneg out).
  set (client := "replica-" +:+ Itoa id) in *.
  assert (Hsize : rqf_Size (request_sized f) = 14 + zlen (str_bytes client) + zlen payload) by reflexivity.
  split_and!.
  - split_and!; [by_decide|by_decide|by_decide|unfold str_ok; cbn [rqf_ClientID request_sized f]; widths; lia
      |unfold bytes_ok, MaxBytesLength; cbn [rqf_Payload request_sized f]; widths; lia|reflexivity|rewrite Hsize; unfold MaxFrameSize; widths; lia].
  - rewrite Hsize. destruct Hlim; [by left|right]. widths. lia.
  - split_and!; [by_decide|by_decide|unfold bytes_ok, MaxBytesLength; cbn [rsf_Payload sized r]; lia|reflexivity|].
    cbn [rsf_Size sized r rsf_Payload]. unfold MaxFrameSize. lia.
  - exact Dq.
  - unfold replica_records. cbn [sized r rsf_ErrorCode rsf_Payload]. by rewrite Dp.
Qed.

Lemma sendReplicaFetch_served n k b id addr topic i fo w p out p1 : replica_call n k b id addr topic i fo w p →
  Partition_ReadFrom fo (replicaMaxBytes b) p = ((out, None), p1) → 20 + total_size out ≤ MaxFrameSize → ∃ hw n' b' p',
  sendReplicaFetch id addr topic i fo w n = (Ok (out, hw), n') ∧ net_state n' = (S k, b') ∧
  (∀ a, net_listens a n → net_listens a n') ∧ broker_inv b' ∧ reads_partition topic i b b' ∧
  (∀ n' i', partitionLeader n' i' b' = partitionLeader n' i' b) ∧
  0 ≤ hw ≤ LogEndOffset p ∧ get_partition topic i b' = Some p' ∧ hw ≤ p'.(pt_highWatermark).
Proof.
  intros [Hl Hst He Hb Hid I1 I2 I3 I4 Hp Hlead Hlim] Er Hsz.
  set (req := mkReplicaFetchRequest id w topic i fo).
  destruct (get_partition_topic _ _ _ _ Hp) as (t & Ht & _). destruct (bi_topic _ Hb _ _ Ht) as (_ & Hvn & _).
  pose proof (valid_name_ok _ _ Hvn) as Hname.
  destruct (replica_fetch_served ((io k).(io_env) 0%nat 0%nat) ((io k).(io_env) 0%nat 1%nat) req b p out p1 Hp Hlead Er) as (hw & b' & Ef).
  pose proof (He 0%nat). pose proof (He 1%nat).
  destruct (replica_fetch_spec _ _ req b _ b' Hb I4 Hid Ef) as (Hb' & Hr & Hlead' & Hhw).
  destruct (Hhw hw out eq_refl) as [Hrange (p' & Hp' & Hle)]. cbn [rfq_Topic rfq_Partition req] in *. rewrite (leo_eq _ _ _ _ Hp) in Hrange.
  assert (Hfit : Forall record_fits out).
  { apply Forall_forall. intros r Hin. destruct (po_log _ _ _ _ (bi_part _ Hb _ _ _ Hp)) as (fl & o & rs & Hv).
    destruct (partition_read_ok _ _ _ _ _ _ _ _ (bi_part _ Hb _ _ _ Hp) Er) as (_ & _ & Hread).
    apply (log_view_sizes _ _ _ _ r Hv). by apply (Hread fl o rs Hv). }
  assert (H64 : inS 64 hw).
  { destruct (po_log _ _ _ _ (bi_part _ Hb _ _ _ Hp)) as (fl & o & rs & Hv). destruct (log_view_range _ _ _ _ Hv).
    unfold LogEndOffset in Hrange. rewrite (log_view_highest _ _ _ _ Hv) in Hrange. widths. lia. }
  destruct (replica_frames id w topic i fo hw out) as (Hwf & Hsize & Hresp & Dq & Dr);
    [split_and!; [exact I1|exact I2|exact Hname|exact I3|exact I4]|exact H64|exact Hfit|exact Hsz|exact Hlim|].
  set (f := mkRequestFrame 0 apiKeyReplicaFetch 1 1 _ _) in *. set (r := mkResponseFrame 0 1 0 _) in *.
  assert (ED : Dispatch (broker_mux io) (request_sized f) (k, b) = (r, [], (S k, b'))).
  { apply (Dispatch_replica io k b (request_sized f) req hw out b'); [reflexivity|exact Dq|exact Ef|]. by rewrite <- concat_images, encode_replica_response. }
  destruct (serves_dial addr n Hl) as (c & n1 & E1 & Hi & Hs1 & [Hl1 _] & _). rewrite Hst in Hs1.
  destruct (write_and_arrive f c n1 Hi Hwf Hsize) as (sz & l & n2 & Ew & Ea & Hs2 & [Hl2 _]); [rewrite Hs1, ED; exact Hresp|].
  rewrite Hs1, ED in Ea, Hs2. cbn [fst snd] in Ea, Hs2.
  destruct (serves_close (m:=broker_mux io) (limit:=limit) c n2) as (Hs3 & Hl3 & _).
  exists hw, (Conn_Close c n2).2, b', p'. split; [|rewrite Hs3; split_and!; [exact Hs2|auto|exact Hb'|exact Hr|exact Hlead'|lia|lia|exact Hp'|exact Hle]].
  unfold sendReplicaFetch. rewrite (encode_replica_request _ _ _ _ _ Hname), E1. fold f. rewrite Ew, Ea. unfold response_wire.
  rewrite <- (app_nil_r (response_bytes _)), read_response_bytes by exact Hresp. by rewrite Dr.
Qed.

(** A follower on one side of the network, its leader on the other. *)
Record following (addr : string) (s : Follower N) (k : nat) (bL : Broker) : Prop := {
  fl_listens : net_listens addr s.(fw_net);
  fl_state : net_state s.(fw_net) = (k, bL);
  fl_follower : broker_inv s.(fw_broker);
  fl_leader : broker_inv bL;
  fl_ids : s.(fw_broker).(b_localID) ≠ bL.(b_localID);
  fl_id : inS 32 s.(fw_broker).(b_localID);
  fl_max : replicaMaxBytes bL ≤ MaxInt32 - MaxRecordSize
}.

(** One fetch makes the follower's partition a copy of the leader's. *)
Lemma fetch_target_ok e addr w tgt s k bL o rs more : (∀ k j, EnvOk ((io k).(io_env) 0%nat j)) → inS 32 w →
  limit ≤ 0 ∨ 2 ^ 17 ≤ limit → following addr s k bL → lags s.(fw_broker) bL tgt o rs more → fetchable bL s.(fw_offsets) tgt o rs more →
  let s' := fetch_target e addr w tgt s in ∃ bL', following addr s' (S k) bL' ∧
  only_partition tgt.1 tgt.2 s.(fw_broker) s'.(fw_broker) ∧ only_partition tgt.1 tgt.2 bL bL' ∧
  (∀ n' i', partitionLeader n' i' bL' = partitionLeader n' i' bL) ∧
  (∀ t j, (t, j) ≠ tgt → fetch_offset t j s'.(fw_offsets) = fetch_offset t j s.(fw_offsets)) ∧
  lags s'.(fw_broker) bL' tgt o (rs ++ more) [].
Proof.
  destruct tgt as [topic i]. destruct s as [b offsets n].
  intros He I2 Hlim [Hl Hst Hb HbL Hid I1 Hmax] (pF & pL & f & HpF & HpL & HvF & HvL & Hhw) [F1 F2 F3 F4 F5].
  cbn [fw_broker fw_offsets fw_net fst snd] in *.
  destruct (log_view_range _ _ _ _ HvL) as [H0 H64]. rewrite length_app in H64.
  assert (ELF : LogEndOffset pF = o + zlen rs) by (unfold LogEndOffset; by rewrite (log_view_highest _ _ _ _ HvF)).
  unfold fetch_target. cbn [fw_broker fw_offsets fw_net]. set (offs := match offsets !! topic with Some _ => _ | None => _ end).
  assert (Hoffs : ∀ t j, fetch_offset t j offs = fetch_offset t j offsets) by (intros; apply fetch_offset_made).
  assert (Efo : fetch_from topic i b offs = o + zlen rs).
  { unfold fetch_from. rewrite HpF, ELF, Hoffs. destruct (Z.ltb_spec (fetch_offset topic i offsets) (o + zlen rs)); lia. }
  rewrite Efo. destruct (partition_read_all pL o (rs ++ more) (o + zlen rs) (replicaMaxBytes bL) HvL) as (p1 & Er);
    [lia|split; [unfold replicaMaxBytes; split_ifs|done]|by rewrite drop_app_length' by lia|].
  rewrite drop_app_length' in Er by lia.
  destruct (sendReplicaFetch_served n k bL b.(b_localID) addr topic i (o + zlen rs) w pL more p1) as
    (hw & n' & bL' & pL' & Es & Hst' & Hl' & HbL' & [HoL HrL] & HldL & Hhw' & HpL' & Hle); [|exact Er|exact F5|].
  { constructor; [exact Hl|exact Hst|exact (He k)|exact HbL|exact Hid|exact I1|exact I2|exact F2|widths; lia|exact HpL|exact F1|exact Hlim]. }
  rewrite Es. destruct (HrL pL HpL) as (pL2 & HpL2 & _ & Hmono & HvL2). rewrite HpL' in HpL2. injection HpL2 as <-.
  assert (Hfit : Forall record_fits more).
  { apply Forall_forall. intros r Hr. apply (log_view_sizes _ _ _ _ r HvL). apply elem_of_app. by right. }
  assert (Hc : consecutive (o + zlen rs) more).
  { pose proof (consecutive_drop o (rs ++ more) (length rs) (log_view_consecutive _ _ _ _ HvL)) as Hc. by rewrite drop_app_length in Hc. }
  pose proof (store_fetched_ok e topic i b offs pF f o rs more hw (o + zlen rs) Hb HpF HvF Hfit Hc) as Hok.
  destruct (store_fetched _ _ _ _ _ _ _ _) as [b' offsets']. destruct Hok as (Hb' & Ho & Hoff & pF' & HpF' & HvF' & Hh); [widths; lia|].
  exists bL'. split.
  { constructor; cbn [fw_broker fw_net]; [by apply Hl'|done|done|done| | |].
    - destruct Ho as ((_ & _ & -> & _) & _), HoL as ((_ & _ & -> & _) & _). done.
    - by destruct Ho as ((_ & _ & -> & _) & _).
    - unfold replicaMaxBytes in *. by destruct HoL as ((-> & _) & _). }
  split_and!; try done.
  - intros t j Hne. by rewrite Hoff, Hoffs.
  - exists pF', pL', f. rewrite app_nil_r. split_and!; [done|done|done|by apply HvL2|lia].
Qed.

(** The other partitions are not touched, and can be fetched as before. *)
Lemma fetchable_kept bL bL' offsets offsets' tgt tgt' o rs more : fetchable bL offsets tgt' o rs more → only_partition tgt.1 tgt.2 bL bL' →
  (∀ n' i', partitionLeader n' i' bL' = partitionLeader n' i' bL) →
  fetch_offset tgt'.1 tgt'.2 offsets' = fetch_offset tgt'.1 tgt'.2 offsets → fetchable bL' offsets' tgt' o rs more.
Proof.
  intros [F1 F2 F3 F4 F5] ((Hc & _ & Hid & _) & _) Hl Ho.
  constructor; [by rewrite Hl, Hid|done|by rewrite Ho| |done]. unfold replicaMaxBytes in *. by rewrite Hc.
Qed.

Lemma fetch_all_targets_ok env addr w (o : string * Z → Z) (rs more : string * Z → list record) targets :
  (∀ k j, EnvOk ((io k).(io_env) 0%nat j)) → inS 32 w → limit ≤ 0 ∨ 2 ^ 17 ≤ limit →
  ∀ i s k bL, following addr s k bL → NoDup targets →
  (∀ tgt, tgt ∈ targets → lags s.(fw_broker) bL tgt (o tgt) (rs tgt) (more tgt) ∧ fetchable bL s.(fw_offsets) tgt (o tgt) (rs tgt) (more tgt)) →
  let s' := fetch_all_targets env i addr w targets s in ∃ k' bL', following addr s' k' bL' ∧
  (∀ t j, (t, j) ∉ targets → get_partition t j s'.(fw_broker) = get_partition t j s.(fw_broker) ∧ get_partition t j bL' = get_partition t j bL) ∧
  ∀ tgt, tgt ∈ targets → lags s'.(fw_broker) bL' tgt (o tgt) (rs tgt ++ more tgt) [].
Proof.
  intros He Hw Hlim. induction targets as [|tgt targets IH]; intros i s k bL Hf Hnd Hr; cbn [fetch_all_targets].
  { exists k, bL. split_and!; [done|done|]. by intros tgt ?%not_elem_of_nil. }
  apply NoDup_cons in Hnd as [Hni Hnd]. destruct (Hr tgt ltac:(left)) as [Hlag Hfe].
  destruct (fetch_target_ok (env i) addr w tgt s k bL _ _ _ He Hw Hlim Hf Hlag Hfe) as (bL1 & Hf1 & HoF & HoL & Hlead & Hoff & Hcopy).
  set (s1 := fetch_target (env i) addr w tgt s) in *.
  assert (Hsame : ∀ tgt', tgt' ≠ tgt → get_partition tgt'.1 tgt'.2 s1.(fw_broker) = get_partition tgt'.1 tgt'.2 s.(fw_broker) ∧
    get_partition tgt'.1 tgt'.2 bL1 = get_partition tgt'.1 tgt'.2 bL).
  { intros [t j] Hne. destruct tgt as [t0 j0], HoF as (_ & _ & _ & HF), HoL as (_ & _ & _ & HL). by rewrite HF, HL. }
  destruct (IH (S i) s1 (S k) bL1 Hf1 Hnd) as (k' & bL' & Hf' & Hrest & Hcopies).
  { intros tgt' Hin. destruct (Hr tgt' ltac:(by right)) as [Hlag' Hfe'].
    assert (Hne : tgt' ≠ tgt) by (by intros ->). destruct (Hsame tgt' Hne) as [S1 S2].
    split; [by eapply lags_same|]. eapply fetchable_kept; [done..|]. apply Hoff. by destruct tgt'. }
  exists k', bL'. split_and!; [done| |].
  - intros t j [Hne Hnin]%not_elem_of_cons. destruct (Hrest t j Hnin) as [-> ->]. by apply (Hsame (t, j)).
  - intros tgt' [->|Hin]%elem_of_cons; [|by apply Hcopies]. destruct tgt as [t j]. destruct (Hrest t j Hni). by eapply lags_same.
Qed.
End served.

Lemma follower_targets_NoDup tick leaderID b : (∀ m, tick.(tk_topics) m ≡ₚ (map_to_list m).*1) →
  (∀ m, tick.(tk_partitions) m ≡ₚ (map_to_list m).*1) → NoDup (follower_targets tick leaderID b).
Proof.
  intros Ht Hp. unfold follower_targets. apply NoDup_bind.
  - intros n1 n2 [t i] _ _ H1 H2. destruct (b_topics b !! n1); [|by apply not_elem_of_nil in H1].
    destruct (b_topics b !! n2); [|by apply not_elem_of_nil in H2].
    apply list_elem_of_fmap in H1 as (? & [= <- _] & _), H2 as (? & [= <- _] & _). done.
  - intros n _. destruct (b_topics b !! n); [|constructor]. apply NoDup_fmap; [by intros ? ? [= ]|]. apply NoDup_filter.
    rewrite Hp. apply NoDup_fst_map_to_list.
  - rewrite Ht. apply NoDup_fst_map_to_list.
Qed.


(** ** When the watermark moves *)

Lemma part_leo_int64 cfg n i p : part_ok cfg n i p → inS 64 (LogEndOffset p).
Proof.
  intros Hp. destruct (po_log _ _ _ _ Hp) as (f & o & rs & Hv). destruct (log_view_range _ _ _ _ Hv).
  unfold LogEndOffset. by rewrite (log_view_highest _ _ _ _ Hv).
Qed.

(** The two updates of a replica fetch, for a partition with this broker and the
    follower as replicas. *)
Lemma fetch_updates_watermark e1 e2 `{EnvOk e1, EnvOk e2} topic i id p b hw1 b1 hw b2 : broker_inv b → get_partition topic i b = Some p →
  partitionLeader topic i b = b.(b_localID) → id ≠ b.(b_localID) →
  (∀ k, k ∈ dom (getOrCreateISRTracker e1 topic i b).1.(isr_replicas) → k = b.(b_localID) ∨ k = id) →
  updateLeaderLEO e1 topic i (LogEndOffset p) b = (hw1, b1) →
  updateReplicaLEO e2 topic i id (LogEndOffset p) (LogEndOffset p) b1 = (hw, b2) → hw = LogEndOffset p.
Proof.
  intros Hb Hp Hl Hid Hreps E1 E2. set (L := LogEndOffset p) in *. set (loc := b_localID b) in *.
  assert (HL : 0 ≤ L) by (eapply part_leo_nonneg, bi_part; [exact Hb|exact Hp]).
  assert (Hleo : leo b topic i = L) by apply (leo_eq _ _ _ _ Hp).
  unfold updateLeaderLEO, updateReplicaLEO in E1. fold loc in E1. destruct (getOrCreateISRTracker e1 topic i b) as [t b0] eqn:E0. cbn [fst] in Hreps.
  destruct (getOrCreateISRTracker_spec _ _ _ _ _ _ Hb E0) as (_ & Ht & _). rewrite Hl, Hleo in Ht. fold loc in Ht.
  destruct (UpdateLEO_ok e1.(e_trackerNow) e1.(e_replicas) loc L L L loc t Ht HL) as [Ht1 Hown]; [done|by left|].
  pose proof (UpdateLEO_entries e1.(e_trackerNow) e1.(e_replicas) loc L L t) as Hent.
  destruct (UpdateLEO _ _ loc L L t) as [h1 t1]. cbn [snd] in *. injection E1 as <- <-.
  unfold updateReplicaLEO, getOrCreateISRTracker in E2. rewrite getISRTracker_set, bool_decide_true in E2 by done.
  pose proof (UpdateLEO_all e2.(e_trackerNow) e2.(e_replicas) id L L L loc t1 Ht1 HL) as Hall.
  destruct (UpdateLEO _ _ id L L t1) as [h t2]. injection E2 as <- _. apply Hall; [done|done|by right|].
  intros k rep Hk Hne. destruct (Hent k rep Hk) as [[_ ?]|(Hk1 & rep0 & Hk0 & _)]; [done|].
  destruct (Hreps k) as [->| ->]; [apply elem_of_dom; by eexists|done|done].
Qed.

(** Up to the updates, a replica fetch changes neither the replicas of the tracker nor
    the end of the log. *)
Lemma fetch_tracker e n i p b : dom (getOrCreateISRTracker e n i (set_partition n i p (isLeader n i b).2)).1.(isr_replicas) =
  dom (getOrCreateISRTracker e n i b).1.(isr_replicas).
Proof.
  destruct (isLeader n i b) as [l b1] eqn:E. apply isLeader_spec in E as (_ & Hl & Hb). cbn [snd]. rewrite !tracker_found.
  assert (getISRTracker n i (set_partition n i p b1) = getISRTracker n i b ∧ b_replicaIDs (set_partition n i p b1) = b_replicaIDs b) as [-> ->].
  { unfold set_partition. destruct Hb as [->|[x ->]]; by destruct (_ !! n). }
  by destruct (getISRTracker n i b).
Qed.

(** The answer of the leader, and its watermark. *)
Lemma replica_fetch_commits e1 e2 `{EnvOk e1, EnvOk e2} req b p recs r p1 : broker_inv b → inS 64 req.(rfq_FetchOffset) →
  req.(rfq_ReplicaID) ≠ b.(b_localID) → get_partition req.(rfq_Topic) req.(rfq_Partition) b = Some p →
  partitionLeader req.(rfq_Topic) req.(rfq_Partition) b = b.(b_localID) →
  (∀ k, k ∈ dom (getOrCreateISRTracker e1 req.(rfq_Topic) req.(rfq_Partition) b).1.(isr_replicas) →
    k = b.(b_localID) ∨ k = req.(rfq_ReplicaID)) →
  Partition_ReadFrom req.(rfq_FetchOffset) (replicaMaxBytes b) p = ((recs ++ [r], None), p1) →
  r.(rec_Offset) + 1 = LogEndOffset p → ∃ b',
  replica_fetch e1 e2 req b = (inr (LogEndOffset p, recs ++ [r]), b').
Proof.
  intros Hb Ho Hid Hp Hl Hreps Er Hlast. set (n := rfq_Topic req) in *. set (i := rfq_Partition req) in *.
  assert (H64 : inS 64 (LogEndOffset p)) by (eapply part_leo_int64, bi_part; [exact Hb|exact Hp]).
  pose proof (λ p, fetch_tracker e1 n i p b) as Htr. unfold replica_fetch. fold n i. rewrite Hp. destruct (isLeader n i b) as [leads b1] eqn:El.
  pose proof (isLeader_only n i b) as Ho1. pose proof (inv_isLeader n i b Hb) as Hb1. rewrite El in Ho1, Hb1. cbn [snd] in Ho1, Hb1, Htr.
  destruct (only_replication_partition n i _ _ Ho1) as [Hs1 Hg1]. apply isLeader_spec in El as (-> & Hlead & _).
  rewrite Hl, Z.eqb_refl. cbn [negb]. destruct Hs1 as ((Hc1 & _ & Hloc1 & _) & _).
  replace (replicaMaxBytes b1) with (replicaMaxBytes b) by (unfold replicaMaxBytes; by rewrite Hc1). rewrite Er, last_snoc.
  assert (Hp1 : get_partition n i b1 = Some p) by by rewrite Hg1.
  destruct (inv_read_partition _ _ _ _ _ _ _ _ Hb1 Hp1 Er) as (Hb2 & [((_ & _ & Hloc2 & _) & _) _] & Hp2 & (_ & Hle & _)).
  set (b2 := set_partition n i p1 b1) in *. rewrite Hloc1 in Hloc2.
  assert (Hl2 : partitionLeader n i b2 = b_localID b2).
  { rewrite Hloc2, <- Hl, <- Hlead. unfold b2, set_partition. by destruct (_ !! n). }
  rewrite Hlast, wrapS_small by (done || lia). rewrite <- Hle.
  destruct (updateLeaderLEO e1 n i (LogEndOffset p1) b2) as [hw1 b3] eqn:E3.
  destruct (updateReplicaLEO e2 n i _ _ _ b3) as [hw b4] eqn:E4.
  assert (hw = LogEndOffset p1) as ->; [|by eexists].
  apply (fetch_updates_watermark e1 e2 n i req.(rfq_ReplicaID) p1 b2 hw1 b3 hw b4 Hb2 Hp2 Hl2); [congruence| |done|done].
  intros k. unfold b2 at 1. rewrite Htr, Hloc2. apply Hreps.
Qed.

(** C38: the leader counts the records of an answer as stored by the follower that
    asked for them: with this follower as the only other replica, the high watermark
    is at the end of the log before the answer is on its way, whether or not it
    arrives. *)
Theorem watermark_before_copy e1 e2 `{EnvOk e1, EnvOk e2} req b p recs r p1 : broker_inv b → inS 64 req.(rfq_FetchOffset) →
  req.(rfq_ReplicaID) ≠ b.(b_localID) → get_partition req.(rfq_Topic) req.(rfq_Partition) b = Some p →
  partitionLeader req.(rfq_Topic) req.(rfq_Partition) b = b.(b_localID) →
  (∀ k, k ∈ dom (getOrCreateISRTracker e1 req.(rfq_Topic) req.(rfq_Partition) b).1.(isr_replicas) →
    k = b.(b_localID) ∨ k = req.(rfq_ReplicaID)) →
  Partition_ReadFrom req.(rfq_FetchOffset) (replicaMaxBytes b) p = ((recs ++ [r], None), p1) →
  r.(rec_Offset) + 1 = LogEndOffset p → ∃ b' p',
  replica_fetch e1 e2 req b = (inr (LogEndOffset p, recs ++ [r]), b') ∧
  get_partition req.(rfq_Topic) req.(rfq_Partition) b' = Some p' ∧ p'.(pt_highWatermark) = LogEndOffset p' ∧
  LogEndOffset p' = LogEndOffset p ∧ req.(rfq_FetchOffset) ≤ r.(rec_Offset).
Proof.
  intros Hb Ho Hid Hp Hl Hreps Er Hlast. set (n := rfq_Topic req) in *. set (i := rfq_Partition req) in *.
  destruct (replica_fetch_commits e1 e2 req b p recs r p1 Hb Ho Hid Hp Hl Hreps Er Hlast) as [b' E].
  destruct (replica_fetch_spec e1 e2 req b _ b' Hb Ho Hid E) as (Hb' & [_ Hr] & _ & Hhw).
  destruct (Hhw _ _ eq_refl) as [_ (p' & Hp' & Hge)]. fold n i in Hp', Hr. destruct (Hr p Hp) as (p2 & Hp2 & Hle & _).
  rewrite Hp' in Hp2. injection Hp2 as <-. pose proof (po_hw _ _ _ _ (bi_part _ Hb' _ _ _ Hp')).
  exists b', p'. split_and!; [done|done|lia|done|]. destruct (po_log _ _ _ _ (bi_part _ Hb _ _ _ Hp)) as (f & o & rs & Hv).
  destruct (partition_read_ok _ _ _ _ _ _ _ _ (bi_part _ Hb _ _ _ Hp) Er) as (_ & _ & Hread).
  apply (Hread f o rs Hv). apply elem_of_app. right. left.
Qed.

(** ** A cluster of two brokers *)

Definition cluster_cfg (id : Z) : AppConfig :=
  WithDefaults (mkAppConfig (mkBrokerConfig id EmptyString 9092 EmptyString 0 0 EmptyString)
    (mkLogConfig 1048576 0 0 0 0 0 0 0 0) (mkTopicConfig true 0 0) (mkReplicationConfig 0 0 0 0) (mkGroupConfig 0 0 0 0)
    [mkClusterBroker 1 "leader" 9092; mkClusterBroker 2 "follower" 9092]).

Lemma cluster_storage_ok id : storage_ok (cluster_cfg id) ["data"] orders_storage orders_metadata
  (replicate (Z.to_nat (offset_partitions sample_cfg)) []).
Proof.
  destruct orders_storage_ok as [S1 S2 S3 S4 S5 S6 S7 S8 S9 S10].
  assert (E1 : storageConfigFrom (cluster_cfg id) = storageConfigFrom sample_cfg) by reflexivity.
  assert (E2 : offset_partitions (cluster_cfg id) = offset_partitions sample_cfg) by reflexivity.
  constructor; rewrite ?E1, ?E2; [exact S1|exact S2|exact S3|exact S4|exact S5|exact S6|exact S7|exact S8|exact S9|exact S10].
Qed.

(** Broker 1 leads partition 0 of the topic; the log is empty. *)
Lemma cluster_broker id : int32 (bc_ID (cfg_Broker (cluster_cfg id))) = id → ∃ b q, broker_inv b ∧ started b ∧ b.(b_config) = cluster_cfg id ∧
  b.(b_localID) = id ∧ b.(b_replicaIDs) = [1; 2] ∧ b.(b_metaManager) = orders_metadata ∧
  partitionLeader "orders" 0 b = 1 ∧ get_partition "orders" 0 b = Some q ∧ log_view true q.(pt_log) 0 [].
Proof.
  intros Hid. destruct (orders_broker_of _ _ (cluster_storage_ok id)) as (b & q & E & [Hb _] & Hc & Hl & Hr & Hm & _ & Hq & Hv).
  pose proof (started_New _ _ _ _ _ _ _ E) as Hs. change (clusterReplicaIDs (cluster_cfg id)) with [1; 2] in Hr.
  exists b, q. split; [exact Hb|]. split; [exact Hs|]. split; [exact Hc|]. split; [by rewrite Hl|]. split; [exact Hr|]. split; [exact Hm|].
  split; [|split; [exact Hq|exact Hv]]. rewrite (sd_leader b Hs), Hr. reflexivity.
Qed.

Definition sample_stored : list record := number_from 0 (record_of 7 <$> sample_msgs).

Lemma sample_stored_fits : Forall record_fits sample_stored.
Proof. change (Forall storable sample_stored). by_decide. Qed.

(** The leader with two records in its log. *)
Lemma cluster_leader : ∃ b p, broker_inv b ∧ b.(b_localID) = 1 ∧ b.(b_config) = cluster_cfg 1 ∧ partitionLeader "orders" 0 b = 1 ∧
  (∀ e k, k ∈ dom (getOrCreateISRTracker e "orders" 0 b).1.(isr_replicas) → k = 1 ∨ k = 2) ∧
  get_partition "orders" 0 b = Some p ∧ log_view true p.(pt_log) 0 sample_stored.
Proof.
  destruct (cluster_broker 1) as (b & q & Hb & Hs & Hc & Hl & Hr & _ & Hlead & Hq & Hv); [reflexivity|].
  destruct (append_fetched (λ _, 0) 5 "orders" 0 b q true 0 [] sample_stored Hb Hq Hv) as (_ & p & _ & Hb' & Ho & Hp & Hv' & _);
    [discriminate|exact sample_stored_fits| |by_decide|].
  { intros j r Hj. destruct j as [|[|j]]; [injection Hj as <-; reflexivity..|discriminate]. }
  assert (Hsame : b_localID (set_partition "orders" 0 p b) = b_localID b ∧ b_config (set_partition "orders" 0 p b) = b_config b ∧
    partitionLeader "orders" 0 (set_partition "orders" 0 p b) = partitionLeader "orders" 0 b ∧
    (∀ e, (getOrCreateISRTracker e "orders" 0 (set_partition "orders" 0 p b)).1 = (getOrCreateISRTracker e "orders" 0 b).1)).
  { unfold set_partition. destruct (b_topics b !! "orders"); split_and!; try done. intros e. by rewrite !tracker_found. }
  destruct Hsame as (S1 & S2 & S3 & S4). exists (set_partition "orders" 0 p b), p. rewrite S1, S2, S3.
  split; [exact Hb'|]. split; [exact Hl|]. split; [exact Hc|]. split; [exact Hlead|]. split; [|split; [exact Hp|exact Hv']].
  intros e k Hk. rewrite S4 in Hk. apply (tracker_started e "orders" 0 b k Hs) in Hk. rewrite Hr in Hk.
  apply elem_of_cons in Hk as [?|?%list_elem_of_singleton]; [by left|by right].
Qed.

Definition sample_tick : Tick := mkTick (λ _, sample_env) (λ m, (map_to_list m).*1) (λ m, (map_to_list m).*1) 8.

(** The follower fetches that partition and no other. *)
Lemma cluster_targets b q : broker_inv b → b.(b_metaManager) = orders_metadata → partitionLeader "orders" 0 b = 1 →
  get_partition "orders" 0 b = Some q → (∀ tgt, tgt ∈ follower_targets sample_tick 1 b ↔ tgt = ("orders", 0)).
Proof.
  intros Hb Hm Hlead Hq [n i]. unfold follower_targets. rewrite list_elem_of_bind. split.
  - intros (n' & Hin & _). destruct (b_topics b !! n') as [t|] eqn:Ht; [|by apply not_elem_of_nil in Hin].
    apply list_elem_of_fmap in Hin as (i' & [= -> ->] & [_ Hi]%list_elem_of_filter).
    destruct (bi_topic _ Hb _ _ Ht) as (_ & _ & m & Hmm & Hids). rewrite Hm, (proj2 orders_metadata_ok) in Hmm.
    apply lookup_singleton_Some in Hmm as [<- <-].
    apply list_elem_of_fmap in Hi as ([i0 p] & -> & Hp%elem_of_map_to_list). destruct (proj1 (Hids i0)) as [H0 H1]; [by eexists|].
    cbn in H1 |- *. f_equal. lia.
  - intros [= -> ->]. destruct (get_partition_topic _ _ _ _ Hq) as (t & Ht & Hp). exists "orders". rewrite Ht. split.
    + apply list_elem_of_fmap. exists 0. split; [done|]. apply list_elem_of_filter. split; [exact Hlead|].
      apply list_elem_of_fmap. exists (0, q). by rewrite elem_of_map_to_list.
    + apply list_elem_of_fmap. exists ("orders", t). by rewrite elem_of_map_to_list.
Qed.

Section sample.
#[local] Existing Instance Served_By.
#[local] Instance cluster_network : Network (Served (nat * Broker)) := Served_Network (broker_mux quiet_io) 0.
#[local] Instance cluster_serves : Serves (N:=Served (nat * Broker)) (broker_mux quiet_io) (request_limit 0) :=
  Served_Serves (broker_mux quiet_io) 0.

End sample.

(** The follower has nothing yet; the leader's watermark is at 2. *)
Lemma watermark_before_copy_witness : ∃ b b' p',
  replica_fetch sample_env sample_env (mkReplicaFetchRequest 2 500 "orders" 0 0) b = (inr (2, sample_stored), b') ∧
  get_partition "orders" 0 b' = Some p' ∧ p'.(pt_highWatermark) = 2.
Proof.
  destruct cluster_leader as (b & p & Hb & Hl & Hc & Hlead & Htr & Hp & Hv).
  assert (El : LogEndOffset p = 2) by exact (log_view_highest _ _ _ _ Hv).
  destruct (partition_read_all p 0 sample_stored 0 (replicaMaxBytes b) Hv) as (p1 & Er);
    [lia|unfold replicaMaxBytes; rewrite Hc; by_decide|unfold replicaMaxBytes; rewrite Hc; by_decide|].
  destruct (watermark_before_copy sample_env sample_env (mkReplicaFetchRequest 2 500 "orders" 0 0) b p (take 1 sample_stored)
    (set_Offset 1 (record_of 7 (mkMessage (Some [x6b]) (Some [x62; x63]) 0 9))) p1) as (b' & p' & E & Hp' & Hhw & Hle & _);
    [exact Hb|by_decide|rewrite Hl; discriminate|exact Hp|cbn [rfq_Topic rfq_Partition]; by rewrite Hlead, Hl|intros k Hk; rewrite Hl; by apply (Htr sample_env)|exact Er|by rewrite El|].
  rewrite El in E, Hle. exists b, b', p'. split; [exact E|]. split; [exact Hp'|]. by rewrite Hhw.
Defined.
