(* ===== verification/GroupJoin.v ===== *)
(** * Joining a group over the network (src/pkg/client/group_consumer.go, src/internal/broker)

    The first consumer of a group: its join makes it the leader, it asks for the
    metadata, assigns every partition to itself, syncs, and takes its positions from the
    offset store or from the ends of the logs. Five requests, each through the network,
    the mux and the handler of the broker. *)
From Stdlib Require Import ZArith Lia Strings.Byte.
From stdpp Require Import base list strings gmap.
From S2P Require Import Prelude Files Decimal Record Index Segment PartitionLog Recovery Retention LogFacts Codec Frame Requests Responses Server Assignor Sizes Group Checkpoint Replication Config Json Topic Metadata Partition Offsets Broker Handlers BrokerInv BrokerOps BrokerRun Restart EndToEnd Standalone Network Consumer Producer Delivery GroupConsumer GroupDelivery.
Open Scope Z_scope.

(** ** The assignment of a single member *)

Lemma NoDup_by_fst {A B} `{EqDecision A} (l : list (A * B)) : (∀ a, NoDup (filter (λ x, x.1 = a) l).*2) → NoDup l.
Proof.
  induction l as [|[a b] l IH]; intros H; [constructor|]. constructor.
  - intros Hin. specialize (H a). rewrite filter_cons_True in H by done. apply NoDup_cons in H as [H _]. apply H.
    apply list_elem_of_fmap. exists (a, b). split; [done|]. by apply list_elem_of_filter.
  - apply IH. intros a'. specialize (H a'). rewrite filter_cons in H. case_decide; [|done]. by apply NoDup_cons in H as [_ H].
Qed.

Lemma NoDup_below (l : list Z) n : NoDup l → (∀ x, x ∈ l → 0 ≤ x < n) → zlen l ≤ Z.max 0 n.
Proof.
  intros Hnd Hl. assert (Hs : l ⊆+ seqZ 0 n).
  { apply NoDup_submseteq; [done|]. intros x Hx. apply elem_of_seqZ. specialize (Hl x Hx). lia. }
  apply submseteq_length in Hs. rewrite length_seqZ in Hs. lia.
Qed.

(** The sizes of topics in an encoding, [c] bytes for a partition. *)
Definition topics_size (c : Z) (counts : gmap string Z) : Z :=
  zsum ((λ t, 6 + zlen (str_bytes t) + c * Z.max 0 (default 0 (counts !! t))) <$> sorted_topics counts).

Lemma assigned_pairs ma t : (filter (λ x, x.1 = t) (assigned_partitions ma)).*2 = filter (λ pa, pa.(pa_Topic) = t) ma.(ma_Topics) ≫= pa_Partitions.
Proof.
  unfold assigned_partitions, TopicPartition. destruct ma as [l]. cbn. induction l as [|[t' ps] l IH]; [done|]. cbn [mbind list_bind]. rewrite filter_app, fmap_app, IH. cbn [pa_Topic pa_Partitions].
  rewrite filter_cons. cbn [pa_Topic]. case_decide as Ht.
  - cbn [mbind list_bind pa_Partitions]. f_equal. clear -Ht. subst. induction ps as [|p ps IH]; [done|]. rewrite fmap_cons, filter_cons_True, fmap_cons, IH by done. done.
  - rewrite <- (app_nil_l (_ ≫= _)) at 1. f_equal. clear -Ht. induction ps as [|p ps IH]; [done|]. by rewrite fmap_cons, filter_cons_False.
Qed.

Lemma nonempty_elem mm m topics pa : pa ∈ nonempty_parts mm m topics → pa.(pa_Topic) ∈ topics ∧ pa.(pa_Partitions) = parts mm m pa.(pa_Topic).
Proof.
  induction topics as [|t topics IH]; [by intros ?%not_elem_of_nil|]. rewrite nonempty_cons, elem_of_app. intros [Hp|Hp].
  - destruct (parts mm m t) eqn:E; [by apply not_elem_of_nil in Hp|]. apply list_elem_of_singleton in Hp as ->. cbn. rewrite E. split; [left|done].
  - apply IH in Hp as [H1 H2]. split; [by right|done].
Qed.

Lemma nonempty_sum mm m (f : PartitionAssignment → Z) (g : string → Z) topics :
  (∀ t, t ∈ topics → 0 ≤ g t ∧ f (mkPartitionAssignment t (parts mm m t)) ≤ g t) → zsum (f <$> nonempty_parts mm m topics) ≤ zsum (g <$> topics).
Proof.
  induction topics as [|t topics IH]; intros H; [done|]. rewrite nonempty_cons, fmap_app, zsum_app. cbn [fmap list_fmap zsum foldr].
  specialize (IH (λ t Ht, H t (list_elem_of_further _ _ _ Ht))). destruct (H t ltac:(left)) as [H0 Hf]. change (foldr Z.add 0 (g <$> topics)) with (zsum (g <$> topics)).
  destruct (parts mm m t); cbn [fmap list_fmap zsum foldr]; lia.
Qed.

Lemma single_assignment name a m counts : GetAssignor name = Ok a → (∀ t n, counts !! t = Some n → str_ok t ∧ inS 32 n) →
  zlen (sorted_topics counts) ≤ MaxInt32 → ∃ ma,
  Assign a [m] counts = {[m := ma]} ∧ assignment_wf ma ∧ NoDup (assigned_partitions ma) ∧
  (∀ t p, (t, p) ∈ assigned_partitions ma ↔ ∃ n, counts !! t = Some n ∧ 0 ≤ p < n) ∧
  zsum ((λ t, 6 + zlen (str_bytes t.(pa_Topic)) + 4 * zlen t.(pa_Partitions)) <$> ma.(ma_Topics)) ≤ topics_size 4 counts.
Proof.
  intros Ha Hc Hlen. destruct (Assign_exact name a [m] counts Ha) as (_ & Hall & Honly & Hnd); [done|intros t n Hn; by destruct (Hc t n Hn)|].
  destruct (Assign_collect name a [m] counts Ha) as [mm Er]; [done|]. set (r := Assign a [m] counts) in *.
  destruct (sorted_topics_spec counts) as [Hts Ht]. change (sort_Strings [m]) with [m] in Er.
  set (ma := mkMemberAssignment (nonempty_parts mm m (sorted_topics counts))).
  assert (Em : r !! m = Some ma) by (rewrite Er, lookup_collect, decide_True by left; done).
  assert (Hp : ∀ t, (filter (λ x, x.1 = t) (assigned_partitions ma)).*2 = assigned r m t) by (intros t; rewrite assigned_pairs; unfold assigned; by rewrite Em).
  assert (Hin : ∀ t p, (t, p) ∈ assigned_partitions ma ↔ p ∈ assigned r m t).
  { intros t p. rewrite <- Hp, list_elem_of_fmap. setoid_rewrite list_elem_of_filter. split; [by intros; exists (t, p)|].
    intros ([t' p'] & E1 & E2 & Hm); cbn in *; by subst. }
  assert (Hparts : ∀ t, t ∈ sorted_topics counts → ∃ n, counts !! t = Some n ∧ NoDup (parts mm m t) ∧ ∀ p, p ∈ parts mm m t → 0 ≤ p < n).
  { intros t Htt. assert (Ea : assigned r m t = parts mm m t) by (unfold assigned; rewrite Em; by apply nonempty_filter).
    pose proof Htt as [n Hn]%Ht. exists n. rewrite <- Ea. split; [done|]. split; [apply Hnd|]. intros p (n' & Hn' & Hr)%Honly. congruence. }
  exists ma. split; [|split; [|split; [|split]]].
  - apply map_eq. intros m'. rewrite Er, lookup_collect. destruct (decide (m' = m)) as [->|Hne].
    + rewrite decide_True by left. by rewrite lookup_singleton_eq.
    + rewrite decide_False, lookup_singleton_ne; [done..|]. by intros ->%list_elem_of_singleton.
  - split.
    + cbn [ma_Topics ma]. assert (Hl : zsum ((λ _, 1) <$> nonempty_parts mm m (sorted_topics counts)) ≤ zsum ((λ _, 1) <$> sorted_topics counts)) by (apply nonempty_sum; lia).
      rewrite !zsum_ones in Hl. lia.
    + apply Forall_forall. intros pa [Hpt Epa]%nonempty_elem. destruct (Hparts _ Hpt) as (n & Hn & Hd & Hr). destruct (Hc _ _ Hn) as [Hs H32].
      rewrite <- Epa in Hd, Hr. split; [done|]. pose proof (NoDup_below _ n Hd Hr). split; [widths; lia|].
      apply Forall_forall. intros p Hpp. specialize (Hr p Hpp). widths. lia.
  - apply NoDup_by_fst. intros t. rewrite Hp. apply Hnd.
  - intros t p. rewrite Hin. split; [apply Honly|]. intros (n & Hn & Hr). destruct (Hall t n p Hn Hr) as (m' & ->%list_elem_of_singleton & H & _). done.
  - apply nonempty_sum. intros t Htt. destruct (Hparts _ Htt) as (n & Hn & Hd & Hr). rewrite Hn. cbn [default from_option id pa_Topic pa_Partitions].
    pose proof (NoDup_below _ n Hd Hr). unfold id. lia.
Qed.

(** ** The coordinator *)

(** The group does not exist yet, or has lost its members. *)
Definition vacant (id : string) (gc : Coordinator) : Prop := ∀ g, gc.(gc_groups) !! id = Some g → g.(g_Members) = ∅.
Definition next_generation (id : string) (gc : Coordinator) : Z :=
  int32 (match gc.(gc_groups) !! id with Some g => g.(g_GenerationID) | None => 0 end + 1).

(** A group with one member that leads it. *)
Definition sole_group (id ptype proto : string) (state : GroupState) (gen : Z) (m : Member) : Group :=
  mkGroup id state gen m.(mb_ID) ptype proto {[m.(mb_ID) := m]}.

Lemma iter_singleton iter `{MapOrder iter} k (m : Member) : iter {[k := m]} = [k].
Proof. apply Permutation_singleton_r. by rewrite (iter_perm {[k := m]}), map_to_list_singleton. Qed.

Lemma member_id_not_empty client rnd : generateMemberID client rnd ≠ EmptyString.
Proof. by destruct client. Qed.

Lemma str_bytes_app s1 s2 : zlen (str_bytes (s1 +:+ s2)) = zlen (str_bytes s1) + zlen (str_bytes s2).
Proof. induction s1 as [|c s1 IH]; [done|]. change (str_bytes (String c s1 +:+ s2)) with (Ascii.byte_of_ascii c :: str_bytes (s1 +:+ s2)).
  change (str_bytes (String c s1)) with (Ascii.byte_of_ascii c :: str_bytes s1). cbn [length]. lia. Qed.

Lemma member_id_length client rnd : zlen (str_bytes (generateMemberID client rnd)) = zlen (str_bytes client) + 1 + 2 * zlen rnd.
Proof.
  unfold generateMemberID. rewrite !str_bytes_app. change (zlen (str_bytes "-")) with 1.
  enough (zlen (str_bytes (EncodeToString rnd)) = 2 * zlen rnd) by lia. induction rnd as [|c rnd IH]; [done|]. cbn [EncodeToString].
  change (zlen (str_bytes (String ?a (String ?b ?t)))) with (Z.of_nat (S (S (length (str_bytes t))))). cbn [length]. lia.
Qed.

(** The ID a member joins with: its own, or a new one. *)
Definition joined_id (memberID client : string) (rnd : bytes) : string :=
  if bool_decide (memberID = EmptyString) then generateMemberID client rnd else memberID.

Lemma joined_id_not_empty memberID client rnd : joined_id memberID client rnd ≠ EmptyString.
Proof. unfold joined_id. case_bool_decide; [apply member_id_not_empty|done]. Qed.

Lemma joined_id_length memberID client rnd : zlen (str_bytes memberID) ≤ 16401 → zlen (str_bytes client) ≤ 16384 → length rnd = 8%nat →
  zlen (str_bytes (joined_id memberID client rnd)) ≤ 16401.
Proof. intros Hm Hc Hr. unfold joined_id. case_bool_decide; [|done]. rewrite member_id_length, Hr. lia. Qed.

Lemma join_vacant now rnd iter1 iter2 `{MapOrder iter1, MapOrder iter2} req client gc : coord_inv gc → req.(jgq_GroupID) ≠ EmptyString →
  vacant req.(jgq_GroupID) gc → let mID := joined_id req.(jgq_MemberID) client rnd in
  let meta := match req.(jgq_Protocols) with p :: _ => p.(jgp_Metadata) | [] => [] end in
  let proto := match req.(jgq_Protocols) with p :: _ => p.(jgp_Name) | [] => EmptyString end in
  let gen := next_generation req.(jgq_GroupID) gc in ∃ ptype,
  JoinGroup now rnd iter1 iter2 req client gc = (mkJoinGroupResponse ErrNone gen proto mID mID [mkJoinGroupMember mID meta],
    set_group (sole_group req.(jgq_GroupID) ptype proto StatePreparingRebalance gen (mkMember mID req.(jgq_SessionTimeoutMs) now meta [] gc.(gc_nextChan)))
      (mkCoordinator gc.(gc_groups) gc.(gc_chans) (S gc.(gc_nextChan)))).
Proof.
  intros Hci Hid Hv mID meta proto gen. unfold JoinGroup. rewrite bool_decide_false by done. fold (joined_id req.(jgq_MemberID) client rnd). fold mID.
  assert (Hg : ∃ ptype, join_group req gc = mkGroup req.(jgq_GroupID) StateEmpty (match gc.(gc_groups) !! req.(jgq_GroupID) with Some g => g.(g_GenerationID) | None => 0 end)
    EmptyString ptype (join_group req gc).(g_ProtocolName) ∅).
  { unfold join_group. destruct (gc.(gc_groups) !! req.(jgq_GroupID)) as [g|] eqn:Eg; [|by eexists].
    destruct (ci_groups _ Hci _ _ Eg) as (Eid & _ & Hgi). specialize (Hv _ Eg). exists g.(g_ProtocolType).
    pose proof (proj2 (gi_empty _ Hgi) Hv) as E1. pose proof (gi_no_leader _ Hgi Hv) as E2. clear Hgi Eg. destruct g. cbn in *. by subst. }
  destruct Hg as [ptype ->]. exists ptype. cbn [g_ID g_State g_GenerationID g_LeaderID g_ProtocolType g_Members]. rewrite lookup_empty, insert_empty.
  rewrite (bool_decide_true (StateEmpty = StateStable ∨ StateEmpty = StateEmpty)) by (by right). unfold transitionToRebalanceLocked. cbn [g_ID g_State g_GenerationID g_LeaderID g_ProtocolType g_ProtocolName g_Members].
  unfold AssignmentCleared. rewrite map_fmap_singleton, iter_singleton by done. cbn [foldl]. rewrite (bool_decide_true (EmptyString = EmptyString)) by done.
  rewrite (bool_decide_false (mID = EmptyString)) by apply joined_id_not_empty. cbn [g_ID g_State g_GenerationID g_LeaderID g_ProtocolType g_ProtocolName g_Members].
  rewrite (bool_decide_true (mID = mID)), iter_singleton by done. cbn [omap list_omap]. rewrite lookup_singleton_eq. done.
Qed.

(** The leader of a group that only it is in syncs: the group is stable, and its
    response is in its channel. *)
Lemma sync_sole now iter `{MapOrder iter} id ptype proto gen m bs gc : gc.(gc_groups) !! id = Some (sole_group id ptype proto StatePreparingRebalance gen m) →
  gc.(gc_chans) !! m.(mb_syncRespCh) = None → ∃ gc1 gc2,
  SyncGroup now iter (mkSyncGroupRequest id gen m.(mb_ID) [mkSyncGroupAssignment m.(mb_ID) bs]) gc = (inr m.(mb_syncRespCh), gc1) ∧
  sync_receive m.(mb_syncRespCh) gc1 = Some (mkSyncGroupResponse ErrNone bs, gc2) ∧
  gc2.(gc_groups) = <[id := sole_group id ptype proto StateStable gen (set_assignment bs (set_heartbeat now m))]> gc.(gc_groups) ∧
  gc2.(gc_chans) = gc.(gc_chans) ∧ gc2.(gc_nextChan) = gc.(gc_nextChan).
Proof.
  intros Eg Ec. unfold SyncGroup. cbn [sgq_GroupID sgq_GenerationID sgq_MemberID sgq_Assignments]. rewrite Eg. cbn [sole_group g_GenerationID g_Members].
  rewrite Z.eqb_refl. cbn [negb]. rewrite lookup_singleton_eq. cbn [g_LeaderID sole_group]. rewrite bool_decide_true by done. cbn [andb length].
  change (0 <? Z.of_nat 1) with true. cbv iota. unfold assign_members. cbn [foldl sga_Assignment sga_MemberID].
  rewrite insert_singleton_eq, alter_singleton_eq, iter_singleton by done. unfold notify_members. cbn [foldl]. rewrite lookup_singleton_eq. unfold try_send.
  cbn [mb_syncRespCh set_assignment set_heartbeat]. rewrite Ec. eexists _, _. split; [reflexivity|]. unfold sync_receive, set_group. cbn [gc_chans gc_groups].
  rewrite lookup_insert_eq. split; [reflexivity|]. cbn [gc_groups gc_chans gc_nextChan g_ID]. split; [done|]. split; [by apply delete_insert_id|done].
Qed.

(** ** Committed offsets *)

Lemma Fetch_range s rss g t p : store_inv s rss → inS 64 (Fetch g t p s).
Proof.
  intros Hs. unfold Fetch. rewrite (si_cache _ _ Hs).
  assert (Hc : ∀ rs c, map_Forall (λ _ v, inS 64 v) c → map_Forall (λ _ v, inS 64 v) (foldl replay_record c rs)).
  { induction rs as [|r rs IH]; intros c Hc; [done|]. apply IH. unfold replay_record. destruct (rec_Key r) as [[|k0 k]|]; [done| |done].
    destruct (rec_Value r) as [v|]; [|done]. destruct (Z.ltb_spec (zlen v) 8); [done|]. apply map_Forall_insert_2; [|done].
    assert (Hl : length (take 8 v) = 8%nat) by (rewrite length_take; lia). pose proof (be_signed_range (take 8 v)) as Hr. rewrite Hl in Hr.
    apply Hr. intros E. by rewrite E in Hl. }
  destruct (foldl replay_record ∅ (mjoin rss) !! offset_key g t p) as [v|] eqn:E; [|by_decide].
  apply (Hc (mjoin rss) ∅ (map_Forall_empty _) _ _ E).
Qed.

(** ** Partitions by topic *)

Lemma by_topic_lookup {A} (l : list (string * A)) t : default [] (by_topic l !! t) = (filter (λ x, x.1 = t) l).*2.
Proof.
  unfold by_topic. set (f := λ (m : gmap string (list A)) '(t, x), <[t := default [] (m !! t) ++ [x]]> m). enough (H : ∀ m, default [] (foldl f m l !! t) = default [] (m !! t) ++ (filter (λ x, x.1 = t) l).*2)
    by (rewrite H, lookup_empty; done).
  induction l as [|[t' x] l IH]; intros m; [by rewrite app_nil_r|]. cbn [foldl]. rewrite IH. unfold f at 1. rewrite filter_cons. cbn [fst]. case_decide as Ht.
  - subst t'. rewrite lookup_insert_eq. cbn [fmap list_fmap default from_option]. unfold id. by rewrite <- app_assoc.
  - by rewrite lookup_insert_ne.
Qed.

Lemma by_topic_keys {A} (l : list (string * A)) t : is_Some (by_topic l !! t) ↔ t ∈ l.*1.
Proof.
  unfold by_topic. set (f := λ (m : gmap string (list A)) '(t, x), <[t := default [] (m !! t) ++ [x]]> m). enough (H : ∀ m, is_Some (foldl f m l !! t) ↔ is_Some (m !! t) ∨ t ∈ l.*1)
    by (rewrite H, lookup_empty, is_Some_alt; naive_solver).
  induction l as [|[t' x] l IH]; intros m; [cbn; rewrite elem_of_nil; tauto|]. cbn [foldl]. rewrite IH. unfold f at 1. cbn [fmap list_fmap fst].
  rewrite lookup_insert_is_Some, elem_of_cons. destruct (decide (t' = t)); naive_solver.
Qed.

(** The entries of a map of lists, in an order of its keys. *)
Definition flatten {A} (m : gmap string (list A)) (order : list string) : list (string * A) :=
  t ← order; pair t <$> default [] (m !! t).

Lemma flatten_by_topic {A} (l : list (string * A)) order : order ≡ₚ (map_to_list (by_topic l)).*1 → ∀ x, x ∈ flatten (by_topic l) order ↔ x ∈ l.
Proof.
  intros Ho [t x]. unfold flatten. rewrite list_elem_of_bind. setoid_rewrite list_elem_of_fmap. setoid_rewrite by_topic_lookup.
  setoid_rewrite list_elem_of_fmap. setoid_rewrite list_elem_of_filter. split.
  - intros (t' & (x' & [= -> ->] & [t1 x1] & -> & [E Hin]) & _). cbn in *. by subst.
  - intros Hin. exists t. split; [exists x; split; [done|]; by exists (t, x)|]. rewrite Ho. apply list_elem_of_fmap.
    assert (Hs : is_Some (by_topic l !! t)) by (apply by_topic_keys, list_elem_of_fmap; by exists (t, x)). destruct Hs as [v Hv].
    exists (t, v). split; [done|]. by apply elem_of_map_to_list.
Qed.

(** ** Positions *)

Lemma insert_all {K V} `{Countable K} (F : K → V) (l : list (K * V)) : (∀ k v, (k, v) ∈ l → v = F k) → ∀ (m : gmap K V) k,
  foldl (λ m '(k, v), <[k := v]> m) m l !! k = if decide (k ∈ l.*1) then Some (F k) else m !! k.
Proof.
  induction l as [|[k' v] l IH]; intros HF m k; cbn [foldl]; [by rewrite decide_False by apply not_elem_of_nil|].
  rewrite (IH (λ k v Hk, HF k v (list_elem_of_further _ _ _ Hk))). cbn [fmap list_fmap fst]. destruct (decide (k ∈ l.*1)) as [Hin|Hin].
  - by rewrite decide_True by by right.
  - destruct (decide (k' = k)) as [->|Hne].
    + rewrite lookup_insert_eq, decide_True by left. f_equal. apply HF. left.
    + rewrite lookup_insert_ne by done. rewrite decide_False; [done|]. intros [->|?]%elem_of_cons; done.
Qed.

Lemma foldl_pairs {A B C} (f : A → C → A) (g : B → C) a l : foldl (λ a x, f a (g x)) a l = foldl f a (g <$> l).
Proof. revert a. induction l as [|x l IH]; intros a; [done|]. apply IH. Qed.

(** Where a consumer of [group] starts: at its committed offset, if there is one. *)
Definition committed (group : string) (b : Broker) (tp : TopicPartition) : Z :=
  let off := Fetch group tp.1 tp.2 b.(b_offsetStore) in if 0 <=? off then off else -1.

Lemma committed_reply ord group b assigned offsets tp : (∀ m, ord.(or_parts) m ≡ₚ (map_to_list m).*1) →
  committed_offsets (handleOffsetFetch (offset_fetch_request ord group assigned) b).1 offsets !! tp =
    if decide (tp ∈ assigned) then Some (committed group b tp) else offsets !! tp.
Proof.
  intros Ho. unfold committed_offsets. cbn [handleOffsetFetch offset_fetch_request fst ofs_Topics ofq_Topics ofq_GroupID].
  set (topicMap := by_topic assigned). set (order := or_parts ord topicMap).
  set (mk := λ t, mkOffsetFetchResponseTopic t ((λ pID, mkOffsetFetchResponsePartition pID (Fetch group t pID b.(b_offsetStore)) ErrNone) <$> default [] (topicMap !! t))).
  rewrite <- list_fmap_compose. change (foldl ?f offsets (?g <$> order)) with (foldl f offsets (mk <$> order)).
  set (entry := λ tp : TopicPartition, (tp, committed group b tp)).
  assert (E : ∀ m : gmap TopicPartition Z, foldl (λ m t, foldl (λ m p, <[(t.(oftr_Name), p.(ofp_PartitionID)) := if 0 <=? p.(ofp_Offset) then p.(ofp_Offset) else -1]> m) m t.(oftr_Partitions)) m (mk <$> order) =
    foldl (λ (m : gmap TopicPartition Z) '(k, v), <[k := v]> m) m (entry <$> flatten topicMap order)).
  { generalize order. clear. induction order as [|t order IH]; intros m; [done|]. cbn [fmap list_fmap foldl]. rewrite IH. unfold flatten. cbn [mbind list_bind]. rewrite fmap_app, foldl_app. f_equal.
    cbn [mk oftr_Partitions oftr_Name]. generalize (default [] (topicMap !! t)). clear. intros l. revert m. induction l as [|p l IH]; intros m; [done|]. cbn [fmap list_fmap foldl]. apply IH. }
  rewrite E, (insert_all (committed group b)).
  - apply decide_ext. rewrite <- list_fmap_compose. change (fst ∘ entry) with (λ tp : TopicPartition, tp). rewrite list_fmap_id. apply flatten_by_topic, Ho.
  - intros k v (tp' & [= -> ->] & _)%list_elem_of_fmap. done.
Qed.

(** Where it starts without one. *)
Definition reset_offset (timestamp : Z) (b : Broker) (tp : TopicPartition) : Z :=
  (list_offset b tp.1 (mkListOffsetsRequestPartition tp.2 timestamp)).(lsp_Offset).

Lemma listed_reply ord timestamp b need offsets tp : (∀ m, ord.(or_lists) m ≡ₚ (map_to_list m).*1) →
  (∀ tp, tp ∈ need → is_Some (get_partition tp.1 tp.2 b)) →
  listed_offsets (handleListOffsets (list_offsets_request ord timestamp need) b).1 offsets !! tp =
    if decide (tp ∈ need) then Some (reset_offset timestamp b tp) else offsets !! tp.
Proof.
  intros Ho Hex. unfold listed_offsets. cbn [handleListOffsets list_offsets_request fst los_Topics loq_Topics].
  set (ask := λ '(t, p), (t, mkListOffsetsRequestPartition p timestamp)). set (topicMap := by_topic (ask <$> need)). set (order := or_lists ord topicMap).
  assert (Hfl : ∀ x, x ∈ flatten topicMap order ↔ x ∈ ask <$> need) by (apply flatten_by_topic, Ho).
  set (mk := λ t, mkListOffsetsResponseTopic t (list_offset b t <$> default [] (topicMap !! t))).
  rewrite <- list_fmap_compose. change (foldl ?f offsets (?g <$> order)) with (foldl f offsets (mk <$> order)).
  set (entry := λ x : string * ListOffsetsRequestPartition, ((x.1, x.2.(lop_PartitionID)), (list_offset b x.1 x.2).(lsp_Offset))).
  assert (Hcode : ∀ x, x ∈ flatten topicMap order → (list_offset b x.1 x.2).(lsp_ErrorCode) = 0 ∧ (list_offset b x.1 x.2).(lsp_PartitionID) = x.2.(lop_PartitionID)).
  { intros x ([t p] & -> & Hin)%Hfl%list_elem_of_fmap. cbn [ask fst snd]. unfold list_offset. cbn [lop_PartitionID]. destruct (Hex _ Hin) as [q Hq]. cbn in Hq. by rewrite Hq. }
  assert (E : ∀ m : gmap TopicPartition Z, foldl (λ m t, foldl (λ m p, if p.(lsp_ErrorCode) =? 0 then <[(t.(lst_Name), p.(lsp_PartitionID)) := p.(lsp_Offset)]> m else m)
      m t.(lst_Partitions)) m (mk <$> order) = foldl (λ (m : gmap TopicPartition Z) '(k, v), <[k := v]> m) m (entry <$> flatten topicMap order)).
  { revert Hcode. generalize order. clear. induction order as [|t order IH]; intros Hcode m; [done|]. cbn [fmap list_fmap foldl]. unfold flatten in *. cbn [mbind list_bind] in *.
    rewrite IH by (intros x Hx; apply Hcode, elem_of_app; by right). rewrite fmap_app, foldl_app. f_equal. cbn [mk lst_Partitions lst_Name].
    assert (Hc : ∀ q, q ∈ default [] (topicMap !! t) → (list_offset b t q).(lsp_ErrorCode) = 0 ∧ (list_offset b t q).(lsp_PartitionID) = q.(lop_PartitionID))
      by (intros q Hq; apply (Hcode (t, q)), elem_of_app; left; by apply list_elem_of_fmap_2).
    clear Hcode. revert m Hc. generalize (default [] (topicMap !! t)). clear. intros l. induction l as [|q l IH]; intros m Hc; [done|]. cbn [fmap list_fmap foldl].
    destruct (Hc q ltac:(left)) as [-> ->]. cbn [Z.eqb]. apply IH. intros q' Hq'. apply Hc. by right. }
  rewrite E, (insert_all (reset_offset timestamp b)).
  - apply decide_ext. rewrite <- list_fmap_compose, list_elem_of_fmap. setoid_rewrite Hfl. setoid_rewrite list_elem_of_fmap. split.
    + intros (x & -> & [t p] & -> & Hin). done.
    + intros Hin. destruct tp as [t p]. exists (ask (t, p)). split; [done|]. by exists (t, p).
  - intros k v (x & [= -> ->] & Hx)%list_elem_of_fmap. apply Hfl, list_elem_of_fmap in Hx as ([t p] & -> & _). done.
Qed.

(** ** Sizes and well-formedness *)

(** Distinct partitions of the counted topics. *)
Definition within (counts : gmap string Z) (l : list TopicPartition) : Prop :=
  NoDup l ∧ ∀ t p, (t, p) ∈ l → ∃ n, counts !! t = Some n ∧ 0 ≤ p < n.

Lemma within_filter counts (P : TopicPartition → Prop) `{!∀ x, Decision (P x)} l : within counts l → within counts (filter P l).
Proof. intros [H1 H2]. split; [by apply NoDup_filter|]. intros t p [_ Hp]%list_elem_of_filter. by apply H2. Qed.

Lemma within_topic counts l t : within counts l → t ∈ l.*1 → ∃ n, counts !! t = Some n ∧ NoDup (filter (λ x, x.1 = t) l).*2 ∧
  ∀ p, p ∈ (filter (λ x, x.1 = t) l).*2 → 0 ≤ p < n.
Proof.
  intros [Hnd Hw] ([t' p'] & -> & Hin)%list_elem_of_fmap. destruct (Hw _ _ Hin) as (n & Hn & _). exists n. cbn [fst]. split; [done|]. split.
  - apply NoDup_fmap_2_strong; [|by apply NoDup_filter]. intros [t1 p1] [t2 p2] [E1 _]%list_elem_of_filter [E2 _]%list_elem_of_filter E. cbn in *. by subst.
  - intros p ([t1 p1] & -> & [E Hp]%list_elem_of_filter)%list_elem_of_fmap. cbn in *. subst t1. destruct (Hw _ _ Hp) as (n' & Hn' & Hr). congruence.
Qed.

Lemma zsum_submseteq {A} (f : A → Z) l1 l2 : l1 ⊆+ l2 → (∀ x, x ∈ l2 → 0 ≤ f x) → zsum (f <$> l1) ≤ zsum (f <$> l2).
Proof.
  intros [k Hk]%submseteq_Permutation Hf. rewrite (zsum_perm (f <$> l2) (f <$> (l1 ++ k))) by by rewrite Hk.
  rewrite fmap_app, zsum_app. assert (0 ≤ zsum (f <$> k)); [|lia].
  assert (Hf' : ∀ x, x ∈ k → 0 ≤ f x) by (intros x Hx; apply Hf; rewrite Hk; apply elem_of_app; by right).
  clear -Hf'. induction k as [|x k IH]; [done|]. unfold zsum in *. cbn [fmap list_fmap foldr]. specialize (IH (λ y Hy, Hf' y (list_elem_of_further _ _ _ Hy))).
  specialize (Hf' x ltac:(left)). lia.
Qed.

Section grouped.
Context {A : Type} (h : Z → A) (counts : gmap string Z) (l : list TopicPartition) (order : list string).
Let grouped := by_topic ((λ tp : TopicPartition, (tp.1, h tp.2)) <$> l).
Hypothesis Hl : within counts l.
Hypothesis Horder : order ≡ₚ (map_to_list grouped).*1.

Lemma grouped_lookup t : default [] (grouped !! t) = h <$> (filter (λ x, x.1 = t) l).*2.
Proof.
  unfold grouped. rewrite by_topic_lookup. clear. induction l as [|[t' p] l' IH]; [done|]. cbn [fmap list_fmap fst snd]. rewrite !filter_cons. cbn [fst].
  case_decide; cbn [fmap list_fmap snd]; by rewrite IH.
Qed.

Lemma grouped_topic t : t ∈ order → ∃ n, counts !! t = Some n ∧ zlen (default [] (grouped !! t)) ≤ Z.max 0 n ∧
  ∀ x, x ∈ default [] (grouped !! t) → ∃ p, x = h p ∧ 0 ≤ p < n.
Proof.
  rewrite Horder. intros ([t' v] & -> & Hin%elem_of_map_to_list)%list_elem_of_fmap. cbn [fst].
  assert (Hk : t' ∈ l.*1). { assert (Hs : is_Some (grouped !! t')) by by eexists. apply by_topic_keys in Hs. rewrite <- list_fmap_compose in Hs. done. }
  destruct (within_topic _ _ _ Hl Hk) as (n & Hn & Hnd & Hr). exists n. rewrite grouped_lookup, length_fmap. split; [done|]. split; [by apply NoDup_below|].
  intros x (p & -> & Hp)%list_elem_of_fmap. exists p. split; [done|by apply Hr].
Qed.

Lemma grouped_order : order ⊆+ sorted_topics counts.
Proof.
  destruct (sorted_topics_spec counts) as [Hnd Ht]. apply NoDup_submseteq.
  - rewrite Horder. apply NoDup_fst_map_to_list.
  - intros t Hto. destruct (grouped_topic t Hto) as (n & Hn & _). apply Ht. by eexists.
Qed.

Lemma grouped_size c : 0 ≤ c → zsum ((λ t, 6 + zlen (str_bytes t) + c * zlen (default [] (grouped !! t))) <$> order) ≤ topics_size c counts.
Proof.
  intros Hc. etrans; [apply (zsum_mono _ (λ t, 6 + zlen (str_bytes t) + c * Z.max 0 (default 0 (counts !! t))))|].
  - intros t Ht. destruct (grouped_topic t Ht) as (n & -> & Hle & _).
    apply Z.add_le_mono_l, Z.mul_le_mono_nonneg_l; [done|exact Hle].
  - apply zsum_submseteq; [apply grouped_order|]. intros t _. nia.
Qed.
End grouped.

(** The subscribed topics are few and small enough for the frames and for the limit on
    array lengths in requests. *)
Definition counts_ok (counts : gmap string Z) : Prop :=
  (∀ t n, counts !! t = Some n → str_ok t ∧ inS 32 n) ∧ topics_size 14 counts ≤ 500000.

Lemma zsum_elem {A} (f : A → Z) l x : (∀ y, y ∈ l → 0 ≤ f y) → x ∈ l → f x ≤ zsum (f <$> l).
Proof.
  intros Hf Hx. pose proof (zsum_submseteq f [x] l) as H. cbn in H. rewrite Z.add_0_r in H. apply H; [|done].
  by apply singleton_submseteq_l.
Qed.

Lemma counts_small counts : counts_ok counts → zlen (sorted_topics counts) ≤ arrayCap ∧ (∀ c, 0 ≤ c ≤ 14 → topics_size c counts ≤ 500000) ∧
  ∀ t n, counts !! t = Some n → Z.max 0 n ≤ arrayCap.
Proof.
  intros [Hc Hs]. unfold topics_size in *. set (f c t := 6 + zlen (str_bytes t) + c * Z.max 0 (default 0 (counts !! t))). change (zsum (f 14 <$> sorted_topics counts) ≤ 500000) in Hs.
  split; [|split].
  - assert (Hl : zsum ((λ _, 6) <$> sorted_topics counts) ≤ 500000) by (etrans; [apply (zsum_mono _ (f 14)); intros t _; unfold f; nia|done]).
    assert (E : zsum ((λ _, 6) <$> sorted_topics counts) = 6 * zlen (sorted_topics counts)).
    { generalize (sorted_topics counts). clear. intros l. induction l as [|x l IH]; [done|]. unfold zsum in *. cbn [fmap list_fmap foldr length]. lia. }
    unfold arrayCap. lia.
  - intros c Hcc. etrans; [apply (zsum_mono _ (f 14)); intros t _; unfold f; nia|done].
  - intros t n Hn. destruct (sorted_topics_spec counts) as [_ Ht]. assert (Hin : t ∈ sorted_topics counts) by (apply Ht; by eexists).
    pose proof (zsum_elem (f 14) _ t ltac:(intros y _; unfold f; nia) Hin) as He. unfold f at 1 in He. rewrite Hn in He. cbn [default from_option] in He. unfold id, arrayCap in *. lia.
Qed.

Lemma pair_eta (l : list TopicPartition) : (λ tp : TopicPartition, (tp.1, tp.2)) <$> l = l.
Proof. induction l as [|[t p] l IH]; [done|]. cbn [fmap list_fmap]. by rewrite IH. Qed.

(** What the encodings of partitions by topic rely on. *)
Lemma grouped_ok {A} (h : Z → A) counts l (m : gmap string (list A)) order : counts_ok counts → within counts l →
  m = by_topic ((λ tp : TopicPartition, (tp.1, h tp.2)) <$> l) → order ≡ₚ (map_to_list m).*1 →
  zlen order ≤ arrayCap ∧
  (∀ t, t ∈ order → str_ok t ∧ zlen (default [] (m !! t)) ≤ arrayCap ∧ Forall (λ x, ∃ p, x = h p ∧ inS 32 p) (default [] (m !! t))) ∧
  ∀ c, 0 ≤ c ≤ 14 → zsum ((λ t, 6 + zlen (str_bytes t) + c * zlen (default [] (m !! t))) <$> order) ≤ 500000.
Proof.
  intros Hc Hw -> Hord. destruct (counts_small _ Hc) as (Hn & Hsmall & Hp). destruct Hc as [Hc _].
  pose proof (submseteq_length _ _ (grouped_order h counts l order Hw Hord)) as Hlen. split; [lia|]. split.
  - intros t Hin. destruct (grouped_topic h counts l order Hw Hord t Hin) as (n & Hn' & Hle & Hel). destruct (Hc _ _ Hn') as [Hs H32]. specialize (Hp _ _ Hn').
    split; [done|]. split; [etrans; [exact Hle|exact Hp]|]. apply Forall_forall. intros x Hx. destruct (Hel x Hx) as (p & -> & Hr). exists p. split; [done|]. widths. lia.
  - intros c Hcc. etrans; [apply (grouped_size h counts l order Hw Hord); lia|]. by apply Hsmall.
Qed.

Lemma offset_fetch_ok ord group counts l b : (∀ m, ord.(or_parts) m ≡ₚ (map_to_list m).*1) → counts_ok counts → within counts l → str_ok group →
  (∃ rss, store_inv b.(b_offsetStore) rss) →
  let req := offset_fetch_request ord group l in let resp := (handleOffsetFetch req b).1 in
  wire_wf req ∧ at_most (wire_put req) 540000 ∧ wire_wf resp ∧ at_most (wire_put resp) 540000.
Proof.
  intros Ho Hc Hw Hg [rss Hst] req resp. set (tm := by_topic l) in *. set (order := or_parts ord tm). unfold str_ok in Hg.
  destruct (grouped_ok (λ p, p) counts l tm order Hc Hw) as (Hzl & Hwt & Hsz); [unfold tm; f_equal; symmetry; apply pair_eta|apply Ho|].
  assert (H32 : ∀ t, t ∈ order → Forall (inS 32) (default [] (tm !! t))) by (intros t Hin; eapply Forall_impl; [by apply Hwt|]; by intros x (p & -> & ?)).
  split; [|split; [|split]].
  - split; [exact Hg|]. cbn [ofq_Topics req offset_fetch_request]. rewrite length_fmap. split; [exact Hzl|]. apply Forall_fmap, Forall_forall. intros t Hin. split_and!; [by apply Hwt..|by apply H32].
  - eapply at_most_le; [apply OffsetFetchRequest_size|]. cbn [ofq_Topics ofq_GroupID req offset_fetch_request]. rewrite <- list_fmap_compose.
    etrans; [apply Z.add_le_mono_l; exact (Hsz 4 ltac:(lia))|]. widths. lia.
  - split; cbn [ofs_Topics resp req handleOffsetFetch offset_fetch_request fst ofq_Topics]; rewrite <- list_fmap_compose.
    + rewrite length_fmap. change (zlen order ≤ MaxInt32). unfold arrayCap in *. widths. lia.
    + apply Forall_fmap, Forall_forall. intros t Hin. destruct (Hwt t Hin) as (H1 & H2 & _). specialize (H32 t Hin). split; [done|]. cbn [oftr_Partitions oft_Partitions compose oft_Name]. rewrite length_fmap.
      split; [etrans; [exact H2|by_decide]|]. apply Forall_fmap. eapply Forall_impl; [exact H32|]. intros p Hpp. split; [exact Hpp|]. split; [by eapply Fetch_range|by_decide].
  - eapply at_most_le; [apply OffsetFetchResponse_size|]. cbn [ofs_Topics resp req handleOffsetFetch offset_fetch_request fst ofq_Topics]. rewrite <- !list_fmap_compose.
    assert (E : ∀ l, zsum (((λ t, 6 + zlen (str_bytes t.(oftr_Name)) + 14 * zlen t.(oftr_Partitions)) ∘
        ((λ t, mkOffsetFetchResponseTopic t.(oft_Name) ((λ pID, mkOffsetFetchResponsePartition pID (Fetch group t.(oft_Name) pID b.(b_offsetStore)) ErrNone) <$> t.(oft_Partitions))) ∘
         (λ t, mkOffsetFetchRequestTopic t (default [] (tm !! t))))) <$> l) = zsum ((λ t, 6 + zlen (str_bytes t) + 14 * zlen (default [] (tm !! t))) <$> l)).
    { intros l'. f_equal. apply list_fmap_ext. intros i t _. unfold compose. cbn [oftr_Name oftr_Partitions oft_Name oft_Partitions]. by rewrite length_fmap. }
    fold tm order. etrans; [apply Z.add_le_mono_l; rewrite E; apply Hsz; lia|]. lia.
Qed.

Lemma list_offset_wf b name q : broker_inv b → inS 32 q.(lop_PartitionID) → ListOffsetsResponsePartition_wf (list_offset b name q).
Proof.
  intros Hb Hq. unfold list_offset. destruct (get_partition name (lop_PartitionID q) b) as [p|] eqn:Ep; [|split; [exact Hq|split; by_decide]].
  split; [exact Hq|]. split; [by_decide|]. cbn [lsp_Offset].
  destruct (po_log _ _ _ _ (bi_part _ Hb _ _ _ Ep)) as (f & o & rs & Hv). destruct (log_view_range _ _ _ _ Hv) as [H0 H64].
  unfold LogEndOffset. rewrite (LogStartOffset_view _ _ _ _ Hv), (log_view_highest _ _ _ _ Hv). widths. split_ifs; lia.
Qed.

Lemma list_offsets_ok ord timestamp counts l b : (∀ m, ord.(or_lists) m ≡ₚ (map_to_list m).*1) → counts_ok counts → within counts l → inS 64 timestamp → broker_inv b →
  let req := list_offsets_request ord timestamp l in let resp := (handleListOffsets req b).1 in
  wire_wf req ∧ at_most (wire_put req) 540000 ∧ wire_wf resp ∧ at_most (wire_put resp) 540000.
Proof.
  intros Ho Hc Hw Hts Hb req resp. set (ask := λ '((t, p) : TopicPartition), (t, mkListOffsetsRequestPartition p timestamp)). set (tm := by_topic (ask <$> l)) in *. set (order := or_lists ord tm).
  destruct (grouped_ok (λ p, mkListOffsetsRequestPartition p timestamp) counts l tm order Hc Hw) as (Hzl & Hwt & Hsz);
    [unfold tm; f_equal; apply list_fmap_ext; by intros i [t p] _|apply Ho|].
  split; [|split; [|split]].
  - change (ListOffsetsRequest_wf req). unfold ListOffsetsRequest_wf, req, list_offsets_request. cbn [loq_Topics]. rewrite length_fmap. split; [exact Hzl|]. apply Forall_fmap, Forall_forall. intros t Hin.
    destruct (Hwt t Hin) as (H1 & H2 & H3). split; [done|]. split; [exact H2|]. eapply Forall_impl; [exact H3|]. intros x (p & -> & Hp). by split.
  - eapply at_most_le; [apply ListOffsetsRequest_size|]. cbn [loq_Topics req list_offsets_request]. rewrite <- list_fmap_compose.
    etrans; [apply Z.add_le_mono_l; exact (Hsz 12 ltac:(lia))|]. lia.
  - change (ListOffsetsResponse_wf resp). unfold ListOffsetsResponse_wf, resp, handleListOffsets, req, list_offsets_request. cbn [fst los_Topics loq_Topics].
    rewrite <- list_fmap_compose. split.
    + rewrite length_fmap. etrans; [exact Hzl|by_decide].
    + apply Forall_fmap, Forall_forall. intros t Hin. destruct (Hwt t Hin) as (H1 & H2 & H3). split; [done|]. cbn [lst_Partitions lot_Partitions compose lot_Name]. rewrite length_fmap.
      split; [etrans; [exact H2|by_decide]|]. apply Forall_fmap. eapply Forall_impl; [exact H3|]. intros x (p & -> & Hp). by apply list_offset_wf.
  - eapply at_most_le; [apply ListOffsetsResponse_size|]. cbn [los_Topics resp req handleListOffsets list_offsets_request fst loq_Topics]. rewrite <- !list_fmap_compose.
    assert (E : ∀ l, zsum (((λ t, 6 + zlen (str_bytes t.(lst_Name)) + 14 * zlen t.(lst_Partitions)) ∘
        ((λ t, mkListOffsetsResponseTopic t.(lot_Name) (list_offset b t.(lot_Name) <$> t.(lot_Partitions))) ∘
         (λ t, mkListOffsetsRequestTopic t (default [] (tm !! t))))) <$> l) = zsum ((λ t, 6 + zlen (str_bytes t) + 14 * zlen (default [] (tm !! t))) <$> l)).
    { intros l'. f_equal. apply list_fmap_ext. intros i t _. unfold compose. cbn [lst_Name lst_Partitions lot_Name lot_Partitions]. by rewrite length_fmap. }
    fold ask tm order. etrans; [apply Z.add_le_mono_l; rewrite E; apply Hsz; lia|]. lia.
Qed.

(** ** Metadata *)

(** The partitions of the subscribed topics, by the metadata. *)
Definition topic_count (b : Broker) (t : string) : Z :=
  match GetTopic t b.(b_metaManager) with Some tm => tm.(tmt_NumPartitions) | None => 0 end.
Definition topic_counts (b : Broker) (topics : list string) : gmap string Z := foldl (λ m t, <[t := topic_count b t]> m) ∅ topics.

Lemma topic_counts_lookup b topics t n : topic_counts b topics !! t = Some n ↔ t ∈ topics ∧ n = topic_count b t.
Proof.
  unfold topic_counts. set (f := λ (m : gmap string Z) t, <[t := topic_count b t]> m).
  enough (H : ∀ m : gmap string Z, foldl f m topics !! t = if decide (t ∈ topics) then Some (topic_count b t) else m !! t).
  { rewrite H, lookup_empty. case_decide; naive_solver. }
  induction topics as [|t' topics IH]; intros m; cbn [foldl]; [by rewrite decide_False by apply not_elem_of_nil|]. rewrite IH.
  destruct (decide (t ∈ topics)) as [Hin|Hin]; [by rewrite decide_True by by right|]. unfold f. destruct (decide (t' = t)) as [->|Hne].
  - by rewrite lookup_insert_eq, decide_True by left.
  - rewrite lookup_insert_ne by done. rewrite decide_False; [done|]. intros [->|?]%elem_of_cons; done.
Qed.

Definition topic_metadata (e : Env) (b : Broker) (t : string) : TopicMetadata :=
  mkTopicMetadata t ErrNone (partition_metadata e b t <$> seqZ 0 (topic_count b t)).
Definition metadata_reply (env : nat → Env) (b : Broker) (topics : list string) : MetadataResponse :=
  mkMetadataResponse (clusterBrokerMetadata b) (imap (λ i, topic_metadata (env i) b) topics).

(** The topics are there. *)
Definition known (b : Broker) (t : string) : Prop := is_Some (b.(b_topics) !! t).

Lemma known_meta b t : broker_inv b → known b t → ∃ tm, GetTopic t b.(b_metaManager) = Some tm ∧ str_ok t ∧ inS 32 (topic_count b t) ∧
  ∀ p, is_Some (get_partition t p b) ↔ 0 ≤ p < topic_count b t.
Proof.
  intros Hb [tp Ht]. destruct (bi_topic _ Hb _ _ Ht) as (_ & Hv & m & Hm & Hp). exists m. unfold topic_count, GetTopic. rewrite Hm. split; [done|].
  split; [by eapply valid_name_ok|]. destruct (bi_meta _ Hb) as [Hg _]. split; [apply (Hg _ _ Hm)|]. intros p. unfold get_partition, GetPartition. rewrite Ht. apply Hp.
Qed.

Lemma metadata_known io topics b : broker_inv b → Forall (λ t, known b t ∧ 0 ≤ topic_count b t) topics →
  handleMetadata io (mkMetadataRequest (Some topics)) b = (Some (metadata_reply (λ i, io.(io_env) i 1%nat) b topics), b).
Proof.
  intros Hb Ht. unfold handleMetadata. cbn [mdq_Topics].
  assert (E : ∀ i, metadata_topics (λ i, io.(io_env) i 1%nat) i topics b = (Some (imap (λ j, topic_metadata (io.(io_env) (i + j)%nat 1%nat) b) topics), b)).
  { induction Ht as [|t topics [Hk Hn] Ht IH]; intros i; [done|]. cbn [metadata_topics]. unfold metadata_topic. destruct (known_meta b t Hb Hk) as (tm & Em & _).
    rewrite Em. unfold topic_count in Hn. rewrite Em in Hn. case_bool (Z.ltb_spec (tmt_NumPartitions tm) 0). rewrite IH. cbn [imap fmap option_fmap option_map].
    assert (Et : ∀ e, topic_metadata e b t = mkTopicMetadata t ErrNone (partition_metadata e b t <$> seqZ 0 tm.(tmt_NumPartitions))) by (intros e; unfold topic_metadata, topic_count; by rewrite Em).
    rewrite Et, Nat.add_0_r. do 3 f_equal. apply imap_ext. intros j x _. cbn. by rewrite Nat.add_succ_r. }
  rewrite E. done.
Qed.

Lemma metadata_counts env b topics : broker_inv b → Forall (λ t, known b t ∧ 0 ≤ topic_count b t) topics →
  metadata_partitions (metadata_reply env b topics) = topic_counts b topics.
Proof.
  intros Hb Ht. unfold metadata_partitions, metadata_reply, topic_counts. cbn [mds_Topics]. generalize (∅ : gmap string Z). revert env.
  induction Ht as [|t topics [Hk Hn] Ht IH]; intros env m; [done|]. cbn [imap foldl tm_ErrorCode topic_metadata]. change (ErrNone =? 0) with true. cbv iota.
  destruct (known_meta b t Hb Hk) as (_ & _ & _ & H32 & _). cbn [tm_Name tm_Partitions topic_metadata]. rewrite length_fmap, length_seqZ, Z2Nat.id, wrapS_small by (done || lia).
  apply (IH (env ∘ S)).
Qed.

Lemma topic_counts_ok b topics : broker_inv b → Forall (λ t, known b t ∧ 0 ≤ topic_count b t) topics → topics_size 14 (topic_counts b topics) ≤ 500000 → counts_ok (topic_counts b topics).
Proof.
  intros Hb Ht Hs. split; [|done]. intros t n [Hin ->]%topic_counts_lookup. rewrite Forall_forall in Ht. destruct (Ht _ Hin) as [Hk _].
  destruct (known_meta b t Hb Hk) as (tm & _ & Hok & H32 & _). done.
Qed.

Lemma sorted_topic_counts b topics : NoDup topics → sorted_topics (topic_counts b topics) ≡ₚ topics.
Proof.
  intros Hnd. destruct (sorted_topics_spec (topic_counts b topics)) as [Hs Ht]. apply NoDup_Permutation; [done|done|]. intros t. rewrite Ht. split.
  - by intros [n [Hin _]%topic_counts_lookup].
  - intros Hin. exists (topic_count b t). by apply topic_counts_lookup.
Qed.

Lemma metadata_request_ok b topics : NoDup topics → counts_ok (topic_counts b topics) → let req := mkMetadataRequest (Some topics) in
  wire_wf req ∧ at_most (wire_put req) 540000.
Proof.
  intros Hnd Hc req. destruct (counts_small _ Hc) as (Hl & Hs & _). rewrite (Permutation_length (sorted_topic_counts b topics Hnd)) in Hl. split.
  - split; [exact Hl|]. apply Forall_forall. intros t Ht. destruct Hc as [Hc _]. apply (Hc t (topic_count b t)). by apply topic_counts_lookup.
  - eapply at_most_le; [apply MetadataRequest_size|]. specialize (Hs 0 ltac:(lia)). unfold topics_size in Hs.
    rewrite (zsum_perm _ ((λ t, 6 + zlen (str_bytes t) + 0 * Z.max 0 (default 0 (topic_counts b topics !! t))) <$> topics)) in Hs by by rewrite sorted_topic_counts.
    pose proof (zsum_mono (λ t, 2 + zlen (str_bytes t)) (λ t, 6 + zlen (str_bytes t) + 0 * Z.max 0 (default 0 (topic_counts b topics !! t))) topics) as Hm.
    etrans; [apply Z.add_le_mono_l, Hm; intros t _; lia|]. lia.
Qed.

(** ** The requests of a join *)

(** What the first consumer of a group relies on. *)
Record joinable (limit : Z) (io : nat → IO) (k : nat) (b : Broker) (g : GroupConsumer) : Prop := {
  jn_inv : broker_inv b;
  jn_env j : EnvOk ((io (j + k)%nat).(io_env) 0%nat 0%nat);
  jn_rnd : length ((io k).(io_env) 0%nat 0%nat).(e_rnd) = 8%nat;
  jn_sync x : (io (2 + k)%nat).(io_sync).(w_meanwhile) x = x;
  jn_timer : (io (2 + k)%nat).(io_sync).(w_timer) = false;
  jn_vacant : vacant g.(gc_groupID) b.(b_coordinator);
  jn_group : str_ok g.(gc_groupID) ∧ g.(gc_groupID) ≠ EmptyString;
  jn_client : zlen (str_bytes g.(gc_config).(gcc_ClientID)) ≤ 16384;
  jn_strategy : str_ok g.(gc_config).(gcc_AssignorStrategy) ∧ ∃ a, GetAssignor g.(gc_config).(gcc_AssignorStrategy) = Ok a;
  jn_timeout : inS 32 g.(gc_config).(gcc_SessionTimeoutMs);
  jn_reset : g.(gc_config).(gcc_AutoOffsetReset) ≠ "none";
  jn_nodup : NoDup g.(gc_topics);
  jn_topics : Forall (λ t, known b t ∧ 0 ≤ topic_count b t) g.(gc_topics);
  jn_size : topics_size 14 (topic_counts b g.(gc_topics)) ≤ 500000;
  jn_meta : let reply := metadata_reply (λ i, (io (1 + k)%nat).(io_env) i 1%nat) b g.(gc_topics) in wire_wf reply ∧ at_most (wire_put reply) 16777216;
  jn_limit : limit ≤ 0 ∨ 1048576 ≤ limit
}.

(** What its JoinGroup request relies on. *)
Record can_join (limit : Z) (io : nat → IO) (k : nat) (g : GroupConsumer) : Prop := {
  cj_env : EnvOk ((io k).(io_env) 0%nat 0%nat);
  cj_rnd : length ((io k).(io_env) 0%nat 0%nat).(e_rnd) = 8%nat;
  cj_group : str_ok g.(gc_groupID) ∧ g.(gc_groupID) ≠ EmptyString;
  cj_client : zlen (str_bytes g.(gc_config).(gcc_ClientID)) ≤ 16384;
  cj_strategy : str_ok g.(gc_config).(gcc_AssignorStrategy);
  cj_timeout : inS 32 g.(gc_config).(gcc_SessionTimeoutMs);
  cj_member : zlen (str_bytes g.(gc_memberID)) ≤ 16401;
  cj_limit : limit ≤ 0 ∨ 1048576 ≤ limit
}.

Lemma joinable_can limit io k b g : joinable limit io k b g → g.(gc_memberID) = EmptyString → can_join limit io k g.
Proof. intros [] Hm. destruct jn_strategy0. constructor; try done; [apply (jn_env0 0%nat)|by rewrite Hm]. Qed.

(** The position of a partition when the consumer starts. *)
Definition reset_timestamp (g : GroupConsumer) : Z := if bool_decide (g.(gc_config).(gcc_AutoOffsetReset) = "latest") then -1 else -2.
Definition start_position (g : GroupConsumer) (b : Broker) (tp : TopicPartition) : Z :=
  let off := Fetch g.(gc_groupID) tp.1 tp.2 b.(b_offsetStore) in if 0 <=? off then off else reset_offset (reset_timestamp g) b tp.

(** The parts of a consumer that joining does not change. *)
Definition same_client (g g' : GroupConsumer) : Prop :=
  g.(gc_addrs) = g'.(gc_addrs) ∧ g.(gc_groupID) = g'.(gc_groupID) ∧ g.(gc_topics) = g'.(gc_topics) ∧ g.(gc_config) = g'.(gc_config).

Section join.
Context {N : Type} `{Network N, !ServedBy N (nat * Broker)} (io : nat → IO) (limit : Z) `{!Serves (broker_mux io) limit}.

(** A request whose messages have bounded sizes. *)
Lemma bounded_request {A B} `{WireOk A, WireOk B} key (h : A → Broker → option B * Broker) a resp b' g n k b :
  reachable_from g n → net_state n = (k, b) → limit ≤ 0 ∨ 1048576 ≤ limit → zlen (str_bytes g.(gc_config).(gcc_ClientID)) ≤ 16384 →
  handlers (broker_mux io) !! key = Some (registered io key) → handled (io k) key g.(gc_config).(gcc_ClientID) h → inS 16 key →
  wire_wf a → at_most (wire_put a) 1000000 → h a b = (Some resp, b') → wire_wf resp → at_most (wire_put resp) 16777216 → ∃ payload f n2 x,
  marshal a = Ok payload ∧ sendRequest key payload (g, n) = (Ok f, (set_gc_nextID x g, n2)) ∧ f.(rsf_ErrorCode) = 0 ∧
  unmarshal f.(rsf_Payload) = Ok resp ∧ net_state n2 = (S k, b') ∧ ∀ addr, net_listens addr n → net_listens addr n2.
Proof.
  intros Hr Hst Hlim Hcl Hm Hh Hkey Hwf Ha Ef Hwr Hb. destruct (marshal_unmarshal a Hwf) as (payload & Em & _). destruct (marshal_unmarshal resp Hwr) as (reply & Er & _).
  pose proof (marshal_size _ _ _ Ha Em). pose proof (marshal_size _ _ _ Hb Er).
  destruct (sendRequest_handled io limit key h a resp b' payload reply g n k b Hr Hst Hm Hh Hwf Em Ef Hwr Er Hkey) as (f & n2 & x & Es & Hcode & Hu & Hs & Hl);
    [unfold str_ok; widths; lia|unfold MaxFrameSize; lia|destruct Hlim; [by left|right; lia]|unfold MaxFrameSize; lia|].
  by exists payload, f, n2, x.
Qed.

Lemma join_served ord g n k b : can_join limit io k g → broker_inv b → vacant g.(gc_groupID) b.(b_coordinator) → reachable_from g n → net_state n = (k, b) →
  let e := (io k).(io_env) 0%nat 0%nat in let mID := joined_id g.(gc_memberID) g.(gc_config).(gcc_ClientID) e.(e_rnd) in
  let gen := next_generation g.(gc_groupID) b.(b_coordinator) in let proto := g.(gc_config).(gcc_AssignorStrategy) in
  let m := mkMember mID g.(gc_config).(gcc_SessionTimeoutMs) e.(e_now) [] [] b.(b_coordinator).(gc_nextChan) in ∃ ptype x n1 gc,
  join ord (g, n) = (Ok (mkJoinGroupResponse ErrNone gen proto mID mID [mkJoinGroupMember mID []]), (set_gc_member mID gen mID (set_gc_nextID x g), n1)) ∧
  net_state n1 = (S k, set_coordinator gc b) ∧ (∀ addr, net_listens addr n → net_listens addr n1) ∧ coord_inv gc ∧
  gc = set_group (sole_group g.(gc_groupID) ptype proto StatePreparingRebalance gen m)
    (mkCoordinator b.(b_coordinator).(gc_groups) b.(b_coordinator).(gc_chans) (S b.(b_coordinator).(gc_nextChan))).
Proof.
  intros [He Hrnd [Hg Hgne] Hcl Hstr Hto Hm0 Hlim] Hinv Hvac Hr Hst e mID gen proto m. fold e in He, Hrnd.
  pose proof (bi_coord _ Hinv) as Hci. destruct (join_vacant e.(e_now) e.(e_rnd) e.(e_members) e.(e_members2) (join_request g) g.(gc_config).(gcc_ClientID) _ Hci Hgne Hvac) as [ptype Ej].
  cbn [join_request jgq_Protocols jgp_Metadata jgp_Name jgq_GroupID jgq_MemberID jgq_SessionTimeoutMs] in Ej. fold mID gen proto m in Ej. set (gc := set_group _ _) in Ej.
  assert (Hid : zlen (str_bytes mID) ≤ 16401) by (by apply joined_id_length).
  assert (Hci' : coord_inv gc).
  { assert (E : gc = (JoinGroup e.(e_now) e.(e_rnd) e.(e_members) e.(e_members2) (join_request g) g.(gc_config).(gcc_ClientID) b.(b_coordinator)).2) by by rewrite Ej.
    rewrite E. eapply coord_step_inv; [exact Hci|]. constructor. apply He. }
  set (resp := mkJoinGroupResponse ErrNone gen proto mID mID [mkJoinGroupMember mID []]) in *. assert (Hidok : str_ok mID) by (unfold str_ok; widths; lia). pose proof Hg as Hg'. pose proof Hstr as Hstr'. unfold str_ok in Hg', Hstr'. widths.
  destruct (bounded_request 4 (λ a b, let '(resp, b) := handleJoinGroup (io k) g.(gc_config).(gcc_ClientID) a b in (Some resp, b)) (join_request g) resp (set_coordinator gc b) g n k b Hr Hst Hlim Hcl)
    as (payload & f & n1 & x & Em & Es & Hf0 & Hu & Hs & Hl).
  - reflexivity.
  - exists (λ req, handle_with (handleJoinGroup (io k) req.(rqf_ClientID)) req). split; [done|]. by intros f b0 ->.
  - by_decide.
  - split; [exact Hg|]. split; [done|]. cbn [join_request jgq_MemberID]. split; [unfold str_ok; widths; lia|]. split; [by_decide|]. split; [by_decide|].
    constructor; [|done]. split; [exact Hstr|by_decide].
  - eapply at_most_le; [apply JoinGroupRequest_size|]. cbn [join_request jgq_GroupID jgq_MemberID jgq_ProtocolType jgq_Protocols fmap list_fmap zsum foldr jgp_Name jgp_Metadata length].
    change (zlen (str_bytes "consumer")) with 8. lia.
  - unfold handleJoinGroup. fold e. by rewrite Ej.
  - split; [by_decide|]. split; [apply wrapS_range; lia|]. split; [exact Hstr|]. split; [exact Hidok|]. split; [exact Hidok|].
    split; [by_decide|]. constructor; [|done]. split; [exact Hidok|by_decide].
  - eapply at_most_le; [apply JoinGroupResponse_size|]. cbn [resp jgs_ProtocolName jgs_LeaderID jgs_MemberID jgs_Members fmap list_fmap zsum foldr jgm_MemberID jgm_Metadata length]. unfold proto. lia.
  - exists ptype, x, n1, gc. split; [|done]. unfold join, this, wrapped, encode, decode, lift, require, update, mbind, M_bind. cbn [fst snd]. rewrite Em, Es, Hf0. cbn [Z.eqb].
    rewrite Hu. done.
Qed.

(** The leader's own request for the metadata, and the assignment that it makes. *)
Lemma leader_served ord g g1 n k b gc mID gen proto : joinable limit io k b g → orders_ok ord → same_client g g1 → reachable_from g1 n →
  net_state n = (S k, set_coordinator gc b) → coord_inv gc → ∃ ma bs x n1,
  leader_assignments ord (mkJoinGroupResponse ErrNone gen proto mID mID [mkJoinGroupMember mID []]) (g1, n) =
    (Ok [mkSyncGroupAssignment mID bs], (set_gc_nextID x g1, n1)) ∧
  net_state n1 = (S (S k), set_coordinator gc b) ∧ (∀ addr, net_listens addr n → net_listens addr n1) ∧
  EncodeAssignment ma = Ok bs ∧ DecodeAssignment bs = Ok ma ∧ zlen bs ≤ 500004 ∧ within (topic_counts b g.(gc_topics)) (assigned_partitions ma) ∧
  ∀ t p, (t, p) ∈ assigned_partitions ma ↔ t ∈ g.(gc_topics) ∧ 0 ≤ p < topic_count b t.
Proof.
  intros [] Hord (Ea & Eg & Et & Ec) Hr Hst Hci. destruct jn_strategy0 as [Hstr [a Has]]. set (b1 := set_coordinator gc b) in *.
  assert (Hb1 : broker_inv b1) by by apply inv_coordinator. pose proof (topic_counts_ok b _ jn_inv0 jn_topics0 jn_size0) as Hok.
  destruct (single_assignment _ a mID (topic_counts b g.(gc_topics)) Has) as (ma & Ema & Hwf & Hnd & Hin & Hsz);
    [apply Hok|etrans; [apply counts_small, Hok|by_decide]|].
  destruct (assignment_roundtrip ma Hwf) as (bs & Ee & Ed).
  destruct (metadata_request_ok b g.(gc_topics) jn_nodup0 Hok) as [Hq1 Hq2]. destruct jn_meta0 as [Hm1 Hm2].
  destruct (bounded_request 2 (handleMetadata (io (S k))) (mkMetadataRequest (Some g.(gc_topics)))
    (metadata_reply (λ i, (io (1 + k)%nat).(io_env) i 1%nat) b g.(gc_topics)) b1 g1 n (S k) b1 Hr Hst jn_limit0) as (payload & f & n1 & x & Em & Es & _ & Hu & Hs & Hl).
  - by rewrite <- Ec.
  - reflexivity.
  - by exists (handle_panics (handleMetadata (io (S k)))).
  - by_decide.
  - exact Hq1.
  - eapply at_most_le; [exact Hq2|lia].
  - rewrite (metadata_known (io (S k)) g.(gc_topics) b1); [done|done|exact jn_topics0].
  - exact Hm1.
  - exact Hm2.
  - exists ma, bs, x, n1. split_and!; [|exact Hs|exact Hl|exact Ee|exact Ed| |split; [exact Hnd|exact (λ t p Htp, proj1 (Hin t p) Htp)]|].
    + unfold leader_assignments, wrapped, fetchTopicMetadata, this, encode, decode, lift, mbind, M_bind. cbn [fst snd]. rewrite <- Et, Em, Es, Hu. cbv beta iota.
      unfold mret, M_ret. rewrite (metadata_counts _ b _ jn_inv0 jn_topics0). cbn [set_gc_nextID gc_config fst snd]. rewrite <- Ec, Has. cbn [jgs_Members fmap list_fmap jgm_MemberID].
      rewrite Ema, (order_singleton _ _ _ (oo_assignments _ Hord)). cbn [sync_assignments]. rewrite lookup_singleton_eq, Ee. done.
    + etrans; [by apply EncodeAssignment_size|]. destruct (counts_small _ Hok) as (_ & Hs4 & _). specialize (Hs4 4 ltac:(lia)). lia.
    + intros t p. rewrite Hin. setoid_rewrite topic_counts_lookup. naive_solver.
Qed.

(** The sync of the leader. *)
Lemma sync_served ord g g1 n k b gc ptype proto gen m : joinable limit io k b g → orders_ok ord → same_client g g1 → reachable_from g1 n →
  net_state n = (S k, set_coordinator gc b) → coord_inv gc → gc.(gc_groups) !! g.(gc_groupID) = Some (sole_group g.(gc_groupID) ptype proto StatePreparingRebalance gen m) →
  gc.(gc_chans) !! m.(mb_syncRespCh) = None → inS 32 gen → zlen (str_bytes m.(mb_ID)) ≤ 16401 → ∃ ma bs x n1 gc1 now,
  sync ord (mkJoinGroupResponse ErrNone gen proto m.(mb_ID) m.(mb_ID) [mkJoinGroupMember m.(mb_ID) []]) (g1, n) = (Ok ma, (set_gc_nextID x g1, n1)) ∧
  net_state n1 = ((3 + k)%nat, set_coordinator gc1 b) ∧ (∀ addr, net_listens addr n → net_listens addr n1) ∧ coord_inv gc1 ∧
  gc1.(gc_groups) !! g.(gc_groupID) = Some (sole_group g.(gc_groupID) ptype proto StateStable gen (set_assignment bs (set_heartbeat now m))) ∧
  DecodeAssignment bs = Ok ma ∧ within (topic_counts b g.(gc_topics)) (assigned_partitions ma) ∧
  ∀ t p, (t, p) ∈ assigned_partitions ma ↔ t ∈ g.(gc_topics) ∧ 0 ≤ p < topic_count b t.
Proof.
  intros Hj Hord Hsame Hr Hst Hci Hgrp Hch Hgen Hid.
  destruct (leader_served ord g g1 n k b gc m.(mb_ID) gen proto Hj Hord Hsame Hr Hst Hci) as (ma & bs & x1 & n1 & El & Hs1 & Hl1 & Ee & Ed & Hsz & Hw & Hin).
  destruct Hsame as (Ea & Eg & Et & Ec). destruct Hj. destruct jn_group0 as [Hg _]. set (e := (io (2 + k)%nat).(io_env) 0%nat 0%nat).
  assert (Ho : MapOrder e.(e_members)) by apply (jn_env0 2%nat).
  destruct (sync_sole e.(e_now) e.(e_members) g.(gc_groupID) ptype proto gen m bs gc Hgrp Hch) as (gca & gcb & E1 & E2 & Eg2 & Ec2 & En2).
  assert (Hcb : coord_inv gcb).
  { eapply (coord_step_inv gca); [|by eapply step_receive]. eapply coord_step_inv; [exact Hci|]. replace gca with (SyncGroup e.(e_now) e.(e_members)
      (mkSyncGroupRequest g.(gc_groupID) gen m.(mb_ID) [mkSyncGroupAssignment m.(mb_ID) bs]) gc).2 by (by rewrite E1). by constructor. }
  assert (Hidok : str_ok m.(mb_ID)) by (unfold str_ok; widths; lia). pose proof Hg as Hg'. unfold str_ok in Hg'. widths.
  set (req := mkSyncGroupRequest g.(gc_groupID) gen m.(mb_ID) [mkSyncGroupAssignment m.(mb_ID) bs]) in *.
  destruct (bounded_request 5 (λ a b, let '(resp, b) := handleSyncGroup (io (2 + k)%nat) a b in (Some resp, b)) req (mkSyncGroupResponse ErrNone bs) (set_coordinator gcb b)
    (set_gc_nextID x1 g1) n1 (2 + k)%nat (set_coordinator gc b)) as (payload & f & n2 & x & Em & Es & Hf0 & Hu & Hs & Hl).
  - by eapply (reachable_kept g1).
  - exact Hs1.
  - exact jn_limit0.
  - cbn [set_gc_nextID gc_config]. by rewrite <- Ec.
  - reflexivity.
  - by apply handled_with.
  - by_decide.
  - split; [exact Hg|]. split; [exact Hgen|]. split; [exact Hidok|]. split; [by_decide|]. constructor; [|done]. split; [exact Hidok|]. unfold bytes_ok, MaxBytesLength. cbn [sga_Assignment]. lia.
  - eapply at_most_le; [apply SyncGroupRequest_size|]. cbn [req sgq_GroupID sgq_MemberID sgq_Assignments fmap list_fmap zsum foldr sga_MemberID sga_Assignment]. lia.
  - unfold handleSyncGroup. fold e. cbn [set_coordinator b_coordinator]. rewrite E1, jn_sync0. cbn [set_coordinator b_coordinator]. rewrite E2, jn_timer0. done.
  - split; [by_decide|]. unfold bytes_ok, MaxBytesLength. cbn [sgs_Assignment]. lia.
  - eapply at_most_le; [apply SyncGroupResponse_size|]. cbn [sgs_Assignment]. lia.
  - exists ma, bs, x, n2, gcb, e.(e_now). split_and!; [|exact Hs|by eauto|exact Hcb|rewrite Eg2; apply lookup_insert_eq|exact Ed|exact Hw|exact Hin].
    unfold sync, wrapped, this, encode, decode, lift, require, mbind, M_bind. cbn [jgs_MemberID jgs_LeaderID jgs_GenerationID]. rewrite bool_decide_true by done. rewrite El. cbn [fst snd set_gc_nextID gc_groupID].
    rewrite <- Eg. fold req. rewrite Em, Es, Hf0. cbn [Z.eqb]. rewrite Hu. cbn [sgs_ErrorCode sgs_Assignment]. change (ErrNone =? 0) with true. by rewrite Ed.
Qed.

(** The partitions without a committed offset get the start or the end of their log. *)
Lemma resolve_served ord g g1 n k' k b l : joinable limit io k b g → orders_ok ord → same_client g g1 → reachable_from g1 n → ∀ gc,
  net_state n = (k', set_coordinator gc b) → coord_inv gc → within (topic_counts b g.(gc_topics)) l →
  (∀ tp, g1.(gc_offsets) !! tp = if decide (tp ∈ l) then Some (committed g.(gc_groupID) b tp) else None) → ∃ x offsets n1 k1,
  resolveUnsetOffsets ord (g1, n) = (Ok tt, (set_gc_offsets offsets (set_gc_nextID x g1), n1)) ∧ net_state n1 = (k1, set_coordinator gc b) ∧
  (∀ addr, net_listens addr n → net_listens addr n1) ∧
  ∀ tp, offsets !! tp = if decide (tp ∈ l) then Some (start_position g b tp) else None.
Proof.
  intros Hj Hord (Ea & Eg & Et & Ec) Hr gc Hst Hci Hw Hoff. destruct Hj. set (b1 := set_coordinator gc b) in *. assert (Hb1 : broker_inv b1) by by apply inv_coordinator.
  pose proof (topic_counts_ok b _ jn_inv0 jn_topics0 jn_size0) as Hok.
  set (need := filter (λ tp, unresolved g1.(gc_offsets) tp = true) (ord.(or_offsets) g1.(gc_offsets))).
  assert (Hkeys : ∀ tp, tp ∈ ord.(or_offsets) g1.(gc_offsets) ↔ tp ∈ l).
  { intros tp. rewrite (oo_offsets _ Hord), list_elem_of_fmap. specialize (Hoff tp). split.
    - intros ([tp' v] & -> & Hin%elem_of_map_to_list). cbn [fst] in *. rewrite Hin in Hoff. by case_decide.
    - intros Hin. rewrite decide_True in Hoff by done. eexists (tp, _). split; [done|]. by apply elem_of_map_to_list. }
  assert (Hneed : ∀ tp, tp ∈ need ↔ tp ∈ l ∧ Fetch g.(gc_groupID) tp.1 tp.2 b.(b_offsetStore) < 0).
  { intros tp. unfold need. rewrite list_elem_of_filter, Hkeys. unfold unresolved. rewrite Hoff. case_decide as Hin; [|naive_solver]. unfold committed.
    destruct (Z.leb_spec 0 (Fetch (gc_groupID g) tp.1 tp.2 (b_offsetStore b))) as [Hle|Hlt]; [|split; [tauto|split; [done|tauto]]].
    split; [intros [Hl _]; apply Z.ltb_lt in Hl; lia|lia]. }
  assert (Hwn : within (topic_counts b g.(gc_topics)) need).
  { split; [unfold need; apply NoDup_filter; rewrite (oo_offsets _ Hord); apply NoDup_fst_map_to_list|]. intros t p [Htp _]%Hneed. by apply Hw. }
  assert (Hfin : ∀ tp, (if decide (tp ∈ need) then Some (reset_offset (reset_timestamp g) b tp) else g1.(gc_offsets) !! tp) =
    if decide (tp ∈ l) then Some (start_position g b tp) else None).
  { intros tp. rewrite Hoff. unfold start_position, committed. destruct (decide (tp ∈ need)) as [[Hin Hlt]%Hneed|Hnn].
    - rewrite decide_True by done. by case_bool (Z.leb_spec 0 (Fetch (gc_groupID g) tp.1 tp.2 (b_offsetStore b))).
    - case_decide as Hin; [|done]. destruct (Z.leb_spec 0 (Fetch (gc_groupID g) tp.1 tp.2 (b_offsetStore b))); [done|]. destruct Hnn. by apply Hneed. }
  unfold resolveUnsetOffsets, this, mbind, M_bind. cbn [fst snd]. fold need. destruct need as [|tp0 need'] eqn:En.
  { exists g1.(gc_nextID), g1.(gc_offsets), n, k'. split; [by destruct g1|]. split; [done|]. split; [done|]. intros tp. rewrite <- Hfin. by rewrite decide_False by apply not_elem_of_nil. }
  rewrite <- En in *. clear En tp0 need'. rewrite <- Ec, bool_decide_false by done. fold (reset_timestamp g).
  destruct (list_offsets_ok ord (reset_timestamp g) _ need b1 (oo_lists _ Hord) Hok Hwn) as (Q1 & Q2 & Q3 & Q4); [unfold reset_timestamp; case_bool_decide; by_decide|done|].
  destruct (bounded_request 10 (λ a b, let '(resp, b) := handleListOffsets a b in (Some resp, b)) (list_offsets_request ord (reset_timestamp g) need)
    (handleListOffsets (list_offsets_request ord (reset_timestamp g) need) b1).1 b1 g1 n k' b1 Hr Hst jn_limit0) as (payload & f & n1 & x & Em & Es & _ & Hu & Hs & Hl);
    [by rewrite <- Ec|reflexivity|by apply handled_with|by_decide|exact Q1|eapply at_most_le; [exact Q2|lia]|done|exact Q3|eapply at_most_le; [exact Q4|lia]|].
  exists x, (listed_offsets (handleListOffsets (list_offsets_request ord (reset_timestamp g) need) b1).1 g1.(gc_offsets)), n1, (S k').
  split; [|split; [exact Hs|split; [exact Hl|]]].
  - cbn [require negb]. unfold require, encode, decode, lift, update, mbind, M_bind. cbn [negb]. by rewrite Em, Es, Hu.
  - intros tp. rewrite (listed_reply ord _ b1 need _ tp (oo_lists _ Hord)); [exact (Hfin tp)|]. intros [t p] [Hin _]%Hneed. destruct Hw as [_ Hw]. destruct (Hw _ _ Hin) as (c & [Htt ->]%topic_counts_lookup & Hp).
    rewrite Forall_forall in jn_topics0. destruct (jn_topics0 _ Htt) as [Hkn _]. destruct (known_meta b t jn_inv0 Hkn) as (_ & _ & _ & _ & Hgp). by apply Hgp.
Qed.

Lemma initial_offsets_served ord g g1 n k' k b gc : joinable limit io k b g → orders_ok ord → same_client g g1 → reachable_from g1 n →
  net_state n = (k', set_coordinator gc b) → coord_inv gc → within (topic_counts b g.(gc_topics)) g1.(gc_assigned) → g1.(gc_offsets) = ∅ → ∃ x offsets n1 k1,
  fetchInitialOffsets ord (g1, n) = (Ok tt, (set_gc_offsets offsets (set_gc_nextID x g1), n1)) ∧ net_state n1 = (k1, set_coordinator gc b) ∧
  (∀ addr, net_listens addr n → net_listens addr n1) ∧
  ∀ tp, offsets !! tp = if decide (tp ∈ g1.(gc_assigned)) then Some (start_position g b tp) else None.
Proof.
  intros Hj Hord (Ea & Eg & Et & Ec) Hr Hst Hci Hw H0. pose proof Hj as []. destruct jn_group0 as [Hg _]. set (b1 := set_coordinator gc b) in *.
  assert (Hb1 : broker_inv b1) by by apply inv_coordinator. unfold fetchInitialOffsets, this, mbind, M_bind. cbn [fst snd].
  destruct (decide (g1.(gc_assigned) = [])) as [Enil|Hnil].
  { rewrite Enil. exists g1.(gc_nextID), ∅, n, k'. split; [rewrite <- H0; by destruct g1|]. split; [done|]. split; [done|]. intros tp. by rewrite lookup_empty, decide_False by apply not_elem_of_nil. }
  destruct (offset_fetch_ok ord g.(gc_groupID) _ g1.(gc_assigned) b1 (oo_parts _ Hord) (topic_counts_ok b _ jn_inv0 jn_topics0 jn_size0) Hw Hg (bi_offsets _ Hb1)) as (Q1 & Q2 & Q3 & Q4).
  destruct (bounded_request 9 (λ a b, let '(resp, b) := handleOffsetFetch a b in (Some resp, b)) (offset_fetch_request ord g.(gc_groupID) g1.(gc_assigned))
    (handleOffsetFetch (offset_fetch_request ord g.(gc_groupID) g1.(gc_assigned)) b1).1 b1 g1 n k' b1 Hr Hst jn_limit0) as (payload & f & n1 & x1 & Em & Es & _ & Hu & Hs & Hl);
    [by rewrite <- Ec|reflexivity|by apply handled_with|by_decide|exact Q1|eapply at_most_le; [exact Q2|lia]|done|exact Q3|eapply at_most_le; [exact Q4|lia]|].
  set (offsets1 := committed_offsets (handleOffsetFetch (offset_fetch_request ord g.(gc_groupID) g1.(gc_assigned)) b1).1 g1.(gc_offsets)).
  destruct (resolve_served ord g (set_gc_offsets offsets1 (set_gc_nextID x1 g1)) n1 (S k') k b g1.(gc_assigned) Hj Hord) with gc as (x2 & offsets2 & n2 & k2 & E2 & Hs2 & Hl2 & Ho2).
  - by split_and!.
  - by eapply (reachable_kept g1).
  - exact Hs.
  - done.
  - exact Hw.
  - intros tp. cbn [set_gc_offsets gc_offsets]. unfold offsets1. rewrite (committed_reply ord _ b1 _ _ _ (oo_parts _ Hord)), H0, lookup_empty. done.
  - exists x2, offsets2, n2, k2. split; [|split; [exact Hs2|split; [by eauto|exact Ho2]]].
    transitivity (resolveUnsetOffsets ord (set_gc_offsets offsets1 (set_gc_nextID x1 g1), n1)); [|exact E2].
    destruct (gc_assigned g1) as [|tp l] eqn:El; [done|]. unfold encode, decode, lift, update, mbind, M_bind. rewrite <- Eg, <- El. rewrite <- El in Em. by rewrite Em, Es, Hu.
Qed.

(** The whole of [joinAndSync] for the first consumer of a group. *)
Lemma joinAndSync_served ord g n k b : joinable limit io k b g → orders_ok ord → reachable_from g n → net_state n = (k, b) →
  g.(gc_memberID) = EmptyString → g.(gc_assigned) = [] → g.(gc_offsets) = ∅ → ∃ g' n' k' gc m ptype,
  joinAndSync ord (g, n) = (Ok tt, (g', n')) ∧ reachable_from g' n' ∧ net_state n' = (k', set_coordinator gc b) ∧ coord_inv gc ∧
  same_client g g' ∧ g'.(gc_closed) = g.(gc_closed) ∧ NoDup g'.(gc_assigned) ∧
  (∀ t p, (t, p) ∈ g'.(gc_assigned) ↔ t ∈ g.(gc_topics) ∧ 0 ≤ p < topic_count b t) ∧
  (∀ tp, g'.(gc_offsets) !! tp = if decide (tp ∈ g'.(gc_assigned)) then Some (start_position g b tp) else None) ∧
  g'.(gc_memberID) = m.(mb_ID) ∧ g'.(gc_generationID) = next_generation g.(gc_groupID) b.(b_coordinator) ∧
  gc.(gc_groups) !! g.(gc_groupID) = Some (sole_group g.(gc_groupID) ptype g.(gc_config).(gcc_AssignorStrategy) StateStable g'.(gc_generationID) m).
Proof.
  intros Hj Hord Hr Hst Hm0 Has Hof. destruct (join_served ord g n k b (joinable_can _ _ _ _ _ Hj Hm0) (jn_inv _ _ _ _ _ Hj) (jn_vacant _ _ _ _ _ Hj) Hr Hst) as (ptype & x & n1 & gc & E1 & Hs1 & Hl1 & Hci & Egc).
  set (e := (io k).(io_env) 0%nat 0%nat) in *. set (mID := joined_id g.(gc_memberID) g.(gc_config).(gcc_ClientID) e.(e_rnd)) in *. set (gen := next_generation g.(gc_groupID) b.(b_coordinator)) in *.
  set (m := mkMember mID _ _ [] [] _) in *. set (g1 := set_gc_member mID gen mID (set_gc_nextID x g)) in *.
  destruct (sync_served ord g g1 n1 k b gc ptype g.(gc_config).(gcc_AssignorStrategy) gen m Hj Hord) as (ma & bs & x2 & n2 & gc2 & now & E2 & Hs2 & Hl2 & Hci2 & Hg2 & Ed & Hw & Hin).
  - by split_and!.
  - by eapply (reachable_kept g).
  - exact Hs1.
  - done.
  - rewrite Egc. apply lookup_insert_eq.
  - rewrite Egc. cbn. destruct (gc_chans (b_coordinator b) !! gc_nextChan (b_coordinator b)) eqn:Ech; [|done].
    pose proof (ci_buffered _ (bi_coord _ (jn_inv _ _ _ _ _ Hj)) (gc_nextChan (b_coordinator b)) ltac:(by eexists)). lia.
  - apply wrapS_range. lia.
  - cbn [mb_ID m]. apply joined_id_length; [by rewrite Hm0|apply (jn_client _ _ _ _ _ Hj)|apply (jn_rnd _ _ _ _ _ Hj)].
  - set (l := assigned_partitions ma) in *. set (g2 := set_gc_assigned l (set_gc_nextID x2 g1)).
    destruct (initial_offsets_served ord g g2 n2 (3 + k)%nat k b gc2 Hj Hord) as (x3 & offsets & n3 & k3 & E3 & Hs3 & Hl3 & Ho3); [by split_and!|by eapply (reachable_kept g); eauto|exact Hs2|done|exact Hw|exact Hof|].
    set (g3 := set_gc_offsets offsets (set_gc_nextID x3 g2)) in *.
    set (g4 := if g3.(gc_config).(gcc_OnAssigned) && negb (bool_decide (l = [])) then call_back (PartitionsAssigned l) g3 else g3).
    assert (H4 : same_client g g4 ∧ g4.(gc_closed) = g.(gc_closed) ∧ g4.(gc_assigned) = l ∧ g4.(gc_offsets) = offsets ∧ g4.(gc_memberID) = mID ∧ g4.(gc_generationID) = gen)
      by (unfold g4; destruct (_ && _); by split_and!).
    destruct H4 as (H41 & H42 & H43 & H44 & H45 & H46).
    exists g4, n3, k3, gc2, (set_assignment bs (set_heartbeat now m)), ptype. split; [|split; [|split; [exact Hs3|split; [done|split; [exact H41|split; [exact H42|
      split; [rewrite H43; apply Hw|split; [rewrite H43; exact Hin|split; [rewrite H44, H43; exact Ho3|split; [exact H45|split; [exact H46|by rewrite H46]]]]]]]]]]].
    + change (mb_ID m) with mID in E2. unfold joinAndSync, mbind, M_bind. rewrite E1, E2. unfold take_assignment, update, wrapped, mbind, M_bind. cbn [fst snd].
      replace (gc_assigned (set_gc_nextID x2 g1)) with (@nil TopicPartition) by (by rewrite <- Has). rewrite bool_decide_true by done. rewrite andb_false_r. fold l g2. by rewrite E3.
    + apply (reachable_kept g _ n); [done|symmetry; apply H41|eauto].
Qed.
End join.

(** C11: the first consumer of a group. On a broker that has the topics, and with a group
    that does not exist or has lost its members, [NewGroupConsumer] succeeds: the
    consumer owns every partition of its topics exactly once, whichever strategy it is
    configured with; it starts at the committed offset of each partition, or at the
    start or the end of its log if there is none; and the coordinator has the group
    stable, in the next generation, with this consumer as its only member and leader.
    Nothing else of the broker changes. *)
Theorem first_member_starts {N} `{Network N, !ServedBy N (nat * Broker)} (io : nat → IO) (limit : Z) `{!Serves (broker_mux io) limit}
    ord addrs groupID topics cfg n k b :
  let g0 := mkGroupConsumer addrs groupID topics (group_config cfg) false 0 EmptyString 0 EmptyString [] ∅ [] in
  joinable limit io k b g0 → orders_ok ord → reachable_from g0 n → net_state n = (k, b) → topics ≠ [] → ∃ g n' k' gc m ptype,
  NewGroupConsumer ord addrs groupID topics cfg n = (Ok g, n') ∧ net_state n' = (k', set_coordinator gc b) ∧ reachable_from g n' ∧ g.(gc_closed) = false ∧
  NoDup g.(gc_assigned) ∧ (∀ t p, (t, p) ∈ g.(gc_assigned) ↔ t ∈ topics ∧ is_Some (get_partition t p b)) ∧
  (∀ tp, tp ∈ g.(gc_assigned) → g.(gc_offsets) !! tp = Some (start_position g0 b tp)) ∧
  g.(gc_memberID) = m.(mb_ID) ∧ g.(gc_generationID) = next_generation groupID b.(b_coordinator) ∧ coord_inv gc ∧
  gc.(gc_groups) !! groupID = Some (sole_group groupID ptype g0.(gc_config).(gcc_AssignorStrategy) StateStable g.(gc_generationID) m).
Proof.
  intros g0 Hj Hord Hr Hst Htop. destruct (joinAndSync_served io limit ord g0 n k b Hj Hord Hr Hst eq_refl eq_refl eq_refl)
    as (g & n' & k' & gc & m & ptype & E & Hr' & Hs & Hci & _ & Hcl & Hnd & Hin & Ho & Hm & Hg & Hgr).
  exists g, n', k', gc, m, ptype. split; [|split; [exact Hs|split; [done|split; [done|split; [done|split; [|split; [|done]]]]]]].
  - destruct Hr as (addr & rest & Ea & _). cbn in Ea. subst addrs. destruct topics as [|t topics]; [done|]. destruct Hj as []. destruct jn_group0 as [_ Hne]. cbn in Hne.
    unfold NewGroupConsumer. rewrite bool_decide_false by done. fold g0. by rewrite E.
  - intros t p. rewrite Hin. cbn [gc_topics g0]. destruct Hj. rewrite Forall_forall in jn_topics0. split.
    + intros [Ht Hp]. split; [done|]. destruct (jn_topics0 t Ht) as [Hk _]. destruct (known_meta b t jn_inv0 Hk) as (_ & _ & _ & _ & Hgp). by apply Hgp.
    + intros [Ht Hp]. split; [done|]. destruct (jn_topics0 t Ht) as [Hk _]. destruct (known_meta b t jn_inv0 Hk) as (_ & _ & _ & _ & Hgp). by apply Hgp.
  - intros tp Htp. by rewrite Ho, decide_True.
Qed.

(** ** An instance *)

Lemma init_coordinator e n i b : (init_partition_replication e n i b).(b_coordinator) = b.(b_coordinator).
Proof. unfold init_partition_replication, getOrCreateISRTracker. by destruct (GetEpoch _ _ _), (getISRTracker _ _ _). Qed.

Lemma load_coordinator env metas : ∀ i b b', load_topics env i metas b = Ok b' → b'.(b_coordinator) = b.(b_coordinator).
Proof.
  induction metas as [|meta metas IH]; intros i b b'; cbn [load_topics]; [by intros [= ->]|]. destruct (validateTopicName _ _); [|done].
  destruct (open_topic _ _ _ b) as [[?|?] b1] eqn:E; [|done]. intros Hl. apply IH in Hl. rewrite Hl. clear Hl. unfold open_topic in E. destruct (NewTopic _ _ _ _ _ _ _) as [[t|] disk]; [|done].
  injection E as _ <-. unfold initTopicReplication. generalize (seqZ 0 (tmt_NumPartitions meta)). intros l.
  enough (Hf : ∀ b0, (foldl (λ b p, init_partition_replication (env i) (tmt_Name meta) p b) b0 l).(b_coordinator) = b0.(b_coordinator)) by (rewrite Hf; done).
  induction l as [|p l IHl]; intros b0; [done|]. cbn [foldl]. by rewrite IHl, init_coordinator.
Qed.

Lemma New_coordinator e times env cfg dir st b : New e times env cfg dir st = Ok b → b.(b_coordinator) = NewGroupCoordinator.
Proof.
  unfold New. destruct (NewMetadataManager _); [|done]. destruct (Start _ _ _) as [[?|?] os]; [|done]. intros H. by apply load_coordinator in H.
Qed.

(** The in-sync replicas of a broker without a cluster. *)
Lemma standalone_isr e b n i t : EnvOk e → broker_inv b → standalone b → getISRTracker n i b = Some t →
  zlen (GetISR e.(e_replicas) t) ≤ 1 ∧ Forall (λ id, id = b.(b_localID)) (GetISR e.(e_replicas) t).
Proof.
  intros He Hb [Hr Hs] Et. pose proof (bi_tracker _ Hb _ _ _ Et) as Hok.
  assert (Hall : ∀ id rep, t.(isr_replicas) !! id = Some rep → id = b.(b_localID) ∧ rep.(rep_BrokerID) = id).
  { intros id rep Hid. split; [|by apply (tk_reps _ _ _ _ Hok)]. assert (Hin : id ∈ b.(b_replicaIDs)) by (apply (sd_tracker _ Hs n i t); [done|]; apply elem_of_dom; by eexists).
    rewrite Hr in Hin. by apply list_elem_of_singleton in Hin. }
  assert (Hf : Forall (λ id, id = b.(b_localID)) (GetISR e.(e_replicas) t)).
  { apply Forall_fmap, Forall_forall. intros rep [_ Hin]%list_elem_of_filter. rewrite (replica_order t.(isr_replicas)) in Hin. apply list_elem_of_fmap in Hin as ([id rep'] & -> & Hm%elem_of_map_to_list).
    destruct (Hall _ _ Hm) as [-> E]. exact E. }
  split; [|done]. unfold GetISR. rewrite length_fmap. pose proof (length_filter (λ rep, rep.(rep_InSync) = true) (e_replicas e (isr_replicas t))) as Hl.
  rewrite (Permutation_length (replica_order t.(isr_replicas))), length_fmap in Hl. assert (Hm : (length (map_to_list t.(isr_replicas)) ≤ 1)%nat); [|lia].
  rewrite <- (length_fmap fst). apply (submseteq_length _ [b.(b_localID)]), NoDup_submseteq; [apply NoDup_fst_map_to_list|].
  intros id ([id' rep] & -> & Hm%elem_of_map_to_list)%list_elem_of_fmap. apply list_elem_of_singleton. by eapply Hall.
Qed.

Section sample.
#[local] Existing Instance Served_By.
#[local] Instance join_network : Network (Served (nat * Broker)) := Served_Network (broker_mux quiet_io) 0.
#[local] Instance join_serves : Serves (N:=Served (nat * Broker)) (broker_mux quiet_io) (request_limit 0) :=
  Served_Serves (broker_mux quiet_io) 0.

Definition first_member : GroupConsumer :=
  mkGroupConsumer ["localhost:9092"] "billing" ["orders"] (group_config DefaultGroupConsumerConfig) false 0 EmptyString 0 EmptyString [] ∅ [].

(** The broker with the topic "orders", without groups and committed offsets. *)
Lemma fresh_orders_broker : ∃ b q, broker_inv b ∧ standalone b ∧ b.(b_config) = sample_cfg ∧ inS 32 b.(b_localID) ∧ b.(b_metaManager) = orders_metadata ∧ known b "orders" ∧
  get_partition "orders" 0 b = Some q ∧ log_view true q.(pt_log) 0 [] ∧ b.(b_coordinator) = NewGroupCoordinator ∧ Fetch "billing" "orders" 0 b.(b_offsetStore) = -1.
Proof.
  destruct (New_ok sample_env (λ _ _, 0) (λ _, sample_env) _ _ _ _ _ orders_storage_ok) as (b & E & _ & _ & _ & Hm & Hs & Hid & _).
  destruct orders_broker as (b' & q & E' & [Hb _] & Hst & Hc & Ht & Hq & Hv). rewrite E in E'. injection E' as <-.
  exists b, q. split_and!; [exact Hb|exact Hst|exact Hc|rewrite Hid; apply wrapS_range; lia|exact Hm|exact Ht|exact Hq|exact Hv|by eapply New_coordinator|].
  unfold Fetch. rewrite (si_cache _ _ Hs). generalize (Z.to_nat (offset_partitions sample_cfg)). intros m. assert (Ej : mjoin (replicate m ([] : list record)) = []) by (induction m; done).
  by rewrite Ej.
Qed.

Lemma sample_topic_count b : b.(b_metaManager) = orders_metadata → topic_count b "orders" = 1.
Proof. intros E. unfold topic_count. by rewrite E. Qed.

Lemma sample_metadata_reply b : broker_inv b → standalone b → b.(b_config) = sample_cfg → inS 32 b.(b_localID) → b.(b_metaManager) = orders_metadata →
  let reply := metadata_reply (λ _, sample_env) b ["orders"] in wire_wf reply ∧ at_most (wire_put reply) 16777216.
Proof.
  intros Hb Hs Hc Hid Hm reply. unfold reply, metadata_reply, topic_metadata. cbn [imap]. rewrite (sample_topic_count b Hm). change (seqZ 0 1) with [0]. cbn [fmap list_fmap].
  unfold clusterBrokerMetadata. rewrite Hc. cbn [cfg_Brokers sample_cfg sample_yaml WithDefaults].
  set (host := bc_Host _). set (port := int32 _). set (pm := partition_metadata sample_env b "orders" 0).
  assert (Hpm : PartitionMetadata_wf pm ∧ zlen pm.(pm_Replicas) ≤ 1 ∧ zlen pm.(pm_ISR) ≤ 1).
  { unfold pm, partition_metadata. cbn [pm_Replicas pm_ISR]. assert (Hreps : Forall (inS 32) b.(b_replicaIDs) ∧ zlen b.(b_replicaIDs) ≤ 1) by (rewrite (sa_replicas _ Hs); split; [by constructor|done]).
    assert (Hisr : Forall (inS 32) (match getISRTracker "orders" 0 b with Some t => GetISR sample_env.(e_replicas) t | None => b.(b_replicaIDs) end) ∧
      zlen (match getISRTracker "orders" 0 b with Some t => GetISR sample_env.(e_replicas) t | None => b.(b_replicaIDs) end) ≤ 1).
    { destruct (getISRTracker "orders" 0 b) as [t|] eqn:Et; [|exact Hreps]. destruct (standalone_isr sample_env b "orders" 0 t sample_env_ok Hb Hs Et) as [Hl Hf].
      split; [|exact Hl]. eapply Forall_impl; [exact Hf|]. by intros id ->. }
    destruct Hreps as [R1 R2], Hisr as [I1 I2]. split; [|done]. split; [by_decide|]. split; [cbn; by rewrite (standalone_leader b _ _ Hs)|]. cbn [pm_Replicas pm_ISR].
    split; [etrans; [exact R2|by_decide]|]. split; [exact R1|]. split; [etrans; [exact I2|by_decide]|exact I1]. }
  destruct Hpm as (Hwf & Hr1 & Hi1). split.
  - split; [by_decide|]. split; [constructor; [|done]; split; [exact Hid|split; [by_decide|apply wrapS_range; lia]]|]. split; [by_decide|].
    constructor; [|done]. split; [by_decide|]. split; [by_decide|]. split; [by_decide|]. by constructor.
  - assert (H1 : at_most (BrokerMetadata_Encode (mkBrokerMetadata b.(b_localID) host port)) (10 + zlen (str_bytes host))) by sizes.
    assert (H2 : at_most (PartitionMetadata_Encode pm) (8 + (4 + 4 * zlen pm.(pm_Replicas)) + (4 + 4 * zlen pm.(pm_ISR)))) by sizes.
    assert (H3 : at_most (TopicMetadata_Encode (mkTopicMetadata "orders" ErrNone [pm])) 64).
    { pose proof (at_most_array PartitionMetadata_Encode (λ _, 24) [pm]) as Ha. cbn in Ha. change (zsum [24]) with 24 in Ha.
      assert (Hp : at_most (put_array PartitionMetadata_Encode [pm]) 28) by (apply Ha; intros x ->%list_elem_of_singleton; eapply at_most_le; [exact H2|lia]). sizes. }
    pose proof (at_most_array BrokerMetadata_Encode (λ _, 10 + zlen (str_bytes host)) [mkBrokerMetadata b.(b_localID) host port] ltac:(intros x ->%list_elem_of_singleton; exact H1)) as A1.
    pose proof (at_most_array TopicMetadata_Encode (λ _, 64) [mkTopicMetadata "orders" ErrNone [pm]] ltac:(intros x ->%list_elem_of_singleton; exact H3)) as A2.
    cbn [wire_put MetadataResponse_Wire]. sizes. by_decide.
Qed.

Lemma sample_joinable b q : broker_inv b → standalone b → b.(b_config) = sample_cfg → inS 32 b.(b_localID) → b.(b_metaManager) = orders_metadata → known b "orders" →
  get_partition "orders" 0 b = Some q → b.(b_coordinator) = NewGroupCoordinator → joinable (request_limit 0) quiet_io 0 b first_member.
Proof.
  intros Hb Hs Hc Hid Hm Ht Hq Hg. constructor; try by_decide; try reflexivity; try exact Hb.
  - intros j. exact sample_env_ok.
  - rewrite Hg. intros g E. exfalso. revert E. cbn [gc_groups NewGroupCoordinator]. by rewrite lookup_empty.
  - split; [by_decide|by eexists].
  - constructor; [|done]. split; [done|]. by rewrite (sample_topic_count b Hm).
  - cbn [gc_topics first_member]. unfold topic_counts. cbn [foldl]. rewrite (sample_topic_count b Hm). by_decide.
  - by apply sample_metadata_reply.
Qed.

Lemma first_member_starts_witness : ∃ b g n', NewGroupConsumer sample_orders ["localhost:9092"] "billing" ["orders"] DefaultGroupConsumerConfig (sample_net b) = (Ok g, n') ∧
  ("orders", 0) ∈ g.(gc_assigned) ∧ g.(gc_offsets) !! ("orders", 0) = Some 0 ∧ g.(gc_generationID) = 1.
Proof.
  destruct fresh_orders_broker as (b & q & Hb & Hs & Hc & Hid & Hm & Ht & Hq & Hv & Hg & Hf).
  destruct (first_member_starts quiet_io (request_limit 0) sample_orders ["localhost:9092"] "billing" ["orders"] DefaultGroupConsumerConfig (sample_net b) 0 b)
    as (g & n' & _ & _ & _ & _ & E & _ & _ & _ & _ & Hin & Ho & _ & Hgen & _);
    [by eapply sample_joinable|exact sample_orders_ok|by exists "localhost:9092", []|reflexivity|done|].
  assert (Ha : ("orders", 0) ∈ g.(gc_assigned)) by (apply Hin; split; [by apply list_elem_of_singleton|by eexists]).
  exists b, g, n'. split; [exact E|]. split; [exact Ha|]. split.
  - etrans; [exact (Ho _ Ha)|]. unfold start_position, reset_offset, list_offset. cbn [fst snd gc_groupID lop_PartitionID lop_Timestamp].
    rewrite Hf, Hq. cbn [Z.leb Z.compare]. cbn [lsp_Offset]. by rewrite (LogStartOffset_view _ _ _ _ Hv).
  - rewrite Hgen, Hg. reflexivity.
Defined.
End sample.
