(* ===== verification/GroupLife.v ===== *)
(** * The life of a group consumer (src/pkg/client/group_consumer.go)

    The goroutines of a consumer beside the calls of its user: the heartbeat loop, which starts
    goroutines that join the group again, the auto-commit loop, and [Close], which leaves the
    group and waits for the two loops. A round trip is one step; so are the two halves of a
    rejoin, the JoinGroup request and the rest. *)
From Stdlib Require Import ZArith Lia.
From stdpp Require Import base list strings gmap.
From S2P Require Import Prelude Codec Frame Requests Responses Server Sizes Group Broker Handlers BrokerInv BrokerOps Restart Standalone Network Consumer Producer Delivery GroupConsumer GroupDelivery GroupJoin.
Open Scope Z_scope.

(** [Close]: not called; [closed] is set and [stopCh] closed, with the member ID it read; LeaveGroup
    was sent; it has returned. *)
Inductive close_state := CloseNotCalled | CloseLeaving (memberID : string) | CloseWaiting | CloseReturned.

Record group_life (N : Type) := mkGroupLife {
  gl_consumer : GroupConsumer;
  gl_net : N;
  gl_heartbeatLoop : bool;  (* running *)
  gl_autoCommitLoop : bool;
  gl_rejoins : nat;  (* goroutines that have yet to send JoinGroup *)
  gl_joined : list JoinGroupResponse;  (* those that have yet to sync *)
  gl_close : close_state
}.
Arguments mkGroupLife {N} _ _ _ _ _ _ _.
Arguments gl_consumer {N} _.
Arguments gl_net {N} _.
Arguments gl_heartbeatLoop {N} _.
Arguments gl_autoCommitLoop {N} _.
Arguments gl_rejoins {N} _.
Arguments gl_joined {N} _.
Arguments gl_close {N} _.

Definition stopCh_closed {N} (s : group_life N) : bool := match s.(gl_close) with CloseNotCalled => false | _ => true end.

(** The end of [NewGroupConsumer]: the loops are started. *)
Definition start_group {N} (g : GroupConsumer) (n : N) : group_life N := mkGroupLife g n true g.(gc_config).(gcc_AutoCommit) 0 [] CloseNotCalled.

Definition set_client {N} (c : GroupConsumer * N) (s : group_life N) : group_life N :=
  mkGroupLife c.1 c.2 s.(gl_heartbeatLoop) s.(gl_autoCommitLoop) s.(gl_rejoins) s.(gl_joined) s.(gl_close).
Definition set_loops {N} (heartbeat autoCommit : bool) (s : group_life N) : group_life N :=
  mkGroupLife s.(gl_consumer) s.(gl_net) heartbeat autoCommit s.(gl_rejoins) s.(gl_joined) s.(gl_close).
Definition set_rejoins {N} (rejoins : nat) (joined : list JoinGroupResponse) (s : group_life N) : group_life N :=
  mkGroupLife s.(gl_consumer) s.(gl_net) s.(gl_heartbeatLoop) s.(gl_autoCommitLoop) rejoins joined s.(gl_close).
Definition set_close {N} (c : close_state) (s : group_life N) : group_life N :=
  mkGroupLife s.(gl_consumer) s.(gl_net) s.(gl_heartbeatLoop) s.(gl_autoCommitLoop) s.(gl_rejoins) s.(gl_joined) c.

Inductive group_event (N : Type) :=
  | HeartbeatTick
  | HeartbeatStops
  | CommitTick (ord : Orders)
  | CommitStops
  | RejoinJoins (ord : Orders)
  | RejoinSyncs (ord : Orders)
  | PollCalled (ord : Orders) (idle : poll_idle)
  | CommitCalled (ord : Orders)
  | CommitOffsetCalled (tp : TopicPartition) (offset : Z)
  | CloseCalled
  | CloseLeaves
  | CloseReturns
  | OthersAct (f : N → N).
Arguments HeartbeatTick {N}.
Arguments HeartbeatStops {N}.
Arguments CommitTick {N} _.
Arguments CommitStops {N}.
Arguments RejoinJoins {N} _.
Arguments RejoinSyncs {N} _.
Arguments PollCalled {N} _ _.
Arguments CommitCalled {N} _.
Arguments CommitOffsetCalled {N} _ _.
Arguments CloseCalled {N}.
Arguments CloseLeaves {N}.
Arguments CloseReturns {N}.
Arguments OthersAct {N} _.

Section life.
Context {N : Type} `{Network N}.

(** [Close] up to [close(gc.stopCh)] and the callback, and its LeaveGroup. *)
Definition close_begins (g : GroupConsumer) : GroupConsumer :=
  let g := set_gc_closed g in
  if g.(gc_config).(gcc_OnRevoked) && negb (bool_decide (g.(gc_assigned) = [])) then call_back (PartitionsRevoked g.(gc_assigned)) g else g.
Definition close_leaves (memberID : string) (s : GroupConsumer * N) : GroupConsumer * N :=
  if bool_decide (memberID = EmptyString) then s
  else ((payload ← encode (mkLeaveGroupRequest s.1.(gc_groupID) memberID); sendRequest 7 payload) s).2.

(** [None]: the step is not possible. A select takes any case that is ready, so a loop may tick
    although [stopCh] is closed. *)
Definition group_step (ev : group_event N) (s : group_life N) : option (group_life N) :=
  let c := (s.(gl_consumer), s.(gl_net)) in
  match ev with
  | HeartbeatTick =>
      if s.(gl_heartbeatLoop) then
        let '(rejoin, c) := heartbeat_tick c in
        Some (set_rejoins (if rejoin then S s.(gl_rejoins) else s.(gl_rejoins)) s.(gl_joined) (set_client c s))
      else None
  | HeartbeatStops => if s.(gl_heartbeatLoop) && stopCh_closed s then Some (set_loops false s.(gl_autoCommitLoop) s) else None
  | CommitTick ord => if s.(gl_autoCommitLoop) then Some (set_client (GroupConsumer_Commit ord c).2 s) else None
  | CommitStops => if s.(gl_autoCommitLoop) && stopCh_closed s then Some (set_loops s.(gl_heartbeatLoop) false s) else None
  | RejoinJoins ord =>
      match s.(gl_rejoins) with
      | O => None
      | S k =>
          match join ord c with
          | (Ok resp, c) => Some (set_rejoins k (s.(gl_joined) ++ [resp]) (set_client c s))
          | (Err _, c) => Some (set_rejoins k s.(gl_joined) (set_client c s))
          end
      end
  | RejoinSyncs ord =>
      match s.(gl_joined) with
      | [] => None
      | resp :: joined =>
          Some (set_rejoins s.(gl_rejoins) joined
            (set_client ((assignment ← sync ord resp; take_assignment ord (assigned_partitions assignment)) c).2 s))
      end
  | PollCalled ord idle => Some (set_client (Poll ord idle c).2 s)
  | CommitCalled ord => Some (set_client (GroupConsumer_Commit ord c).2 s)
  | CommitOffsetCalled tp offset => Some (set_client (CommitOffset tp offset c).2 s)
  | CloseCalled =>
      match s.(gl_close) with
      | CloseNotCalled => Some (set_close (CloseLeaving s.(gl_consumer).(gc_memberID)) (set_client (close_begins s.(gl_consumer), s.(gl_net)) s))
      | _ => Some s  (* a second call returns at once *)
      end
  | CloseLeaves =>
      match s.(gl_close) with
      | CloseLeaving memberID => Some (set_close CloseWaiting (set_client (close_leaves memberID c) s))
      | _ => None
      end
  | CloseReturns =>
      match s.(gl_close) with
      | CloseWaiting => if s.(gl_heartbeatLoop) || s.(gl_autoCommitLoop) then None else Some (set_close CloseReturned s)
      | _ => None
      end
  | OthersAct f => Some (set_client (s.(gl_consumer), f s.(gl_net)) s)
  end.

Definition group_run (evs : list (group_event N)) (s : group_life N) : option (group_life N) :=
  foldl (λ s ev, s ≫= group_step ev) (Some s) evs.

(** [Close] in one go is the definition of the client. *)
Lemma close_in_one_go g n : g.(gc_closed) = false → close_leaves g.(gc_memberID) (close_begins g, n) = GroupConsumer_Close (g, n).
Proof.
  intros Hc. unfold GroupConsumer_Close. rewrite Hc. fold (close_begins g). unfold close_leaves. cbn [fst].
  assert (E : (close_begins g).(gc_memberID) = g.(gc_memberID)) by (unfold close_begins; by case_match). by rewrite E.
Qed.

(** ** What is left of a closed consumer *)

(** The operations leave the flag [closed] alone. *)
Definition keeps_closed {A} (m : M (GroupConsumer * N) A) : Prop := ∀ s, (m s).2.1.(gc_closed) = s.1.(gc_closed).

Lemma keeps_bind {A B} (m : M (GroupConsumer * N) A) (f : A → M (GroupConsumer * N) B) : keeps_closed m → (∀ a, keeps_closed (f a)) → keeps_closed (a ← m; f a).
Proof. intros Hm Hf s. unfold mbind, M_bind. specialize (Hm s). destruct (m s) as [[a|e] s1]; [|done]. cbn in Hm. by rewrite (Hf a s1). Qed.
Lemma keeps_wrapped {A} msg (m : M (GroupConsumer * N) A) : keeps_closed m → keeps_closed (wrapped msg m).
Proof. intros Hm s. unfold wrapped. specialize (Hm s). by destruct (m s) as [[a|e] s1]. Qed.
Lemma keeps_update f : (∀ g, (f g).(gc_closed) = g.(gc_closed)) → keeps_closed (update f).
Proof. intros Hf s. apply Hf. Qed.
Lemma keeps_send apiKey payload : keeps_closed (sendRequest apiKey payload).
Proof. intros [g n]. unfold sendRequest. destruct (dial_any _ _ _) as [[c|e] n1]; [|done]. by destruct (exchange _ _ _ _) as [r [st n2]]. Qed.
Lemma keeps_plain {A} (r : GroupConsumer * N → result A) : keeps_closed (λ s, (r s, s)).
Proof. done. Qed.
Lemma keeps_require b err : keeps_closed (require (S:=GroupConsumer * N) b err).
Proof. intros s. unfold require. by destruct b. Qed.
End life.


Ltac keeps_flag := repeat first
  [apply keeps_bind; [|intros ?]|apply keeps_wrapped|apply keeps_send|apply keeps_require|apply (keeps_plain (λ _, _))|apply (keeps_plain (λ s, Ok s.1))
  |apply keeps_update; intros ?|case_match|done].

Section life_facts.
Context {N : Type} `{Network N}.

Lemma keeps_join ord : keeps_closed (join (N:=N) ord).
Proof. unfold join. keeps_flag. Qed.
Lemma keeps_fetchTopicMetadata : keeps_closed (fetchTopicMetadata (N:=N)).
Proof. unfold fetchTopicMetadata. keeps_flag. Qed.
Lemma keeps_sync ord resp : keeps_closed (sync (N:=N) ord resp).
Proof. unfold sync, leader_assignments. keeps_flag. Qed.
Lemma keeps_resolve ord : keeps_closed (resolveUnsetOffsets (N:=N) ord).
Proof. unfold resolveUnsetOffsets. keeps_flag. Qed.
Lemma keeps_take ord l : keeps_closed (take_assignment (N:=N) ord l).
Proof. unfold take_assignment, fetchInitialOffsets. keeps_flag; apply keeps_resolve. Qed.
Lemma keeps_Poll ord idle : keeps_closed (Poll (N:=N) ord idle).
Proof. unfold Poll. keeps_flag. Qed.
Lemma keeps_commit req : keeps_closed (send_commit (N:=N) req).
Proof. unfold send_commit. keeps_flag. Qed.
Lemma keeps_Commit ord : keeps_closed (GroupConsumer_Commit (N:=N) ord).
Proof. unfold GroupConsumer_Commit. keeps_flag; apply keeps_commit. Qed.
Lemma keeps_CommitOffset tp o : keeps_closed (CommitOffset (N:=N) tp o).
Proof. unfold CommitOffset. keeps_flag; apply keeps_commit. Qed.
Lemma keeps_heartbeat s : (heartbeat_tick (N:=N) s).2.1.(gc_closed) = s.1.(gc_closed).
Proof.
  unfold heartbeat_tick. case_bool_decide; [done|]. set (m := _ ← encode _; _). assert (Hk : keeps_closed m) by (unfold m; keeps_flag).
  specialize (Hk s). by destruct (m s) as [[r|e] s1].
Qed.
Lemma keeps_leave memberID s : (close_leaves (N:=N) memberID s).1.(gc_closed) = s.1.(gc_closed).
Proof. unfold close_leaves. case_bool_decide; [done|]. set (m := _ ← encode _; _). assert (Hk : keeps_closed m) by (unfold m; keeps_flag). exact (Hk s). Qed.

(** [closed] is set while [stopCh] is closed, and [Close] returns after the loops. *)
Record consumer_inv (s : group_life N) : Prop := {
  gi_closed : s.(gl_consumer).(gc_closed) = stopCh_closed s;
  gi_loops : s.(gl_close) = CloseReturned → s.(gl_heartbeatLoop) = false ∧ s.(gl_autoCommitLoop) = false
}.

Lemma client_inv c s : consumer_inv s → c.1.(gc_closed) = s.(gl_consumer).(gc_closed) → consumer_inv (set_client c s).
Proof. intros [H1 H2] Hc. constructor; [cbn; by rewrite Hc|exact H2]. Qed.
Lemma rejoins_inv k l s : consumer_inv s → consumer_inv (set_rejoins k l s).
Proof. intros [H1 H2]. by constructor. Qed.

Lemma loops_inv h a s : consumer_inv s → (s.(gl_close) = CloseReturned → h = false ∧ a = false) → consumer_inv (set_loops h a s).
Proof. intros [H1 H2] Hl. by constructor. Qed.

Lemma group_step_inv ev s s' : consumer_inv s → group_step ev s = Some s' → consumer_inv s'.
Proof.
  intros Hs. pose proof Hs as [H1 H2]. destruct ev as [| |ord| |ord|ord|ord idle|ord|tp o| | | |f]; cbn [group_step].
  - destruct (gl_heartbeatLoop s); [|done]. pose proof (keeps_heartbeat (gl_consumer s, gl_net s)) as Hk.
    destruct (heartbeat_tick _) as [r c]. intros [= <-]. by apply rejoins_inv, client_inv.
  - destruct (_ && _); [|done]. intros [= <-]. apply loops_inv; [done|]. intros Hr. by destruct (H2 Hr).
  - destruct (gl_autoCommitLoop s); [|done]. intros [= <-]. apply client_inv; [done|]. apply keeps_Commit.
  - destruct (_ && _); [|done]. intros [= <-]. apply loops_inv; [done|]. intros Hr. by destruct (H2 Hr).
  - destruct (gl_rejoins s) as [|k]; [done|]. pose proof (keeps_join ord (gl_consumer s, gl_net s)) as Hk.
    destruct (join ord _) as [[r|e] c]; intros [= <-]; by apply rejoins_inv, client_inv.
  - destruct (gl_joined s) as [|r l]; [done|]. intros [= <-]. apply rejoins_inv, client_inv; [done|].
    assert (Hk : keeps_closed (N:=N) (assignment ← sync ord r; take_assignment ord (assigned_partitions assignment))) by (apply keeps_bind; [apply keeps_sync|intros a; apply keeps_take]).
    apply Hk.
  - intros [= <-]. apply client_inv; [done|]. apply keeps_Poll.
  - intros [= <-]. apply client_inv; [done|]. apply keeps_Commit.
  - intros [= <-]. apply client_inv; [done|]. apply keeps_CommitOffset.
  - destruct (gl_close s) eqn:E; intros [= <-]; try done. constructor; [|done]. cbn. unfold close_begins. by case_match.
  - destruct (gl_close s) as [|m| |] eqn:E; try done. intros [= <-]. constructor; [|done]. cbn. rewrite keeps_leave. cbn. rewrite H1. unfold stopCh_closed. by rewrite E.
  - destruct (gl_close s) eqn:E; try done. destruct (gl_heartbeatLoop s) eqn:Eh; [done|]. destruct (gl_autoCommitLoop s) eqn:Ea; [done|]. intros [= <-].
    constructor; [|done]. cbn. rewrite H1. unfold stopCh_closed. by rewrite E.
  - intros [= <-]. by apply client_inv.
Qed.

Lemma group_run_inv evs : ∀ s s', consumer_inv s → group_run evs s = Some s' → consumer_inv s'.
Proof.
  unfold group_run. induction evs as [|ev evs IH]; intros s s' Hs; cbn [foldl]; [by intros [= <-]|]. cbn [mbind option_bind].
  destruct (group_step ev s) as [s1|] eqn:E; [by apply IH; eapply group_step_inv|]. intros Hn. exfalso. clear -Hn. induction evs as [|ev' evs IH]; [done|]. by apply IH.
Qed.

Lemma group_start_inv g n : g.(gc_closed) = false → consumer_inv (start_group g n).
Proof. intros Hc. by constructor. Qed.

(** A closed consumer polls and commits nothing. *)
Lemma closed_poll ord idle g (n : N) : g.(gc_closed) = true → (Poll ord idle (g, n)).2 = (g, n).
Proof. intros Hc. unfold Poll, this, require, mbind, M_bind. cbn [fst]. by rewrite Hc. Qed.
Lemma closed_commit ord g (n : N) : g.(gc_closed) = true → (GroupConsumer_Commit ord (g, n)).2 = (g, n).
Proof. intros Hc. unfold GroupConsumer_Commit, this, require, mbind, M_bind. cbn [fst]. by rewrite Hc. Qed.

End life_facts.

(** ** A rejoin that comes too late *)

Section late.
Context {N : Type} `{Network N, !ServedBy N (nat * Broker)} (io : nat → IO) (limit : Z) `{!Serves (broker_mux io) limit}.

Lemma LeaveGroupRequest_size r : at_most (wire_put r) (4 + zlen (str_bytes r.(lgq_GroupID)) + zlen (str_bytes r.(lgq_MemberID))).
Proof. cbn [wire_put LeaveGroupRequest_Wire]. unfold LeaveGroupRequest_Encode. sizes. Qed.

(** The only member of a group leaves it. *)
Lemma leave_served g n k b gr m : can_join limit io k g → broker_inv b → reachable_from g n → net_state n = (k, b) → g.(gc_memberID) ≠ EmptyString →
  b.(b_coordinator).(gc_groups) !! g.(gc_groupID) = Some gr → gr.(g_Members) = {[g.(gc_memberID) := m]} → ∃ x n1 gc1,
  close_leaves g.(gc_memberID) (g, n) = (set_gc_nextID x g, n1) ∧ net_state n1 = (S k, set_coordinator gc1 b) ∧ coord_inv gc1 ∧
  vacant g.(gc_groupID) gc1 ∧ ∀ addr, net_listens addr n → net_listens addr n1.
Proof.
  intros [He Hrnd [Hg Hgne] Hcl Hstr Hto Hm0 Hlim] Hinv Hr Hst Hne Eg Em.
  set (req := mkLeaveGroupRequest g.(gc_groupID) g.(gc_memberID)). set (e := (io k).(io_env) 0%nat 0%nat) in *.
  set (gc1 := (LeaveGroup e.(e_members) req b.(b_coordinator)).2).
  assert (El : LeaveGroup e.(e_members) req b.(b_coordinator) = (mkLeaveGroupResponse ErrNone, gc1)).
  { unfold gc1, LeaveGroup. cbn [lgq_GroupID lgq_MemberID req]. by rewrite Eg, Em, lookup_singleton_eq. }
  assert (Hci : coord_inv gc1) by (eapply coord_step_inv; [exact (bi_coord _ Hinv)|constructor; apply He]).
  assert (Hv : vacant g.(gc_groupID) gc1).
  { pose proof (ci_groups _ (bi_coord _ Hinv) _ _ Eg) as (Eid & _). unfold gc1, LeaveGroup. cbn [lgq_GroupID lgq_MemberID req]. rewrite Eg, Em, lookup_singleton_eq. cbn [snd].
    rewrite delete_singleton_eq. intros g' . unfold set_group, after_removal. cbn. rewrite Eid. rewrite lookup_insert_eq. by intros [= <-]. }
  pose proof Hg as Hg'. unfold str_ok in Hg'. widths.
  destruct (bounded_request io limit 7 (λ a b, let '(resp, b) := handleLeaveGroup (io k) a b in (Some resp, b)) req (mkLeaveGroupResponse ErrNone) (set_coordinator gc1 b) g n k b Hr Hst Hlim Hcl)
    as (payload & f & n1 & x & Ep & Es & _ & _ & Hs & Hl).
  - reflexivity.
  - by apply handled_with.
  - by_decide.
  - split; [exact Hg|]. unfold str_ok. change (lgq_MemberID req) with g.(gc_memberID). widths. lia.
  - eapply at_most_le; [apply LeaveGroupRequest_size|]. cbn [req lgq_GroupID lgq_MemberID]. lia.
  - unfold handleLeaveGroup. fold e. by rewrite El.
  - by_decide.
  - eapply (at_most_le _ 2); [|lia]. cbn [wire_put LeaveGroupResponse_Wire]. unfold LeaveGroupResponse_Encode. sizes.
  - exists x, n1, gc1. split; [|done]. unfold close_leaves. rewrite bool_decide_false by done. fold req. cbn [fst]. fold req.
    unfold encode, lift, mbind, M_bind. by rewrite Ep, Es.
Qed.

(** C40: a consumer that is closed can be in its group again. When a heartbeat of the only member of a
    group has been answered with a rebalance, the goroutine that joins again is not waited for:
    [Close] leaves the group and returns, and then that goroutine's JoinGroup request makes the
    closed consumer the only member and leader of the group, in a new generation; its heartbeat loop has
    ended, so it stays there until its session times out. *)
Theorem rejoin_after_close ord s k b gr m : let g := s.(gl_consumer) in
  s.(gl_close) = CloseNotCalled → s.(gl_heartbeatLoop) = true → s.(gl_autoCommitLoop) = true → (0 < s.(gl_rejoins))%nat → g.(gc_closed) = false →
  can_join limit io k g → can_join limit io (S k) g → broker_inv b → reachable_from g s.(gl_net) → net_state s.(gl_net) = (k, b) →
  b.(b_coordinator).(gc_groups) !! g.(gc_groupID) = Some gr → gr.(g_Members) = {[g.(gc_memberID) := m]} → g.(gc_memberID) ≠ EmptyString → ∃ s1 s2 k' gc gen m' ptype,
  group_run [CloseCalled; CloseLeaves; HeartbeatStops; CommitStops; CloseReturns] s = Some s1 ∧ s1.(gl_close) = CloseReturned ∧
  vacant g.(gc_groupID) (net_state s1.(gl_net)).2.(b_coordinator) ∧
  group_step (RejoinJoins ord) s1 = Some s2 ∧ s2.(gl_consumer).(gc_closed) = true ∧ s2.(gl_heartbeatLoop) = false ∧
  net_state s2.(gl_net) = (k', set_coordinator gc b) ∧ m'.(mb_ID) = g.(gc_memberID) ∧
  gc.(gc_groups) !! g.(gc_groupID) = Some (sole_group g.(gc_groupID) ptype g.(gc_config).(gcc_AssignorStrategy) StatePreparingRebalance gen m').
Proof.
  destruct s as [g w h a [|rj] j cl]; cbn [gl_consumer gl_net gl_close gl_heartbeatLoop gl_autoCommitLoop gl_rejoins].
  { intros _ _ _ Hrj. lia. }
  intros -> -> -> _ Hopen Hcan Hcan' Hinv Hr Hst Eg Em Hne. set (g1 := close_begins g).
  assert (Hsame : g1.(gc_addrs) = g.(gc_addrs) ∧ g1.(gc_groupID) = g.(gc_groupID) ∧ g1.(gc_config) = g.(gc_config) ∧ g1.(gc_memberID) = g.(gc_memberID) ∧ g1.(gc_closed) = true)
    by (unfold g1, close_begins; by case_match).
  destruct Hsame as (Ea & Egi & Ec & Emi & Ecl).
  assert (Hcan1 : ∀ j, can_join limit io j g → ∀ x, can_join limit io j (set_gc_nextID x g1)).
  { intros i [] x. constructor; cbn [set_gc_nextID gc_groupID gc_config gc_memberID]; rewrite ?Egi, ?Ec, ?Emi; done. }
  assert (Hcan0 : can_join limit io k g1) by (destruct Hcan; constructor; rewrite ?Egi, ?Ec, ?Emi; done).
  destruct (leave_served g1 w k b gr m Hcan0 Hinv) as (x & n1 & gc1 & El & Hs1 & Hci & Hv & Hl1);
    [by apply (reachable_kept g _ w)|done|by rewrite Emi|by rewrite Egi|by rewrite Emi|]. rewrite Emi in El. rewrite Egi in Hv.
  set (g2 := set_gc_nextID x g1) in *. set (b1 := set_coordinator gc1 b) in *. assert (Hb1 : broker_inv b1) by by apply inv_coordinator.
  destruct (join_served io limit ord g2 n1 (S k) b1 (Hcan1 _ Hcan' x) Hb1) as (ptype & x2 & n2 & gc2 & Ej & Hs2 & _ & _ & Egc);
    [cbn [g2 set_gc_nextID gc_groupID]; by rewrite Egi|by apply (reachable_kept g _ w)|exact Hs1|].
  set (s1 := mkGroupLife g2 n1 false false (S rj) j CloseReturned). eexists s1, _, (S (S k)), gc2, _, _, ptype. split.
  { unfold group_run. cbn [foldl mbind option_bind group_step gl_close gl_consumer gl_net]. unfold set_close, set_client.
    cbn [gl_close gl_consumer gl_net gl_heartbeatLoop gl_autoCommitLoop gl_rejoins gl_joined fst snd]. fold g1. by rewrite El. }
  split; [done|]. split; [cbn [s1 gl_net]; by rewrite Hs1|]. split; [cbn [group_step s1 gl_rejoins gl_consumer gl_net]; rewrite Ej; reflexivity|].
  split; [done|]. split; [done|]. split; [exact Hs2|]. rewrite Egc. cbn [gc_groups set_group sole_group g_ID g2 set_gc_nextID gc_groupID gc_config gc_memberID].
  rewrite Egi, Ec, Emi. split; [|apply lookup_insert_eq]. cbn [mb_ID]. unfold joined_id. by rewrite bool_decide_false.
Qed.
End late.

(** ** Instances *)

Section sample.
#[local] Existing Instance Served_By.
#[local] Instance life_network : Network (Served (nat * Broker)) := Served_Network (broker_mux quiet_io) 0.
#[local] Instance life_serves : Serves (N:=Served (nat * Broker)) (broker_mux quiet_io) (request_limit 0) :=
  Served_Serves (broker_mux quiet_io) 0.

(** The member "m1" of the group "billing". *)
Definition lone_member : GroupConsumer := set_gc_member "m1" 1 "m1" first_member.
Definition lone_coordinator : Coordinator :=
  (JoinGroup 5 [] keys_order keys_order (join_request lone_member) EmptyString NewGroupCoordinator).2.

Lemma lone_coordinator_ok : coord_inv lone_coordinator.
Proof. eapply coord_step_inv; [apply reachable_inv, rtc_refl|]. constructor. apply _. Qed.

Lemma lone_can_join k : can_join (request_limit 0) quiet_io k lone_member.
Proof.
  constructor; [exact sample_env_ok|reflexivity|split; [by_decide|done]|by_decide|by_decide|by_decide|by_decide|right; by_decide].
Qed.

Lemma rejoin_after_close_witness : ∃ b s1 s2 gc gen m' ptype,
  let s := mkGroupLife lone_member (sample_net b) true true 1 [] CloseNotCalled in
  group_run [CloseCalled; CloseLeaves; HeartbeatStops; CommitStops; CloseReturns] s = Some s1 ∧ s1.(gl_close) = CloseReturned ∧
  group_step (RejoinJoins sample_orders) s1 = Some s2 ∧ (net_state s2.(gl_net)).2.(b_coordinator) = gc ∧ m'.(mb_ID) = "m1" ∧
  gc.(gc_groups) !! "billing" = Some (sole_group "billing" ptype "range" StatePreparingRebalance gen m').
Proof.
  destruct fresh_orders_broker as (b0 & q & Hb0 & _). pose proof (inv_coordinator lone_coordinator b0 Hb0 lone_coordinator_ok) as Hb.
  set (b := set_coordinator lone_coordinator b0) in *. set (s := mkGroupLife lone_member (sample_net b) true true 1 [] CloseNotCalled).
  destruct (rejoin_after_close quiet_io (request_limit 0) sample_orders s 0 b
    (mkGroup "billing" StatePreparingRebalance 1 "m1" "consumer" "range" {["m1" := mkMember "m1" 45000 5 [] [] 0]}) (mkMember "m1" 45000 5 [] [] 0))
    as (s1 & s2 & k' & gc & gen & m' & ptype & E1 & Ec & _ & E2 & _ & _ & Es & Em & Eg);
    [reflexivity|reflexivity|reflexivity|cbn; lia|reflexivity|apply lone_can_join|apply lone_can_join|exact Hb|by exists "localhost:9092", []|reflexivity|reflexivity|reflexivity|discriminate|].
  exists b, s1, s2, gc, gen, m', ptype. split; [exact E1|]. split; [exact Ec|]. split; [exact E2|]. split; [by rewrite Es|]. split; [exact Em|exact Eg].
Defined.

End sample.
