(* ===== verification/Commands.v ===== *)
(** * The command-line programs (src/cmd)

    The mains of the broker, the producer and the consumer. The flags are taken as parsed. A
    program writes lines to standard output and to the log; [Fatal] is [log.Fatalf] and
    [os.Exit(1)], after which deferred calls do not run. *)
From Stdlib Require Import ZArith Lia Strings.Byte Strings.String.
From stdpp Require Import base list strings gmap.
From S2P Require Import Prelude Files Decimal Record Index Segment PartitionLog Recovery Retention LogFacts Codec Frame Requests Responses Server Group Checkpoint Replication Config Json Topic Metadata Partition Offsets Broker Handlers BrokerInv BrokerOps BrokerRun Restart EndToEnd Standalone Network Consumer Producer Delivery.
Open Scope Z_scope.

Inductive line :=
  | Printed (text : string)
  | Logged (text : string) (err : error).

(** ** Reading lines *)

(** [bufio.Scanner] with [bufio.ScanLines]: lines without their end, and [bufio.ErrTooLong] when
    64 KiB have been read without one. [rev] is what was read of the current line, reversed. *)
Definition MaxScanTokenSize : Z := 64 * 1024.
Definition ErrTooLong : error := errorString "bufio.Scanner: token too long".

Definition dropCR (rev : bytes) : bytes := List.rev (match rev with x0d :: rev => rev | _ => rev end).

Fixpoint scan_lines (rev : bytes) (input : bytes) : list bytes * option error :=
  match input with
  | [] => (match rev with [] => [] | _ => [dropCR rev] end, None)
  | x0a :: input => let '(lines, err) := scan_lines [] input in (dropCR rev :: lines, err)
  | c :: input => if MaxScanTokenSize <=? zlen (c :: rev) then ([], Some ErrTooLong) else scan_lines (c :: rev) input
  end.

(** [strings.TrimRight(s, "\r\n")] *)
Fixpoint drop_ends (rev : bytes) : bytes :=
  match rev with
  | x0d :: rev | x0a :: rev => drop_ends rev
  | _ => rev
  end.
Definition TrimRight (s : bytes) : bytes := List.rev (drop_ends (List.rev s)).

(** ** The producer (cmd/producer/main.go) *)

Record producer_flags := mkProducerFlags {
  pf_broker : string;
  pf_topic : string;
  pf_key : string;
  pf_value : string
}.

Definition cli_producer_config : ProducerConfig :=
  let cfg := DefaultProducerConfig in
  mkProducerConfig "mini-kafka-cli-producer" cfg.(pc_Acks) cfg.(pc_TimeoutMs) cfg.(pc_LingerMs) cfg.(pc_BatchSize).

(** ** The consumer (cmd/consumer/main.go) *)

Record consumer_flags := mkConsumerFlags {
  cf_broker : string;
  cf_topic : string;
  cf_fromBeginning : bool
}.

Definition cli_consumer_config : ConsumerConfig :=
  let cfg := DefaultConsumerConfig in mkConsumerConfig "mini-kafka-cli-consumer" 1000 cfg.(cc_MinBytes) cfg.(cc_MaxBytes).

Definition print_message (topic : string) (msg : Message) : line :=
  let value := bytes_str (default [] msg.(msg_Value)) in
  let key := default [] msg.(msg_Key) in
  Printed (if 0 <? zlen key
           then "[" +:+ topic +:+ "] offset=" +:+ Itoa msg.(msg_Offset) +:+ " key=" +:+ bytes_str key +:+ " value=" +:+ value
           else "[" +:+ topic +:+ "] offset=" +:+ Itoa msg.(msg_Offset) +:+ " value=" +:+ value).

Section clients.
Context {N : Type} `{Network N}.

(** The lines of standard input, one [Send] each; [now i] is the clock at the [i]-th line. *)
Fixpoint send_lines (flags : producer_flags) (now : nat → Z) (i : nat) (lines : list bytes) (s : Producer * N) : list line * (Producer * N) :=
  match lines with
  | [] => ([], s)
  | text :: lines =>
      let text := TrimRight text in
      match text with
      | [] => send_lines flags now (S i) lines s
      | _ =>
          match Send None (now i) flags.(pf_topic) 0 (Some (str_bytes flags.(pf_key))) (Some text) s with
          | (Err err, s) => let '(out, s) := send_lines flags now (S i) lines s in (Logged "send error" err :: out, s)
          | (Ok offset, s) =>
              let '(out, s) := send_lines flags now (S i) lines s in
              (Printed ("Sent offset " +:+ Itoa offset +:+ ": " +:+ bytes_str text) :: out, s)
          end
      end
  end.

(** The exit code, the output and the network. [order] is the order of the map that [Close] goes
    over. *)
Definition producer_main (flags : producer_flags) (now : nat → Z) (stdin : bytes)
    (order : gmap topicPartition nat → list topicPartition) (n : N) : (Z * list line) * N :=
  match NewProducer [flags.(pf_broker)] cli_producer_config with
  | Err err => ((1, [Logged "failed to create producer" err]), n)
  | Ok producer =>
      if negb (bool_decide (flags.(pf_value) = EmptyString)) then
        match Send None (now 0%nat) flags.(pf_topic) 0 (Some (str_bytes flags.(pf_key))) (Some (str_bytes flags.(pf_value))) (producer, n) with
        | (Err err, (_, n)) => ((1, [Logged "failed to send message" err]), n)
        | (Ok offset, (producer, n)) =>
            ((0, [Printed ("Message sent to topic " +:+ flags.(pf_topic) +:+ " [partition 0] at offset " +:+ Itoa offset)]),
             (Close order producer n).2.2)
        end
      else
        let hello := Printed ("Interactive producer started targeting " +:+ flags.(pf_broker) +:+ " (topic: " +:+ flags.(pf_topic) +:+
                              "). Enter text and press Enter to send (Ctrl+C to exit):") in
        let '(lines, scanErr) := scan_lines [] stdin in
        let '(out, (producer, n)) := send_lines flags now 0 lines (producer, n) in
        match scanErr with
        | Some err => ((1, hello :: (out ++ [Logged "error reading stdin" err])), n)
        | None => ((0, hello :: out), (Close order producer n).2.2)
        end
  end.

(** The fetch loop until the context is cancelled, after [turns] turns. *)
Fixpoint consume_loop (turns : nat) (topic : string) (currentOffset : Z) (s : Consumer * N) : list line * (Consumer * N) :=
  match turns with
  | O => ([], s)
  | S turns =>
      match Consumer_Fetch topic 0 currentOffset s with
      | (Err err, s) => let '(out, s) := consume_loop turns topic currentOffset s in (Logged "fetch error" err :: out, s)
      | (Ok msgs, s) =>
          let currentOffset := foldl (λ _ msg, int64 (msg.(msg_Offset) + 1)) currentOffset msgs in
          let '(out, s) := consume_loop turns topic currentOffset s in ((print_message topic <$> msgs) ++ out, s)
      end
  end.

Definition consumer_main (flags : consumer_flags) (turns : nat) (n : N) : (Z * list line) * N :=
  match NewConsumer [flags.(cf_broker)] cli_consumer_config with
  | Err err => ((1, [Logged "failed to create consumer" err]), n)
  | Ok consumer =>
      let currentOffset := if negb flags.(cf_fromBeginning) then 0 else 0 in
      let hello := Printed ("Consumer listening on " +:+ flags.(cf_broker) +:+ " (topic: " +:+ flags.(cf_topic) +:+ ", starting offset: " +:+
                            Itoa currentOffset +:+ ")...") in
      let '(out, (consumer, n)) := consume_loop turns flags.(cf_topic) currentOffset (consumer, n) in
      ((0, hello :: out), (Consumer_Close consumer n).2.2)
  end.
End clients.

(** ** The broker (cmd/broker/main.go) *)

Inductive Level := LevelDebug | LevelInfo | LevelWarn | LevelError.

Definition parseLogLevel (level : string) : Level :=
  if bool_decide (level = "debug" ∨ level = "DEBUG") then LevelDebug
  else if bool_decide (level = "warn" ∨ level = "WARN") then LevelWarn
  else if bool_decide (level = "error" ∨ level = "ERROR") then LevelError
  else if bool_decide (level = "info" ∨ level = "INFO") then LevelInfo
  else LevelInfo.

(** What the process waits for: [Start] returns, or a signal arrives after the broker has served
    requests; [shutdownErr] is what [Shutdown] returns. *)
Inductive broker_wait :=
  | StartReturns (err : option error)
  | Signal (served : Broker → Broker) (shutdownErr : option error).

(** The exit code and the files that are left. What a process that ends without [Shutdown] leaves
    is [abandon], of the broker if there is one. *)
Definition broker_main (e : Env) (times : nat → string → Z) (env : nat → Env) (parsed : result AppConfig) (dataDir : AppConfig → list string)
    (abandon : option Broker → Storage → Storage) (wait : broker_wait) (st : Storage) : Z * Storage :=
  match Load parsed with
  | Err _ => (1, st)
  | Ok cfg =>
      match New e times env cfg (dataDir cfg) st with
      | Err _ => (1, abandon None st)
      | Ok b =>
          match wait with
          | StartReturns (Some _) => (1, abandon (Some b) st)
          | StartReturns None => (0, abandon (Some b) st)
          | Signal served _ => (0, Broker_Shutdown (served b))
          end
      end
  end.

(** ** Sessions of the broker *)

(** A start of the program, what its handlers do, and the signal that ends it. *)
Record session := mkSession {
  ss_env : Env;
  ss_times : nat → string → Z;
  ss_topics : nat → Env;
  ss_served : Broker → Broker;
  ss_err : option error
}.
Definition session_ok (s : session) : Prop := EnvOk s.(ss_env) ∧ ∀ b, rtc broker_step b (s.(ss_served) b).

Fixpoint run_sessions (parsed : result AppConfig) (dataDir : AppConfig → list string) (abandon : option Broker → Storage → Storage)
    (ss : list session) (st : Storage) : list Z * Storage :=
  match ss with
  | [] => ([], st)
  | s :: ss =>
      let '(code, st) := broker_main s.(ss_env) s.(ss_times) s.(ss_topics) parsed dataDir abandon (Signal s.(ss_served) s.(ss_err)) st in
      let '(codes, st) := run_sessions parsed dataDir abandon ss st in (code :: codes, st)
  end.

(** The files [st'] have what [st] has: its topics, and in the partitions of these its records. *)
Definition files_grow (cfg : AppConfig) (dataDir : list string) (st : Storage) (mm : MetadataManager) (st' : Storage) (mm' : MetadataManager) : Prop :=
  ∀ n m, mm.(mm_topics) !! n = Some m → mm'.(mm_topics) !! n = Some m ∧
    ∀ i o rs, 0 ≤ i < m.(tmt_NumPartitions) → dir_holds (storageConfigFrom cfg) (dir_at st.(st_disk) (pdir dataDir n i)) o rs →
    ∃ more, dir_holds (storageConfigFrom cfg) (dir_at st'.(st_disk) (pdir dataDir n i)) o (rs ++ more).

Lemma session_keeps e times env cfg dataDir served st mm rss : EnvOk e → (∀ b, rtc broker_step b (served b)) →
  storage_ok cfg dataDir st mm rss → ∃ b mm' rss', New e times env cfg dataDir st = Ok b ∧
  storage_ok cfg dataDir (Broker_Shutdown (served b)) mm' rss' ∧ files_grow cfg dataDir st mm (Broker_Shutdown (served b)) mm'.
Proof.
  intros He Hrun Hst. destruct (New_ok e times env cfg dataDir st mm rss Hst) as (b & E & Hg & Hc & Hd & Hm & _ & _ & _ & Hop).
  destruct (broker_run_ok b (served b) (Hrun b) Hg) as (Hg' & Hgrow & (Hc' & Hd' & _) & Hmm).
  destruct (bi_offsets _ (proj1 Hg')) as [rss' Hs']. exists b, (served b).(b_metaManager), rss'. set (b' := served b) in *. clearbody b'. split; [done|].
  pose proof (Shutdown_ok b' rss' Hg' Hs') as Hst'. rewrite Hc', Hc, Hd', Hd in Hst'. split; [done|].
  intros n m Hn. rewrite <- Hm in Hn. split; [by apply Hmm|]. intros i o rs Hi Hh.
  destruct (proj2 Hg n) as [t Ht]; [by eexists|]. destruct (bi_topic _ (proj1 Hg) _ _ Ht) as (_ & _ & m' & Hn' & Hids).
  rewrite Hn in Hn'. injection Hn' as <-. destruct (proj2 (Hids i) Hi) as [p Hp]. destruct (Hop n t i p Ht Hp) as (_ & _ & Hv).
  destruct (Hv o rs Hh) as [f Hview].
  destruct (Hgrow n i p) as (p' & Hp' & _ & Hlog); [unfold get_partition, GetPartition; rewrite Ht; exact Hp|]. destruct (Hlog f o rs Hview) as [more Hview'].
  exists more. destruct (Shutdown_disk b' (proj1 Hg')) as [Hdir _]. rewrite <- Hd, <- Hd', (Hdir n i p' Hp').
  destruct (bi_part _ (proj1 Hg') _ _ _ Hp') as [_ _ _ _ Hdd Hcfg _]. unfold storageConfig in Hcfg. rewrite Hc', Hc in Hcfg. by eapply dir_holds_closed.
Qed.

Lemma files_grow_trans cfg dataDir st1 mm1 st2 mm2 st3 mm3 : files_grow cfg dataDir st1 mm1 st2 mm2 →
  files_grow cfg dataDir st2 mm2 st3 mm3 → files_grow cfg dataDir st1 mm1 st3 mm3.
Proof.
  intros H12 H23 n m Hn. destruct (H12 n m Hn) as [Hn2 H12n]. destruct (H23 n m Hn2) as [Hn3 H23n]. split; [done|].
  intros i o rs Hi Hh. destruct (H12n i o rs Hi Hh) as [m1 Hh1]. destruct (H23n i o _ Hi Hh1) as [m2 Hh2].
  exists (m1 ++ m2). by rewrite app_assoc.
Qed.


(** ** A session of the producer *)

(** The records of the lines, an empty line being left out. *)
Definition line_record (flags : producer_flags) (now : Z) (text : bytes) : record :=
  mkRecord 0 now 0 (Some (str_bytes flags.(pf_key))) (Some text).
Fixpoint line_records (flags : producer_flags) (now : nat → Z) (i : nat) (lines : list bytes) : list record :=
  match lines with
  | [] => []
  | text :: lines =>
      match TrimRight text with
      | [] => line_records flags now (S i) lines
      | text => line_record flags (now i) text :: line_records flags now (S i) lines
      end
  end.

Definition sent_line (offset : Z) (rec : record) : line :=
  Printed ("Sent offset " +:+ Itoa offset +:+ ": " +:+ bytes_str (default [] rec.(rec_Value))).
Fixpoint sent_lines (offset : Z) (recs : list record) : list line :=
  match recs with
  | [] => []
  | rec :: recs => sent_line offset rec :: sent_lines (offset + 1) recs
  end.

(** The partition 0 of a topic on a broker without a cluster, all of whose records are committed. *)
Record open_partition (topic : string) (b : Broker) (q : Partition) (rs : list record) : Prop := {
  op_inv : broker_inv b;
  op_alone : standalone b;
  op_topic : is_Some (b.(b_topics) !! topic);
  op_size : b.(b_config).(cfg_Log).(lc_MaxMessageBytes) ≤ 0 ∨ 1048576 ≤ b.(b_config).(cfg_Log).(lc_MaxMessageBytes);
  op_part : get_partition topic 0 b = Some q;
  op_view : log_view true q.(pt_log) 0 rs;
  op_hw : q.(pt_highWatermark) = LogEndOffset q
}.

Section session.
Context {N : Type} `{Network N, !ServedBy N (nat * Broker)} (io : nat → IO) (limit : Z) `{!Serves (broker_mux io) limit}.
Context (env_ok : ∀ k, EnvOk ((io k).(io_env) 0%nat 1%nat)) (limit_ok : limit ≤ 0 ∨ 2097152 ≤ limit).

(** The producer between two lines. *)
Record producing (flags : producer_flags) (p : Producer) (n : N) (b : Broker) : Prop := {
  pg_ready : link_ready p.(p_addrs) p.(p_conn) n;
  pg_open : p.(p_finalized) = false ∧ p.(p_closed) = false;
  pg_config : p.(p_config) = cli_producer_config;
  pg_state : (net_state n).2 = b;
  pg_listens : net_listens flags.(pf_broker) n
}.

Lemma open_leo topic b q rs : open_partition topic b q rs → LogEndOffset q = zlen rs.
Proof. intros H'. unfold LogEndOffset. by rewrite (log_view_highest _ _ _ _ (op_view _ _ _ _ H')). Qed.

(** One line: it is stored at the end of the log, and its offset is returned. *)
Lemma send_line flags now text p n b q rs : producing flags p n b → open_partition flags.(pf_topic) b q rs →
  inS 64 now → total_size rs + EncodedSize (line_record flags now text) ≤ 1048576 → ∃ p' n' b' q',
  Send None now flags.(pf_topic) 0 (Some (str_bytes flags.(pf_key))) (Some text) (p, n) = (Ok (zlen rs), (p', n')) ∧
  producing flags p' n' b' ∧ open_partition flags.(pf_topic) b' q' (rs ++ number_from (zlen rs) [line_record flags now text]).
Proof.
  intros [Hr [Hf Hcl] Hcfg Hst Hlis] Ho Hnow Hsz. pose proof (open_leo _ _ _ _ Ho) as Hleo. destruct Ho as [Hb Ha Ht Hm Hq Hv Hhw].
  set (rec := line_record flags now text) in *. set (msg := mkMessage (Some (str_bytes flags.(pf_key))) (Some text) 0 0).
  assert (Erec : record_of now <$> [msg] = [rec]) by done. destruct (net_state n) as [k b0] eqn:En. cbn in Hst. subst b0.
  assert (Hfit : Forall record_fits [rec]) by (constructor; [|constructor]; split; [by split_and!|pose proof (total_size_nonneg rs); unfold MaxRecordSize; lia]).
  assert (Himg : zlen (images [rec]) = EncodedSize rec) by (rewrite length_images; cbn; lia).
  pose proof (total_size_min rs) as Hmin. pose proof (EncodedSize_min rec). pose proof (total_size_nonneg rs).
  assert (Hname : str_ok flags.(pf_topic)) by (destruct Ht as [t Ht]; destruct (bi_topic _ Hb _ _ Ht) as (_ & Hv' & _); by eapply valid_name_ok).
  assert (Hsize : produce_size p.(p_config) flags.(pf_topic) [rec] ≤ 2097152).
  { unfold produce_size. rewrite Hcfg, Himg. change (zlen (str_bytes (pc_ClientID cli_producer_config))) with 23. unfold str_ok in Hname. widths. lia. }
  assert (Hcall : produce_call limit p n k b flags.(pf_topic) 0 (record_of now <$> [msg])).
  { rewrite Erec. constructor; [exact Hr|exact Hf|exact En|exact Hb|exact Ht|discriminate|exact Hfit|rewrite Hcfg; by_decide|rewrite Hcfg; by_decide|rewrite Hcfg; by_decide|by_decide| | |].
    - unfold MaxFrameSize. lia.
    - destruct limit_ok; [by left|right; lia].
    - rewrite (leo_eq _ _ _ _ Hq), Hleo, Himg. widths. lia. }
  assert (Hacc : accepts ((io k).(io_env) 0%nat 1%nat) p.(p_config).(pc_Acks) b flags.(pf_topic) 0 q (record_of now <$> [msg])).
  { rewrite Erec, Hcfg. apply standalone_accepts; [exact Hb|exact Ha|exact Hq|discriminate|rewrite Himg; destruct Hm; [by left|right; lia]|discriminate|exact Hfit|].
    rewrite Hleo. cbn [length]. widths. lia. }
  destruct (sent_served io limit now flags.(pf_topic) 0 [msg] p n k b q (env_ok k) Hcl Hcall Hacc)
    as (c & n1 & b1 & q1 & E & Hidle & Eb1 & Hop & Hs1 & [Hl1 _] & Hb1 & Hq1 & Hhw1 & Hleo1 & Hv1). rewrite Erec in *.
  eexists _, n1, b1, q1. split; [unfold Send; fold msg; rewrite E; cbn [length seq fmap list_fmap]; rewrite Hleo, Z.add_0_r; reflexivity|]. split.
  - constructor; [by split|by split|exact Hcfg|by rewrite Hs1|by apply Hl1].
  - destruct Hop as (Hset & _ & Hdom & _). constructor; [exact Hb1|by eapply standalone_produce| |by rewrite (proj1 Hset)|exact Hq1|exact (Hv1 true 0 rs Hv)|exact Hhw1].
    apply elem_of_dom. rewrite Hdom. by apply elem_of_dom.
Qed.

(** All lines, one after the other. *)
Lemma send_lines_ok flags now lines : ∀ i p n b q rs, producing flags p n b → open_partition flags.(pf_topic) b q rs →
  (∀ j, inS 64 (now j)) → total_size rs + total_size (line_records flags now i lines) ≤ 1048576 → ∃ p' n' b' q',
  send_lines flags now i lines (p, n) = (sent_lines (zlen rs) (line_records flags now i lines), (p', n')) ∧
  producing flags p' n' b' ∧ open_partition flags.(pf_topic) b' q' (rs ++ number_from (zlen rs) (line_records flags now i lines)).
Proof.
  induction lines as [|text lines IH]; intros i p n b q rs Hp Ho Hnow Hsz; cbn [send_lines line_records] in *.
  { exists p, n, b, q. cbn. by rewrite app_nil_r. }
  destruct (TrimRight text) as [|c cs]; [by eapply IH|]. set (rec := line_record flags (now i) (c :: cs)) in *. set (recs := line_records flags now (S i) lines) in *.
  change (total_size (rec :: recs)) with (EncodedSize rec + total_size recs) in Hsz. pose proof (total_size_nonneg recs).
  destruct (send_line flags (now i) (c :: cs) p n b q rs Hp Ho (Hnow i)) as (p1 & n1 & b1 & q1 & E & Hp1 & Ho1); [fold rec; lia|]. rewrite E. fold rec in Ho1.
  assert (Hts : total_size (rs ++ number_from (zlen rs) [rec]) = total_size rs + EncodedSize rec) by (rewrite total_size_app, total_size_number; cbn; lia).
  destruct (IH (S i) p1 n1 b1 q1 _ Hp1 Ho1 Hnow) as (p' & n' & b' & q' & E' & Hp' & Ho'); [rewrite Hts; fold recs; lia|]. fold recs in E', Ho'.
  rewrite E'. exists p', n', b', q'. rewrite length_app in *. cbn [number_from length] in *. rewrite Nat2Z.inj_add in *. change (Z.of_nat 1) with 1 in *.
  split; [done|]. split; [exact Hp'|]. rewrite <- app_assoc in Ho'. exact Ho'.
Qed.

(** The consumer gets them all with its first fetch. *)
Lemma consume_all flags n b q rs : open_partition flags.(cf_topic) b q rs → (net_state n).2 = b → net_listens flags.(cf_broker) n → rs ≠ [] →
  total_size rs ≤ 1048576 → ∃ hello n', consumer_main flags 1 n = ((0, hello :: (print_message flags.(cf_topic) <$> (message_of <$> rs))), n').
Proof.
  intros Ho Hst Hlis Hne Hsz. pose proof (open_leo _ _ _ _ Ho) as Hleo. destruct Ho as [Hb Ha Ht Hm Hq Hv Hhw]. destruct (net_state n) as [k b0] eqn:En. cbn in Hst. subst b0.
  assert (Hname : str_ok flags.(cf_topic)) by (destruct Ht as [t Ht]; destruct (bi_topic _ Hb _ _ Ht) as (_ & Hv' & _); by eapply valid_name_ok).
  assert (Hpos : 0 < zlen rs) by (destruct rs; [done|cbn; lia]).
  set (c := mkConsumer [flags.(cf_broker)] cli_consumer_config None false 0).
  assert (Hcall : fetch_call limit c n flags.(cf_topic) 0 0).
  { constructor; [by exists flags.(cf_broker), []|reflexivity|exact Hname|by_decide..|]. unfold fetch_size. change (zlen (str_bytes (cc_ClientID (cs_config c)))) with 23.
    unfold str_ok in Hname. destruct limit_ok; [by left|right; widths; lia]. }
  destruct (Consumer_Fetch_all io limit c n k b flags.(cf_topic) 0 0 q 0 rs Hcall En Hb Hq Hv) as (c' & n2 & E).
  - rewrite Hhw, Hleo. lia.
  - by_decide.
  - exact Hsz.
  - unfold str_ok in Hname. change (drop (Z.to_nat (0 - 0)) rs) with rs. unfold MaxFrameSize. widths. lia.
  - change (drop (Z.to_nat (0 - 0)) rs) with rs in E. rewrite Hhw, Hleo, take_ge in E by lia.
    unfold consumer_main. change (NewConsumer _ _) with (Ok (A:=Consumer) c). cbn [consume_loop]. replace (if negb (cf_fromBeginning flags) then 0 else 0) with 0 by (by destruct (cf_fromBeginning flags)).
    rewrite E. rewrite app_nil_r. by eexists _, _.
Qed.
(** The program closes its producer; the broker does not notice. *)
Lemma close_quiet flags order p n b : producing flags p n b →
  (net_state (Close order p n).2.2).2 = b ∧ net_listens flags.(pf_broker) (Close order p n).2.2.
Proof.
  intros [_ [Hf Hcl] Hcfg Hst Hlis]. unfold Close, close_begin. rewrite Hf, Hcl, Hcfg. cbn [negb andb].
  change (0 <? pc_LingerMs cli_producer_config) with false. unfold close_finish. cbn [set_p_closed p_finalized p_conn]. rewrite Hf.
  destruct (p_conn p) as [st|]; [|by split]. destruct (serves_close st.(st_conn) n) as [E [Hl _]].
  destruct (Conn_Close (st_conn st) n) as [err n']. cbn [snd] in *. rewrite E. split; [exact Hst|by apply Hl].
Qed.

End session.

Section sample.
#[local] Existing Instance Served_By.
#[local] Instance cli_network : Network (Served (nat * Broker)) := Served_Network (broker_mux quiet_io) 0.
#[local] Instance cli_serves : Serves (broker_mux quiet_io) (request_limit 0) := Served_Serves (broker_mux quiet_io) 0.

(** Two lines and a blank one, the last without its end. *)
Definition typed_lines : bytes := str_bytes "first" ++ [x0d; x0a; x0a] ++ str_bytes "second".
Definition cli_producer : producer_flags := mkProducerFlags "localhost:9092" "orders" EmptyString EmptyString.
Definition cli_consumer : consumer_flags := mkConsumerFlags "localhost:9092" "orders" true.

End sample.

(** Two sessions on an empty data directory: the first creates a topic, the second does nothing. *)
Definition sample_session (served : Broker → Broker) : session := mkSession sample_env (λ _ _, 0) (λ _, sample_env) served None.
Definition create_orders (b : Broker) : Broker := (getOrCreateTopic sample_env "orders" 1 b).2.

