(* ===== verification/Float.v ===== *)
(** * Floating-point numbers (the float64 of Go)

    IEEE 754 binary64 with rounding to nearest even, as the Standard Library's [SpecFloat] defines
    it over integers; conversions from and to integers, and the verbs [%.0f] to [%.4f]. *)
From Stdlib Require Import ZArith Lia Floats.SpecFloat Strings.Ascii.
From stdpp Require Import base list strings.
From S2P Require Import Prelude Decimal.
Open Scope Z_scope.

Abbreviation float64 := spec_float.

Definition fadd : float64 → float64 → float64 := SFadd 53 1024.
Definition fmul : float64 → float64 → float64 := SFmul 53 1024.
Definition fdiv : float64 → float64 → float64 := SFdiv 53 1024.
Definition feqb : float64 → float64 → bool := SFeqb.
Definition fgeb (x y : float64) : bool := SFleb y x.

(** [float64(n)] *)
Definition of_int (n : Z) : float64 := binary_normalize 53 1024 n 0 false.

(** [int(x)]: towards zero. What a value that does not fit gives depends on the machine: [undef]. *)
Definition to_int (undef : Z) (x : float64) : Z :=
  match x with
  | S754_zero _ => 0
  | S754_finite s m e =>
      let n := if 0 <=? e then Zpos m * 2 ^ e else Zpos m / 2 ^ (- e) in
      let n := if s then - n else n in
      if bool_decide (inS 64 n) then n else undef
  | _ => undef
  end.

(** [a / b] to the nearest integer, a tie to the even one. *)
Definition round_even (a b : Z) : Z :=
  let q := a / b in
  let r := a mod b in
  if 2 * r <? b then q else if b <? 2 * r then q + 1 else if Z.even q then q else q + 1.

(** The digits of [n * 10 ^ -prec]. *)
Definition fixed_digits (prec : nat) (n : Z) : list ascii :=
  let ds := digits n in
  let ds := replicate (S prec - length ds) "0"%char ++ ds in
  match prec with
  | O => ds
  | _ => take (length ds - prec) ds ++ "."%char :: drop (length ds - prec) ds
  end.

(** [fmt.Sprintf("%.<prec>f", x)] *)
Definition fmt_f (prec : nat) (x : float64) : string :=
  let sign (s : bool) l := of_chars (if s then "-"%char :: l else l) in
  match x with
  | S754_nan => "NaN"
  | S754_infinity s => if s then "-Inf" else "+Inf"
  | S754_zero s => sign s (fixed_digits prec 0)
  | S754_finite s m e =>
      let scaled := Zpos m * 10 ^ Z.of_nat prec in
      sign s (fixed_digits prec (if 0 <=? e then scaled * 2 ^ e else round_even scaled (2 ^ (- e))))
  end.

(** Nothing but digits, points and letters is printed. *)
Definition plain (c : ascii) : Prop := c ≠ "|"%char ∧ c ≠ "010"%char.

Lemma render_plain fuel : ∀ n, 0 ≤ n → Forall plain (render fuel n).
Proof.
  assert (Hd : ∀ d, 0 ≤ d < 10 → plain (digit d)).
  { intros d Hd. assert (H : d ∈ seqZ 0 10) by (apply elem_of_seqZ; lia). revert d Hd H. intros d _. revert d.
    apply Forall_forall. repeat constructor; discriminate. }
  induction fuel as [|fuel IH]; intros n Hn; cbn [render]; [constructor|]. destruct (Z.ltb_spec n 10).
  - constructor; [apply Hd; lia|constructor].
  - apply Forall_app. split; [apply IH, Z.div_pos; lia|]. constructor; [apply Hd, Z.mod_pos_bound; lia|constructor].
Qed.

Lemma fixed_plain prec n : 0 ≤ n → Forall plain (fixed_digits prec n).
Proof.
  intros Hn. unfold fixed_digits, digits. pose proof (render_plain (Z.to_nat (Z.log2 n + 1)) n Hn) as Hr.
  set (ds := replicate _ _ ++ _). assert (Hds : Forall plain ds) by (apply Forall_app; split; [apply Forall_replicate; by split|exact Hr]).
  destruct prec; [exact Hds|]. apply Forall_app. split; [by apply Forall_take|]. constructor; [by split|by apply Forall_drop].
Qed.

Lemma fmt_f_plain prec x : Forall plain (to_chars (fmt_f prec x)).
Proof.
  assert (Hs : ∀ (s : bool) l, Forall plain l → Forall plain (to_chars (of_chars (if s then "-"%char :: l else l)))).
  { intros s l Hl. rewrite String.list_ascii_of_string_of_list_ascii. destruct s; [constructor; [by split|]|]; exact Hl. }
  destruct x as [s|s| |s m e]; cbn [fmt_f].
  - by apply Hs, fixed_plain.
  - destruct s; repeat constructor; discriminate.
  - repeat constructor; discriminate.
  - apply Hs, fixed_plain. assert (0 ≤ Z.pos m * 10 ^ Z.of_nat prec) by (apply Z.mul_nonneg_nonneg; lia). destruct (Z.leb_spec 0 e).
    + apply Z.mul_nonneg_nonneg; [done|]. apply Z.pow_nonneg. lia.
    + unfold round_even. assert (0 ≤ (Z.pos m * 10 ^ Z.of_nat prec) / 2 ^ (- e)) by (apply Z.div_pos; [done|]; apply Z.pow_pos_nonneg; lia).
      repeat case_match; lia.
Qed.

Lemma Itoa_plain n : Forall plain (to_chars (Itoa n)).
Proof.
  unfold Itoa. rewrite String.list_ascii_of_string_of_list_ascii. unfold digits. destruct (Z.ltb_spec n 0); [constructor; [by split|]|]; apply render_plain; lia.
Qed.

(** ** Rounding *)

(** [x] is [m] shifted right by [j], with how what was shifted out compares to a half. *)
Definition shifted (j m : Z) (x : shr_record) : Prop := 0 ≤ x.(shr_m) ∧ ∃ rem, m = x.(shr_m) * 2 ^ j + rem ∧ 0 ≤ rem < 2 ^ j ∧
  match x.(shr_r), x.(shr_s) with
  | false, false => rem = 0
  | false, true => 0 < rem ∧ 2 * rem < 2 ^ j
  | true, false => 2 * rem = 2 ^ j
  | true, true => 2 ^ j < 2 * rem
  end.

Lemma shifted_0 m : 0 ≤ m → shifted 0 m (Build_shr_record m false false).
Proof. intros Hm. split; [done|]. exists 0. cbn. lia. Qed.

Lemma shr_1_m x : 0 ≤ x.(shr_m) → x.(shr_m) = 2 * (shr_1 x).(shr_m) + Z.b2z (shr_1 x).(shr_r) ∧ 0 ≤ (shr_1 x).(shr_m) ∧
  (shr_1 x).(shr_s) = x.(shr_r) || x.(shr_s).
Proof. destruct x as [[|[p|p|]|p] r s]; cbn; intros Hm; split_and!; done || lia. Qed.

Lemma shifted_1 j m x : 0 ≤ j → shifted j m x → shifted (j + 1) m (shr_1 x).
Proof.
  intros Hj (Hx & rem & Em & Hrem & Hrs). destruct (shr_1_m x Hx) as (E & Hm' & Es). split; [done|].
  exists (Z.b2z (shr_1 x).(shr_r) * 2 ^ j + rem). assert (H2 : 2 ^ (j + 1) = 2 * 2 ^ j) by (by rewrite Z.pow_add_r, Z.mul_comm).
  rewrite H2, Es. split; [rewrite Em, E; ring|]. clear H2. generalize dependent (2 ^ j). intros P -> Hrem Hrs.
  destruct (shr_r (shr_1 x)), (shr_r x), (shr_s x); cbn [Z.b2z orb]; lia.
Qed.

Lemma shifted_iter m p : ∀ j x, 0 ≤ j → shifted j m x → shifted (j + Zpos p) m (SpecFloat.iter_pos shr_1 p x).
Proof.
  induction p as [p IH|p IH|]; intros j x Hj Hx; cbn [SpecFloat.iter_pos].
  - replace (j + Zpos p~1) with (j + 1 + Zpos p + Zpos p) by lia. apply IH; [lia|]. apply IH; [lia|]. by apply shifted_1.
  - replace (j + Zpos p~0) with (j + Zpos p + Zpos p) by lia. apply IH; [lia|]. by apply IH.
  - by apply shifted_1.
Qed.

Definition rounded (x : shr_record) : Z := round_nearest_even x.(shr_m) (loc_of_shr_record x).

Lemma rounded_close j m x : shifted j m x → 2 * Z.abs (rounded x * 2 ^ j - m) ≤ 2 ^ j ∧ x.(shr_m) ≤ rounded x ≤ x.(shr_m) + 1.
Proof.
  intros (Hx & rem & -> & Hrem & Hrs). destruct x as [mx [] []]; unfold rounded; cbn in *; remember (2 ^ j) as P eqn:EP; clear EP;
    try destruct (Z.even mx); (split; [|lia]); rewrite ?Z.mul_add_distr_r; lia.
Qed.

Lemma digits2_log2 m : Zpos (digits2_pos m) = Z.log2 (Zpos m) + 1.
Proof.
  induction m as [p IH|p IH|]; cbn [digits2_pos]; [| |done]; rewrite Pos2Z.inj_succ, IH.
  - change (Zpos p~1) with (2 * Zpos p + 1). rewrite Z.log2_succ_double; lia.
  - change (Zpos p~0) with (2 * Zpos p). rewrite Z.log2_double; lia.
Qed.

(** A number of 53 bits or more, away from the bounds of the exponent. *)
Lemma round_aux_spec m e : let k := Z.log2 (Zpos m) - 52 in 0 ≤ k → -1000 ≤ e + k ≤ 900 →
  ∃ R r e', binary_round_aux 53 1024 false (Zpos m) e loc_Exact = S754_finite false r e' ∧
  2 * Z.abs (R * 2 ^ k - Zpos m) ≤ 2 ^ k ∧ (Zpos r = R ∧ e' = e + k ∨ Zpos r * 2 = R ∧ R = 2 ^ 53 ∧ e' = e + k + 1).
Proof.
  intros k Hk He. unfold binary_round_aux, shr_fexp. cbn [Zdigits2]. rewrite digits2_log2. unfold fexp, emin.
  replace (Z.max (Z.log2 (Z.pos m) + 1 + e - 53) (3 - 1024 - 53) - e) with k by lia.
  assert (Hs : ∀ k, 0 ≤ k → ∃ x, shr (shr_record_of_loc (Z.pos m) loc_Exact) e k = (x, e + k) ∧ shifted k (Z.pos m) x).
  { intros [|j|j] Hj; cbn [shr shr_record_of_loc]; [rewrite Z.add_0_r| |lia]; eexists; (split; [done|]).
    - by apply shifted_0.
    - by apply (shifted_iter _ _ 0), shifted_0. }
  destruct (Hs k Hk) as (x & -> & Hx). destruct (rounded_close _ _ _ Hx) as [Hc Hb]. fold (rounded x). set (R := rounded x) in *.
  assert (Hm : 2 ^ 52 ≤ x.(shr_m) < 2 ^ 53).
  { destruct Hx as (_ & rem & Em & Hrem & _). pose proof (Z.log2_spec (Zpos m) ltac:(lia)) as [L1 L2]. replace (Z.log2 (Zpos m)) with (52 + k) in * by lia.
    rewrite <- Z.add_succ_l in L2. rewrite Z.pow_add_r in L1, L2 by lia. change (2 ^ Z.succ 52) with (2 ^ 53) in L2. nia. }
  destruct (decide (R = 2 ^ 53)) as [E|Hne].
  - exists R, (2 ^ 52)%positive, (e + k + 1). split; [|split; [exact Hc|by right; rewrite E]]. rewrite E.
    change (Zdigits2 (2 ^ 53)) with 54. replace (Z.max _ _ - _) with 1 by lia. change (2 ^ 53) with 9007199254740992. cbn. destruct (Z.leb_spec (e + k + 1) (1024 - 53)); [done|lia].
  - assert (HR : 2 ^ 52 ≤ R < 2 ^ 53) by lia. assert (El : Z.log2 R = 52) by (apply Z.log2_unique; [lia|exact HR]). clearbody R.
    destruct R as [|r|r]; [lia| |lia]. exists (Z.pos r), r, (e + k). split; [|split; [exact Hc|by left]]. cbn [Zdigits2].
    rewrite digits2_log2, El. replace (Z.max _ _ - _) with 0 by lia. cbn. destruct (Z.leb_spec (e + k) (1024 - 53)); [done|lia].
Qed.

Lemma iter_xO n d : Zpos (Pos.iter xO n d) = Zpos n * 2 ^ Zpos d.
Proof.
  induction d as [|d IH] using Pos.peano_ind; [cbn; lia|]. rewrite Pos.iter_succ, Pos2Z.inj_succ, Z.pow_succ_r, Pos2Z.inj_xO, IH by lia. lia.
Qed.

(** Integers of 53 bits are exact. *)
Lemma of_int_exact n : 0 < n < 2 ^ 53 → ∃ m, of_int n = S754_finite false m (Z.log2 n - 52) ∧ Zpos m = n * 2 ^ (52 - Z.log2 n).
Proof.
  intros Hn. destruct n as [|n|n]; [lia| |lia]. assert (Hl : 0 ≤ Z.log2 (Z.pos n) ≤ 52).
  { split; [apply Z.log2_nonneg|]. apply Z.lt_succ_r, Z.log2_lt_pow2; [lia|]. exact (proj2 Hn). }
  set (l := Z.log2 (Z.pos n)) in *. assert (Ha : ∃ m, shl_align n 0 (l - 52) = (m, l - 52) ∧ Zpos m = Zpos n * 2 ^ (52 - l)).
  { unfold shl_align. rewrite Z.sub_0_r. destruct (l - 52) as [|d|d] eqn:E; [|lia|].
    - exists n. split; [done|]. replace (52 - l) with 0 by lia. cbn. lia.
    - eexists. split; [done|]. replace (52 - l) with (Zpos d) by lia. apply iter_xO. }
  destruct Ha as (m & Ea & Em). exists m. split; [|done].
  assert (Elm : Z.log2 (Zpos m) = 52) by (rewrite Em, Z.log2_mul_pow2 by lia; fold l; lia).
  cbn [of_int binary_normalize]. unfold binary_round. rewrite digits2_log2. fold l. unfold fexp, emin.
  replace (Z.max _ _) with (l - 52) by lia. rewrite Ea.
  destruct (round_aux_spec m (l - 52)) as (R & r & e' & -> & Hc & Hr); [lia..|]. rewrite Elm in *. replace (52 - 52) with 0 in * by lia.
  rewrite Z.mul_1_r in Hc. assert (ER : R = Zpos m) by lia. pose proof (Z.log2_spec (Zpos m) ltac:(lia)) as [_ L]. rewrite Elm in L.
  destruct Hr as [[Er ->]|(_ & E & _)]; [|rewrite ER in E; change (2 ^ Z.succ 52) with (2 ^ 53) in L; lia].
  f_equal; [congruence|lia].
Qed.

(** ** A percentage *)

(** The integers behind it: [R] is the rounded product of [M = n * G] and [mc], in units of [K]; all of
    it scaled by [W = F * K]. *)
Lemma percent_floor n p mc t M G R K F :
  0 < n → 0 ≤ p ≤ 100 → 0 < K ≤ 2 ^ 53 → 0 < F → 0 < M < 2 ^ 53 → 2 ^ 22 ≤ G → M = n * G → F * K = 2 ^ 53 * G →
  100 * mc = p * 2 ^ 53 + t → Z.abs t ≤ 50 → Z.abs t * 2 ^ 53 ≤ 50 * mc →
  M * mc < K * 2 ^ 53 → 2 * Z.abs (R * K - M * mc) ≤ K → R / F = n * p / 100.
Proof.
  intros Hn Hp HK HF HM HG EM EW Et Ht Htm HP Hr. symmetry. set (q := n * p / 100).
  pose proof (Z.div_mod (n * p) 100 ltac:(lia)) as Ed. fold q in Ed. pose proof (Z.mod_pos_bound (n * p) 100 ltac:(lia)) as Hrho. set (rho := (n * p) mod 100) in *.
  set (W := F * K) in *. assert (E100 : 100 * (M * mc) = 100 * (q * W) + rho * W + M * t).
  { replace (100 * (M * mc)) with (M * (100 * mc)) by ring. rewrite Et, EM. replace (n * G * (p * 2 ^ 53 + t)) with (n * p * (2 ^ 53 * G) + n * G * t) by ring.
    rewrite <- EW, Ed. ring. }
  assert (HW : 2 ^ 75 ≤ W) by (rewrite EW; change (2 ^ 75) with (2 ^ 53 * 2 ^ 22); lia).
  assert (HA : 0 ≤ Z.abs t * M ≤ 50 * 2 ^ 53) by (split; [|apply Z.mul_le_mono_nonneg]; lia).
  assert (HA2 : M * (Z.abs t * 2 ^ 53) ≤ M * (50 * mc)) by (apply Z.mul_le_mono_nonneg_l; lia).
  assert (HMt : Z.abs (M * t) = Z.abs t * M) by (rewrite Z.abs_mul, (Z.abs_eq M) by lia; ring).
  assert (HMt2 : - (M * t) < 50 * K) by lia.
  assert (HrW : 0 ≤ rho * W ≤ 99 * W) by (split; [apply Z.mul_nonneg_nonneg|apply Z.mul_le_mono_nonneg_r]; lia).
  assert (HrW1 : rho = 0 ∨ 1 * W ≤ rho * W) by (destruct (decide (rho = 0)); [by left|right; apply Z.mul_le_mono_nonneg_r; lia]).
  assert (Hup : R * K < (q * F + F) * K) by (replace ((q * F + F) * K) with (q * W + W) by (unfold W; ring); lia).
  assert (Hlow : (q * F - 1) * K < R * K).
  { replace ((q * F - 1) * K) with (q * W - K) by (unfold W; ring). destruct HrW1 as [E|]; [rewrite E in *|]; lia. }
  apply Z.mul_lt_mono_pos_r in Hup; [|lia]. apply Z.mul_lt_mono_pos_r in Hlow; [|lia].
  apply (Z.div_unique_pos R F q (R - F * q)); [lia|ring].
Qed.

(** [int(float64(n) * c)] for a float [c] next to [p] percent: what the exact product gives. *)
Lemma fmul_percent undef n p mc : 0 < n < 2 ^ 31 → 0 ≤ p ≤ 100 → 2 ^ 52 ≤ Zpos mc < 2 ^ 53 →
  Z.abs (100 * Zpos mc - p * 2 ^ 53) ≤ 50 → Z.abs (100 * Zpos mc - p * 2 ^ 53) * 2 ^ 53 ≤ 50 * Zpos mc →
  to_int undef (fmul (of_int n) (S754_finite false mc (-53))) = n * p / 100.
Proof.
  intros Hn Hp Hmc Ht Htm. destruct (of_int_exact n) as (m & -> & Em); [lia|]. set (l := Z.log2 n) in *.
  assert (Hl : 0 ≤ l ≤ 30) by (split; [apply Z.log2_nonneg|apply Z.lt_succ_r, Z.log2_lt_pow2; [lia|exact (proj2 Hn)]]).
  assert (HM : 2 ^ 52 ≤ Zpos m < 2 ^ 53).
  { pose proof (Z.log2_spec n ltac:(lia)) as [L1 L2]. fold l in L1, L2. rewrite Em.
    pose proof (Z.pow_pos_nonneg 2 (52 - l) ltac:(lia) ltac:(lia)).
    replace (2 ^ 52) with (2 ^ l * 2 ^ (52 - l)) by (rewrite <- Z.pow_add_r by lia; f_equal; lia).
    replace (2 ^ 53) with (2 ^ Z.succ l * 2 ^ (52 - l)) by (rewrite <- Z.pow_add_r by lia; f_equal; lia). nia. }
  assert (HP : 2 ^ 104 ≤ Zpos (m * mc) < 2 ^ 106) by (rewrite Pos2Z.inj_mul; change (2 ^ 104) with (2 ^ 52 * 2 ^ 52); change (2 ^ 106) with (2 ^ 53 * 2 ^ 53); nia).
  assert (HL : 104 ≤ Z.log2 (Zpos (m * mc)) ≤ 105) by (split; [apply Z.log2_le_pow2; lia|apply Z.lt_succ_r, Z.log2_lt_pow2; [lia|exact (proj2 HP)]]).
  pose proof (Z.log2_spec (Zpos (m * mc)) ltac:(lia)) as [_ HL2].
  unfold fmul, SFmul. cbn [xorb]. destruct (round_aux_spec (m * mc) (l - 52 + -53)) as (R & r & e' & -> & Hc & Hr); [lia..|].
  set (k := Z.log2 (Z.pos (m * mc)) - 52) in *. replace (Z.succ (Z.log2 (Z.pos (m * mc)))) with (k + 53) in HL2 by lia.
  assert (Hfloor : R / 2 ^ (105 - l - k) = n * p / 100).
  { apply (percent_floor n p (Zpos mc) (100 * Zpos mc - p * 2 ^ 53) (Zpos m) (2 ^ (52 - l)) R (2 ^ k));
      first [lia|apply Z.pow_le_mono_r; lia|by apply Z.pow_pos_nonneg; lia|idtac].
    - split; [by apply Z.pow_pos_nonneg; lia|apply Z.pow_le_mono_r; lia].
    - rewrite <- !Z.pow_add_r by lia. f_equal. lia.
    - rewrite <- Pos2Z.inj_mul. rewrite <- Z.pow_add_r by lia. exact HL2. }
  unfold to_int. assert (Er : Zpos r / 2 ^ (- e') = n * p / 100).
  { destruct Hr as [[-> ->]|(E & _ & ->)]; [rewrite <- Hfloor; do 2 f_equal; lia|]. rewrite <- Hfloor, <- E.
    replace (105 - l - k) with (- (l - 52 + -53 + k + 1) + 1) by lia. rewrite Z.pow_add_r, Z.pow_1_r by lia.
    rewrite Z.div_mul_cancel_r; [done|apply Z.pow_nonzero; lia|lia]. }
  destruct (Z.leb_spec 0 e'); [lia|]. rewrite Er, bool_decide_true; [done|].
  assert (0 ≤ n * p / 100 ≤ n) by (split; [apply Z.div_pos; [apply Z.mul_nonneg_nonneg|]; lia|apply Z.div_le_upper_bound; [lia|]; rewrite Z.mul_comm; apply Z.mul_le_mono_nonneg_r; lia]). widths. lia.
Qed.
