(* ===== verification/Bench.v ===== *)
(** * The benchmark (src/benchmark/main.go)

    The scenarios, how a scenario shares its messages among goroutines and accounts for them,
    the poll loop, the latency percentiles with their floating-point index, and the Markdown
    report. A goroutine's turn is an event: the result of its [Send] and how long that took. *)
From Stdlib Require Import ZArith Lia Floats.SpecFloat Strings.Byte Strings.Ascii.
From stdpp Require Import base list strings gmap sorting.
From S2P Require Import Prelude Decimal Record Recovery Codec Frame Requests Responses Server Sizes Checkpoint Network Consumer Producer GroupConsumer Float.
Open Scope Z_scope.

(** ** The report *)

Record Environment := mkEnvironment {
  env_GoVersion : string;
  env_GOOS : string;
  env_GOARCH : string;
  env_NumCPU : Z;
  env_Timestamp : string;
  env_CommitSHA : string;
  env_Notes : string
}.

Record BenchmarkResult := mkBenchmarkResult {
  br_Scenario : string;
  br_Producers : Z;
  br_DurationMs : Z;
  br_TotalMessages : Z;
  br_WarmupMessages : Z;
  br_MeasuredMessages : Z;
  br_MsgPerSec : float64;
  br_MBPerSec : float64;
  br_P50LatencyUs : float64;
  br_P95LatencyUs : float64;
  br_P99LatencyUs : float64;
  br_MaxLatencyUs : float64;
  br_P50LatencyMs : float64;
  br_P95LatencyMs : float64;
  br_P99LatencyMs : float64;
  br_MaxLatencyMs : float64;
  br_BatchFillRatio : option float64;
  br_BatchingSenders : option Z
}.

Record Report := mkReport { rp_Environment : Environment; rp_Results : list BenchmarkResult }.

(** [BenchmarkResult{Scenario: scenario, Producers: producers}] *)
Definition no_result (scenario : string) (producers : Z) : BenchmarkResult :=
  let z := of_int 0 in mkBenchmarkResult scenario producers 0 0 0 0 z z z z z z z z z z None None.

(** ** The command line *)

Definition parse_count (p : chars) : option Z :=
  match TrimSpace p with
  | [] => None
  | p => n ← ParseInt (of_chars p); if n <? 1 then None else Some n
  end.

Definition parseProducerCounts (s : string) : list Z :=
  match omap parse_count (split (λ c, bool_decide (c = ","%char)) (to_chars s)) with
  | [] => [1]
  | out => out
  end.

(** ** Percentiles *)

(** [undef] is what [int] makes of a float that is not in its range. *)
Definition percentileIndex (undef n : Z) (pct : float64) : Z :=
  if n <=? 0 then 0
  else
    let idx := to_int undef (fmul (of_int n) (fdiv pct (of_int 100))) in
    let idx := if n <=? idx then n - 1 else idx in
    if idx <? 0 then 0 else idx.

Definition toUs (d : Z) : float64 := fdiv (of_int d) (of_int 1000).

(** [None] is an index out of range. *)
Definition latencyStatsUs (undef : Z) (sorted : list Z) : option (float64 * float64 * float64 * float64) :=
  match sorted with
  | [] => Some (of_int 0, of_int 0, of_int 0, of_int 0)
  | _ =>
      let at_index (i : Z) := if i <? 0 then None else sorted !! Z.to_nat i in
      p50 ← at_index (percentileIndex undef (zlen sorted) (of_int 50));
      p95 ← at_index (percentileIndex undef (zlen sorted) (of_int 95));
      p99 ← at_index (percentileIndex undef (zlen sorted) (of_int 99));
      top ← at_index (zlen sorted - 1);
      Some (toUs p50, toUs p95, toUs p99, toUs top)
  end.

(** ** Sharing the work *)

Definition share (count workers : Z) : Z * Z :=
  let per := count / workers in
  if per <? 1 then (1, 0) else (per, count mod workers).

Definition localCount (count workers pid : Z) : Z :=
  let '(per, remainder) := share count workers in if pid <? remainder then per + 1 else per.

Definition localWarmup (count workers pid : Z) : Z :=
  let '(per, remainder) := share count workers in
  if pid <? remainder then (let w := (per + 1) / 10 in if w <? 1 then 1 else w)
  else (let w := per / 10 in if (w <? 1) && (0 <? per) then 1 else w).

(** A goroutine: its loop variable, its latencies, and whether it has handed them over. *)
Record worker := mkWorker { wk_i : Z; wk_lats : list Z; wk_done : bool }.
Record bench := mkBench { bn_workers : list worker; bn_allLatency : list Z; bn_sendErrors : Z }.

Definition start_workers (workers : Z) : bench := mkBench (replicate (Z.to_nat workers) (mkWorker 0 [] false)) [] 0.

(** The body of a goroutine's loop after [Send], and its end under [latMu]. *)
Definition worker_sent (count workers : Z) (pid : nat) (r : result Z) (d : Z) (s : bench) : option bench :=
  w ← s.(bn_workers) !! pid;
  if negb w.(wk_done) && (w.(wk_i) <? localCount count workers (Z.of_nat pid)) then
    match r with
    | Err _ => Some (mkBench (<[pid := mkWorker (w.(wk_i) + 1) w.(wk_lats) false]> s.(bn_workers)) s.(bn_allLatency) (s.(bn_sendErrors) + 1))
    | Ok _ =>
        let lats := if localWarmup count workers (Z.of_nat pid) <=? w.(wk_i) then w.(wk_lats) ++ [d] else w.(wk_lats) in
        Some (mkBench (<[pid := mkWorker (w.(wk_i) + 1) lats false]> s.(bn_workers)) s.(bn_allLatency) s.(bn_sendErrors))
    end
  else None.

Definition worker_ends (count workers : Z) (pid : nat) (s : bench) : option bench :=
  w ← s.(bn_workers) !! pid;
  if negb w.(wk_done) && (w.(wk_i) =? localCount count workers (Z.of_nat pid)) then
    Some (mkBench (<[pid := mkWorker w.(wk_i) w.(wk_lats) true]> s.(bn_workers)) (s.(bn_allLatency) ++ w.(wk_lats)) s.(bn_sendErrors))
  else None.

(** [wg.Wait] returns. *)
Definition all_done (s : bench) : bool := forallb wk_done s.(bn_workers).

(** ** Scenarios *)

(** [float64(n) / (float64(durMs) / 1000.0)] *)
Definition per_second (n : float64) (durMs : Z) : float64 := fdiv n (fdiv (of_int durMs) (of_int 1000)).
Definition megabytes (n : Z) : float64 := fdiv (of_int n) (fmul (of_int 1024) (of_int 1024)).

(** [duration.Milliseconds()], at least 1. *)
Definition duration_ms (duration : Z) : Z := let durMs := Z.quot duration 1000000 in if durMs =? 0 then 1 else durMs.

Definition sort_latencies (l : list Z) : list Z := merge_sort Z.le l.

(** What a producer scenario reports of the latencies it got. *)
Definition producer_result (undef : Z) (scenario : string) (producers count payloadSize duration : Z) (allLatency : list Z)
    (batchFill : option float64) (senders : option Z) : option BenchmarkResult :=
  let measured := zlen allLatency in
  let warmupTotal := if count - measured <? 0 then 0 else count - measured in
  let durMs := duration_ms duration in
  '(p50us, p95us, p99us, maxUs) ← latencyStatsUs undef (sort_latencies allLatency);
  let ms x := fdiv x (of_int 1000) in
  Some (mkBenchmarkResult scenario producers durMs count warmupTotal measured
    (per_second (of_int measured) durMs) (per_second (megabytes (measured * payloadSize)) durMs)
    p50us p95us p99us maxUs (ms p50us) (ms p95us) (ms p99us) (ms maxUs) batchFill senders).

(** The fill ratio of batches ([batchFillSum], [batchFillN] of the producer). *)
Record batchFill := mkBatchFill { bf_Sum : float64; bf_N : Z }.
Definition record_fill (batchSize bytes : Z) (f : batchFill) : batchFill :=
  if 0 <? batchSize then mkBatchFill (fadd f.(bf_Sum) (fdiv (of_int bytes) (of_int batchSize))) (f.(bf_N) + 1) else f.
Definition AvgBatchFillRatio (f : batchFill) : float64 :=
  if f.(bf_N) =? 0 then of_int 0 else fdiv f.(bf_Sum) (of_int f.(bf_N)).

(** [runBatchingBenchmark]: the goroutines share a producer that lingers, so what a [Send] returns is
    the batcher's; here it is part of the event. [fill] is the producer's at the end. *)
Inductive batch_event :=
  | Sent (pid : nat) (r : result Z) (d : Z)
  | Ended (pid : nat).

Definition batch_turns (count m : Z) (evs : list batch_event) (bn : bench) : option bench :=
  foldl (λ bn ev, bn ← bn; match ev with
                           | Sent pid r d => worker_sent count m pid r d bn
                           | Ended pid => worker_ends count m pid bn
                           end) (Some bn) evs.

Definition runBatchingBenchmark (undef : Z) (addr scenario : string) (count payloadSize : Z) (cfg : ProducerConfig) (producers : Z)
    (evs : list batch_event) (fill : batchFill) (duration : Z) : option BenchmarkResult :=
  let producers := if producers <? 1 then 1 else producers in
  let m := if producers * 2 <? 2 then 2 else producers * 2 in
  match NewProducer [addr] cfg with
  | Err _ => Some (no_result scenario producers)
  | Ok _ =>
      bn ← batch_turns count m evs (start_workers m);
      if all_done bn then
        producer_result undef scenario producers count payloadSize duration bn.(bn_allLatency)
          (if 0 <? cfg.(pc_LingerMs) then Some (AvgBatchFillRatio fill) else None) (Some m)
      else None
  end.

Section runs.
Context {N : Type} `{Network N}.

(** A turn of goroutine [pid] of [runProducerBenchmark], the clock at [now] and [d] later, or its end. *)
Inductive turn :=
  | Sends (pid : nat) (now d : Z)
  | Ends (pid : nat).

Definition bench_key (pid i : Z) : bytes := str_bytes ("k-" +:+ Itoa pid +:+ "-" +:+ Itoa i).

Definition producer_turn (topic : string) (payload : bytes) (count producers : Z) (t : turn) (s : bench * list Producer * N) :
    option (bench * list Producer * N) :=
  let '(bn, prods, n) := s in
  match t with
  | Sends pid now d =>
      w ← bn.(bn_workers) !! pid;
      p ← prods !! pid;
      let i := w.(wk_i) in
      let '(r, (p, n)) := Send None now topic (i mod 4) (Some (bench_key (Z.of_nat pid) i)) (Some payload) (p, n) in
      bn ← worker_sent count producers pid r d bn;
      Some (bn, <[pid := p]> prods, n)
  | Ends pid => bn ← worker_ends count producers pid bn; Some (bn, prods, n)
  end.

Definition producer_turns (topic : string) (payload : bytes) (count producers : Z) (ts : list turn) (s : bench * list Producer * N) :
    option (bench * list Producer * N) :=
  foldl (λ s t, s ≫= producer_turn topic payload count producers t) (Some s) ts.

(** [prod.Close] of every producer. *)
Definition close_all (prods : list Producer) (n : N) : N :=
  foldl (λ n p, (Close (λ _, []) p n).2.2) n prods.

(** [runProducerBenchmark] without a linger time, when its goroutines take the turns [ts]; [None]
    if these do not run to the end. *)
Definition runProducerBenchmark (undef : Z) (addr scenario : string) (nano : Z) (count payloadSize : Z) (cfg : ProducerConfig) (producers : Z)
    (ts : list turn) (duration : Z) (n : N) : option (BenchmarkResult * N) :=
  let producers := if producers <? 1 then 1 else producers in
  let payload := replicate (Z.to_nat payloadSize) x61 in
  let topic := "bench-" +:+ Itoa nano in
  match NewProducer [addr] cfg with
  | Err _ => Some (no_result scenario producers, n)
  | Ok prod =>
      '(bn, prods, n) ← producer_turns topic payload count producers ts (start_workers producers, replicate (Z.to_nat producers) prod, n);
      if all_done bn then
        res ← producer_result undef scenario producers count payloadSize duration bn.(bn_allLatency) None None;
        Some (res, close_all prods n)
      else None
  end.

(** *** Polling *)

Definition consumerPollSamples : Z := 100.
Definition maxEmptyAfterDrain : Z := 5.

Record polling := mkPolling {
  pl_consumed : Z;
  pl_latencies : list Z;
  pl_nonEmptyPolls : Z;
  pl_emptyAfterDrain : Z
}.

(** The loop with [togo] attempts to go; the next poll sees the map orders and takes the time of
    [ord togo] and [d togo]. *)
Fixpoint sample_polls (count : Z) (ord : nat → Orders) (d : nat → Z) (togo : nat) (pl : polling) (s : GroupConsumer * N) : polling * (GroupConsumer * N) :=
  match togo with
  | O => (pl, s)
  | S togo =>
      if pl.(pl_nonEmptyPolls) <? consumerPollSamples then
        match Poll (ord togo) TimedOut s with
        | (Err _, s) => (pl, s)
        | (Ok [], s) =>
            if count <=? pl.(pl_consumed) then
              let pl := mkPolling pl.(pl_consumed) pl.(pl_latencies) pl.(pl_nonEmptyPolls) (pl.(pl_emptyAfterDrain) + 1) in
              if maxEmptyAfterDrain <=? pl.(pl_emptyAfterDrain) then (pl, s) else sample_polls count ord d togo pl s
            else sample_polls count ord d togo pl s
        | (Ok msgs, s) =>
            sample_polls count ord d togo
              (mkPolling (pl.(pl_consumed) + zlen msgs) (pl.(pl_latencies) ++ [d togo]) (pl.(pl_nonEmptyPolls) + 1) 0) s
        end
      else (pl, s)
  end.

Definition maxAttempts : nat := Z.to_nat (consumerPollSamples * 20).

Definition consumer_result (undef : Z) (scenario : string) (count duration : Z) (pl : polling) : option BenchmarkResult :=
  let latencies := pl.(pl_latencies) in
  let durMs := duration_ms duration in
  let warmupPolls := let w := zlen latencies / 10 in if (w <? 1) && (1 <? zlen latencies) then 1 else w in
  let measuredLats := if (0 <? warmupPolls) && (warmupPolls <? zlen latencies) then drop (Z.to_nat warmupPolls) latencies else latencies in
  let warmupMsgs := if 0 <? zlen latencies then pl.(pl_consumed) * warmupPolls / zlen latencies else 0 in
  let measured := let m := pl.(pl_consumed) - warmupMsgs in if m <? 0 then 0 else m in
  '(p50us, p95us, p99us, maxUs) ← latencyStatsUs undef (sort_latencies measuredLats);
  let ms x := fdiv x (of_int 1000) in
  Some (mkBenchmarkResult scenario 1 durMs count warmupMsgs measured
    (per_second (of_int measured) durMs) (per_second (megabytes (measured * 1024)) durMs)
    p50us p95us p99us maxUs (ms p50us) (ms p95us) (ms p99us) (ms maxUs) None None).

(** The messages that are there to be polled; a [Send] that fails is ignored. *)
Definition seed (topic : string) (now : nat → Z) (count : Z) (s : Producer * N) : Producer * N :=
  foldl (λ s i, (Send None (now i) topic (Z.of_nat i mod 4) (Some (str_bytes ("k-" +:+ Itoa (Z.of_nat i)))) (Some (replicate 1024 x00)) s).2)
    s (seq 0 (Z.to_nat count)).

Definition runConsumerBenchmark (undef : Z) (addr scenario : string) (nano nano' : Z) (count : Z) (now : nat → Z) (ord : nat → Orders) (d : nat → Z)
    (duration : Z) (n : N) : option (BenchmarkResult * N) :=
  let topic := "bench-consumer-" +:+ Itoa nano in
  match NewProducer [addr] DefaultProducerConfig with
  | Err _ => Some (no_result scenario 0, n)
  | Ok prod =>
      let '(prod, n) := seed topic now count (prod, n) in
      let n := (Close (λ _, []) prod n).2.2 in
      let cfg := DefaultGroupConsumerConfig in
      let cfg := mkGroupConsumerConfig cfg.(gcc_ClientID) cfg.(gcc_SessionTimeoutMs) cfg.(gcc_HeartbeatIntervalMs) cfg.(gcc_RebalanceTimeoutMs)
        cfg.(gcc_AutoCommit) cfg.(gcc_AutoCommitInterval) "earliest" cfg.(gcc_MaxWaitMs) cfg.(gcc_MinBytes) (32 * 1024)
        cfg.(gcc_AssignorStrategy) cfg.(gcc_OnRevoked) cfg.(gcc_OnAssigned) in
      match NewGroupConsumer (ord maxAttempts) [addr] ("bench-group-" +:+ Itoa nano') [topic] cfg n with
      | (Err _, n) => Some (no_result scenario 0, n)
      | (Ok gc, n) =>
          let '(pl, s) := sample_polls count ord d maxAttempts (mkPolling 0 [] 0 0) (gc, n) in
          res ← consumer_result undef scenario count duration pl;
          Some (res, (GroupConsumer_Close s).2)
      end
  end.
End runs.

(** ** The Markdown report *)

Definition formatLatency (undef : Z) (us : float64) : string :=
  if feqb us (of_int (to_int undef us)) && fgeb us (of_int 1) then fmt_f 0 us else fmt_f 3 us.

Definition formatP50Latency (undef : Z) (us : float64) : string * bool :=
  let s := formatLatency undef us in
  if bool_decide (s = "0.000") then (s +:+ " [*]", true) else (s, false).

Definition newline_str : string := String "010" EmptyString.

(** A row of a table: the cells between bars. *)
Definition row (cells : list string) : string := foldr (λ c rest, "| " +:+ c +:+ " " +:+ rest) "|" cells +:+ newline_str.

Definition environment_rows (e : Environment) : list string :=
  [row ["GoVersion"; e.(env_GoVersion)]; row ["GOOS"; e.(env_GOOS)]; row ["GOARCH"; e.(env_GOARCH)];
   row ["CPU"; Itoa e.(env_NumCPU)]; row ["Timestamp"; e.(env_Timestamp)]]
  ++ (if bool_decide (e.(env_CommitSHA) = EmptyString) then [] else [row ["CommitSHA"; e.(env_CommitSHA)]])
  ++ (if bool_decide (e.(env_Notes) = EmptyString) then [] else [row ["Notes"; e.(env_Notes)]]).

Definition has_fill (report : Report) : bool := existsb (λ r, bool_decide (is_Some r.(br_BatchFillRatio))) report.(rp_Results).
Definition has_senders (report : Report) : bool := existsb (λ r, bool_decide (is_Some r.(br_BatchingSenders))) report.(rp_Results).

Definition header_cells (hasFill hasSenders : bool) : list string :=
  if hasFill && hasSenders then ["Senaryo"; "Producers"; "batching_senders"; "Throughput (msg/s)"; "p50"; "p95"; "p99"; "max"; "batch_fill"]
  else if hasFill then ["Senaryo"; "Producers"; "Throughput (msg/s)"; "p50"; "p95"; "p99"; "max"; "batch_fill"]
  else ["Senaryo"; "Producers"; "Throughput (msg/s)"; "p50"; "p95"; "p99"; "max"].

(** [|---|...|---|] *)
Definition ruler (k : nat) : string := foldr (λ _ rest, "|---" +:+ rest) "|" (seq 0 k) +:+ newline_str.

Definition result_cells (undef : Z) (hasFill hasSenders : bool) (r : BenchmarkResult) : list string :=
  let p50Str := (formatP50Latency undef r.(br_P50LatencyUs)).1 in
  let senders := match r.(br_BatchingSenders) with Some m => Itoa m | None => EmptyString end in
  let fill := match r.(br_BatchFillRatio) with Some f => fmt_f 4 f | None => EmptyString end in
  let latencies := [p50Str; formatLatency undef r.(br_P95LatencyUs); formatLatency undef r.(br_P99LatencyUs); formatLatency undef r.(br_MaxLatencyUs)] in
  let throughput := fmt_f 2 r.(br_MsgPerSec) in
  if hasFill && hasSenders then [r.(br_Scenario); Itoa r.(br_Producers); senders; throughput] ++ latencies ++ [fill]
  else if hasFill then [r.(br_Scenario); Itoa r.(br_Producers); throughput] ++ latencies ++ [fill]
  else [r.(br_Scenario); Itoa r.(br_Producers); throughput] ++ latencies.

(** The table of the results: header, ruler, rows. *)
Definition result_table (undef : Z) (report : Report) : list string :=
  let f := has_fill report in
  let s := has_senders report in
  row (header_cells f s) :: ruler (length (header_cells f s)) :: ((λ r, row (result_cells undef f s r)) <$> report.(rp_Results)).

Definition p50_footnote (undef : Z) (report : Report) : bool :=
  existsb (λ r, (formatP50Latency undef r.(br_P50LatencyUs)).2) report.(rp_Results).

Definition concat_strings (l : list string) : string := foldr String.append EmptyString l.

Definition renderMarkdown (undef : Z) (report : Report) : string :=
  newline_str +:+ "## Ortam" +:+ newline_str +:+ row ["Alan"; "Değer"] +:+ ruler 2 +:+ concat_strings (environment_rows report.(rp_Environment)) +:+
  newline_str +:+ "## Sonuçlar" +:+ newline_str +:+ concat_strings (result_table undef report) +:+
  (if p50_footnote undef report then
     newline_str +:+ "[*] p50 degeri sistem saat cozunurlugunun altinda; Windows'ta ~500us kuantum. Daha hassas olcum icin Linux'ta kosun." +:+ newline_str
   else EmptyString).

(** ** The main program *)

Inductive scenario_kind := ProducerRun | BatchingRun.

Record scenario := mkScenario {
  sc_kind : scenario_kind;
  sc_label : string;
  sc_count : Z;
  sc_payloadSize : Z;
  sc_config : ProducerConfig;
  sc_producers : Z
}.

Definition set_acks (acks : Z) (c : ProducerConfig) : ProducerConfig :=
  mkProducerConfig c.(pc_ClientID) acks c.(pc_TimeoutMs) c.(pc_LingerMs) c.(pc_BatchSize).
Definition set_batching (lingerMs batchSize : Z) (c : ProducerConfig) : ProducerConfig :=
  mkProducerConfig c.(pc_ClientID) c.(pc_Acks) c.(pc_TimeoutMs) lingerMs batchSize.

(** The producer scenarios of [main] for one number of producers. *)
Definition scenarios_for (producerCounts : list Z) (nProd : Z) : list scenario :=
  let label base := if bool_decide (length producerCounts = 1%nat) then base else base +:+ " [producers=" +:+ Itoa nProd +:+ "]" in
  let def := DefaultProducerConfig in
  [mkScenario ProducerRun (label "Single Producer 1KB (acks=1)") 10000 1024 def nProd;
   mkScenario ProducerRun (label "Producer 100B (acks=1)") 10000 100 def nProd;
   mkScenario ProducerRun (label "Producer 10KB (acks=1)") 5000 10240 def nProd;
   mkScenario ProducerRun (label "Producer 1KB (acks=0)") 10000 1024 (set_acks 0 def) nProd;
   mkScenario ProducerRun (label "Producer 1KB (acks=all)") 10000 1024 (set_acks (-1) def) nProd;
   mkScenario BatchingRun (label "Producer 1KB (linger=5ms, batch=64KB)") 10000 1024 (set_batching 5 65536 def) nProd;
   mkScenario ProducerRun (label "Producer 1KB (linger=0ms, batch=16KB)") 10000 1024 def nProd].

Definition scenarios (producersFlag : string) : list scenario :=
  let producerCounts := parseProducerCounts producersFlag in
  mjoin (scenarios_for producerCounts <$> producerCounts).

(** ** Percentiles, proved *)

Lemma percentile_range undef n pct : 0 < n → 0 ≤ percentileIndex undef n pct < n.
Proof.
  intros Hn. unfold percentileIndex. destruct (Z.leb_spec n 0); [lia|]. cbv zeta.
  destruct (Z.leb_spec n (to_int undef (fmul (of_int n) (fdiv pct (of_int 100))))); case_match; lia.
Qed.

(** The rounding of the product does not show in the index. *)
Lemma percentile_exact undef p n : p ∈ [50; 95; 99] → 0 < n < 2 ^ 31 → percentileIndex undef n (of_int p) = n * p / 100.
Proof.
  intros Hp Hn. assert (Hq : 0 ≤ n * p / 100 < n).
  { assert (0 ≤ p < 100) by (rewrite !elem_of_cons, elem_of_nil in Hp; lia). split; [apply Z.div_pos; nia|apply Z.div_lt_upper_bound; nia]. }
  unfold percentileIndex. destruct (Z.leb_spec n 0); [lia|]. cbv zeta.
  assert (E : to_int undef (fmul (of_int n) (fdiv (of_int p) (of_int 100))) = n * p / 100).
  { assert (Hc : ∃ mc, fdiv (of_int p) (of_int 100) = S754_finite false mc (-53) ∧ 2 ^ 52 ≤ Zpos mc < 2 ^ 53 ∧
      Z.abs (100 * Zpos mc - p * 2 ^ 53) ≤ 50 ∧ Z.abs (100 * Zpos mc - p * 2 ^ 53) * 2 ^ 53 ≤ 50 * Zpos mc).
    { rewrite !elem_of_cons, elem_of_nil in Hp. destruct Hp as [->|[->|[->|[]]]]; (eexists; split; [vm_compute; reflexivity|lia]). }
    destruct Hc as (mc & -> & H1 & H2 & H3). apply fmul_percent; [exact Hn| |exact H1|exact H2|exact H3].
    rewrite !elem_of_cons, elem_of_nil in Hp. lia. }
  rewrite E. destruct (Z.leb_spec n (n * p / 100)); [lia|]. by destruct (Z.ltb_spec (n * p / 100) 0); [lia|].
Qed.

Lemma sorted_lookup (l : list Z) : StronglySorted Z.le l → ∀ i j x y, (i ≤ j)%nat → l !! i = Some x → l !! j = Some y → x ≤ y.
Proof.
  induction 1 as [|z l _ IH Hz]; intros i j x y Hij; [done|]. destruct i as [|i], j as [|j]; cbn; [| |lia|].
  - intros [= ->] [= ->]. lia.
  - intros [= ->] Hy. rewrite Forall_forall in Hz. by eapply Hz, list_elem_of_lookup_2.
  - by apply IH; lia.
Qed.

(** How many latencies are at most [d]. *)
Definition up_to (d : Z) (l : list Z) : Z := zlen (filter (λ x : Z, x ≤ d) l).

Lemma up_to_all d l : Forall (λ x, x ≤ d) l → up_to d l = zlen l.
Proof. unfold up_to. induction 1 as [|x l Hx _ IH]; [done|]. rewrite filter_cons_True by done. cbn [length]. lia. Qed.

(** The value at position [i] of the sorted list has [i + 1] values up to it. *)
Lemma rank_at_least (lats : list Z) i d : sort_latencies lats !! i = Some d → Z.of_nat i < up_to d lats.
Proof.
  intros Hi. assert (Hs : StronglySorted Z.le (sort_latencies lats)) by (apply StronglySorted_merge_sort; apply _).
  assert (Hp : sort_latencies lats ≡ₚ lats) by apply merge_sort_Permutation.
  assert (Hlt : (i < length (sort_latencies lats))%nat) by (by eapply lookup_lt_Some).
  assert (Ht : up_to d (take (S i) (sort_latencies lats)) = Z.of_nat (S i)).
  { rewrite up_to_all, length_take; [lia|]. apply Forall_forall. intros x [k [Hx Hk]%lookup_take_Some]%list_elem_of_lookup.
    eapply sorted_lookup; [exact Hs| |exact Hx|exact Hi]. lia. }
  unfold up_to in *. rewrite <- Hp, <- (take_drop (S i) (sort_latencies lats)), filter_app, length_app. lia.
Qed.


Definition measured_once : list Z := [40; 10; 30; 20].

(** ** Sharing, proved *)

Lemma sum_shares a r n : 0 ≤ r → zsum ((λ i, if Z.of_nat i <? r then a + 1 else a) <$> seq 0 n) = a * Z.of_nat n + Z.min r (Z.of_nat n).
Proof.
  intros Hr. induction n as [|n IH]; [cbn; lia|]. rewrite seq_S, fmap_app, zsum_app, IH. cbn. destruct (Z.ltb_spec (Z.of_nat n) r); lia.
Qed.

Lemma share_spec count workers : 0 < count → 0 < workers → let '(per, rem) := share count workers in
  1 ≤ per ∧ 0 ≤ rem < workers ∧ per * workers + rem = Z.max count workers.
Proof.
  intros Hc Hw. unfold share. pose proof (Z.div_mod count workers ltac:(lia)) as E. pose proof (Z.mod_pos_bound count workers Hw).
  destruct (Z.ltb_spec (count / workers) 1) as [Hlt|Hge]; [|nia].
  assert (count / workers = 0) by (pose proof (Z.div_pos count workers); lia). nia.
Qed.

Lemma warmup_range count workers pid : 0 < count → 0 < workers → 1 ≤ localWarmup count workers pid ≤ localCount count workers pid.
Proof.
  intros Hc Hw. pose proof (share_spec count workers Hc Hw) as Hs. unfold localWarmup, localCount. destruct (share count workers) as [per rem].
  pose proof (Z.div_mod (per + 1) 10). pose proof (Z.mod_pos_bound (per + 1) 10). pose proof (Z.div_mod per 10). pose proof (Z.mod_pos_bound per 10).
  destruct (Z.ltb_spec pid rem); cbv zeta; case_match eqn:E; rewrite ?andb_true_iff, ?andb_false_iff, ?Z.ltb_lt, ?Z.ltb_ge in E; lia.
Qed.

(** A sum over the workers, when one of them changes. *)
Definition total (f : nat → worker → Z) (ws : list worker) : Z := zsum (imap f ws).

Lemma zsum_insert (l : list Z) i x y : l !! i = Some x → zsum (<[i := y]> l) = zsum l - x + y.
Proof.
  revert i. induction l as [|z l IH]; intros [|i]; [done..| |]; cbn; [intros [= ->]; lia|]. intros Hi. unfold zsum in *. cbn. rewrite IH by done. lia.
Qed.

Lemma total_insert f ws i w w' : ws !! i = Some w → total f (<[i := w']> ws) = total f ws - f i w + f i w'.
Proof.
  intros Hw. unfold total. assert (E : imap f (<[i := w']> ws) = <[i := f i w']> (imap f ws)).
  { apply list_eq. intros j. rewrite list_lookup_imap. destruct (decide (i = j)) as [<-|Hne].
    - rewrite !list_lookup_insert_eq; [done|rewrite length_imap|]; by eapply lookup_lt_Some.
    - by rewrite !list_lookup_insert_ne, list_lookup_imap by done. }
  rewrite E. apply zsum_insert. by rewrite list_lookup_imap, Hw.
Qed.

Lemma total_start f n (g : Z → Z) : (∀ i, f i (mkWorker 0 [] false) = g (Z.of_nat i)) →
  total f (replicate n (mkWorker 0 [] false)) = zsum ((λ i, g (Z.of_nat i)) <$> seq 0 n).
Proof.
  intros Hf. unfold total. f_equal. apply list_eq. intros i. rewrite list_lookup_imap, list_lookup_fmap.
  destruct (decide (i < n)%nat) as [Hi|Hi].
  - rewrite lookup_replicate_2, lookup_seq_lt by done. cbn. by rewrite Hf.
  - rewrite (proj1 (lookup_replicate_None _ _ _)) by lia. by rewrite lookup_seq_ge by lia.
Qed.

Section accounting.
Context (count workers : Z) (count_pos : 0 < count) (workers_pos : 0 < workers).

(** What a worker has sent after its warm-up, and what it holds of it. *)
Definition owed (pid : nat) (w : worker) : Z := Z.max 0 (w.(wk_i) - localWarmup count workers (Z.of_nat pid)).
Definition held (pid : nat) (w : worker) : Z := if w.(wk_done) then 0 else zlen w.(wk_lats).

Record bench_inv (s : bench) : Prop := {
  ba_length : zlen s.(bn_workers) = workers;
  ba_errors : 0 ≤ s.(bn_sendErrors);
  ba_worker pid w : s.(bn_workers) !! pid = Some w → w.(wk_i) ≤ localCount count workers (Z.of_nat pid) ∧
    (w.(wk_done) = true → w.(wk_i) = localCount count workers (Z.of_nat pid));
  ba_measured : total owed s.(bn_workers) - s.(bn_sendErrors) ≤ total held s.(bn_workers) + zlen s.(bn_allLatency) ≤ total owed s.(bn_workers)
}.

Lemma inv_start : bench_inv (start_workers workers).
Proof.
  assert (Hz : ∀ n (l : list nat), zsum ((λ i : nat, n) <$> l) = n * zlen l).
  { intros n l. induction l as [|x l IH]; [cbn; lia|]. unfold zsum in *. cbn [fmap list_fmap foldr length]. lia. }
  constructor; cbn [bn_workers bn_sendErrors bn_allLatency start_workers].
  - rewrite length_replicate. lia.
  - lia.
  - intros pid w [-> _]%lookup_replicate. cbn. pose proof (warmup_range count workers (Z.of_nat pid) count_pos workers_pos). split; [lia|done].
  - rewrite (total_start owed _ (λ _, 0)), (total_start held _ (λ _, 0)); [rewrite Hz; cbn; lia|done|].
    intros i. unfold owed. cbn. pose proof (warmup_range count workers (Z.of_nat i) count_pos workers_pos). lia.
Qed.

Lemma inv_sent pid r d s s' : bench_inv s → worker_sent count workers pid r d s = Some s' → bench_inv s'.
Proof.
  intros [Hl He Hw Hm]. unfold worker_sent. destruct (bn_workers s !! pid) as [w|] eqn:E; [|done]. cbn [mbind option_bind].
  destruct w as [i lats []]; [done|]. cbn [wk_done wk_i wk_lats negb andb]. destruct (Z.ltb_spec i (localCount count workers (Z.of_nat pid))) as [Hi|]; [|done].
  assert (Hkeep : ∀ lats' all err, (err = s.(bn_sendErrors) ∨ err = s.(bn_sendErrors) + 1) →
    (let ws := <[pid := mkWorker (i + 1) lats' false]> (bn_workers s) in
     total owed ws - err ≤ total held ws + zlen all ≤ total owed ws) → bench_inv (mkBench (<[pid := mkWorker (i + 1) lats' false]> (bn_workers s)) all err)).
  { intros lats' all err Herr Hb. constructor; cbn [bn_workers bn_sendErrors bn_allLatency]; [by rewrite length_insert|lia| |exact Hb].
    intros j w'. destruct (decide (pid = j)) as [<-|Hne].
    - rewrite list_lookup_insert_eq by (by eapply lookup_lt_Some). intros [= <-]. cbn. split; [lia|done].
    - rewrite list_lookup_insert_ne by done. apply Hw. }
  destruct r as [off|err]; intros [= <-]; apply Hkeep; try (by left); try (by right); cbv zeta;
    rewrite !(total_insert _ _ _ _ _ E); unfold owed, held in *; cbn [wk_i wk_done wk_lats];
    try destruct (Z.leb_spec (localWarmup count workers (Z.of_nat pid)) i); rewrite ?length_app; cbn [length]; lia.
Qed.

Lemma inv_ends pid s s' : bench_inv s → worker_ends count workers pid s = Some s' → bench_inv s'.
Proof.
  intros [Hl He Hw Hm]. unfold worker_ends. destruct (bn_workers s !! pid) as [w|] eqn:E; [|done]. cbn [mbind option_bind].
  destruct w as [i lats []]; [done|]. cbn [wk_done wk_i wk_lats negb andb]. destruct (Z.eqb_spec i (localCount count workers (Z.of_nat pid))) as [Hi|]; [|done].
  intros [= <-]. constructor; cbn [bn_workers bn_sendErrors bn_allLatency]; [by rewrite length_insert|done| |].
  - intros j w'. destruct (decide (pid = j)) as [<-|Hne].
    + rewrite list_lookup_insert_eq by (by eapply lookup_lt_Some). intros [= <-]. cbn. split; [lia|done].
    + rewrite list_lookup_insert_ne by done. apply Hw.
  - rewrite !(total_insert _ _ _ _ _ E). unfold owed, held in *. cbn [wk_i wk_done wk_lats]. rewrite length_app. lia.
Qed.

(** When all have ended. *)
Definition expected : Z := zsum ((λ i, localCount count workers (Z.of_nat i) - localWarmup count workers (Z.of_nat i)) <$> seq 0 (Z.to_nat workers)).

Lemma total_done s : bench_inv s → all_done s = true → total owed s.(bn_workers) = expected ∧ total held s.(bn_workers) = 0.
Proof.
  intros [Hl _ Hw _] Hd. unfold all_done in Hd. rewrite forallb_forall in Hd.
  assert (Hdone : ∀ i w, s.(bn_workers) !! i = Some w → wk_done w = true) by (intros i w Hi; apply Hd, list_elem_of_In; by eapply list_elem_of_lookup_2).
  split.
  - unfold total, expected. f_equal. apply list_eq. intros i. rewrite list_lookup_imap, list_lookup_fmap. destruct (bn_workers s !! i) as [w|] eqn:E; cbn.
    + pose proof (lookup_lt_Some _ _ _ E). rewrite lookup_seq_lt by lia. cbn. unfold owed. rewrite (proj2 (Hw i w E) (Hdone i w E)).
      pose proof (warmup_range count workers (Z.of_nat i) count_pos workers_pos). f_equal. lia.
    + apply lookup_ge_None in E. rewrite lookup_seq_ge by lia. done.
  - unfold total. clear Hl Hw Hd. revert Hdone. generalize (bn_workers s). intros ws Hdone.
    assert (Hz : Forall (λ x, x = 0) (imap held ws)).
    { apply Forall_lookup. intros i x. rewrite list_lookup_imap. destruct (ws !! i) as [w|] eqn:E; [|done]. cbn. intros [= <-]. unfold held. by rewrite (Hdone i w E). }
    induction Hz as [|x l -> _ IH]; [done|]. unfold zsum in *. cbn [foldr]. lia.
Qed.

Lemma measured_bounds s : bench_inv s → all_done s = true → expected - s.(bn_sendErrors) ≤ zlen s.(bn_allLatency) ≤ expected.
Proof. intros Hs Hd. destruct (total_done s Hs Hd) as [E1 E2]. pose proof (ba_measured s Hs). lia. Qed.
End accounting.

(** All messages are sent: as many as were asked for, or one per goroutine if these are more. *)
Lemma sends_total count workers : 0 < count → 0 < workers →
  zsum ((λ i, localCount count workers (Z.of_nat i)) <$> seq 0 (Z.to_nat workers)) = Z.max count workers.
Proof.
  intros Hc Hw. pose proof (share_spec count workers Hc Hw) as Hs. unfold localCount. destruct (share count workers) as [per rem].
  rewrite sum_shares by lia. rewrite Z2Nat.id by lia. lia.
Qed.

Lemma expected_range count workers : 0 < count → 0 < workers → 0 ≤ expected count workers ≤ Z.max count workers - workers.
Proof.
  intros Hc Hw. rewrite <- (sends_total count workers Hc Hw). unfold expected.
  assert (H : ∀ l, 0 ≤ zsum ((λ i, localCount count workers (Z.of_nat i) - localWarmup count workers (Z.of_nat i)) <$> l) ≤
    zsum ((λ i, localCount count workers (Z.of_nat i)) <$> l) - zlen l).
  { intros l. induction l as [|i l IH]; [cbn; lia|]. pose proof (warmup_range count workers (Z.of_nat i) Hc Hw). unfold zsum in *. cbn [fmap list_fmap foldr length]. lia. }
  specialize (H (seq 0 (Z.to_nat workers))). rewrite length_seq in H. lia.
Qed.

Lemma stats_total undef lats : is_Some (latencyStatsUs undef (sort_latencies lats)).
Proof.
  unfold latencyStatsUs. set (s := sort_latencies lats). clearbody s. destruct s as [|x s]; [by eexists|]. set (l := x :: s).
  assert (Hn : 0 < zlen l) by (unfold l; cbn; lia). clearbody l.
  assert (Hat : ∀ i, 0 ≤ i < zlen l → is_Some (if i <? 0 then None else l !! Z.to_nat i)).
  { intros i Hi. destruct (Z.ltb_spec i 0); [lia|]. apply lookup_lt_is_Some_2. lia. }
  destruct (Hat _ (percentile_range undef (zlen l) (of_int 50) Hn)) as [a ->], (Hat _ (percentile_range undef (zlen l) (of_int 95) Hn)) as [b ->],
    (Hat _ (percentile_range undef (zlen l) (of_int 99) Hn)) as [c ->], (Hat (zlen l - 1) ltac:(lia)) as [d ->].
  by eexists.
Qed.

Lemma producer_result_counts undef scenario producers count size duration lats fill senders : zlen lats ≤ count → ∃ res,
  producer_result undef scenario producers count size duration lats fill senders = Some res ∧ res.(br_TotalMessages) = count ∧
  res.(br_MeasuredMessages) = zlen lats ∧ res.(br_WarmupMessages) = count - zlen lats.
Proof.
  intros Hl. unfold producer_result. destruct (stats_total undef lats) as [[[[p50 p95] p99] top] ->]. eexists. split; [done|]. cbn.
  destruct (Z.ltb_spec (count - zlen lats) 0); [lia|done].
Qed.

Lemma producer_turns_inv {N} `{Network N} topic payload count producers ts : 0 < count → 0 < producers → ∀ s s',
  bench_inv count producers s.1.1 → producer_turns topic payload count producers ts s = Some s' → bench_inv count producers s'.1.1.
Proof.
  intros Hc Hp. unfold producer_turns. induction ts as [|t ts IH]; intros s s' Hs; cbn [foldl]; [by intros [= <-]|].
  destruct (Some s ≫= producer_turn topic payload count producers t) as [s1|] eqn:E.
  - apply IH. destruct s as [[bn prods] n]. cbn in E. destruct t as [pid now d|pid]; cbn in E.
    + destruct (bn_workers bn !! pid) as [w|]; [|done]. destruct (prods !! pid) as [p|]; [|done]. cbn in E.
      destruct (Send _ _ _ _ _ _ _) as [r [p' n']]. destruct (worker_sent _ _ _ _ _ _) as [bn'|] eqn:Ew; [|done]. injection E as <-. by eapply inv_sent.
    + destruct (worker_ends _ _ _ _) as [bn'|] eqn:Ew; [|done]. injection E as <-. by eapply inv_ends.
  - clear. intros Hnone. exfalso. induction ts as [|t ts IH]; [done|]. by apply IH.
Qed.

(** What a producer scenario reports about its messages. Whatever the goroutines of
    [runProducerBenchmark] do, in any order and with any failures, once all have ended the scenario
    has a result, no percentile being out of range; [Z.max count producers] messages were sent, and
    all successful ones after the warm-up are measured: the measured messages are those that are
    not warm-up, less at most the failed ones. The warm-up messages of the result are the rest, so a
    failed one counts as warm-up, and they are exact when none fails and there are no more
    producers than messages. *)
Theorem benchmark_accounts {N} `{Network N} undef addr scenario nano count size cfg producers ts duration (n : N) prod bn prods n' :
  0 < count → 0 < producers → NewProducer [addr] cfg = Ok prod →
  producer_turns ("bench-" +:+ Itoa nano) (replicate (Z.to_nat size) x61) count producers ts
    (start_workers producers, replicate (Z.to_nat producers) prod, n) = Some (bn, prods, n') → all_done bn = true →
  let pids := seq 0 (Z.to_nat producers) in
  let sent := zsum ((λ i, localCount count producers (Z.of_nat i)) <$> pids) in
  let warmups := zsum ((λ i, localWarmup count producers (Z.of_nat i)) <$> pids) in
  ∃ res, runProducerBenchmark undef addr scenario nano count size cfg producers ts duration n = Some (res, close_all prods n') ∧
  sent = Z.max count producers ∧ sent - warmups - bn.(bn_sendErrors) ≤ res.(br_MeasuredMessages) ≤ sent - warmups ∧
  res.(br_TotalMessages) = count ∧ res.(br_WarmupMessages) + res.(br_MeasuredMessages) = count ∧
  (bn.(bn_sendErrors) = 0 → producers ≤ count → res.(br_WarmupMessages) = warmups).
Proof.
  intros Hc Hp Enew Eturns Hd pids sent warmups. pose proof (sends_total count producers Hc Hp) as Hs. fold pids sent in Hs.
  assert (Hinv : bench_inv count producers bn) by (refine (producer_turns_inv _ _ _ _ _ Hc Hp _ _ _ Eturns); by apply inv_start).
  pose proof (measured_bounds count producers Hc Hp bn Hinv Hd) as Hm. pose proof (expected_range count producers Hc Hp).
  assert (He : expected count producers = sent - warmups).
  { unfold expected, sent, warmups. fold pids. clearbody pids. clear -pids. induction pids as [|i l IH]; [done|]. unfold zsum in *. cbn [fmap list_fmap foldr]. lia. }
  assert (Hle : zlen bn.(bn_allLatency) ≤ count) by lia.
  destruct (producer_result_counts undef scenario producers count size duration bn.(bn_allLatency) None None Hle) as (res & Er & E1 & E2 & E3).
  exists res. split.
  - unfold runProducerBenchmark. destruct (Z.ltb_spec producers 1); [lia|]. rewrite Enew, Eturns. cbn [mbind option_bind]. by rewrite Hd, Er.
  - rewrite E1, E2, E3. split_and!; lia.
Qed.

(** ** Polling, proved *)

Record poll_inv (pl : polling) : Prop := {
  pi_samples : pl.(pl_nonEmptyPolls) = zlen pl.(pl_latencies) ∧ zlen pl.(pl_latencies) ≤ consumerPollSamples;
  pi_consumed : zlen pl.(pl_latencies) ≤ pl.(pl_consumed)
}.

Lemma sample_polls_inv {N} `{Network N} count ord d togo : ∀ pl s, poll_inv pl → poll_inv (sample_polls count ord d togo pl s).1.
Proof.
  induction togo as [|togo IH]; intros pl s Hp; cbn [sample_polls]; [done|]. destruct (Z.ltb_spec (pl_nonEmptyPolls pl) consumerPollSamples); [|done].
  pose proof Hp as [[H1 H2] H3]. destruct (Poll (ord togo) TimedOut s) as [[[|msg msgs]|err] s']; [| |done].
  - destruct (count <=? _); [destruct (_ <=? _)|]; [by constructor| |by apply IH]. apply IH. by constructor.
  - apply IH. constructor; cbn [pl_nonEmptyPolls pl_latencies pl_consumed]; rewrite length_app; cbn [length]; lia.
Qed.

(** The consumer scenario: at most 100 polls count, each with a message at least, and the messages it
    got are those it reports as warm-up and as measured. *)
Lemma consumer_accounts {N} `{Network N} undef scenario count ord d duration s :
  let pl := (sample_polls count ord d maxAttempts (mkPolling 0 [] 0 0) s).1 in
  zlen pl.(pl_latencies) ≤ 100 ∧ zlen pl.(pl_latencies) ≤ pl.(pl_consumed) ∧
  ∃ res, consumer_result undef scenario count duration pl = Some res ∧ 0 ≤ res.(br_WarmupMessages) ∧
    res.(br_WarmupMessages) + res.(br_MeasuredMessages) = pl.(pl_consumed).
Proof.
  intros pl. assert (Hp : poll_inv pl) by (apply sample_polls_inv; constructor; cbn; unfold consumerPollSamples; lia).
  destruct Hp as [[_ H2] H3]. split; [exact H2|]. split; [exact H3|]. unfold consumer_result.
  set (l := pl_latencies pl) in *. set (c := pl_consumed pl) in *. set (w := if _ && _ then 1 else zlen l / 10).
  assert (Hw : 0 ≤ w ≤ zlen l).
  { pose proof (Z.div_mod (zlen l) 10). pose proof (Z.mod_pos_bound (zlen l) 10). unfold w. case_match eqn:E; rewrite ?andb_true_iff, ?Z.ltb_lt in E; lia. }
  destruct (stats_total undef (if (0 <? w) && (w <? zlen l) then drop (Z.to_nat w) l else l)) as [[[[p50 p95] p99] top] ->].
  eexists. split; [done|]. cbn [br_WarmupMessages br_MeasuredMessages].
  destruct (Z.ltb_spec 0 (zlen l)); [|destruct (Z.ltb_spec (c - 0) 0); lia].
  assert (0 ≤ c * w / zlen l ≤ c) by (split; [apply Z.div_pos; nia|apply Z.div_le_upper_bound; nia]).
  destruct (Z.ltb_spec (c - c * w / zlen l) 0); lia.
Qed.

(** The scenario that is labelled acks=0 runs the producer of the scenario acks=1. *)
Lemma acks0_is_acks1 addr : NewProducer [addr] (set_acks 0 DefaultProducerConfig) = NewProducer [addr] DefaultProducerConfig.
Proof. done. Qed.

(** The p50 of a hundred values is the 51st: with the nearest rank it would be the 50th. *)
Lemma p50_not_nearest_rank undef : percentileIndex undef 100 (of_int 50) = 50.
Proof. by rewrite percentile_exact by by_decide. Qed.

(** ** The table, proved *)

Definition occurrences (c : ascii) (s : string) : nat := length (filter (λ x, x = c) (to_chars s)).

Lemma occurrences_app c s1 s2 : occurrences c (s1 +:+ s2) = (occurrences c s1 + occurrences c s2)%nat.
Proof. unfold occurrences. by rewrite to_chars_app, filter_app, length_app. Qed.

Lemma occurrences_none c s : Forall (λ x, x ≠ c) (to_chars s) → occurrences c s = 0%nat.
Proof. unfold occurrences. induction 1 as [|x l Hx _ IH]; [done|]. by rewrite filter_cons_False. Qed.

(** A line of a table with [k] cells: its bars, and no line break but the one at its end. *)
Definition table_line (k : nat) (s : string) : Prop := occurrences "|" s = S k ∧ ∃ s', s = s' +:+ newline_str ∧ occurrences "010" s' = 0%nat.

Lemma row_line cells : Forall (λ c, Forall plain (to_chars c)) cells → table_line (length cells) (row cells).
Proof.
  intros Hc. unfold row. set (body := foldr _ _ cells).
  assert (Hb : occurrences "|" body = S (length cells) ∧ occurrences "010" body = 0%nat).
  { unfold body. clear body. induction Hc as [|c cells Hc _ [IH1 IH2]]; [done|]. cbn [foldr length]. rewrite !occurrences_app, IH1, IH2.
    rewrite !(occurrences_none _ c) by (eapply Forall_impl; [exact Hc|]; by intros x [? ?]). done. }
  destruct Hb as [H1 H2]. split; [rewrite occurrences_app, H1; change (occurrences "|" newline_str) with 0%nat; lia|]. by exists body.
Qed.

Lemma ruler_line k : table_line k (ruler k).
Proof.
  unfold ruler. set (body := foldr _ _ (seq 0 k)).
  assert (Hb : ∀ j, let body := foldr (λ _ rest, "|---" +:+ rest) "|" (seq j k) in occurrences "|" body = S k ∧ occurrences "010" body = 0%nat).
  { clear body. induction k as [|k IH]; intros j; [done|]. cbn [seq foldr]. rewrite !occurrences_app. destruct (IH (S j)) as [-> ->]. done. }
  destruct (Hb 0%nat) as [H1 H2]. split; [rewrite occurrences_app; unfold body; rewrite H1; change (occurrences "|" newline_str) with 0%nat; lia|]. by exists body.
Qed.

Lemma formatLatency_plain undef us : Forall plain (to_chars (formatLatency undef us)).
Proof. unfold formatLatency. case_match; apply fmt_f_plain. Qed.

Lemma formatP50_plain undef us : Forall plain (to_chars (formatP50Latency undef us).1).
Proof.
  unfold formatP50Latency. case_match; cbn [fst]; [|apply formatLatency_plain]. rewrite to_chars_app. apply Forall_app.
  split; [apply formatLatency_plain|]. repeat constructor; discriminate.
Qed.

Lemma result_cells_ok undef f s r : Forall plain (to_chars r.(br_Scenario)) →
  Forall (λ c, Forall plain (to_chars c)) (result_cells undef f s r) ∧ length (result_cells undef f s r) = length (header_cells f s).
Proof.
  intros Hr. unfold result_cells. set (senders := match br_BatchingSenders r with Some m => _ | None => _ end).
  set (fill := match br_BatchFillRatio r with Some m => _ | None => _ end).
  assert (Hs : Forall plain (to_chars senders)) by (unfold senders; case_match; [apply Itoa_plain|constructor]).
  assert (Hf : Forall plain (to_chars fill)) by (unfold fill; case_match; [apply fmt_f_plain|constructor]).
  destruct f, s; (split; [|done]); cbn [andb app]; repeat (constructor; [first [exact Hr|apply Itoa_plain|exact Hs|exact Hf|apply fmt_f_plain|apply formatP50_plain|apply formatLatency_plain]|]); constructor.
Qed.

(** The table of the report is well formed: if the names of the scenarios have no bars and no
    line breaks, the header, the ruler and the row of every scenario are one line each, with as many
    cells, whichever of the optional columns there are. *)
Theorem table_well_formed undef report : Forall (λ r, Forall plain (to_chars r.(br_Scenario))) report.(rp_Results) →
  Forall (table_line (length (header_cells (has_fill report) (has_senders report)))) (result_table undef report).
Proof.
  intros Hr. unfold result_table. set (f := has_fill report). set (s := has_senders report). constructor; [|constructor].
  - apply row_line. destruct f, s; cbn; repeat (constructor; [repeat constructor; discriminate|]); constructor.
  - apply ruler_line.
  - apply Forall_fmap. eapply Forall_impl; [exact Hr|]. intros r Hp. cbn. destruct (result_cells_ok undef f s r Hp) as [Hc <-]. by apply row_line.
Qed.

(** A server that acknowledges every message. *)
Definition acknowledge : HandlerFunc unit := λ req s,
  let answer (r : ProduceRequest) : ProduceResponse :=
    mkProduceResponse ((λ t, mkProduceResponseTopic t.(prt_Name)
      ((λ p, mkProduceResponsePartition p.(prp_PartitionID) ErrNone 0 0) <$> t.(prt_Partitions))) <$> r.(prq_Topics)) in
  match unmarshal (A:=ProduceRequest) req.(rqf_Payload) with
  | Err _ => (Failed None, s)
  | Ok r =>
      match marshal (answer r) with
      | Ok payload => (Returned (Some (mkResponseFrame 0 0 ErrNone payload)), s)
      | Err _ => (Failed None, s)
      end
  end.

Section sample.
#[local] Instance bench_network : Network (Served unit) := Served_Network (Handle 0 acknowledge (NewMux false)) 0.
Definition bench_net : Served unit := mkServed tt ∅ "localhost:9092".

(** Three messages of two producers: two are warm-up, one is measured. *)
Lemma benchmark_accounts_witness : ∃ bn prods n' res,
  producer_turns ("bench-" +:+ Itoa 5) (replicate 4 x61) 3 2 [Sends 0 7 30; Sends 1 7 10; Sends 0 8 20; Ends 1; Ends 0]
    (start_workers 2, replicate 2 (mkProducer ["localhost:9092"] DefaultProducerConfig None false false 0 ∅ ∅ ∅), bench_net) = Some (bn, prods, n') ∧
  runProducerBenchmark 0 "localhost:9092" "two" 5 3 4 DefaultProducerConfig 2 [Sends 0 7 30; Sends 1 7 10; Sends 0 8 20; Ends 1; Ends 0] 1000000 bench_net =
    Some (res, close_all prods n') ∧ res.(br_WarmupMessages) = 2 ∧ bn.(bn_allLatency) = [20].
Proof.
  destruct (producer_turns ("bench-" +:+ Itoa 5) (replicate 4 x61) 3 2 [Sends 0 7 30; Sends 1 7 10; Sends 0 8 20; Ends 1; Ends 0]
    (start_workers 2, replicate 2 (mkProducer ["localhost:9092"] DefaultProducerConfig None false false 0 ∅ ∅ ∅), bench_net))
    as [[[bn prods] n']|] eqn:E; [|exfalso; vm_compute in E; discriminate E].
  assert (Hbn : bn = mkBench [mkWorker 2 [20] true; mkWorker 1 [] true] [20] 0) by (vm_compute in E; by injection E as <- _ _).
  destruct (benchmark_accounts 0 "localhost:9092" "two" 5 3 4 DefaultProducerConfig 2 [Sends 0 7 30; Sends 1 7 10; Sends 0 8 20; Ends 1; Ends 0] 1000000
    bench_net _ bn prods n' ltac:(lia) ltac:(lia) eq_refl E) as (res & Er & _ & _ & _ & _ & Hw); [by rewrite Hbn|].
  exists bn, prods, n', res. split; [reflexivity|]. split; [exact Er|]. split; [|by rewrite Hbn]. rewrite Hw; [by vm_compute|by rewrite Hbn|lia].
Defined.
End sample.
